(** * MegaETH Launchpad: allowlist Merkle engine, publish endpoint and
      transaction reliability layer

    Shallow embedding of
    - [frontend/pages/admin.tsx]               (Merkle allowlist builder,
      wallet input, proof publishing, the page's transaction sender),
    - [frontend/pages/api/allowlists/upsert.ts] (allowlist publish handler),
    - [frontend/pages/api/allowlists/proof.ts]  (allowlist proof handler),
    - [frontend/lib/launchpadUi.ts]             (proof lookup of the mint page),
    - the contract library with [withReadRetry], [buildTxOverrides],
      [sendContractTxWithBufferedGas] and [isSameAddress]
      ([frontend/lib/contract.ts] holds the same [withReadRetry] and
      [isRetryableRpcError])
    and the properties the specification states about them, followed by
    further properties of the same code.

    Conventions.  JavaScript strings are [string]s of 8-bit code units; the
    strings the code inspects (hex data, addresses, provider messages) are
    ASCII.  [ethers.BigNumber] values and integral JS numbers are [Z].
    A rejected promise or a [throw] is the left summand of a sum. *)

From Stdlib Require Import ZArith QArith Qabs Qround List String Ascii Bool Lia Sorted.
From stdpp Require Import gmap strings pretty sorting.
Import ListNotations.

Local Open Scope string_scope.
Local Open Scope list_scope.
Local Open Scope Z_scope.

(** ** JavaScript string primitives *)

Module Js.

(** [String.prototype.toLowerCase], on the ASCII letters. *)
Definition lowerChar (c : ascii) : ascii :=
  let n := nat_of_ascii c in
  if ((65 <=? n) && (n <=? 90))%nat then ascii_of_nat (n + 32) else c.

(** [String.prototype.toUpperCase], on the ASCII letters. *)
Definition upperChar (c : ascii) : ascii :=
  let n := nat_of_ascii c in
  if ((97 <=? n) && (n <=? 122))%nat then ascii_of_nat (n - 32) else c.

Fixpoint toLowerCase (s : string) : string :=
  match s with
  | EmptyString => EmptyString
  | String c rest => String (lowerChar c) (toLowerCase rest)
  end.

(** [haystack.includes(needle)]. *)
Fixpoint includes (haystack needle : string) : bool :=
  String.prefix needle haystack ||
  match haystack with
  | EmptyString => false
  | String _ rest => includes rest needle
  end.

(** [parts.join(sep)]. *)
Definition join (sep : string) (parts : list string) : string :=
  String.concat sep parts.

(** Truthiness of a possibly missing string: [undefined] and [""] are falsy. *)
Definition truthy (v : option string) : bool :=
  match v with
  | Some s => negb (String.eqb s "")
  | None => false
  end.

(** [a || b] on possibly missing strings. *)
Definition orElse (a b : option string) : option string :=
  if truthy a then a else b.

(** [String(v || "")]. *)
Definition stringOrEmpty (v : option string) : string :=
  match v with
  | Some s => s
  | None => ""
  end.

End Js.

(** ** The contract library: the transaction reliability layer *)

Module Contract.

(** A caught value, given by the members the classifiers read.  A member
    is [None] when it is [undefined]; a truthy non-string member is
    represented by its [String(...)] rendering.  A caught value that has
    none of the members ([undefined], [null], a primitive) is the record of
    [None]s: the code reads it through [?.] only and rethrows it as it
    is. *)
Record RpcError := {
  reason : option string;
  shortMessage : option string;
  message : option string;
  error_reason : option string;
  error_message : option string;
  data_message : option string;
  data_originalError_message : option string;
  error_data_message : option string;
  error_data_originalError_message : option string;
  info_error_message : option string;
  code : option string
}.

(** [new Error(msg)]: only [message] is set. *)
Definition newError (msg : string) : RpcError :=
  {| reason := None; shortMessage := None; message := Some msg;
     error_reason := None; error_message := None; data_message := None;
     data_originalError_message := None; error_data_message := None;
     error_data_originalError_message := None; info_error_message := None;
     code := None |}.

(** The environment settings, [None] when the variable is unset or empty,
    [Some n] when it holds the integer [n].  Settings that [Number] reads
    as a fraction, an infinity or [NaN] are outside this model. *)
Record Settings := {
  NEXT_PUBLIC_RPC_READ_RETRY_ATTEMPTS : option Z;
  NEXT_PUBLIC_RPC_READ_RETRY_DELAY_MS : option Z
}.

(** [Number(process.env.X || d)]: a set variable is a non-empty string, so
    even ["0"] is kept. *)
Definition envNumber (v : option Z) (d : Z) : Z :=
  match v with
  | Some n => n
  | None => d
  end.

(** [Number(options.x || d)] on a numeric option: [0] is falsy. *)
Definition numberOr (v : option Z) (d : Z) : Z :=
  match v with
  | Some n => if n =? 0 then d else n
  | None => d
  end.

Definition READ_RETRY_ATTEMPTS (cfg : Settings) : Z :=
  Z.max 1 (envNumber (NEXT_PUBLIC_RPC_READ_RETRY_ATTEMPTS cfg) 2).

Definition READ_RETRY_DELAY_MS (cfg : Settings) : Z :=
  Z.max 0 (envNumber (NEXT_PUBLIC_RPC_READ_RETRY_DELAY_MS cfg) 250).

Definition GAS_LIMIT_FALLBACK : Z := 280000.
Definition GAS_LIMIT_BUFFER_NUMERATOR : Z := 12.
Definition GAS_LIMIT_BUFFER_DENOMINATOR : Z := 10.
Definition TX_SEND_MAX_ATTEMPTS : Z := 3.
Definition SUSPICIOUS_NONCE_GAP : Z := 25.
Definition TX_RETRY_BASE_DELAY_MS : Z := 350.

(** [ethers.utils.parseUnits("1", "gwei")]. *)
Definition ONE_GWEI : Z := 1000000000.

Definition isRetryableRpcError (error : RpcError) : bool :=
  let message :=
    Js.toLowerCase
      (Js.stringOrEmpty (Js.orElse (message error) (Js.orElse (reason error) (Some "")))) in
  let code := Js.toLowerCase (Js.stringOrEmpty (Js.orElse (code error) (Some ""))) in
  Js.includes code "timeout" ||
  Js.includes code "network" ||
  Js.includes code "server" ||
  Js.includes message "429" ||
  Js.includes message "rate limit" ||
  Js.includes message "timeout" ||
  Js.includes message "gateway timeout" ||
  Js.includes message "temporarily unavailable" ||
  Js.includes message "missing response".

(** What a run of an asynchronous function leaves behind: how it settled,
    the [setTimeout] delays it awaited (in order), and how many times it
    invoked the wrapped call.  [Thrown (Some e)] rethrows the caught value
    [e]; [Thrown None] is the [throw lastError] after the loop when nothing
    has been caught. *)
Inductive Settled (T : Type) : Type :=
| Returned (v : T)
| Thrown (e : option RpcError).
Arguments Returned {T} v.
Arguments Thrown {T} e.

Record Run (T : Type) := {
  settled : Settled T;
  sleeps : list Z;
  calls : nat
}.
Arguments settled {T} r.
Arguments sleeps {T} r.
Arguments calls {T} r.

Definition finish {T} (s : Settled T) : Run T :=
  {| settled := s; sleeps := []; calls := 0 |}.

(** One more invocation in front of the rest of the run. *)
Definition called {T} (r : Run T) : Run T :=
  {| settled := settled r; sleeps := sleeps r; calls := S (calls r) |}.

(** [if (waitMs > 0) await new Promise(r => setTimeout(r, waitMs))],
    followed by the rest of the run. *)
Definition sleepIfPositive {T} (waitMs : Z) (r : Run T) : Run T :=
  if 0 <? waitMs
  then {| settled := settled r; sleeps := waitMs :: sleeps r; calls := calls r |}
  else r.

(** [await new Promise(r => setTimeout(r, waitMs))], then the rest. *)
Definition sleep {T} (waitMs : Z) (r : Run T) : Run T :=
  {| settled := settled r; sleeps := waitMs :: sleeps r; calls := calls r |}.

(** The body of the [for] loop of [withReadRetry].  [task k] is how the
    [k]-th invocation of the task settles.  [remaining] counts the
    iterations the guard [attempt <= READ_RETRY_ATTEMPTS] still allows
    ([READ_RETRY_ATTEMPTS + 1 - attempt]); when none is left the loop is
    left and [throw lastError] runs. *)
Fixpoint withReadRetry_loop {T} (cfg : Settings) (task : nat -> RpcError + T)
    (remaining : nat) (attempt : nat) (lastError : option RpcError) : Run T :=
  match remaining with
  | O => finish (Thrown lastError)
  | S remaining' =>
      match task attempt with
      | inr v => called (finish (Returned v))
      | inl error =>
          if (READ_RETRY_ATTEMPTS cfg <=? Z.of_nat attempt) || negb (isRetryableRpcError error)
          then called (finish (Thrown (Some error)))
          else
            let waitMs := READ_RETRY_DELAY_MS cfg * Z.of_nat attempt in
            called (sleepIfPositive waitMs
                      (withReadRetry_loop cfg task remaining' (S attempt) (Some error)))
      end
  end.

Definition withReadRetry {T} (cfg : Settings) (task : nat -> RpcError + T) : Run T :=
  withReadRetry_loop cfg task (Z.to_nat (READ_RETRY_ATTEMPTS cfg)) 1%nat None.

Definition extractRpcErrorMessage (error : RpcError) : string :=
  let rawParts :=
    filter (fun v => Js.truthy v)
      [ reason error; shortMessage error; message error;
        error_reason error; error_message error; data_message error;
        data_originalError_message error; error_data_message error;
        error_data_originalError_message error; info_error_message error ] in
  Js.join " | " (map Js.stringOrEmpty rawParts).

Definition isLikelyRevertReason (message : string) : bool :=
  let normalized := Js.toLowerCase message in
  Js.includes normalized "execution reverted" ||
  Js.includes normalized "revert" ||
  Js.includes normalized "owner" ||
  Js.includes normalized "metadata frozen" ||
  Js.includes normalized "already frozen" ||
  Js.includes normalized "invalid" ||
  Js.includes normalized "not allowlisted" ||
  Js.includes normalized "insufficient funds".

Definition isRetryableWriteTxError (error : RpcError) : bool :=
  let message := Js.toLowerCase (extractRpcErrorMessage error) in
  let code := Js.toLowerCase (Js.stringOrEmpty (Js.orElse (code error) (Some ""))) in
  Js.includes code "timeout" ||
  Js.includes code "network" ||
  Js.includes code "server" ||
  Js.includes message "timeout" ||
  Js.includes message "temporarily unavailable" ||
  Js.includes message "missing response" ||
  Js.includes message "replacement transaction underpriced" ||
  Js.includes message "nonce too low" ||
  Js.includes message "nonce gap too high" ||
  Js.includes message "already known" ||
  Js.includes message "maxfeepergas cannot be less than maxpriorityfeepergas".

(** [provider.getFeeData()]: every member is a [BigNumber] or [null]. *)
Record FeeData := {
  fd_maxFeePerGas : option Z;
  fd_maxPriorityFeePerGas : option Z;
  fd_gasPrice : option Z
}.

(** The overrides object handed to the contract method; a member is [None]
    as long as it has not been assigned. *)
Record TxOverrides := {
  value : option Z;
  gasLimit : option Z;
  nonce : option Z;
  maxPriorityFeePerGas : option Z;
  maxFeePerGas : option Z;
  gasPrice : option Z
}.

Definition emptyOverrides : TxOverrides :=
  {| value := None; gasLimit := None; nonce := None;
     maxPriorityFeePerGas := None; maxFeePerGas := None; gasPrice := None |}.

Definition set_value (v : Z) (o : TxOverrides) : TxOverrides :=
  {| value := Some v; gasLimit := gasLimit o; nonce := nonce o;
     maxPriorityFeePerGas := maxPriorityFeePerGas o;
     maxFeePerGas := maxFeePerGas o; gasPrice := gasPrice o |}.

Definition set_gasLimit (v : Z) (o : TxOverrides) : TxOverrides :=
  {| value := value o; gasLimit := Some v; nonce := nonce o;
     maxPriorityFeePerGas := maxPriorityFeePerGas o;
     maxFeePerGas := maxFeePerGas o; gasPrice := gasPrice o |}.

Definition set_nonce (v : Z) (o : TxOverrides) : TxOverrides :=
  {| value := value o; gasLimit := gasLimit o; nonce := Some v;
     maxPriorityFeePerGas := maxPriorityFeePerGas o;
     maxFeePerGas := maxFeePerGas o; gasPrice := gasPrice o |}.

Definition set_fees1559 (priority fee : Z) (o : TxOverrides) : TxOverrides :=
  {| value := value o; gasLimit := gasLimit o; nonce := nonce o;
     maxPriorityFeePerGas := Some priority;
     maxFeePerGas := Some fee; gasPrice := gasPrice o |}.

Definition set_gasPrice (v : Z) (o : TxOverrides) : TxOverrides :=
  {| value := value o; gasLimit := gasLimit o; nonce := nonce o;
     maxPriorityFeePerGas := maxPriorityFeePerGas o;
     maxFeePerGas := maxFeePerGas o; gasPrice := Some v |}.

(** What the contract object and its provider answer during one attempt.
    - [estimateGas]: [None] when [contract.estimateGas[methodName]] is not a
      function, else how the estimate settles;
    - [provider]: whether [contract.provider || contract.signer.provider]
      is present;
    - [signerAddress]: the awaited signer address, [None] for [undefined];
    - [getTransactionCount]: the [latest] and [pending] counts, [None]
      when either read rejects;
    - [getFeeData]: [None] when the provider has no [getFeeData], else
      [Some None] when the call rejects, else the fee data ([Some (Some None)]
      for a [null] answer);
    - [send]: how the contract method settles on given overrides. *)
Record Attempt (Tx : Type) := {
  estimateGas : option (RpcError + Z);
  provider : bool;
  signerAddress : option string;
  getTransactionCount : option (Z * Z);
  getFeeData : option (option (option FeeData));
  send : TxOverrides -> RpcError + Tx
}.
Arguments estimateGas {Tx} a.
Arguments provider {Tx} a.
Arguments signerAddress {Tx} a.
Arguments getTransactionCount {Tx} a.
Arguments getFeeData {Tx} a.
Arguments send {Tx} a.

(** [feeData?.member]. *)
Definition feeMember (feeData : option FeeData) (member : FeeData -> option Z) : option Z :=
  match feeData with
  | Some fd => member fd
  | None => None
  end.

(** [x ? BigNumber.from(x) : BigNumber.from(0)]; a [BigNumber] object is
    truthy whatever its value. *)
Definition bigNumberOrZero (x : option Z) : Z :=
  match x with
  | Some v => v
  | None => 0
  end.

Definition isSome {A} (x : option A) : bool :=
  match x with
  | Some _ => true
  | None => false
  end.

(** [buildTxOverrides]; [inl e] is the thrown error.  [fallbackGasLimit]
    is an integer of absolute value below [2^53 - 1], on which
    [BigNumber.from(fallbackGasLimit)] returns it; on other numbers that
    call throws before anything else is done, which is outside this
    model. *)
Definition buildTxOverrides {Tx} (contract : Attempt Tx)
    (fallbackGasLimit : Z) (value : option Z) (forceLegacyGasPrice : bool)
  : RpcError + TxOverrides :=
  let txOverrides := emptyOverrides in
  let txOverrides :=
    match value with
    | Some v => set_value v txOverrides
    | None => txOverrides
    end in
  let gasLimit := fallbackGasLimit in
  let estimation : RpcError + Z :=
    match estimateGas contract with
    | Some (inr estimated) =>
        inr (Z.quot (estimated * GAS_LIMIT_BUFFER_NUMERATOR) GAS_LIMIT_BUFFER_DENOMINATOR)
    | Some (inl estimateError) =>
        let estimateMessage := extractRpcErrorMessage estimateError in
        if isLikelyRevertReason estimateMessage
        then inl (newError (if String.eqb estimateMessage ""
                            then "Transaction simulation failed"
                            else estimateMessage))
        else inr gasLimit
    | None => inr gasLimit
    end in
  match estimation with
  | inl thrown => inl thrown
  | inr gasLimit =>
      let txOverrides := set_gasLimit gasLimit txOverrides in
      let txOverrides :=
        if provider contract && Js.truthy (signerAddress contract)
        then
          match getTransactionCount contract with
          | Some (latestNonce, pendingNonce) =>
              let gap := Z.max 0 (pendingNonce - latestNonce) in
              set_nonce (if SUSPICIOUS_NONCE_GAP <? gap then latestNonce else pendingNonce)
                        txOverrides
          | None => txOverrides
          end
        else txOverrides in
      let txOverrides :=
        if provider contract
        then
          match getFeeData contract with
          | Some (Some feeData) =>
              if negb forceLegacyGasPrice &&
                 (isSome (feeMember feeData fd_maxFeePerGas) ||
                  isSome (feeMember feeData fd_maxPriorityFeePerGas))
              then
                let maxPriorityFeePerGas :=
                  bigNumberOrZero (feeMember feeData fd_maxPriorityFeePerGas) in
                let maxFeePerGas := bigNumberOrZero (feeMember feeData fd_maxFeePerGas) in
                let maxPriorityFeePerGas :=
                  match feeMember feeData fd_gasPrice with
                  | Some gasPrice =>
                      if maxPriorityFeePerGas <=? 0 then gasPrice else maxPriorityFeePerGas
                  | None => maxPriorityFeePerGas
                  end in
                let maxPriorityFeePerGas :=
                  if maxPriorityFeePerGas <=? 0 then ONE_GWEI else maxPriorityFeePerGas in
                let maxFeePerGas :=
                  match feeMember feeData fd_gasPrice with
                  | Some gasPrice => if maxFeePerGas <=? 0 then gasPrice else maxFeePerGas
                  | None => maxFeePerGas
                  end in
                let maxFeePerGas :=
                  if maxFeePerGas <=? maxPriorityFeePerGas
                  then maxPriorityFeePerGas * 2
                  else maxFeePerGas in
                set_fees1559 maxPriorityFeePerGas maxFeePerGas txOverrides
              else
                match feeMember feeData fd_gasPrice with
                | Some gasPrice => set_gasPrice gasPrice txOverrides
                | None => txOverrides
                end
          | Some None => txOverrides
          | None => txOverrides
          end
        else txOverrides in
      inr txOverrides
  end.

(** The options of [sendContractTxWithBufferedGas]; a numeric option is
    missing or an integer, as at every call site.  Fractions, infinities
    and [NaN] are outside this model. *)
Record SendContractTxOptions := {
  opt_value : option Z;
  opt_fallbackGasLimit : option Z;
  opt_maxAttempts : option Z
}.

(** A run of the send loop also records the overrides of every submission. *)
Record SendRun (Tx : Type) := {
  run : Run Tx;
  submitted : list TxOverrides
}.
Arguments run {Tx} s.
Arguments submitted {Tx} s.

Definition FEE_MISMATCH : string :=
  "maxfeepergas cannot be less than maxpriorityfeepergas".

(** The body of the [for] loop of [sendContractTxWithBufferedGas];
    [contract k] is what the chain answers during attempt [k], [remaining]
    is [maxAttempts + 1 - attempt]. *)
Fixpoint sendContractTx_loop {Tx} (contract : nat -> Attempt Tx)
    (fallbackGasLimit : Z) (value : option Z) (maxAttempts : Z)
    (remaining : nat) (attempt : nat) (forceLegacyGasOnRetry : bool)
    (lastError : option RpcError) : SendRun Tx :=
  match remaining with
  | O => {| run := finish (Thrown lastError); submitted := [] |}
  | S remaining' =>
      let built :=
        buildTxOverrides (contract attempt) fallbackGasLimit value forceLegacyGasOnRetry in
      let tried : RpcError + Tx :=
        match built with
        | inl thrown => inl thrown
        | inr txOverrides => send (contract attempt) txOverrides
        end in
      let sent : list TxOverrides :=
        match built with
        | inl _ => []
        | inr txOverrides => [txOverrides]
        end in
      match tried with
      | inr tx => {| run := called (finish (Returned tx)); submitted := sent |}
      | inl error =>
          let message := Js.toLowerCase (extractRpcErrorMessage error) in
          let forceLegacyGasOnRetry :=
            if Js.includes message FEE_MISMATCH then true else forceLegacyGasOnRetry in
          if (maxAttempts <=? Z.of_nat attempt) || negb (isRetryableWriteTxError error)
          then {| run := called (finish (Thrown (Some error))); submitted := sent |}
          else
            let waitMs := TX_RETRY_BASE_DELAY_MS * Z.of_nat attempt in
            let rest :=
              sendContractTx_loop contract fallbackGasLimit value maxAttempts
                remaining' (S attempt) forceLegacyGasOnRetry (Some error) in
            {| run := called (sleep waitMs (run rest)); submitted := sent ++ submitted rest |}
      end
  end.

(** [sendContractTxWithBufferedGas]; [hasMethod] is
    [typeof contract[methodName] === "function"], [methodName] only
    serves the error text. *)
Definition sendContractTxWithBufferedGas {Tx} (hasMethod : bool) (methodName : string)
    (contract : nat -> Attempt Tx) (options : SendContractTxOptions) : SendRun Tx :=
  if negb hasMethod
  then {| run := finish (Thrown (Some (newError ("Contract method not found: " +:+ methodName))));
          submitted := [] |}
  else
    let fallbackGasLimit := numberOr (opt_fallbackGasLimit options) GAS_LIMIT_FALLBACK in
    let maxAttempts := Z.max 1 (numberOr (opt_maxAttempts options) TX_SEND_MAX_ATTEMPTS) in
    sendContractTx_loop contract fallbackGasLimit (opt_value options) maxAttempts
      (Z.to_nat maxAttempts) 1%nat false None.

End Contract.

(** ** Keccak-256, the hash behind [ethers.utils.keccak256]

    Bytes are integers in [0, 256); a lane is a 64-bit integer.  The state
    holds the 25 lanes, lane [(x, y)] at position [x + 5 * y]. *)

Module Keccak.

Definition mask64 : Z := 0xFFFFFFFFFFFFFFFF.

Definition rotl64 (x : Z) (n : Z) : Z :=
  Z.land (Z.lor (Z.shiftl x n) (Z.shiftr x (64 - n))) mask64.

Definition lane (st : list Z) (x y : nat) : Z := nth (x + 5 * y) st 0.

Definition roundConstants : list Z :=
  [ 0x0000000000000001; 0x0000000000008082; 0x800000000000808A; 0x8000000080008000;
    0x000000000000808B; 0x0000000080000001; 0x8000000080008081; 0x8000000000008009;
    0x000000000000008A; 0x0000000000000088; 0x0000000080008009; 0x000000008000000A;
    0x000000008000808B; 0x800000000000008B; 0x8000000000008089; 0x8000000000008003;
    0x8000000000008002; 0x8000000000000080; 0x000000000000800A; 0x800000008000000A;
    0x8000000080008081; 0x8000000000008080; 0x0000000080000001; 0x8000000080008008 ].

Definition rotationOffsets : list Z :=
  [  0;  1; 62; 28; 27;
    36; 44;  6; 55; 20;
     3; 10; 43; 25; 39;
    41; 45; 15; 21;  8;
    18;  2; 61; 56; 14 ].

Definition coords : list (nat * nat) :=
  flat_map (fun y => map (fun x => (x, y)) (seq 0 5)) (seq 0 5).

Definition theta (st : list Z) : list Z :=
  let c := map (fun x => fold_left Z.lxor (map (fun y => lane st x y) (seq 0 5)) 0) (seq 0 5) in
  let d := map (fun x => Z.lxor (nth ((x + 4) mod 5) c 0) (rotl64 (nth ((x + 1) mod 5) c 0) 1))
               (seq 0 5) in
  map (fun '(x, y) => Z.lxor (lane st x y) (nth x d 0)) coords.

Definition rhoPi (st : list Z) : list Z :=
  map (fun '(x, y) =>
         let x0 := ((x + 3 * y) mod 5)%nat in
         rotl64 (lane st x0 x) (nth (x0 + 5 * x) rotationOffsets 0))
      coords.

Definition chi (st : list Z) : list Z :=
  map (fun '(x, y) =>
         Z.lxor (lane st x y)
                (Z.land (Z.lxor (lane st ((x + 1) mod 5) y) mask64)
                        (lane st ((x + 2) mod 5) y)))
      coords.

Definition iota (rc : Z) (st : list Z) : list Z :=
  match st with
  | a :: rest => Z.lxor a rc :: rest
  | [] => []
  end.

Definition round (st : list Z) (rc : Z) : list Z := iota rc (chi (rhoPi (theta st))).

Definition keccakF (st : list Z) : list Z := fold_left round roundConstants st.

Fixpoint laneOfBytes (bs : list Z) : Z :=
  match bs with
  | [] => 0
  | b :: rest => b + 256 * laneOfBytes rest
  end.

Fixpoint bytesOfLane (n : nat) (l : Z) : list Z :=
  match n with
  | O => []
  | S n' => (l mod 256) :: bytesOfLane n' (l / 256)
  end.

Definition rate : nat := 136.

Definition pad (msg : list Z) : list Z :=
  let r := (rate - (length msg) mod rate)%nat in
  if (r =? 1)%nat then msg ++ [0x81]
  else msg ++ [0x01] ++ repeat 0 (r - 2) ++ [0x80].

Fixpoint lanesOfBytes (n : nat) (bs : list Z) : list Z :=
  match n with
  | O => []
  | S n' => laneOfBytes (firstn 8 bs) :: lanesOfBytes n' (skipn 8 bs)
  end.

Definition absorbBlock (st : list Z) (block : list Z) : list Z :=
  let lanes := lanesOfBytes 17 block ++ repeat 0 8%nat in
  keccakF (map (fun '(a, b) => Z.lxor a b) (combine st lanes)).

Fixpoint absorb (blocks : nat) (st : list Z) (bs : list Z) : list Z :=
  match blocks with
  | O => st
  | S n => absorb n (absorbBlock st (firstn rate bs)) (skipn rate bs)
  end.

Definition keccak_256 (msg : list Z) : list Z :=
  let padded := pad msg in
  let st := absorb (length padded / rate) (repeat 0 25%nat) padded in
  flat_map (bytesOfLane 8) (firstn 4 st).

End Keccak.

(** ** The ethers v5 utilities the sources call *)

Module Ethers.

Definition charCode (c : ascii) : Z := Z.of_nat (nat_of_ascii c).

Fixpoint charCodes (s : string) : list Z :=
  match s with
  | EmptyString => []
  | String c rest => charCode c :: charCodes rest
  end.

(** [toUtf8Bytes] on ASCII text. *)
Definition toUtf8Bytes (s : string) : list Z := charCodes s.

Definition isDigit (c : ascii) : bool :=
  let n := nat_of_ascii c in ((48 <=? n) && (n <=? 57))%nat.

Definition isLowerAF (c : ascii) : bool :=
  let n := nat_of_ascii c in ((97 <=? n) && (n <=? 102))%nat.

Definition isUpperAF (c : ascii) : bool :=
  let n := nat_of_ascii c in ((65 <=? n) && (n <=? 70))%nat.

(** The character class [[0-9a-fA-F]]. *)
Definition isHexChar (c : ascii) : bool := isDigit c || isLowerAF c || isUpperAF c.

Fixpoint allChars (p : ascii -> bool) (s : string) : bool :=
  match s with
  | EmptyString => true
  | String c rest => p c && allChars p rest
  end.

Fixpoint anyChar (p : ascii -> bool) (s : string) : bool :=
  match s with
  | EmptyString => false
  | String c rest => p c || anyChar p rest
  end.

(** [/^[0-9a-fA-F]{n}$/]. *)
Definition isHexOfLength (n : nat) (s : string) : bool :=
  (String.length s =? n)%nat && allChars isHexChar s.

(** [/^0x[0-9a-fA-F]{n}$/]. *)
Definition is0xHexOfLength (n : nat) (s : string) : bool :=
  match s with
  | String "0" (String "x" rest) => isHexOfLength n rest
  | _ => false
  end.

Definition hexValue (c : ascii) : option Z :=
  if isDigit c then Some (charCode c - 48)
  else if isLowerAF c then Some (charCode c - 87)
  else if isUpperAF c then Some (charCode c - 55)
  else None.

Fixpoint parseHexPairs (s : string) : option (list Z) :=
  match s with
  | EmptyString => Some []
  | String a (String b rest) =>
      hi ← hexValue a; lo ← hexValue b; bs ← parseHexPairs rest;
      Some (hi * 16 + lo :: bs)
  | String _ EmptyString => None
  end.

(** [arrayify] on a string: the bytes of a [0x]-prefixed hex string of even
    length; [None] where ethers throws. *)
Definition arrayify (s : string) : option (list Z) :=
  match s with
  | String "0" (String "x" rest) => parseHexPairs rest
  | _ => None
  end.

Definition hexDigit (n : Z) : ascii :=
  if n <? 10 then ascii_of_nat (Z.to_nat (48 + n)) else ascii_of_nat (Z.to_nat (87 + n)).

Fixpoint hexOfBytes (bs : list Z) : string :=
  match bs with
  | [] => EmptyString
  | b :: rest =>
      String (hexDigit ((b / 16) mod 16)) (String (hexDigit (b mod 16)) (hexOfBytes rest))
  end.

(** [hexlify] on a byte array. *)
Definition hexlify (bs : list Z) : string := "0x" +:+ hexOfBytes bs.

(** [keccak256] on a byte array. *)
Definition keccak256 (data : list Z) : string := hexlify (Keccak.keccak_256 data).

(** [concat(items)]: every item goes through [arrayify]. *)
Definition concat (items : list string) : option (list Z) :=
  bss ← mapM arrayify items; Some (List.concat bss).

(** [solidityPack(["address"], [value])]: the address is packed by
    [arrayify], the result is [hexlify]-ed. *)
Definition solidityPack_address (value : string) : option string :=
  bs ← arrayify value; Some (hexlify bs).

Definition HashZero : string :=
  "0x0000000000000000000000000000000000000000000000000000000000000000".

Fixpoint checksumCase (chars : string) (hashed : list Z) : string :=
  match chars, hashed with
  | String c1 (String c2 rest), h :: hs =>
      String (if 8 <=? h / 16 then Js.upperChar c1 else c1)
        (String (if 8 <=? h mod 16 then Js.upperChar c2 else c2) (checksumCase rest hs))
  | _, _ => chars
  end.

Definition getChecksumAddress (address : string) : option string :=
  if is0xHexOfLength 40 address
  then
    let chars := String.substring 2 40 (Js.toLowerCase address) in
    let hashed := Keccak.keccak_256 (charCodes chars) in
    Some ("0x" +:+ checksumCase chars hashed)
  else None.

Definition isAlnum (c : ascii) : bool :=
  let n := nat_of_ascii c in
  (((48 <=? n) && (n <=? 57)) || ((65 <=? n) && (n <=? 90)) || ((97 <=? n) && (n <=? 122)))%nat.

(** [/^XE[0-9]{2}[0-9A-Za-z]{30,31}$/]. *)
Definition isIcap (s : string) : bool :=
  match s with
  | String "X" (String "E" (String d1 (String d2 rest))) =>
      isDigit d1 && isDigit d2 &&
      ((String.length rest =? 30)%nat || (String.length rest =? 31)%nat) &&
      allChars isAlnum rest
  | _ => false
  end.

(** The value of a base-36 digit, letters in either case. *)
Definition base36Value (c : ascii) : Z :=
  if isDigit c then charCode c - 48
  else if ((97 <=? nat_of_ascii c))%nat then charCode c - 87
  else charCode c - 55.

(** The IBAN expansion read as one decimal number: a digit appends one
    decimal digit, a letter its two-digit value. *)
Fixpoint ibanExpand (acc : Z) (s : string) : Z :=
  match s with
  | EmptyString => acc
  | String c rest =>
      if isDigit c then ibanExpand (acc * 10 + base36Value c) rest
      else ibanExpand (acc * 100 + base36Value c) rest
  end.

Definition decimalDigit (n : Z) : ascii := ascii_of_nat (Z.to_nat (48 + n)).

Definition ibanChecksum (address : string) : string :=
  let rearranged :=
    String.substring 4 (String.length address - 4) address +:+
    String.substring 0 2 address +:+ "00" in
  let checksum := 98 - (ibanExpand 0 rearranged) mod 97 in
  String (decimalDigit (checksum / 10)) (String (decimalDigit (checksum mod 10)) EmptyString).

Fixpoint base36ToZ (acc : Z) (s : string) : Z :=
  match s with
  | EmptyString => acc
  | String c rest => base36ToZ (acc * 36 + base36Value c) rest
  end.

(** Lower-case hex digits of [n], least significant digit last. *)
Fixpoint hexDigitsOf (fuel : nat) (n : Z) (acc : string) : string :=
  match fuel with
  | O => acc
  | S fuel' =>
      if n <? 16 then String (hexDigit n) acc
      else hexDigitsOf fuel' (n / 16) (String (hexDigit (n mod 16)) acc)
  end.

(** [_base36To16], then left-padded with zeros to 40 digits. *)
Definition base36To16Padded (s : string) : string :=
  let hex := hexDigitsOf 48 (base36ToZ 0 s) EmptyString in
  Js.join "" (repeat "0" (40 - String.length hex)%nat) +:+ hex.

(** [ethers.utils.getAddress]; [None] where it throws. *)
Definition getAddress (address : string) : option string :=
  if isHexOfLength 40 address || is0xHexOfLength 40 address
  then
    let address := if is0xHexOfLength 40 address then address else "0x" +:+ address in
    result ← getChecksumAddress address;
    if anyChar isUpperAF address && anyChar isLowerAF address && negb (String.eqb result address)
    then None
    else Some result
  else if isIcap address
  then
    if String.eqb (String.substring 2 2 address) (ibanChecksum address)
    then getChecksumAddress ("0x" +:+ base36To16Padded (String.substring 4 (String.length address - 4) address))
    else None
  else None.

(** [a.localeCompare(b)]; on lower-case hex strings the collation order is
    the order of the code units. *)
Definition localeCompare (a b : string) : comparison := String.compare a b.

End Ethers.

(** ** frontend/pages/admin.tsx: the Merkle allowlist engine *)

Module Admin.

(** [Array.from(new Set(items))]: the first occurrence of every item, in
    insertion order. *)
Fixpoint uniqueInOrder (seen : list string) (items : list string) : list string :=
  match items with
  | [] => []
  | x :: rest =>
      if existsb (String.eqb x) seen
      then uniqueInOrder seen rest
      else x :: uniqueInOrder (x :: seen) rest
  end.

(** [Array.prototype.sort(compare)]: the sort is stable, so its result is
    that of the stable insertion sort. *)
Fixpoint insertSorted (compare : string -> string -> comparison)
    (x : string) (sorted : list string) : list string :=
  match sorted with
  | [] => [x]
  | y :: rest =>
      match compare x y with
      | Gt => y :: insertSorted compare x rest
      | _ => x :: y :: rest
      end
  end.

Definition sort (compare : string -> string -> comparison) (items : list string)
  : list string :=
  fold_right (insertSorted compare) [] items.

Definition normalizeWalletList (wallets : list string) : option (list string) :=
  addresses ← mapM Ethers.getAddress wallets;
  Some (sort (fun a b => Ethers.localeCompare (Js.toLowerCase a) (Js.toLowerCase b))
             (uniqueInOrder [] addresses)).

Definition hashAllowlistLeaf (wallet : string) : option string :=
  packed ← Ethers.solidityPack_address wallet;
  data ← Ethers.arrayify packed;
  Some (Ethers.keccak256 data).

Definition hashMerklePair (a b : string) : option string :=
  let '(lo, hi) :=
    if String.leb (Js.toLowerCase a) (Js.toLowerCase b) then (a, b) else (b, a) in
  data ← Ethers.concat [lo; hi];
  Some (Ethers.keccak256 data).

Fixpoint buildNextMerkleLayer (layer : list string) : option (list string) :=
  match layer with
  | [] => Some []
  | [last] => Some [last]
  | a :: b :: rest =>
      pair ← hashMerklePair a b;
      next ← buildNextMerkleLayer rest;
      Some (pair :: next)
  end.

(** The [while (layer.length > 1)] loop that collects one wallet's proof.
    Every pass shortens a layer longer than one, so [length layer] passes
    are enough; [fuel] bounds the passes and is never used up from there
    (lemma [proofLoop_fuel] below). *)
Fixpoint proofLoop (fuel : nat) (layer : list string) (index : nat) (proof : list string)
  : option (list string) :=
  if (length layer <=? 1)%nat then Some proof
  else
    match fuel with
    | O => None
    | S fuel' =>
        let pairIndex := if Nat.even index then (index + 1)%nat else (index - 1)%nat in
        let proof :=
          match layer !! pairIndex with
          | Some sibling => proof ++ [sibling]
          | None => proof
          end in
        layer' ← buildNextMerkleLayer layer;
        proofLoop fuel' layer' (index / 2)%nat proof
    end.

(** The [while (rootLayer.length > 1)] loop. *)
Fixpoint rootLoop (fuel : nat) (rootLayer : list string) : option (list string) :=
  if (length rootLayer <=? 1)%nat then Some rootLayer
  else
    match fuel with
    | O => None
    | S fuel' =>
        rootLayer' ← buildNextMerkleLayer rootLayer;
        rootLoop fuel' rootLayer'
    end.

(** [wallets.forEach((wallet, originalIndex) => ...)], from [originalIndex]
    on. *)
Fixpoint forEachWallet (leaves : list string) (wallets : list string) (originalIndex : nat)
    (proofs : gmap string (list string)) : option (gmap string (list string)) :=
  match wallets with
  | [] => Some proofs
  | wallet :: rest =>
      proof ← proofLoop (length leaves) leaves originalIndex [];
      forEachWallet leaves rest (S originalIndex) (<[Js.toLowerCase wallet := proof]> proofs)
  end.

Record MerkleData := {
  root : string;
  proofs : gmap string (list string)
}.

(** [buildAllowlistMerkleData]; [None] where it throws. *)
Definition buildAllowlistMerkleData (wallets : list string) : option MerkleData :=
  match wallets with
  | [] => Some {| root := Ethers.HashZero; proofs := ∅ |}
  | _ =>
      leaves ← mapM hashAllowlistLeaf wallets;
      proofs ← forEachWallet leaves wallets 0 ∅;
      rootLayer ← rootLoop (length leaves) leaves;
      Some {| root :=
                match rootLayer with
                | first :: _ => if String.eqb first "" then Ethers.HashZero else first
                | [] => Ethers.HashZero
                end;
              proofs := proofs |}
  end.

End Admin.

(** ** frontend/pages/api/allowlists/upsert.ts: the publish endpoint *)

Module Upsert.

(** A JavaScript number; finite values are kept exact. *)
Inductive JsNumber :=
| NaN
| Infinity (negative : bool)
| Finite (q : Q).

Definition isFinite (n : JsNumber) : bool :=
  match n with
  | Finite _ => true
  | _ => false
  end.

Definition isInteger (n : JsNumber) : bool :=
  match n with
  | Finite q => Qeq_bool (inject_Z (Qfloor q)) q
  | _ => false
  end.

(** A body member where the code asks for a string: the string itself, or
    a value of another type together with its [String(...)] rendering
    ([undefined] renders as ["undefined"]). *)
Inductive Field :=
| Str (s : string)
| NotStr (rendering : string).

Definition rendering (f : Field) : string :=
  match f with
  | Str s => s
  | NotStr r => r
  end.

(** The module constants read from the environment at load time. *)
Record Config := {
  CONTRACT_ADDRESS : string;
  CHAIN_ID : JsNumber;
  RPC_URL : string;
  RPC_FALLBACK_URLS : list string;
  ALLOWLIST_API_ORIGINS : list string;
  MAX_PROOF_WALLETS : Z;
  MAX_PROOF_DEPTH : Z;
  RATE_LIMIT_WINDOW_MS : Z;
  RATE_LIMIT_MAX_REQUESTS : Z;
  KV_REST_API_URL : string;
  KV_REST_API_TOKEN : string
}.

Definition MAX_SIGNATURE_AGE_MS : Z := 5 * 60 * 1000.

(** The payload that is serialized and stored. *)
Record Payload := {
  p_phaseId : JsNumber;
  p_root : string;
  p_total : Z;
  p_generatedAt : string;
  p_mode : string;
  p_proofs : list (string * list string)
}.

(** What the handler takes from the runtime and from ethers without the
    sources fixing it: signature recovery ([None] where [verifyMessage]
    throws), number formatting in template strings,
    [JSON.stringify(payload, null, 2)], [new URL(text).origin] ([None] where
    the constructor throws), and the message of the error [getAddress]
    throws on a value. *)
Record Platform := {
  verifyMessage : string -> string -> option string;
  numberToString : JsNumber -> string;
  JSON_stringify : Payload -> string;
  urlOrigin : string -> option string;
  invalidAddressMessage : string -> string
}.

(** A request header: absent, one value, or several. *)
Inductive Header :=
| Absent
| Single (value : string)
| Multiple (values : list string).

(** The request as the handler reads it: the method, the headers and the
    socket address it consults, and the members of the body.  The numeric
    members are the results of the [Number(...)] conversions at the head of
    the handler; [proofs] is [None] unless the member is a non-array object,
    else its entries; a proof is [None] unless it is an array. *)
Record Request := {
  method : string;
  origin : Header;
  x_forwarded_for : Header;
  x_forwarded_proto : Header;
  x_forwarded_host : Header;
  host : option string;
  remoteAddress : option string;
  contentType : option string;
  phaseId : JsNumber;
  root : Field;
  proofs : option (list (string * option (list Field)));
  total : JsNumber;
  mode : Field;
  generatedAt : Field;
  signer : Field;
  proofsHash : Field;
  timestamp : JsNumber;
  signature : Field
}.

(** How an awaited file or KV operation settles; a failure carries the
    error's message when it has one. *)
Inductive Io :=
| Done
| Failed (message : option string).

(** What the world answers while one request is handled: the three clock
    reads, the ISO date, the contract's [owner()] (the message of the
    rejection, or the address), and the file and KV operations. *)
Record World := {
  rateNow : Z;
  now : Z;
  cleanupNow : Z;
  isoNow : string;
  owner : option string + string;
  mkdir : Io;
  readFile : option string;
  writeFile : Io;
  kvSet : Io
}.

(** The module-level maps. *)
Record State := {
  usedSignatures : gmap string Z;
  rateLimitBuckets : gmap string (Z * Z)
}.

Inductive Effect :=
| Mkdir (dir : string)
| WriteFile (path : string) (content : string)
| KvSet (key : string) (content : string).

Inductive UpsertResponse :=
| OkPath (path : string)
| Error (error : string).

(** [res.status(s).json(body)], or an exception that leaves the handler
    (the framework then answers 500). *)
Inductive Reply :=
| Json (status : Z) (body : UpsertResponse)
| Unhandled.

Definition statusOf (r : Reply) : Z :=
  match r with
  | Json status _ => status
  | Unhandled => 500
  end.

Definition isBytes32 (value : Field) : bool :=
  match value with
  | Str s => Ethers.is0xHexOfLength 64 s
  | NotStr _ => false
  end.

(** [/^0x[a-fA-F0-9]{40}$/.test(value)]; [test] renders its argument. *)
Definition isAddress (value : string) : bool := Ethers.is0xHexOfLength 40 value.

Definition isLikelySignature (value : Field) : bool :=
  match value with
  | Str s =>
      Ethers.is0xHexOfLength 130 s || Ethers.is0xHexOfLength 131 s ||
      Ethers.is0xHexOfLength 132 s
  | NotStr _ => false
  end.

Definition isProofArray (cfg : Config) (value : option (list Field)) : bool :=
  match value with
  | Some items =>
      (Z.of_nat (length items) <=? MAX_PROOF_DEPTH cfg) && forallb isBytes32 items
  | None => false
  end.

(** The white space of [trim] and of the class [\s] among the 8-bit code
    units: tab to carriage return, the space and the no-break space. *)
Definition isSpace (c : ascii) : bool :=
  let n := nat_of_ascii c in
  (((9 <=? n) && (n <=? 13)) || (n =? 32) || (n =? 160))%nat.

Fixpoint trimStart (s : string) : string :=
  match s with
  | EmptyString => EmptyString
  | String c rest => if isSpace c then trimStart rest else s
  end.

Fixpoint trimEnd (s : string) : string :=
  match s with
  | EmptyString => EmptyString
  | String c rest =>
      match trimEnd rest with
      | EmptyString => if isSpace c then EmptyString else String c EmptyString
      | kept => String c kept
      end
  end.

(** [String.prototype.trim], on ASCII white space. *)
Definition trim (s : string) : string := trimEnd (trimStart s).

(** [Array.isArray(header) ? header[0] : header]. *)
Definition firstValue (header : Header) : option string :=
  match header with
  | Absent => None
  | Single value => Some value
  | Multiple (value :: _) => Some value
  | Multiple [] => None
  end.

(** [text.split(",")[0]]. *)
Fixpoint beforeComma (text : string) : string :=
  match text with
  | EmptyString => EmptyString
  | String c rest => if Ascii.eqb c "," then EmptyString else String c (beforeComma rest)
  end.

Definition nonEmpty (text : string) : bool := (0 <? String.length text)%nat.

Definition resolveRequestIp (req : Request) : string :=
  let fromSocket := Js.stringOrEmpty (Js.orElse (remoteAddress req) (Some "unknown")) in
  match firstValue (x_forwarded_for req) with
  | Some raw => if nonEmpty (trim raw) then trim (beforeComma raw) else fromSocket
  | None => fromSocket
  end.

Definition inferRequestOrigin (req : Request) : string :=
  let proto :=
    match firstValue (x_forwarded_proto req) with
    | Some protoRaw => if nonEmpty (trim protoRaw) then trim (beforeComma protoRaw) else "https"
    | None => "https"
    end in
  let fromHost := Js.stringOrEmpty (Js.orElse (host req) (Some "")) in
  let hostSource :=
    match firstValue (x_forwarded_host req) with
    | Some hostRaw => if nonEmpty (trim hostRaw) then hostRaw else fromHost
    | None => fromHost
    end in
  let host := trim (beforeComma hostSource) in
  if negb (nonEmpty host) then ""
  else Js.toLowerCase (proto +:+ "://" +:+ host).

Definition isAllowedOrigin (cfg : Config) (P : Platform) (req : Request)
    (originHeader : option string) : bool :=
  if negb (Js.truthy originHeader) then true
  else
    match urlOrigin P (Js.stringOrEmpty originHeader) with
    | None => false
    | Some parsed =>
        let origin := Js.toLowerCase parsed in
        if (0 <? length (ALLOWLIST_API_ORIGINS cfg))%nat
        then existsb (String.eqb origin) (ALLOWLIST_API_ORIGINS cfg)
        else
          let requestOrigin := inferRequestOrigin req in
          if negb (nonEmpty requestOrigin) then false
          else String.eqb origin requestOrigin
    end.

(** [getOwnerFromChain]: the message of the error it throws, or the
    checksummed owner. *)
Definition getOwnerFromChain (cfg : Config) (P : Platform) (w : World)
  : option string + string :=
  let candidates := filter nonEmpty (RPC_URL cfg :: RPC_FALLBACK_URLS cfg) in
  if negb (nonEmpty (CONTRACT_ADDRESS cfg)) || (length candidates =? 0)%nat
  then inl (Some "Server RPC/contract is not configured.")
  else
    match owner w with
    | inl message => inl message
    | inr owner =>
        match Ethers.getAddress owner with
        | Some address => inr address
        | None => inl (Some (invalidAddressMessage P owner))
        end
    end.

Definition cleanupRateLimitBuckets (now : Z) (buckets : gmap string (Z * Z))
  : gmap string (Z * Z) :=
  filter (fun entry => ¬ (entry.2.2 <= now)) buckets.

(** [isRateLimited]: the [limited] flag, [retryAfterSec], and the buckets
    it leaves. *)
Definition isRateLimited (cfg : Config) (buckets : gmap string (Z * Z)) (now : Z)
    (ip : string) : bool * Z * gmap string (Z * Z) :=
  let buckets := cleanupRateLimitBuckets now buckets in
  match buckets !! ip with
  | Some (count, resetAt) =>
      if resetAt <=? now
      then (false, 0, <[ip := (1, now + RATE_LIMIT_WINDOW_MS cfg)]> buckets)
      else
        let count := count + 1 in
        let buckets := <[ip := (count, resetAt)]> buckets in
        if RATE_LIMIT_MAX_REQUESTS cfg <? count
        then (true, Z.max 1 (- ((now - resetAt) / 1000)), buckets)
        else (false, 0, buckets)
  | None => (false, 0, <[ip := (1, now + RATE_LIMIT_WINDOW_MS cfg)]> buckets)
  end.

Definition quote : string := String (ascii_of_nat 34) EmptyString.
Definition newline : string := String (ascii_of_nat 10) EmptyString.

(** [JSON.stringify] on a string without characters to escape. *)
Definition jsonString (s : string) : string := quote +:+ s +:+ quote.

Fixpoint insertEntry (x : string * list string) (sorted : list (string * list string))
  : list (string * list string) :=
  match sorted with
  | [] => [x]
  | y :: rest =>
      match Ethers.localeCompare x.1 y.1 with
      | Gt => y :: insertEntry x rest
      | _ => x :: y :: rest
      end
  end.

(** [stableStringify] on a proofs object: entries sorted by key. *)
Definition stableStringify (proofs : list (string * list string)) : string :=
  let entries := fold_right insertEntry [] proofs in
  "{" +:+
  Js.join ","
    (map (fun entry =>
            jsonString entry.1 +:+ ":" +:+
            "[" +:+ Js.join "," (map jsonString entry.2) +:+ "]")
         entries) +:+
  "}".

Definition buildProofsHash (proofs : list (string * list string)) : string :=
  Ethers.keccak256 (Ethers.toUtf8Bytes (stableStringify proofs)).

Definition buildAllowlistPublishMessage (P : Platform) (contractAddress : string)
    (phaseId : JsNumber) (root : string) (total : JsNumber) (proofsHash : string)
    (timestamp : JsNumber) : string :=
  Js.join newline
    [ "MegaETH Allowlist Publish";
      "contract:" +:+ Js.toLowerCase contractAddress;
      "phaseId:" +:+ numberToString P phaseId;
      "root:" +:+ Js.toLowerCase root;
      "total:" +:+ numberToString P total;
      "proofsHash:" +:+ Js.toLowerCase proofsHash;
      "timestamp:" +:+ numberToString P timestamp ].

Definition cleanupUsedSignatures (now : Z) (used : gmap string Z) : gmap string Z :=
  filter (fun entry => ¬ (MAX_SIGNATURE_AGE_MS < now - entry.2)) used.

Definition kvConfigured (cfg : Config) : bool :=
  (0 <? String.length (KV_REST_API_URL cfg))%nat &&
  (0 <? String.length (KV_REST_API_TOKEN cfg))%nat.

Definition getAllowlistKvKey (cfg : Config) (P : Platform) (phaseId : JsNumber) : string :=
  let chainSegment :=
    match CHAIN_ID cfg with
    | Finite q =>
        if isInteger (Finite q) && negb (Qle_bool q 0)
        then numberToString P (Finite q) else "unknown"
    | _ => "unknown"
    end in
  "allowlist-proof:" +:+ Js.toLowerCase (CONTRACT_ADDRESS cfg) +:+ ":" +:+ chainSegment +:+
  ":" +:+ numberToString P phaseId.

(** [obj[key] = value] on an object kept in insertion order. *)
Fixpoint setProperty (key : string) (v : list string) (obj : list (string * list string))
  : list (string * list string) :=
  match obj with
  | [] => [(key, v)]
  | (k, x) :: rest =>
      if String.eqb k key then (k, v) :: rest else (k, x) :: setProperty key v rest
  end.

Definition strings (items : list Field) : list string := map rendering items.

(** The loop over [proofEntries]; [None] at the first invalid entry. *)
Fixpoint normalizeProofs (cfg : Config) (proofEntries : list (string * option (list Field)))
    (normalizedProofs : list (string * list string)) : option (list (string * list string)) :=
  match proofEntries with
  | [] => Some normalizedProofs
  | (wallet, proof) :: rest =>
      if negb (isAddress wallet) || negb (isProofArray cfg proof)
      then None
      else
        normalizeProofs cfg rest
          (setProperty (Js.toLowerCase wallet) (strings (default [] proof)) normalizedProofs)
  end.

(** [Number.isFinite(total) && total > 0 ? Math.floor(total) : proofEntries.length]. *)
Definition normalizeTotal (total : JsNumber) (entryCount : Z) : Z :=
  match total with
  | Finite q => if negb (Qle_bool q 0) then Qfloor q else entryCount
  | _ => entryCount
  end.

(** What the checks up to the signer comparison establish. *)
Record Validated := {
  v_payload : Payload;
  v_now : Z;
  v_recovered : string;
  v_signature : string
}.

(** The handler from its first statement to the rate limiter and the
    content-type test: an early reply, if any, and the buckets left. *)
Definition preflight (cfg : Config) (P : Platform) (st : State) (req : Request) (w : World)
  : option Reply * gmap string (Z * Z) :=
  if negb (String.eqb (method req) "POST")
  then (Some (Json 405 (Error "Method not allowed")), rateLimitBuckets st)
  else if negb (isAddress (CONTRACT_ADDRESS cfg))
  then (Some (Json 500 (Error "Server contract address is not configured.")),
        rateLimitBuckets st)
  else if negb (isAllowedOrigin cfg P req
                       match origin req with Single value => Some value | _ => None end)
  then (Some (Json 403 (Error "Origin not allowed.")), rateLimitBuckets st)
  else
    let '(limited, _, buckets) :=
      isRateLimited cfg (rateLimitBuckets st) (rateNow w) (resolveRequestIp req) in
    if limited
    then (Some (Json 429 (Error "Too many requests. Try again later.")), buckets)
    else
      let contentType := Js.toLowerCase (Js.stringOrEmpty (Js.orElse (contentType req) (Some ""))) in
      if negb (Js.includes contentType "application/json")
      then (Some (Json 415 (Error "Content-Type must be application/json.")), buckets)
      else (None, buckets).

(** The handler from the reading of the body to the signer comparison. *)
Definition validate (cfg : Config) (P : Platform) (req : Request) (w : World)
  : Reply + Validated :=
  let mode :=
    match mode req with
    | Str s => s
    | NotStr _ => "address-only-merkle"
    end in
  let generatedAt :=
    match generatedAt req with
    | Str s => if (0 <? String.length s)%nat then s else isoNow w
    | NotStr _ => isoNow w
    end in
  if negb (isInteger (phaseId req)) ||
     match phaseId req with Finite q => negb (Qle_bool 0 q) | _ => true end
  then inl (Json 400 (Error "Invalid phaseId"))
  else if negb (isBytes32 (root req))
  then inl (Json 400 (Error "Invalid merkle root"))
  else
    match proofs req with
    | None => inl (Json 400 (Error "Invalid proofs payload"))
    | Some proofEntries =>
        let entryCount := Z.of_nat (length proofEntries) in
        if MAX_PROOF_WALLETS cfg <? entryCount
        then inl (Json 413 (Error ("Proof payload too large. Max " +:+
                                   numberToString P (Finite (inject_Z (MAX_PROOF_WALLETS cfg))) +:+
                                   " wallets.")))
        else
          match normalizeProofs cfg proofEntries [] with
          | None => inl (Json 400 (Error "Invalid proofs entry"))
          | Some normalizedProofs =>
              if negb (isAddress (rendering (signer req)))
              then inl (Json 401 (Error "Missing signer"))
              else if negb (isBytes32 (proofsHash req))
              then inl (Json 401 (Error "Missing proofs hash"))
              else if negb (isFinite (timestamp req))
              then inl (Json 401 (Error "Missing timestamp"))
              else if negb (isLikelySignature (signature req))
              then inl (Json 401 (Error "Missing signature"))
              else
                let now := now w in
                if match timestamp req with
                   | Finite t =>
                       negb (Qle_bool (Qabs (inject_Z now - t)) (inject_Z MAX_SIGNATURE_AGE_MS))
                   | _ => false
                   end
                then inl (Json 401 (Error "Expired signature"))
                else
                  let normalizedTotal := normalizeTotal (total req) entryCount in
                  if normalizedTotal <? entryCount
                  then inl (Json 400 (Error "Invalid total count for proofs payload."))
                  else
                    let payload :=
                      {| p_phaseId := phaseId req;
                         p_root := rendering (root req);
                         p_total := normalizedTotal;
                         p_generatedAt := generatedAt;
                         p_mode := mode;
                         p_proofs := normalizedProofs |} in
                    let computedProofsHash := buildProofsHash normalizedProofs in
                    if negb (String.eqb (Js.toLowerCase computedProofsHash)
                                        (Js.toLowerCase (rendering (proofsHash req))))
                    then inl (Json 401 (Error "Proof hash mismatch"))
                    else
                      let message :=
                        buildAllowlistPublishMessage P (CONTRACT_ADDRESS cfg)
                          (p_phaseId payload) (p_root payload)
                          (Finite (inject_Z (p_total payload))) computedProofsHash
                          (timestamp req) in
                      match verifyMessage P message (rendering (signature req))
                              ≫= Ethers.getAddress with
                      | None => inl (Json 401 (Error "Invalid signature"))
                      | Some recovered =>
                          match signer req with
                          | NotStr _ => inl Unhandled
                          | Str signer =>
                              match Ethers.getAddress signer with
                              | None => inl Unhandled
                              | Some signerAddress =>
                                  if negb (String.eqb recovered signerAddress)
                                  then inl (Json 403 (Error "Signature signer mismatch"))
                                  else
                                    inr {| v_payload := payload;
                                           v_now := now;
                                           v_recovered := recovered;
                                           v_signature := rendering (signature req) |}
                              end
                          end
                      end
          end
    end.

(** [error?.message || fallback]. *)
Definition messageOr (message : option string) (fallback : string) : string :=
  Js.stringOrEmpty (Js.orElse message (Some fallback)).

(** [a || b] on strings. *)
Definition orString (a b : string) : string :=
  if String.eqb a "" then b else a.

(** The handler from [cleanupUsedSignatures()] to its end. *)
Definition publish (cfg : Config) (P : Platform) (used : gmap string Z) (v : Validated)
    (w : World) : Reply * gmap string Z * list Effect :=
  let used := cleanupUsedSignatures (cleanupNow w) used in
  let signatureKey := Js.toLowerCase (v_signature v) in
  match used !! signatureKey with
  | Some _ => (Json 409 (Error "Replay detected"), used, [])
  | None =>
      match getOwnerFromChain cfg P w with
      | inl message =>
          (Json 500 (Error (messageOr message "Failed to resolve contract owner")), used, [])
      | inr ownerAddress =>
          if negb (String.eqb (v_recovered v) ownerAddress)
          then (Json 403 (Error "Only contract owner can publish proof"), used, [])
          else
            let serialized := JSON_stringify P (v_payload v) in
            let allowlistDir := "public/allowlists" in
            let phaseId := p_phaseId (v_payload v) in
            let filePath := allowlistDir +:+ "/phase-" +:+ numberToString P phaseId +:+ ".json" in
            let '(savedToFile, fileError, fileEffects) :=
              match mkdir w with
              | Failed message =>
                  (false, messageOr message "Failed to write proof file on server",
                   [Mkdir allowlistDir])
              | Done =>
                  let unchanged :=
                    match readFile w with
                    | Some existing => String.eqb (trim existing) (trim serialized)
                    | None => false
                    end in
                  if unchanged then (true, "", [Mkdir allowlistDir])
                  else
                    match writeFile w with
                    | Done => (true, "", [Mkdir allowlistDir; WriteFile filePath serialized])
                    | Failed message =>
                        (false, messageOr message "Failed to write proof file on server",
                         [Mkdir allowlistDir; WriteFile filePath serialized])
                    end
              end in
            let '(savedToKv, kvError, kvEffects) :=
              if kvConfigured cfg
              then
                match kvSet w with
                | Done =>
                    (true, "", [KvSet (getAllowlistKvKey cfg P phaseId) serialized])
                | Failed message =>
                    (false, messageOr message "Failed to write proof payload to KV",
                     [KvSet (getAllowlistKvKey cfg P phaseId) serialized])
                end
              else (false, "", []) in
            let effects := fileEffects ++ kvEffects in
            if negb savedToFile && negb savedToKv
            then
              if negb (kvConfigured cfg)
              then
                (Json 500 (Error (orString fileError "Failed to write proof file on server" +:+
                                  ". Configure KV_REST_API_* for auto-publish on serverless.")),
                 used, effects)
              else
                (Json 500 (Error (orString fileError "Failed to write proof file on server" +:+
                                  "; " +:+
                                  orString kvError "Failed to write proof payload to KV")),
                 used, effects)
            else
              let used := <[signatureKey := v_now v]> used in
              if savedToKv
              then (Json 200 (OkPath ("/api/allowlists/proof?phaseId=" +:+
                                      numberToString P phaseId)), used, effects)
              else (Json 200 (OkPath ("/allowlists/phase-" +:+ numberToString P phaseId +:+
                                      ".json")), used, effects)
      end
  end.

(** The request handler: the reply, the module state it leaves, and the
    file and KV operations it issued. *)
Definition handler (cfg : Config) (P : Platform) (st : State) (req : Request) (w : World)
  : Reply * State * list Effect :=
  match preflight cfg P st req w with
  | (Some reply, buckets) =>
      (reply, {| usedSignatures := usedSignatures st; rateLimitBuckets := buckets |}, [])
  | (None, buckets) =>
      match validate cfg P req w with
      | inl reply =>
          (reply, {| usedSignatures := usedSignatures st; rateLimitBuckets := buckets |}, [])
      | inr v =>
          let '(reply, used, effects) := publish cfg P (usedSignatures st) v w in
          (reply, {| usedSignatures := used; rateLimitBuckets := buckets |}, effects)
      end
  end.

(** Requests handled one after another, each to its end before the next
    starts; the state the last one leaves. *)
Fixpoint serve (cfg : Config) (P : Platform) (st : State) (requests : list (Request * World))
  : State :=
  match requests with
  | [] => st
  | (req, w) :: rest => serve cfg P (handler cfg P st req w).1.2 rest
  end.

End Upsert.

(** ** The contract library: address helpers *)

Module ContractLib.

(** [isSameAddress]; a missing argument is [None]. *)
Definition isSameAddress (a b : option string) : bool :=
  if negb (Js.truthy a) || negb (Js.truthy b) then false
  else
    match Ethers.getAddress (Js.stringOrEmpty a), Ethers.getAddress (Js.stringOrEmpty b) with
    | Some checksumA, Some checksumB => String.eqb checksumA checksumB
    | _, _ => false
    end.

End ContractLib.

(** ** frontend/pages/admin.tsx: wallet input and proof publishing *)

Module AdminPage.

(** The separators of [/[\s,]+/], on ASCII. *)
Definition isSeparator (c : ascii) : bool := Upsert.isSpace c || Ascii.eqb c ",".

(** [text.split(/[\s,]+/)]: the pieces between the maximal runs of
    separators, empty pieces at either end included. *)
Fixpoint split (text : string) : list string :=
  match text with
  | EmptyString => [EmptyString]
  | String c rest =>
      if isSeparator c
      then
        match rest with
        | String d _ => if isSeparator d then split rest else EmptyString :: split rest
        | EmptyString => EmptyString :: split rest
        end
      else
        match split rest with
        | piece :: pieces => String c piece :: pieces
        | [] => [String c EmptyString]
        end
  end.

(** [set.add(item)] on a [Set] kept in insertion order. *)
Definition setAdd (item : string) (set : list string) : list string :=
  if existsb (String.eqb item) set then set else set ++ [item].

Record Parsed := {
  valid : list string;
  invalid : list string
}.

(** The [for (const value of raw)] loop shared by the two parsers;
    [ethers.utils.isAddress(value)] holds when [getAddress(value)] returns. *)
Fixpoint collectWallets (raw : list string) (unique invalid : list string) : Parsed :=
  match raw with
  | [] => {| valid := unique; invalid := invalid |}
  | value :: rest =>
      match Ethers.getAddress value with
      | None => collectWallets rest unique (invalid ++ [value])
      | Some address => collectWallets rest (setAdd address unique) invalid
      end
  end.

Definition parseWallets (input : string) : Parsed :=
  let raw := filter Upsert.nonEmpty (map Upsert.trim (split input)) in
  collectWallets raw [] [].

(** Whether [/0x[a-f0-9]{40}/i] matches at the head of [text]. *)
Definition matchesAddressAt (text : string) : bool :=
  match text with
  | String "0" (String x rest) =>
      (Ascii.eqb x "x" || Ascii.eqb x "X") &&
      Ethers.isHexOfLength 40 (String.substring 0 40 rest)
  | _ => false
  end.

(** [input.match(/0x[a-f0-9]{40}/gi) || []]: the matches from left to
    right, none overlapping; [skip] counts the characters of the current
    match still to pass. *)
Fixpoint matchAddresses (text : string) (skip : nat) : list string :=
  match text with
  | EmptyString => []
  | String _ rest =>
      match skip with
      | S skip' => matchAddresses rest skip'
      | O =>
          if matchesAddressAt text
          then String.substring 0 42 text :: matchAddresses rest 41
          else matchAddresses rest 0
      end
  end.

Definition parseWalletsFromCsv (input : string) : Parsed :=
  collectWallets (matchAddresses input 0) [] [].

(** admin.tsx, [stableStringify] on a proofs object given by its entries. *)
Definition stableStringify (proofs : list (string * list string)) : string :=
  let entries := fold_right Upsert.insertEntry [] proofs in
  "{" +:+
  Js.join ","
    (map (fun entry =>
            Upsert.jsonString entry.1 +:+ ":" +:+
            "[" +:+ Js.join "," (map Upsert.jsonString entry.2) +:+ "]")
         entries) +:+
  "}".

Definition buildProofsHash (proofs : list (string * list string)) : string :=
  Ethers.keccak256 (Ethers.toUtf8Bytes (stableStringify proofs)).

Definition buildAllowlistPublishMessage (P : Upsert.Platform) (contractAddress : string)
    (phaseId : Upsert.JsNumber) (root : string) (total : Upsert.JsNumber)
    (proofsHash : string) (timestamp : Upsert.JsNumber) : string :=
  Js.join Upsert.newline
    [ "MegaETH Allowlist Publish";
      "contract:" +:+ Js.toLowerCase contractAddress;
      "phaseId:" +:+ Upsert.numberToString P phaseId;
      "root:" +:+ Js.toLowerCase root;
      "total:" +:+ Upsert.numberToString P total;
      "proofsHash:" +:+ Js.toLowerCase proofsHash;
      "timestamp:" +:+ Upsert.numberToString P timestamp ].

(** A number member of the body as the endpoint reads it after
    [JSON.stringify] on the page and [Number(...)] on the server: a value
    that is not finite travels as [null] and is read as 0. *)
Definition overJson (n : Upsert.JsNumber) : Upsert.JsNumber :=
  match n with
  | Upsert.Finite q => Upsert.Finite q
  | _ => Upsert.Finite 0
  end.

(** How an awaited call to the wallet settles: it rejects, with the
    message of the error when it has one, or it resolves with a value,
    given as the endpoint reads it from the body. *)
Inductive Signing :=
| Rejects (message : option string)
| Resolves (value : Upsert.Field).

(** The connected wallet: whether [account?.signMessage] is a function,
    how [account.signMessage] settles on [{ message }] and on [message],
    and how [getWriteContract] followed by
    [contract.signer.signMessage(message)] settles. *)
Record Wallet := {
  hasSignMessage : bool;
  signObject : string -> Signing;
  signText : string -> Signing;
  signerSignMessage : string -> Signing
}.

(** How [fetch] settles: it rejects, or it resolves with a response, of
    which the page reads [ok] and the parsed body ([None] where
    [response.json()] rejects). *)
Inductive Fetched :=
| FetchRejects (message : option string)
| Responds (ok : bool) (payload : option Upsert.UpsertResponse).

(** The [try] block of [publishAllowlistProofJson]: the message of the
    error it throws, or the signature. *)
Definition signPublishMessage (wallet : Wallet) (message : string) : string + Upsert.Field :=
  let rejected (thrown : option string) :=
    Upsert.messageOr thrown "Signature rejected. Cannot publish proof." in
  if hasSignMessage wallet
  then
    match signObject wallet message with
    | Rejects thrown => inl (rejected thrown)
    | Resolves signed =>
        let signature :=
          match signed with
          | Upsert.Str s => s
          | Upsert.NotStr _ => ""
          end in
        if String.eqb signature ""
        then
          match signText wallet message with
          | Rejects thrown => inl (rejected thrown)
          | Resolves value => inr value
          end
        else inr (Upsert.Str signature)
    end
  else
    match signerSignMessage wallet message with
    | Rejects thrown => inl (rejected thrown)
    | Resolves value => inr value
    end.

(** The request the endpoint receives for the [fetch] call of
    [publishAllowlistProofJson]; [transport] supplies the headers the
    browser and the proxies add, [proofs] are the entries of the proofs
    object in the order the runtime enumerates them. *)
Definition publishRequest (transport : Upsert.Request) (phaseId : Upsert.JsNumber)
    (root : string) (proofs : list (string * list string)) (total : Upsert.JsNumber)
    (generatedAt signer proofsHash : string) (timestamp : Z) (signature : Upsert.Field)
  : Upsert.Request :=
  {| Upsert.method := "POST";
     Upsert.origin := Upsert.origin transport;
     Upsert.x_forwarded_for := Upsert.x_forwarded_for transport;
     Upsert.x_forwarded_proto := Upsert.x_forwarded_proto transport;
     Upsert.x_forwarded_host := Upsert.x_forwarded_host transport;
     Upsert.host := Upsert.host transport;
     Upsert.remoteAddress := Upsert.remoteAddress transport;
     Upsert.contentType := Some "application/json";
     Upsert.phaseId := overJson phaseId;
     Upsert.root := Upsert.Str root;
     Upsert.proofs :=
       Some (map (fun entry => (entry.1, Some (map Upsert.Str entry.2))) proofs);
     Upsert.total := overJson total;
     Upsert.mode := Upsert.Str "address-only-merkle";
     Upsert.generatedAt := Upsert.Str generatedAt;
     Upsert.signer := Upsert.Str signer;
     Upsert.proofsHash := Upsert.Str proofsHash;
     Upsert.timestamp := Upsert.Finite (inject_Z timestamp);
     Upsert.signature := signature |}.

(** [publishAllowlistProofJson]: the message of the error it throws or the
    payload it returns ([None] for the empty object), and the request it
    has posted, if any.  [address] is the connected address, [timestamp]
    and [isoNow] are the two clock reads. *)
Definition publishAllowlistProofJson (P : Upsert.Platform) (contractAddress : string)
    (transport : Upsert.Request) (address : option string) (wallet : Wallet)
    (fetch : Upsert.Request -> Fetched)
    (phaseId : Upsert.JsNumber) (root : string) (proofs : list (string * list string))
    (total : Upsert.JsNumber) (timestamp : Z) (isoNow : string)
  : (option string + option Upsert.UpsertResponse) * list Upsert.Request :=
  if negb (Js.truthy address)
  then (inl (Some "Owner wallet not connected for proof publish signature."), [])
  else
    let proofsHash := buildProofsHash proofs in
    let message :=
      buildAllowlistPublishMessage P contractAddress phaseId root total proofsHash
        (Upsert.Finite (inject_Z timestamp)) in
    match signPublishMessage wallet message with
    | inl thrown => (inl (Some thrown), [])
    | inr signature =>
        let request :=
          publishRequest transport phaseId root proofs total isoNow
            (Js.stringOrEmpty address) proofsHash timestamp signature in
        match fetch request with
        | FetchRejects thrown => (inl thrown, [request])
        | Responds ok payload =>
            if negb ok
            then
              let error :=
                match payload with
                | Some (Upsert.Error error) => error
                | _ => ""
                end in
              (inl (Some (Upsert.orString error "Failed to publish allowlist proof.")),
               [request])
            else (inr payload, [request])
        end
    end.

End AdminPage.

(** ** frontend/pages/admin.tsx: the page's own transaction sender *)

Module AdminTx.

(** The members of a caught error that [extractTxErrorMessage] reads; a
    member is [Some s] when it is the string [s], [None] otherwise. *)
Record TxError := {
  reason : option string;
  shortMessage : option string;
  message : option string;
  error_reason : option string;
  error_message : option string;
  data_message : option string;
  data_originalError_message : option string;
  error_data_message : option string;
  error_data_originalError_message : option string
}.

(** [new Error(msg)]. *)
Definition newError (msg : string) : TxError :=
  {| reason := None; shortMessage := None; message := Some msg;
     error_reason := None; error_message := None; data_message := None;
     data_originalError_message := None; error_data_message := None;
     error_data_originalError_message := None |}.

Definition GAS_LIMIT_FALLBACK : Z := 280000.
Definition GAS_LIMIT_BUFFER_NUMERATOR : Z := 12.
Definition GAS_LIMIT_BUFFER_DENOMINATOR : Z := 10.

(** The line terminators, which [.] does not match. *)
Definition isLineTerminator (c : ascii) : bool :=
  let n := nat_of_ascii c in ((n =? 10) || (n =? 13))%nat.

(** What the greedy any-character group at the end of the pattern captures
    at the head of [text]: the rest of the line. *)
Fixpoint restOfLine (text : string) : string :=
  match text with
  | EmptyString => EmptyString
  | String c rest => if isLineTerminator c then EmptyString else String c (restOfLine rest)
  end.

Fixpoint dropChars (n : nat) (text : string) : string :=
  match n, text with
  | S n', String _ rest => dropChars n' rest
  | _, _ => text
  end.

(** The text that follows the first occurrence of the lower-case [needle]
    in [text], letters compared without regard to case. *)
Fixpoint afterFirst (needle text : string) : option string :=
  if String.prefix needle (Js.toLowerCase text)
  then Some (dropChars (String.length needle) text)
  else
    match text with
    | EmptyString => None
    | String _ rest => afterFirst needle rest
    end.

(** The first group of [raw.match(...)] for the pattern: the words
    [execution reverted] in any case, an optional colon, white space, then
    the group that takes the rest of the line; [None] when there is no
    match. *)
Definition revertedGroup (raw : string) : option string :=
  match afterFirst "execution reverted" raw with
  | None => None
  | Some rest =>
      let rest :=
        match rest with
        | String ":" afterColon => afterColon
        | _ => rest
        end in
      Some (restOfLine (Upsert.trimStart rest))
  end.

Definition extractTxErrorMessage (error : TxError) : string :=
  let candidates :=
    [ reason error; shortMessage error; message error; error_reason error;
      error_message error; data_message error; data_originalError_message error;
      error_data_message error; error_data_originalError_message error ] in
  let raw :=
    Js.stringOrEmpty
      (Js.orElse
         (default None
            (List.find (fun item =>
                          match item with
                          | Some text => (0 <? String.length (Upsert.trim text))%nat
                          | None => false
                          end) candidates))
         (Some "")) in
  if String.eqb raw "" then "Transaction failed"
  else
    let lowered := Js.toLowerCase raw in
    if Js.truthy (revertedGroup raw)
    then Upsert.trim (Js.stringOrEmpty (revertedGroup raw))
    else if Js.includes lowered "intrinsic gas too low" || Js.includes lowered "gas too low"
    then "Gas limit too low. Retry now (the app sends a higher gas limit automatically)."
    else if Js.includes lowered "maxfeepergas cannot be less than maxpriorityfeepergas"
    then "Gas fee mismatch detected. Retry now (the app now sends corrected EIP-1559 fees)."
    else if Js.includes lowered "user rejected" || Js.includes lowered "user denied" ||
            Js.includes lowered "rejected transaction" || Js.includes lowered "cancelled"
    then "Transaction rejected in wallet"
    else raw.

Definition isLikelyRevertReason (message : string) : bool :=
  let normalized := Js.toLowerCase message in
  Js.includes normalized "revert" ||
  Js.includes normalized "owner" ||
  Js.includes normalized "metadata frozen" ||
  Js.includes normalized "must reduce" ||
  Js.includes normalized "already frozen" ||
  Js.includes normalized "zero recipient" ||
  Js.includes normalized "below total supply" ||
  Js.includes normalized "invalid".

(** What the contract object answers to the admin page's sender:
    - [estimateGas]: [None] when [contract.estimateGas[methodName]] is not a
      function, else how the estimate settles;
    - [getFeeData]: [None] when there is no provider with [getFeeData],
      [Some None] when the call rejects, else the fee data;
    - [send]: how the contract method settles on given overrides;
    - [wait], [hash]: how [tx.wait()] settles and what [tx.hash] is. *)
Record Contract (Tx : Type) := {
  estimateGas : option (TxError + Z);
  getFeeData : option (option (option Contract.FeeData));
  send : Contract.TxOverrides -> TxError + Tx;
  wait : Tx -> option TxError;
  hash : Tx -> option string
}.
Arguments estimateGas {Tx} c.
Arguments getFeeData {Tx} c.
Arguments send {Tx} c.
Arguments wait {Tx} c.
Arguments hash {Tx} c.

(** The body of [sendTxWithBufferedGas] from the gas estimate to the fee
    data: the overrides the sender hands to the contract method; [inl] is
    the error thrown before the method is called. *)
Definition buildOverrides {Tx} (contract : Contract Tx) (fallbackGasLimit : Z)
  : TxError + Contract.TxOverrides :=
  let txOverrides := Contract.emptyOverrides in
  let gasLimit := fallbackGasLimit in
  let estimation : TxError + Z :=
    match estimateGas contract with
    | Some (inr estimated) =>
        inr (Z.quot (estimated * GAS_LIMIT_BUFFER_NUMERATOR) GAS_LIMIT_BUFFER_DENOMINATOR)
    | Some (inl estimateError) =>
        let estimateMessage := extractTxErrorMessage estimateError in
        if isLikelyRevertReason estimateMessage
        then inl (newError estimateMessage)
        else inr gasLimit
    | None => inr gasLimit
    end in
  match estimation with
  | inl thrown => inl thrown
  | inr gasLimit =>
      let txOverrides := Contract.set_gasLimit gasLimit txOverrides in
      let txOverrides :=
        match getFeeData contract with
        | Some (Some feeData) =>
            match Contract.feeMember feeData Contract.fd_maxFeePerGas,
                  Contract.feeMember feeData Contract.fd_maxPriorityFeePerGas with
            | Some maxFeePerGas, Some maxPriorityFeePerGas =>
                let maxPriorityFeePerGas :=
                  if maxPriorityFeePerGas <=? 0 then Contract.ONE_GWEI
                  else maxPriorityFeePerGas in
                let maxFeePerGas :=
                  if maxFeePerGas <? maxPriorityFeePerGas then maxPriorityFeePerGas * 2
                  else maxFeePerGas in
                Contract.set_fees1559 maxPriorityFeePerGas maxFeePerGas txOverrides
            | _, _ =>
                match Contract.feeMember feeData Contract.fd_gasPrice with
                | Some gasPrice => Contract.set_gasPrice gasPrice txOverrides
                | None => txOverrides
                end
            end
        | _ => txOverrides
        end in
      inr txOverrides
  end.

(** [sendTxWithBufferedGas] of the admin page: the thrown error or the
    returned hash, and the overrides of the submission, if any;
    [fallbackGasLimit] is [None] where the caller leaves it out. *)
Definition sendTxWithBufferedGas {Tx} (hasMethod : bool) (methodName : string)
    (contract : Contract Tx) (fallbackGasLimit : option Z)
  : (TxError + option string) * list Contract.TxOverrides :=
  let fallbackGasLimit := default GAS_LIMIT_FALLBACK fallbackGasLimit in
  if negb hasMethod
  then (inl (newError ("Contract method not found: " +:+ methodName)), [])
  else
    match buildOverrides contract fallbackGasLimit with
    | inl thrown => (inl thrown, [])
    | inr txOverrides =>
        match send contract txOverrides with
        | inl thrown => (inl thrown, [txOverrides])
        | inr tx =>
            match wait contract tx with
            | Some thrown => (inl thrown, [txOverrides])
            | None => (inr (hash contract tx), [txOverrides])
            end
        end
    end.

End AdminTx.

(** ** frontend/pages/api/allowlists/proof.ts: the proof endpoint *)

Module ProofApi.

(** [JSON.parse] ([None] where it throws) and the truthiness of what it
    returns, for a type [J] of JSON values. *)
Record Json (J : Type) := {
  JSON_parse : string -> option J;
  truthy : J -> bool
}.
Arguments JSON_parse {J} j.
Arguments truthy {J} j.

(** How [callKv(command)] settles: it throws (the request fails, the status
    is not ok, or the answer carries an error), or it returns the [result]
    member, kept when it is a string. *)
Inductive KvAnswer :=
| KvThrows
| KvResult (result : option string).

(** The request as the handler reads it: the method, and the result of
    [Number(req.query.phaseId)]. *)
Record Request := {
  method : string;
  phaseId : Upsert.JsNumber
}.

(** What the KV store answers to [GET key] and what [fs.readFile(path)]
    returns ([None] where it throws). *)
Record World := {
  kvGet : string -> KvAnswer;
  readFile : string -> option string
}.

Inductive Body (J : Type) :=
| Stored (value : J)
| Error (error : string).
Arguments Stored {J} value.
Arguments Error {J} error.

Inductive Reply (J : Type) :=
| Respond (status : Z) (body : Body J).
Arguments Respond {J} status body.

Definition statusOf {J} (r : Reply J) : Z :=
  match r with Respond status _ => status end.

Definition isAddress (value : string) : bool := Ethers.is0xHexOfLength 40 value.

Definition kvConfigured (cfg : Upsert.Config) : bool :=
  (0 <? String.length (Upsert.KV_REST_API_URL cfg))%nat &&
  (0 <? String.length (Upsert.KV_REST_API_TOKEN cfg))%nat.

Definition getAllowlistKvKey (cfg : Upsert.Config) (P : Upsert.Platform)
    (phaseId : Upsert.JsNumber) : string :=
  let chainSegment :=
    match Upsert.CHAIN_ID cfg with
    | Upsert.Finite q =>
        if Upsert.isInteger (Upsert.Finite q) && negb (Qle_bool q 0)
        then Upsert.numberToString P (Upsert.Finite q) else "unknown"
    | _ => "unknown"
    end in
  "allowlist-proof:" +:+ Js.toLowerCase (Upsert.CONTRACT_ADDRESS cfg) +:+ ":" +:+
  chainSegment +:+ ":" +:+ Upsert.numberToString P phaseId.

(** [loadFromFile]; [None] where it throws. *)
Definition loadFromFile {J} (P : Upsert.Platform) (json : Json J) (w : World)
    (phaseId : Upsert.JsNumber) : option J :=
  let filePath := "public/allowlists/phase-" +:+ Upsert.numberToString P phaseId +:+ ".json" in
  raw ← readFile w filePath;
  JSON_parse json raw.

(** [loadFromKv]; [None] where it throws, [Some None] for [null]. *)
Definition loadFromKv {J} (cfg : Upsert.Config) (P : Upsert.Platform) (json : Json J)
    (w : World) (phaseId : Upsert.JsNumber) : option (option J) :=
  if negb (kvConfigured cfg) then Some None
  else
    match kvGet w (getAllowlistKvKey cfg P phaseId) with
    | KvThrows => None
    | KvResult None => Some None
    | KvResult (Some raw) =>
        if negb (Upsert.nonEmpty (Upsert.trim raw)) then Some None
        else
          match JSON_parse json raw with
          | Some value => Some (Some value)
          | None => None
          end
    end.

(** The handler: the status and the body it answers with; the response
    headers it sets are left out. *)
Definition handler {J} (cfg : Upsert.Config) (P : Upsert.Platform) (json : Json J)
    (req : Request) (w : World) : Reply J :=
  if negb (String.eqb (method req) "GET")
  then Respond 405 (Error "Method not allowed")
  else if negb (isAddress (Upsert.CONTRACT_ADDRESS cfg))
  then Respond 500 (Error "Server contract address is not configured.")
  else if negb (Upsert.isInteger (phaseId req)) ||
          match phaseId req with Upsert.Finite q => negb (Qle_bool 0 q) | _ => true end
  then Respond 400 (Error "Invalid phaseId")
  else
    let fromFile :=
      match loadFromFile P json w (phaseId req) with
      | Some value => Respond 200 (Stored value)
      | None => Respond 404 (Error "Allowlist proof not found")
      end in
    match loadFromKv cfg P json w (phaseId req) with
    | Some (Some value) => if truthy json value then Respond 200 (Stored value) else fromFile
    | Some None => fromFile
    | None => fromFile
    end.

End ProofApi.

(** ** frontend/lib/launchpadUi.ts: the proof lookup of the mint page *)

Module MintPage.

(** What the page reads of a parsed JSON body of type [J]:
    [data?.proofs?.[walletKey]] when it is an array, given by its items. *)
Record Json (J V : Type) := {
  proofsMember : J -> string -> option (list V)
}.
Arguments proofsMember {J V} j.

(** How a [fetch] settles: it rejects, or it resolves with a response, of
    which the page reads [ok] and the parsed body ([None] where
    [json()] rejects). *)
Inductive Fetched (J : Type) :=
| FetchRejects
| Responds (ok : bool) (body : option J).
Arguments FetchRejects {J}.
Arguments Responds {J} ok body.

Definition extractProof {J V} (json : Json J V) (walletKey : string) (data : J) : list V :=
  default [] (proofsMember json data walletKey).

(** [fetchAllowlistProof]; [fetch] gives how the request to a URL settles. *)
Definition fetchAllowlistProof {J V} (P : Upsert.Platform) (json : Json J V)
    (fetch : string -> Fetched J) (phaseId : Upsert.JsNumber) (wallet : string) : list V :=
  let walletKey := Js.toLowerCase wallet in
  let fromStatic :=
    match fetch ("/allowlists/phase-" +:+ Upsert.numberToString P phaseId +:+ ".json") with
    | Responds true (Some staticData) => extractProof json walletKey staticData
    | _ => []
    end in
  match fetch ("/api/allowlists/proof?phaseId=" +:+ Upsert.numberToString P phaseId) with
  | Responds true (Some apiData) =>
      let apiProof := extractProof json walletKey apiData in
      if (0 <? length apiProof)%nat then apiProof else fromStatic
  | _ => fromStatic
  end.

(** [resolveAllowlistEligibility]: the error it throws, or its answer.
    [getReadContract] is [Some e] where [getReadContract()] throws [e];
    [phaseAllowlist k] is how the [k]-th call of [contract.phaseAllowlist]
    settles, a value being given by its truthiness; [allowlistRoot] is
    [phase.allowlistRoot]. *)
Definition resolveAllowlistEligibility {J V} (cfg : Contract.Settings) (P : Upsert.Platform)
    (json : Json J V) (fetch : string -> Fetched J)
    (getReadContract : option Contract.RpcError)
    (phaseAllowlist : nat -> Contract.RpcError + bool)
    (phaseId : Upsert.JsNumber) (allowlistRoot : option string) (wallet : string)
  : option Contract.RpcError + bool :=
  match getReadContract with
  | Some thrown => inl (Some thrown)
  | None =>
      match Contract.settled (Contract.withReadRetry cfg phaseAllowlist) with
      | Contract.Thrown thrown => inl thrown
      | Contract.Returned allowed =>
          if allowed then inr true
          else if Js.truthy allowlistRoot &&
                  negb (String.eqb (Js.stringOrEmpty allowlistRoot) Ethers.HashZero)
          then inr (0 <? length (fetchAllowlistProof P json fetch phaseId wallet))%nat
          else inr false
      end
  end.

End MintPage.

(** ** The specification's wording, kept apart from the code *)

Module Spec.

(** The revert-like keywords as the specification lists them. *)
Definition revertKeywords : list string :=
  [ "revert"; "owner"; "frozen"; "invalid"; "insufficient funds"; "allowlisted" ].

Definition matchesRevertKeyword (message : string) : bool :=
  existsb (Js.includes (Js.toLowerCase message)) revertKeywords.

(** The number a string of hex digits denotes, after [acc]. *)
Fixpoint hexNumber (acc : Z) (digits : string) : Z :=
  match digits with
  | EmptyString => acc
  | String c rest => hexNumber (acc * 16 + default 0 (Ethers.hexValue c)) rest
  end.

(** An address as a number: what the 40 hex digits after [0x] denote. *)
Definition addressValue (w : string) : Z := hexNumber 0 (String.substring 2 40 w).

(** The [n] bytes of [v], most significant first. *)
Fixpoint bigEndian (n : nat) (v : Z) : list Z :=
  match n with
  | O => []
  | S n' => (v / 256 ^ Z.of_nat n') mod 256 :: bigEndian n' v
  end.

(** [abi.encodePacked(w)] for an address [w]: its 20 bytes. *)
Definition encodePacked (w : string) : list Z := bigEndian 20 (addressValue w).

(** The leaf of [w]: [keccak256(abi.encodePacked(w))], as 32 bytes. *)
Definition leaf (w : string) : list Z := Keccak.keccak_256 (encodePacked w).

(** [a <= b], byte by byte from the first. *)
Fixpoint bytesLe (a b : list Z) : bool :=
  match a, b with
  | [], _ => true
  | _ :: _, [] => false
  | x :: a', y :: b' =>
      if x <? y then true else if y <? x then false else bytesLe a' b'
  end.

(** The sorted-pair hash: the byte-wise smaller hash concatenated with the
    larger, hashed. *)
Definition hashPair (a b : list Z) : list Z :=
  Keccak.keccak_256 (if bytesLe a b then a ++ b else b ++ a).

(** [verify(leaf, proof, root)]: folding the proof over the leaf with the
    sorted-pair hash gives the root. *)
Definition verify (leaf : list Z) (proof : list (list Z)) (root : list Z) : bool :=
  bool_decide (fold_left hashPair proof leaf = root).

End Spec.

(** ** Notions used to state the properties *)

(** The strings [hexlify] produces; every hash in a Merkle layer is one. *)
Definition isHexData (s : string) : Prop := exists bs, s = Ethers.hexlify bs.

Definition isByte (b : Z) : Prop := 0 <= b < 256.

(** Folding a proof over a leaf with the sorted-pair hash. *)
Definition foldProof (leaf : string) (proof : list string) : option string :=
  fold_left (fun acc sibling => acc ≫= fun h => Admin.hashMerklePair h sibling)
            proof (Some leaf).

(** The delays [withReadRetry] awaits after the failed attempts
    [first, ..., first + count - 1]. *)
Definition readWaits (cfg : Contract.Settings) (first count : nat) : list Z :=
  filter (fun waitMs => 0 <? waitMs)
         (map (fun i => Contract.READ_RETRY_DELAY_MS cfg * Z.of_nat i) (seq first count)).

(** The address [getChecksumAddress] builds from 40 lower-case digits. *)
Definition checksumOf (chars : string) : string :=
  "0x" +:+ Ethers.checksumCase chars (Keccak.keccak_256 (Ethers.charCodes chars)).

Definition isChecksummed (a : string) : Prop :=
  exists chars, Js.toLowerCase chars = chars /\ a = checksumOf chars.

(** ** Sample data *)

Module Samples.

Definition alice : string := "0x5aAeb6053F3E94C9b9A09f33669435E7Ef1BeAed".
Definition bob : string := "0xfB6916095ca1df60bB79Ce92cE3Ea74c37c5d359".
Definition carol : string := "0xdbF03B407c01E7cD3CBea99509d93f8DDDC8C6FB".

Definition wallets : list string := [alice; bob; carol].

Definition noOptions : Contract.SendContractTxOptions :=
  {| Contract.opt_value := None; Contract.opt_fallbackGasLimit := None;
     Contract.opt_maxAttempts := None |}.

(** A chain that estimates 100000 gas, reports the counts 10 and 40 and
    1559 fee data, and accepts the transaction. *)
Definition healthy : Contract.Attempt unit :=
  {| Contract.estimateGas := Some (inr 100000);
     Contract.provider := true;
     Contract.signerAddress := Some alice;
     Contract.getTransactionCount := Some (10, 40);
     Contract.getFeeData :=
       Some (Some (Some {| Contract.fd_maxFeePerGas := Some 2000000;
                           Contract.fd_maxPriorityFeePerGas := Some 0;
                           Contract.fd_gasPrice := Some 1000000 |}));
     Contract.send := fun _ => inr tt |}.


Definition healthyFees : Contract.FeeData :=
  {| Contract.fd_maxFeePerGas := Some 2000000;
     Contract.fd_maxPriorityFeePerGas := Some 0;
     Contract.fd_gasPrice := Some 1000000 |}.

(** The overrides [buildTxOverrides] returns on [healthy]. *)
Definition healthyOverrides : Contract.TxOverrides :=
  {| Contract.value := None;
     Contract.gasLimit := Some 120000;
     Contract.nonce := Some 10;
     Contract.maxPriorityFeePerGas := Some 1000000;
     Contract.maxFeePerGas := Some 2000000;
     Contract.gasPrice := None |}.

(** A chain whose gas estimate fails with the given message. *)
Definition failingEstimate (message : string) : Contract.Attempt unit :=
  {| Contract.estimateGas := Some (inl (Contract.newError message));
     Contract.provider := false;
     Contract.signerAddress := None;
     Contract.getTransactionCount := None;
     Contract.getFeeData := None;
     Contract.send := fun _ => inr tt |}.

Definition defaults : Contract.Settings :=
  {| Contract.NEXT_PUBLIC_RPC_READ_RETRY_ATTEMPTS := None;
     Contract.NEXT_PUBLIC_RPC_READ_RETRY_DELAY_MS := None |}.

(** A read that times out once and then answers 7. *)
Definition flakyRead (attempt : nat) : Contract.RpcError + Z :=
  match attempt with
  | 1%nat => inl (Contract.newError "timeout exceeded")
  | _ => inr 7
  end.

Definition cfg : Upsert.Config :=
  {| Upsert.CONTRACT_ADDRESS := alice;
     Upsert.CHAIN_ID := Upsert.Finite (inject_Z 6343);
     Upsert.RPC_URL := "https://carrot.megaeth.com/rpc";
     Upsert.RPC_FALLBACK_URLS := [];
     Upsert.ALLOWLIST_API_ORIGINS := [];
     Upsert.MAX_PROOF_WALLETS := 25000;
     Upsert.MAX_PROOF_DEPTH := 40;
     Upsert.RATE_LIMIT_WINDOW_MS := 60000;
     Upsert.RATE_LIMIT_MAX_REQUESTS := 30;
     Upsert.KV_REST_API_URL := "";
     Upsert.KV_REST_API_TOKEN := "" |}.

(** A platform on which every signature recovers to [bob]. *)
Definition platform : Upsert.Platform :=
  {| Upsert.verifyMessage := fun _ _ => Some bob;
     Upsert.numberToString :=
       fun n => match n with
                | Upsert.Finite q => pretty (Qfloor q)
                | Upsert.Infinity _ => "Infinity"
                | Upsert.NaN => "NaN"
                end;
     Upsert.JSON_stringify := fun payload => Upsert.stableStringify (Upsert.p_proofs payload);
     Upsert.urlOrigin := fun text => Some text;
     Upsert.invalidAddressMessage := fun _ => "invalid address" |}.

(** The root and the proofs [buildAllowlistMerkleData] gives for [wallets],
    and the hash of those proofs. *)
Definition merkleRoot : string :=
  "0xd139822b52fcd4e29b077667e0aa9a9ce5326ee4ad70dd0d5154ee001cd3fa08".

Definition proofEntries : list (string * option (list Upsert.Field)) :=
  [ ("0x5aaeb6053f3e94c9b9a09f33669435e7ef1beaed",
     Some [ Upsert.Str "0x913c99ea930c78868f1535d34cd705ab85929b2eaaf70fcd09677ecd6e5d75e9";
            Upsert.Str "0x1a984f78b5313eb7dc3985bc550deeae6f699f0d0ffb80ad45d4fe793350e52f" ]);
    ("0xfb6916095ca1df60bb79ce92ce3ea74c37c5d359",
     Some [ Upsert.Str "0x793f88740e3ced5d3b007ab91feb3feb22d76afe4b9e849aa48d4d35f740fb4e";
            Upsert.Str "0x1a984f78b5313eb7dc3985bc550deeae6f699f0d0ffb80ad45d4fe793350e52f" ]);
    ("0xdbf03b407c01e7cd3cbea99509d93f8dddc8c6fb",
     Some [ Upsert.Str "0xc28556462c3c3f80e401dc00768c21afed89e873283ae69bea90d5ff1d81448b" ]) ].

Definition proofsHash : string :=
  "0xe1dc726886739085abe76499fc5220c5e22c3bc44e29b732cd82ab5d9ba48901".

Definition signature : string :=
  "0x" +:+
  "1111111111111111111111111111111111111111111111111111111111111111" +:+
  "2222222222222222222222222222222222222222222222222222222222222222" +:+
  "1b".

Definition request : Upsert.Request :=
  {| Upsert.method := "POST";
     Upsert.origin := Upsert.Absent;
     Upsert.x_forwarded_for := Upsert.Single "203.0.113.7, 10.0.0.1";
     Upsert.x_forwarded_proto := Upsert.Single "https";
     Upsert.x_forwarded_host := Upsert.Absent;
     Upsert.host := Some "launchpad.example";
     Upsert.remoteAddress := Some "10.0.0.1";
     Upsert.contentType := Some "application/json";
     Upsert.phaseId := Upsert.Finite (inject_Z 1);
     Upsert.root := Upsert.Str merkleRoot;
     Upsert.proofs := Some proofEntries;
     Upsert.total := Upsert.Finite (inject_Z 3);
     Upsert.mode := Upsert.NotStr "undefined";
     Upsert.generatedAt := Upsert.NotStr "undefined";
     Upsert.signer := Upsert.Str bob;
     Upsert.proofsHash := Upsert.Str proofsHash;
     Upsert.timestamp := Upsert.Finite (inject_Z 1700000000000);
     Upsert.signature := Upsert.Str signature |}.

(** The world at [clock]: [bob] owns the contract, the file system works. *)
Definition world (clock : Z) : Upsert.World :=
  {| Upsert.rateNow := clock;
     Upsert.now := clock;
     Upsert.cleanupNow := clock;
     Upsert.isoNow := "2023-11-14T22:13:21.000Z";
     Upsert.owner := inr bob;
     Upsert.mkdir := Upsert.Done;
     Upsert.readFile := None;
     Upsert.writeFile := Upsert.Done;
     Upsert.kvSet := Upsert.Done |}.

Definition freshState : Upsert.State :=
  {| Upsert.usedSignatures := ∅; Upsert.rateLimitBuckets := ∅ |}.

End Samples.

(** ** Further notions and sample data *)

(** The linear back-off of the write path: the delays awaited after the
    failed attempts [first, ..., first + count - 1]. *)
Definition writeWaits (first count : nat) : list Z :=
  map (fun i => Contract.TX_RETRY_BASE_DELAY_MS * Z.of_nat i) (seq first count).

(** Overrides with no EIP-1559 fee field. *)
Definition isLegacy (ov : Contract.TxOverrides) : Prop :=
  Contract.maxFeePerGas ov = None /\ Contract.maxPriorityFeePerGas ov = None.

(** A send that is refused once with the fee-mismatch message. *)
Definition feeMismatchOnce (attempt : nat) : Contract.Attempt unit :=
  {| Contract.estimateGas := Contract.estimateGas Samples.healthy;
     Contract.provider := true;
     Contract.signerAddress := Contract.signerAddress Samples.healthy;
     Contract.getTransactionCount := Contract.getTransactionCount Samples.healthy;
     Contract.getFeeData := Contract.getFeeData Samples.healthy;
     Contract.send := fun _ =>
       match attempt with
       | 1%nat => inl (Contract.newError
                         "maxFeePerGas cannot be less than maxPriorityFeePerGas")
       | _ => inr tt
       end |}.

(** The strings [keccak256] returns. *)
Definition isDigest (s : string) : Prop := exists data, s = Ethers.keccak256 data.

(** The order of two strings once lower-cased. *)
Definition caseOrder (a b : string) : Prop :=
  String.compare (Js.toLowerCase a) (Js.toLowerCase b) = Lt.

(** The comparison function [normalizeWalletList] sorts with. *)
Definition byCase (a b : string) : comparison :=
  Ethers.localeCompare (Js.toLowerCase a) (Js.toLowerCase b).

(** A pasted text: one address twice in two spellings, a second
    address, and a token that is no address. *)
(** Two addresses with a no-break space between them. *)
Definition noBreakWallets : string :=
  Samples.alice +:+ String (ascii_of_nat 160) EmptyString +:+ Samples.bob.

Definition pastedWallets : string :=
  "0xfb6916095ca1df60bb79ce92ce3ea74c37c5d359, not-a-wallet" +:+ Upsert.newline +:+
  "0x5aAeb6053F3E94C9b9A09f33669435E7Ef1BeAed  0xFB6916095CA1DF60BB79CE92CE3EA74C37C5D359".

(** The entries of an object in the order of their keys. *)
Definition keyOrder (a b : string * list string) : Prop := String.compare a.1 b.1 = Lt.

(** The entry [(key, proof)] is the last one of [entries] written under
    [key]. *)
Definition lastWritten (entries : list (string * option (list Upsert.Field)))
    (key : string) (proof : list string) : Prop :=
  exists before wallet raw after,
    entries = before ++ (wallet, Some raw) :: after /\
    Js.toLowerCase wallet = key /\ Upsert.strings raw = proof /\
    Forall (fun entry => Js.toLowerCase entry.1 <> key) after.

(** An entry the normalization loop of the endpoint accepts and leaves
    as it is. *)
Definition wellFormedEntry (cfg : Upsert.Config) (entry : string * list string) : Prop :=
  Upsert.isAddress entry.1 = true /\ Js.toLowerCase entry.1 = entry.1 /\
  Z.of_nat (length entry.2) <= Upsert.MAX_PROOF_DEPTH cfg /\
  Forall (fun sibling => Ethers.is0xHexOfLength 64 sibling = true) entry.2.

(** The [limited] flags of successive calls of [isRateLimited] for one
    client address, at the given clock reads. *)
Fixpoint limitedFlags (cfg : Upsert.Config) (buckets : gmap string (Z * Z)) (ip : string)
    (clocks : list Z) : list bool :=
  match clocks with
  | [] => []
  | now :: later =>
      let '(limited, _, buckets) := Upsert.isRateLimited cfg buckets now ip in
      limited :: limitedFlags cfg buckets ip later
  end.

(** A configuration with a window of one second that admits two
    requests, and with a KV store. *)
Definition strictLimits : Upsert.Config :=
  {| Upsert.CONTRACT_ADDRESS := Samples.alice;
     Upsert.CHAIN_ID := Upsert.Finite (inject_Z 6343);
     Upsert.RPC_URL := "https://carrot.megaeth.com/rpc";
     Upsert.RPC_FALLBACK_URLS := [];
     Upsert.ALLOWLIST_API_ORIGINS := [];
     Upsert.MAX_PROOF_WALLETS := 25000;
     Upsert.MAX_PROOF_DEPTH := 40;
     Upsert.RATE_LIMIT_WINDOW_MS := 1000;
     Upsert.RATE_LIMIT_MAX_REQUESTS := 2;
     Upsert.KV_REST_API_URL := "https://kv.example";
     Upsert.KV_REST_API_TOKEN := "token" |}.

(** The KV store is configured and its write succeeds. *)
Definition kvSaved (cfg : Upsert.Config) (w : Upsert.World) : bool :=
  Upsert.kvConfigured cfg &&
  match Upsert.kvSet w with Upsert.Done => true | Upsert.Failed _ => false end.

(** The KV lookup throws, or returns no string. *)
Definition yieldsNothing (answer : ProofApi.KvAnswer) : Prop :=
  answer = ProofApi.KvThrows \/ answer = ProofApi.KvResult None.

(** A JSON reader for the samples: every text is its own value. *)
Definition textJson : ProofApi.Json string :=
  {| ProofApi.JSON_parse := fun raw => Some raw; ProofApi.truthy := fun _ => true |}.

(** A [GET] for phase 1. *)
Definition getPhaseOne : ProofApi.Request :=
  {| ProofApi.method := "GET"; ProofApi.phaseId := Upsert.Finite (inject_Z 1) |}.

(** A world whose KV store is down and whose file for phase 1 holds
    [content]. *)
Definition fileOnly (content : string) : ProofApi.World :=
  {| ProofApi.kvGet := fun _ => ProofApi.KvThrows;
     ProofApi.readFile := fun path =>
       if String.eqb path "public/allowlists/phase-1.json" then Some content else None |}.

(** An entry of the proofs object as the endpoint reads it from the body. *)
Definition wire (entry : string * list string) : string * option (list Upsert.Field) :=
  (entry.1, Some (map Upsert.Str entry.2)).

(** The Merkle data of the sample wallets. *)
Definition sampleData : Admin.MerkleData :=
  default {| Admin.root := Ethers.HashZero; Admin.proofs := ∅ |}
          (Admin.buildAllowlistMerkleData Samples.wallets).

(** A wallet whose [signMessage] answers the object form with [bob]'s
    signature. *)
Definition sampleWallet : AdminPage.Wallet :=
  {| AdminPage.hasSignMessage := true;
     AdminPage.signObject := fun _ => AdminPage.Resolves (Upsert.Str Samples.signature);
     AdminPage.signText := fun _ => AdminPage.Rejects None;
     AdminPage.signerSignMessage := fun _ => AdminPage.Rejects None |}.

(** A network that delivers the request to the endpoint and the endpoint's
    answer to the page. *)
Definition sampleFetch (request : Upsert.Request) : AdminPage.Fetched :=
  match (Upsert.handler Samples.cfg Samples.platform Samples.freshState request
           (Samples.world 1700000001000)).1.1 with
  | Upsert.Json status body =>
      AdminPage.Responds ((200 <=? status) && (status <=? 299)) (Some body)
  | Upsert.Unhandled => AdminPage.Responds false None
  end.

(** What the admin page posts for the sample wallets and phase 1, signed
    by [bob]'s wallet. *)
Definition sampleRequest : Upsert.Request :=
  AdminPage.publishRequest Samples.request (Upsert.Finite 1) (Admin.root sampleData)
    (map_to_list (Admin.proofs sampleData)) (Upsert.Finite (inject_Z (Z.of_nat 3)))
    "2023-11-14T22:13:20.000Z" Samples.bob
    (AdminPage.buildProofsHash (map_to_list (Admin.proofs sampleData)))
    1700000000000 (Upsert.Str Samples.signature).

(** A world whose file system is read-only. *)
Definition readOnlyWorld : Upsert.World :=
  {| Upsert.rateNow := 1700000001000;
     Upsert.now := 1700000001000;
     Upsert.cleanupNow := 1700000001000;
     Upsert.isoNow := "2023-11-14T22:13:21.000Z";
     Upsert.owner := inr Samples.bob;
     Upsert.mkdir := Upsert.Failed (Some "EROFS: read-only file system");
     Upsert.readFile := None;
     Upsert.writeFile := Upsert.Failed None;
     Upsert.kvSet := Upsert.Failed None |}.

(** The members [extractRpcErrorMessage] reads. *)
Definition members (error : Contract.RpcError) : list (option string) :=
  [ Contract.reason error; Contract.shortMessage error; Contract.message error;
    Contract.error_reason error; Contract.error_message error; Contract.data_message error;
    Contract.data_originalError_message error; Contract.error_data_message error;
    Contract.error_data_originalError_message error; Contract.info_error_message error ].

(** An estimate failure whose revert reason sits in the innermost
    message. *)
Definition nestedRevert : Contract.RpcError :=
  {| Contract.reason := None; Contract.shortMessage := None;
     Contract.message := Some "cannot estimate gas";
     Contract.error_reason := None; Contract.error_message := None;
     Contract.data_message := None; Contract.data_originalError_message := None;
     Contract.error_data_message := None;
     Contract.error_data_originalError_message := Some "Execution reverted: Not allowlisted";
     Contract.info_error_message := None; Contract.code := Some "UNPREDICTABLE_GAS_LIMIT" |}.

(** The buckets after [isRateLimited] has run for each of the requests,
    given by their clock read and their client address. *)
Fixpoint countRequests (cfg : Upsert.Config) (buckets : gmap string (Z * Z))
    (requests : list (Z * string)) : gmap string (Z * Z) :=
  match requests with
  | [] => buckets
  | (now, ip) :: later =>
      countRequests cfg (Upsert.isRateLimited cfg buckets now ip).2 later
  end.

(** Three requests of another client within one second. *)
Definition crowd : list (Z * string) :=
  [ (1700000000000, "198.51.100.1"); (1700000000100, "198.51.100.1");
    (1700000000200, "198.51.100.1") ].

(** The sample request sent from another site. *)
Definition foreignRequest : Upsert.Request :=
  {| Upsert.method := "POST";
     Upsert.origin := Upsert.Single "https://evil.example";
     Upsert.x_forwarded_for := Upsert.x_forwarded_for Samples.request;
     Upsert.x_forwarded_proto := Upsert.x_forwarded_proto Samples.request;
     Upsert.x_forwarded_host := Upsert.x_forwarded_host Samples.request;
     Upsert.host := Upsert.host Samples.request;
     Upsert.remoteAddress := Upsert.remoteAddress Samples.request;
     Upsert.contentType := Upsert.contentType Samples.request;
     Upsert.phaseId := Upsert.phaseId Samples.request;
     Upsert.root := Upsert.root Samples.request;
     Upsert.proofs := Upsert.proofs Samples.request;
     Upsert.total := Upsert.total Samples.request;
     Upsert.mode := Upsert.mode Samples.request;
     Upsert.generatedAt := Upsert.generatedAt Samples.request;
     Upsert.signer := Upsert.signer Samples.request;
     Upsert.proofsHash := Upsert.proofsHash Samples.request;
     Upsert.timestamp := Upsert.timestamp Samples.request;
     Upsert.signature := Upsert.signature Samples.request |}.

(** The response carries the proofs object of [data]. *)
Definition carries {J} (json : MintPage.Json J string) (data : Admin.MerkleData)
    (answer : MintPage.Fetched J) : Prop :=
  exists body,
    answer = MintPage.Responds true (Some body) /\
    forall key, MintPage.proofsMember json body key = Admin.proofs data !! key.

(** The request does not give the page a body. *)
Definition givesNothing {J} (answer : MintPage.Fetched J) : Prop :=
  match answer with
  | MintPage.Responds true (Some _) => False
  | _ => True
  end.

(** The proofs object as a JSON body. *)
Definition dataJson : MintPage.Json Admin.MerkleData string :=
  {| MintPage.proofsMember := fun body key => Admin.proofs body !! key |}.

(** A site whose proof API is down and whose static file for phase 1
    carries the sample data. *)
Definition staticOnly (url : string) : MintPage.Fetched Admin.MerkleData :=
  if String.eqb url "/allowlists/phase-1.json"
  then MintPage.Responds true (Some sampleData)
  else MintPage.Responds false None.

(** The site serves the proofs object of [data]: the proof API carries it
    and the static file carries it or gives nothing, or the proof API gives
    nothing and the static file carries it. *)
Definition serves {J} (json : MintPage.Json J string) (data : Admin.MerkleData)
    (api file : MintPage.Fetched J) : Prop :=
  (carries json data api /\ (carries json data file \/ givesNothing file)) \/
  (givesNothing api /\ carries json data file).

(** The Merkle data of a list that holds [bob] alone. *)
Definition bobAlone : Admin.MerkleData :=
  default {| Admin.root := Ethers.HashZero; Admin.proofs := ∅ |}
          (Admin.buildAllowlistMerkleData [Samples.bob]).

(** A site whose proof API and static file both carry [bobAlone]. *)
Definition bobOnly (url : string) : MintPage.Fetched Admin.MerkleData :=
  MintPage.Responds true (Some bobAlone).

(** * Properties *)

(** ** Transaction overrides *)

Ltac break_match :=
  match goal with
  | |- context [match ?x with _ => _ end] => destruct x eqn:?
  | |- context [if ?x then _ else _] => destruct x eqn:?
  end.

Lemma buildTxOverrides_gasLimit Tx (contract : Contract.Attempt Tx) fallbackGasLimit value
    forceLegacy ov :
  Contract.buildTxOverrides contract fallbackGasLimit value forceLegacy = inr ov ->
  exists g, Contract.gasLimit ov = Some g /\
    match Contract.estimateGas contract with
    | Some (inr estimated) =>
        g = Z.quot (estimated * Contract.GAS_LIMIT_BUFFER_NUMERATOR)
                   Contract.GAS_LIMIT_BUFFER_DENOMINATOR
    | _ => g = fallbackGasLimit
    end.
Proof.
  unfold Contract.buildTxOverrides.
  destruct (Contract.estimateGas contract) as [[e|estimated]|] eqn:He.
  - destruct (Contract.isLikelyRevertReason _); [discriminate|].
    intros [= <-]. eexists; split; [|reflexivity].
    repeat break_match; reflexivity.
  - intros [= <-]. eexists; split; [|reflexivity].
    repeat break_match; reflexivity.
  - intros [= <-]. eexists; split; [|reflexivity].
    repeat break_match; reflexivity.
Qed.

(** C4.  When the gas estimate succeeds with a (non-negative) estimate [E],
    [buildTxOverrides] returns overrides whose [gasLimit] is
    [floor (E * 12 / 10)]; for [E = 100000] that is exactly [120000]. *)
Theorem gas_buffer_exact Tx (contract : Contract.Attempt Tx) fallbackGasLimit value
    forceLegacy (E : Z)
    (Hestimate : Contract.estimateGas contract = Some (inr E))
    (Hnonneg : 0 <= E) :
  exists ov,
    Contract.buildTxOverrides contract fallbackGasLimit value forceLegacy = inr ov /\
    Contract.gasLimit ov = Some (E * 12 / 10) /\
    (E = 100000 -> Contract.gasLimit ov = Some 120000).
Proof.
  destruct (Contract.buildTxOverrides contract fallbackGasLimit value forceLegacy)
    as [e|ov] eqn:Hb.
  - exfalso. unfold Contract.buildTxOverrides in Hb. rewrite Hestimate in Hb. discriminate.
  - exists ov. split; [reflexivity|].
    destruct (buildTxOverrides_gasLimit _ _ _ _ _ _ Hb) as [g [Hg Hv]].
    rewrite Hestimate in Hv. subst g.
    unfold Contract.GAS_LIMIT_BUFFER_NUMERATOR, Contract.GAS_LIMIT_BUFFER_DENOMINATOR in Hg.
    rewrite Z.quot_div_nonneg in Hg by lia.
    split; [exact Hg|]. intros ->. exact Hg.
Qed.

(** Witness for C4: an estimate of 100000. *)
Lemma gas_buffer_exact_witness :
  Contract.estimateGas Samples.healthy = Some (inr 100000) /\
  0 <= 100000 /\
  exists ov,
    Contract.buildTxOverrides Samples.healthy 280000 None false = inr ov /\
    Contract.gasLimit ov = Some (100000 * 12 / 10) /\
    (100000 = 100000 -> Contract.gasLimit ov = Some 120000).
Proof.
  split; [reflexivity|]. split; [lia|].
  apply (gas_buffer_exact unit Samples.healthy 280000 None false 100000); [reflexivity|lia].
Defined.

Lemma buildTxOverrides_nonce Tx (contract : Contract.Attempt Tx) fallbackGasLimit value
    forceLegacy ov :
  Contract.buildTxOverrides contract fallbackGasLimit value forceLegacy = inr ov ->
  Contract.nonce ov =
    if Contract.provider contract && Js.truthy (Contract.signerAddress contract)
    then
      match Contract.getTransactionCount contract with
      | Some (latestNonce, pendingNonce) =>
          Some (if Contract.SUSPICIOUS_NONCE_GAP <? Z.max 0 (pendingNonce - latestNonce)
                then latestNonce else pendingNonce)
      | None => None
      end
    else None.
Proof.
  unfold Contract.buildTxOverrides.
  destruct (match Contract.estimateGas contract with
            | Some (inr _) => _ | Some (inl _) => _ | None => _ end) as [e|g];
    [discriminate|].
  intros [= <-].
  destruct (Contract.provider contract && Js.truthy (Contract.signerAddress contract));
    [destruct (Contract.getTransactionCount contract) as [[l p]|]|];
    repeat break_match; reflexivity.
Qed.

(** C5.  When both transaction counts are read, the [nonce] override is the
    pending count if [pending - latest <= 25] and the latest count if the
    gap exceeds 25; for [latest = 10], [pending = 40] it is [10]. *)
Theorem nonce_gap_resolution Tx (contract : Contract.Attempt Tx) fallbackGasLimit value
    forceLegacy (latest pending : Z) ov
    (Hprovider : Contract.provider contract = true)
    (Hsigner : Js.truthy (Contract.signerAddress contract) = true)
    (Hcounts : Contract.getTransactionCount contract = Some (latest, pending))
    (Hbuilt : Contract.buildTxOverrides contract fallbackGasLimit value forceLegacy = inr ov) :
  Contract.nonce ov = Some (if pending - latest <=? 25 then pending else latest) /\
  (latest = 10 -> pending = 40 -> Contract.nonce ov = Some 10).
Proof.
  apply buildTxOverrides_nonce in Hbuilt.
  rewrite Hprovider, Hsigner, Hcounts in Hbuilt. simpl in Hbuilt.
  unfold Contract.SUSPICIOUS_NONCE_GAP in Hbuilt.
  assert (Hn : Contract.nonce ov = Some (if pending - latest <=? 25 then pending else latest)).
  { rewrite Hbuilt. f_equal.
    destruct (Z.ltb_spec 25 (Z.max 0 (pending - latest)));
      destruct (Z.leb_spec (pending - latest) 25); try reflexivity; lia. }
  split; [exact Hn|].
  intros -> ->. exact Hn.
Qed.

(** Witness for C5: the counts 10 and 40. *)
Lemma nonce_gap_resolution_witness :
  Contract.provider Samples.healthy = true /\
  Js.truthy (Contract.signerAddress Samples.healthy) = true /\
  Contract.getTransactionCount Samples.healthy = Some (10, 40) /\
  Contract.buildTxOverrides Samples.healthy 280000 None false
    = inr Samples.healthyOverrides /\
  Contract.nonce Samples.healthyOverrides = Some (if 40 - 10 <=? 25 then 40 else 10) /\
  (10 = 10 -> 40 = 40 -> Contract.nonce Samples.healthyOverrides = Some 10).
Proof.
  split; [reflexivity|]. split; [reflexivity|]. split; [reflexivity|].
  split; [reflexivity|].
  apply (nonce_gap_resolution unit Samples.healthy 280000 None false 10 40
           Samples.healthyOverrides); reflexivity.
Defined.

Lemma buildTxOverrides_fees1559 Tx (contract : Contract.Attempt Tx) fallbackGasLimit value ov fd :
  Contract.buildTxOverrides contract fallbackGasLimit value false = inr ov ->
  Contract.provider contract = true ->
  Contract.getFeeData contract = Some (Some (Some fd)) ->
  Contract.isSome (Contract.fd_maxFeePerGas fd) ||
    Contract.isSome (Contract.fd_maxPriorityFeePerGas fd) = true ->
  let reportedPriority := Contract.bigNumberOrZero (Contract.fd_maxPriorityFeePerGas fd) in
  let reportedFee := Contract.bigNumberOrZero (Contract.fd_maxFeePerGas fd) in
  let priority1 :=
    match Contract.fd_gasPrice fd with
    | Some gasPrice => if reportedPriority <=? 0 then gasPrice else reportedPriority
    | None => reportedPriority
    end in
  let priority := if priority1 <=? 0 then Contract.ONE_GWEI else priority1 in
  let fee1 :=
    match Contract.fd_gasPrice fd with
    | Some gasPrice => if reportedFee <=? 0 then gasPrice else reportedFee
    | None => reportedFee
    end in
  let fee := if fee1 <=? priority then priority * 2 else fee1 in
  Contract.maxPriorityFeePerGas ov = Some priority /\
  Contract.maxFeePerGas ov = Some fee.
Proof.
  unfold Contract.buildTxOverrides.
  destruct (match Contract.estimateGas contract with
            | Some (inr _) => _ | Some (inl _) => _ | None => _ end) as [e|g];
    [discriminate|].
  intros [= <-] Hp Hf H1559.
  rewrite Hp, Hf. cbn [negb andb Contract.feeMember]. rewrite H1559.
  split; reflexivity.
Qed.

(** C6 (amended).  Whenever [buildTxOverrides] emits EIP-1559 overrides (the
    fee data carries a 1559 member and legacy mode is not forced), the
    emitted [maxFeePerGas] is at least (in fact above) the emitted
    [maxPriorityFeePerGas], which is positive; and when the provider
    reports a zero or absent priority fee, the emitted priority fee is the
    reported [gasPrice] if that is present and positive, and exactly 1 gwei
    otherwise. *)
Theorem eip1559_fee_consistency Tx (contract : Contract.Attempt Tx) fallbackGasLimit value ov fd
    (Hbuilt : Contract.buildTxOverrides contract fallbackGasLimit value false = inr ov)
    (Hprovider : Contract.provider contract = true)
    (Hfee : Contract.getFeeData contract = Some (Some (Some fd)))
    (H1559 : Contract.isSome (Contract.fd_maxFeePerGas fd) ||
             Contract.isSome (Contract.fd_maxPriorityFeePerGas fd) = true) :
  exists priority fee,
    Contract.maxPriorityFeePerGas ov = Some priority /\
    Contract.maxFeePerGas ov = Some fee /\
    priority <= fee /\ priority < fee /\ 0 < priority /\
    (Contract.bigNumberOrZero (Contract.fd_maxPriorityFeePerGas fd) <= 0 ->
     match Contract.fd_gasPrice fd with
     | Some gasPrice => if 0 <? gasPrice then priority = gasPrice
                        else priority = Contract.ONE_GWEI
     | None => priority = Contract.ONE_GWEI
     end).
Proof.
  destruct (buildTxOverrides_fees1559 _ _ _ _ _ _ Hbuilt Hprovider Hfee H1559) as [Hp Hf].
  cbv zeta in Hp, Hf.
  eexists; eexists. split; [exact Hp|]. split; [exact Hf|].
  unfold Contract.ONE_GWEI.
  set (rp := Contract.bigNumberOrZero (Contract.fd_maxPriorityFeePerGas fd)).
  set (rf := Contract.bigNumberOrZero (Contract.fd_maxFeePerGas fd)).
  destruct (Z.leb_spec rp 0); destruct (Z.leb_spec rf 0);
    destruct (Contract.fd_gasPrice fd) as [g|];
    repeat match goal with
           | |- context [?a <=? ?b] => destruct (Z.leb_spec a b)
           | |- context [?a <? ?b] => destruct (Z.ltb_spec a b)
           end; repeat split; intros; lia.
Qed.

(** Witness for C6 (amended): a zero priority fee next to a gas price of
    0.001 gwei. *)
Lemma eip1559_fee_consistency_witness :
  Contract.buildTxOverrides Samples.healthy 280000 None false
    = inr Samples.healthyOverrides /\
  Contract.provider Samples.healthy = true /\
  Contract.getFeeData Samples.healthy = Some (Some (Some Samples.healthyFees)) /\
  Contract.isSome (Contract.fd_maxFeePerGas Samples.healthyFees) ||
    Contract.isSome (Contract.fd_maxPriorityFeePerGas Samples.healthyFees) = true /\
  exists priority fee,
    Contract.maxPriorityFeePerGas Samples.healthyOverrides = Some priority /\
    Contract.maxFeePerGas Samples.healthyOverrides = Some fee /\
    priority <= fee /\ priority < fee /\ 0 < priority /\
    (Contract.bigNumberOrZero (Contract.fd_maxPriorityFeePerGas Samples.healthyFees) <= 0 ->
     match Contract.fd_gasPrice Samples.healthyFees with
     | Some gasPrice => if 0 <? gasPrice then priority = gasPrice
                        else priority = Contract.ONE_GWEI
     | None => priority = Contract.ONE_GWEI
     end).
Proof.
  split; [reflexivity|]. split; [reflexivity|]. split; [reflexivity|].
  split; [reflexivity|].
  apply (eip1559_fee_consistency unit Samples.healthy 280000 None
           Samples.healthyOverrides Samples.healthyFees); reflexivity.
Defined.

(** C6 as stated does not hold: with a reported priority fee of zero and a
    reported gas price of 0.001 gwei the emitted priority fee is that gas
    price, below 1 gwei. *)
Lemma eip1559_floor_counterexample :
  ~ (forall (contract : Contract.Attempt unit) fallbackGasLimit value ov fd,
       Contract.buildTxOverrides contract fallbackGasLimit value false = inr ov ->
       Contract.provider contract = true ->
       Contract.getFeeData contract = Some (Some (Some fd)) ->
       Contract.isSome (Contract.fd_maxFeePerGas fd) ||
         Contract.isSome (Contract.fd_maxPriorityFeePerGas fd) = true ->
       exists priority fee,
         Contract.maxPriorityFeePerGas ov = Some priority /\
         Contract.maxFeePerGas ov = Some fee /\
         priority <= fee /\
         (Contract.fd_maxPriorityFeePerGas fd = None \/
          Contract.fd_maxPriorityFeePerGas fd = Some 0 ->
          Contract.ONE_GWEI <= priority)).
Proof.
  intros H.
  pose (fd := {| Contract.fd_maxFeePerGas := Some 2000000;
                 Contract.fd_maxPriorityFeePerGas := Some 0;
                 Contract.fd_gasPrice := Some 1000000 |}).
  pose (contract := {| Contract.estimateGas := Some (inr 100000);
                       Contract.provider := true;
                       Contract.signerAddress := None;
                       Contract.getTransactionCount := None;
                       Contract.getFeeData := Some (Some (Some fd));
                       Contract.send := fun _ : Contract.TxOverrides => inr tt |}).
  destruct (H contract 280000 None _ fd eq_refl eq_refl eq_refl eq_refl)
    as [priority [fee [Hp [_ [_ Hfloor]]]]].
  cbn in Hp. injection Hp as <-.
  specialize (Hfloor (or_intror eq_refl)). unfold Contract.ONE_GWEI in Hfloor. lia.
Qed.

(** ** Simulated reverts *)

Lemma isLikelyRevertReason_nonempty message :
  Contract.isLikelyRevertReason message = true -> String.eqb message "" = false.
Proof.
  destruct (String.eqb_spec message ""); [subst; discriminate|reflexivity].
Qed.

(** C7 (amended).  For a gas-estimation failure whose extracted message,
    lower-cased, contains one of "execution reverted", "revert", "owner",
    "metadata frozen", "already frozen", "invalid", "not allowlisted",
    "insufficient funds", [buildTxOverrides] throws an error carrying that
    message, and, when that message matches no retryable write pattern, the
    send loop rethrows it on that attempt: nothing is submitted, no delay is
    awaited, no further attempt is made.  For any other estimation failure
    the error is swallowed and the overrides carry the fallback gas limit. *)
Theorem simulated_revert_fast_fail Tx (contract : nat -> Contract.Attempt Tx)
    fallbackGasLimit value maxAttempts remaining attempt forceLegacy lastError estimateError
    (Hestimate : Contract.estimateGas (contract attempt) = Some (inl estimateError)) :
  let estimateMessage := Contract.extractRpcErrorMessage estimateError in
  if Contract.isLikelyRevertReason estimateMessage
  then
    Contract.buildTxOverrides (contract attempt) fallbackGasLimit value forceLegacy
      = inl (Contract.newError estimateMessage) /\
    (Contract.isRetryableWriteTxError (Contract.newError estimateMessage) = false ->
     Contract.sendContractTx_loop contract fallbackGasLimit value maxAttempts
       (S remaining) attempt forceLegacy lastError
     = {| Contract.run :=
            {| Contract.settled := Contract.Thrown (Some (Contract.newError estimateMessage));
               Contract.sleeps := []; Contract.calls := 1 |};
          Contract.submitted := [] |})
  else
    exists ov,
      Contract.buildTxOverrides (contract attempt) fallbackGasLimit value forceLegacy = inr ov /\
      Contract.gasLimit ov = Some fallbackGasLimit.
Proof.
  intros estimateMessage.
  destruct (Contract.isLikelyRevertReason estimateMessage) eqn:Hrevert.
  - assert (Hbuilt : Contract.buildTxOverrides (contract attempt) fallbackGasLimit value
                       forceLegacy = inl (Contract.newError estimateMessage)).
    { unfold Contract.buildTxOverrides. rewrite Hestimate.
      fold estimateMessage. rewrite Hrevert.
      rewrite (isLikelyRevertReason_nonempty _ Hrevert). reflexivity. }
    split; [exact Hbuilt|].
    intros Hretry. cbn [Contract.sendContractTx_loop].
    rewrite Hbuilt, Hretry. rewrite orb_true_r. reflexivity.
  - destruct (Contract.buildTxOverrides (contract attempt) fallbackGasLimit value forceLegacy)
      as [e|ov] eqn:Hbuilt.
    + exfalso. unfold Contract.buildTxOverrides in Hbuilt. rewrite Hestimate in Hbuilt.
      fold estimateMessage in Hbuilt. rewrite Hrevert in Hbuilt. discriminate.
    + exists ov. split; [reflexivity|].
      destruct (buildTxOverrides_gasLimit _ _ _ _ _ _ Hbuilt) as [g [Hg Hv]].
      rewrite Hestimate in Hv. subst g. exact Hg.
Qed.

(** Witness for C7 (amended): a simulated "Not allowlisted" revert. *)
Lemma simulated_revert_fast_fail_witness :
  let contract := fun _ : nat =>
    Samples.failingEstimate "execution reverted: Not allowlisted" in
  let thrown := Contract.newError "execution reverted: Not allowlisted" in
  Contract.estimateGas (contract 1%nat) = Some (inl thrown) /\
  Contract.buildTxOverrides (contract 1%nat) 280000 None false = inl thrown /\
  (Contract.isRetryableWriteTxError thrown = false ->
   Contract.sendContractTx_loop contract 280000 None 3 3 1 false None
   = {| Contract.run :=
          {| Contract.settled := Contract.Thrown (Some thrown);
             Contract.sleeps := []; Contract.calls := 1 |};
        Contract.submitted := [] |}).
Proof.
  intros contract thrown. split; [reflexivity|].
  exact (simulated_revert_fast_fail unit contract 280000 None 3 2 1%nat false None thrown
           eq_refl).
Defined.

(** C7 as stated does not hold, in two ways.  An estimation failure whose
    message is "token is frozen" contains the listed keyword "frozen", yet
    the code does not take it for a revert: the transaction is submitted
    with the fallback gas limit.  And a message the code does take for a
    revert is retried when it also matches a retryable write pattern:
    "execution reverted: mint timeout" is attempted three times, with the
    delays 350 and 700 in between. *)
Lemma revert_keyword_counterexample :
  ~ (forall (contract : nat -> Contract.Attempt unit) methodName options estimateError,
       Contract.estimateGas (contract 1%nat) = Some (inl estimateError) ->
       Spec.matchesRevertKeyword (Contract.extractRpcErrorMessage estimateError) = true ->
       let sent := Contract.sendContractTxWithBufferedGas true methodName contract options in
       Contract.run sent
       = {| Contract.settled :=
              Contract.Thrown
                (Some (Contract.newError (Contract.extractRpcErrorMessage estimateError)));
            Contract.sleeps := []; Contract.calls := 1 |} /\
       Contract.submitted sent = []) /\
  ~ (forall (contract : nat -> Contract.Attempt unit) methodName options estimateError,
       (forall attempt, Contract.estimateGas (contract attempt) = Some (inl estimateError)) ->
       Contract.isLikelyRevertReason (Contract.extractRpcErrorMessage estimateError) = true ->
       let sent := Contract.sendContractTxWithBufferedGas true methodName contract options in
       Contract.sleeps (Contract.run sent) = [] /\ Contract.calls (Contract.run sent) = 1%nat).
Proof.
  split.
  - intros H.
    destruct (H (fun _ => Samples.failingEstimate "token is frozen") "freezeMetadata"
                Samples.noOptions _ eq_refl eq_refl) as [Hrun _].
    vm_compute in Hrun. discriminate.
  - intros H.
    destruct (H (fun _ => Samples.failingEstimate "execution reverted: mint timeout")
                "publicMint" Samples.noOptions _ (fun _ => eq_refl) eq_refl) as [Hsleeps _].
    vm_compute in Hsleeps. discriminate.
Qed.

(** ** Read retries *)

Lemma withReadRetry_loop_settles T cfg (task : nat -> Contract.RpcError + T) :
  forall (count remaining attempt : nat) lastError,
    (0 < remaining)%nat ->
    (forall i, (attempt <= i < attempt + count)%nat ->
               exists e, task i = inl e /\ Contract.isRetryableRpcError e = true) ->
    (Z.of_nat (attempt + count) <= Contract.READ_RETRY_ATTEMPTS cfg) ->
    (count < remaining)%nat ->
    match task (attempt + count)%nat with
    | inr _ => True
    | inl e => Contract.isRetryableRpcError e = false \/
               Z.of_nat (attempt + count) = Contract.READ_RETRY_ATTEMPTS cfg
    end ->
    Contract.withReadRetry_loop cfg task remaining attempt lastError
    = {| Contract.settled :=
           match task (attempt + count)%nat with
           | inr v => Contract.Returned v
           | inl e => Contract.Thrown (Some e)
           end;
         Contract.sleeps := readWaits cfg attempt count;
         Contract.calls := S count |}.
Proof.
  induction count as [|count IH]; intros remaining attempt lastError Hrem Hearlier Hle Hlt Hfinal.
  - rewrite Nat.add_0_r in *. destruct remaining as [|remaining]; [lia|].
    cbn [Contract.withReadRetry_loop].
    destruct (task attempt) as [e|v]; [|reflexivity].
    destruct Hfinal as [Hno|Hlast].
    + rewrite Hno. rewrite orb_true_r. reflexivity.
    + rewrite Hlast, Z.leb_refl. reflexivity.
  - destruct remaining as [|remaining]; [lia|].
    cbn [Contract.withReadRetry_loop].
    destruct (Hearlier attempt ltac:(lia)) as [e [He Hretry]].
    rewrite He, Hretry.
    replace (Contract.READ_RETRY_ATTEMPTS cfg <=? Z.of_nat attempt) with false
      by (symmetry; apply Z.leb_gt; lia).
    cbn [orb negb].
    replace (attempt + S count)%nat with (S attempt + count)%nat in * by lia.
    rewrite (IH remaining (S attempt) (Some e)); try assumption; try lia.
    + unfold readWaits. cbn [seq map filter].
      unfold Contract.sleepIfPositive, Contract.called. cbn.
      destruct (0 <? Contract.READ_RETRY_DELAY_MS cfg * Z.of_nat attempt); reflexivity.
    + intros i Hi. apply Hearlier. lia.
Qed.

(** C8.  Let the first [k - 1] attempts fail with retryable errors and let
    attempt [k] (at most [READ_RETRY_ATTEMPTS]) either succeed, or fail with
    a non-retryable error, or be the last attempt allowed.  Then
    [withReadRetry] invokes the task exactly [k] times, awaits
    [READ_RETRY_DELAY_MS * i] after each failed attempt [i < k] (a zero
    delay is not awaited) and nothing after attempt [k], and settles with
    the result of attempt [k]: its value, or its error.  In particular a
    non-retryable failure of the first attempt is propagated after exactly
    one attempt and without any delay. *)
Theorem read_retry_policy T cfg (task : nat -> Contract.RpcError + T) (k : nat)
    (Hk : (1 <= k)%nat /\ Z.of_nat k <= Contract.READ_RETRY_ATTEMPTS cfg)
    (Hearlier : forall i, (1 <= i < k)%nat ->
                  exists e, task i = inl e /\ Contract.isRetryableRpcError e = true)
    (Hfinal : match task k with
              | inr _ => True
              | inl e => Contract.isRetryableRpcError e = false \/
                         Z.of_nat k = Contract.READ_RETRY_ATTEMPTS cfg
              end) :
  Contract.withReadRetry cfg task
  = {| Contract.settled :=
         match task k with
         | inr v => Contract.Returned v
         | inl e => Contract.Thrown (Some e)
         end;
       Contract.sleeps :=
         filter (fun waitMs => 0 <? waitMs)
                (map (fun i => Contract.READ_RETRY_DELAY_MS cfg * Z.of_nat i)
                     (seq 1 (k - 1)));
       Contract.calls := k |} /\
  (k = 1%nat ->
   forall e, task 1%nat = inl e ->
     Contract.withReadRetry cfg task
     = {| Contract.settled := Contract.Thrown (Some e);
          Contract.sleeps := []; Contract.calls := 1 |}).
Proof.
  assert (Hmain : Contract.withReadRetry cfg task
    = {| Contract.settled :=
           match task k with
           | inr v => Contract.Returned v
           | inl e => Contract.Thrown (Some e)
           end;
         Contract.sleeps := readWaits cfg 1 (k - 1);
         Contract.calls := k |}).
  { unfold Contract.withReadRetry.
    destruct Hk as [Hk1 Hk2].
    replace k with (1 + (k - 1))%nat in Hfinal |- * at 1 2 by lia.
    rewrite (withReadRetry_loop_settles T cfg task (k - 1)); try lia.
    - replace (S (k - 1)) with k by lia.
      replace (1 + (k - 1) - 1)%nat with (k - 1)%nat by lia. reflexivity.
    - intros i Hi. apply Hearlier. lia.
    - exact Hfinal. }
  split; [exact Hmain|].
  intros -> e He. rewrite Hmain, He. reflexivity.
Qed.

(** Witness for C8: a read that times out once and then succeeds. *)
Lemma read_retry_policy_witness :
  ((1 <= 2)%nat /\ Z.of_nat 2 <= Contract.READ_RETRY_ATTEMPTS Samples.defaults) /\
  (forall i, (1 <= i < 2)%nat ->
     exists e, Samples.flakyRead i = inl e /\ Contract.isRetryableRpcError e = true) /\
  Contract.withReadRetry Samples.defaults Samples.flakyRead
  = {| Contract.settled := Contract.Returned 7;
       Contract.sleeps := [250];
       Contract.calls := 2 |}.
Proof.
  assert (Hk : (1 <= 2)%nat /\ Z.of_nat 2 <= Contract.READ_RETRY_ATTEMPTS Samples.defaults)
    by (split; [lia|vm_compute; discriminate]).
  assert (Hearlier : forall i, (1 <= i < 2)%nat ->
            exists e, Samples.flakyRead i = inl e /\ Contract.isRetryableRpcError e = true).
  { intros i Hi. assert (i = 1%nat) by lia. subst i.
    eexists. split; reflexivity. }
  split; [exact Hk|]. split; [exact Hearlier|].
  exact (proj1 (read_retry_policy Z Samples.defaults Samples.flakyRead 2 Hk Hearlier I)).
Defined.

(** ** Hex data *)

Lemma nibble_check (P : Z -> bool) :
  forallb P (map Z.of_nat (seq 0 16)) = true ->
  forall n, 0 <= n < 16 -> P n = true.
Proof.
  intros Hall n Hn. rewrite forallb_forall in Hall. apply Hall.
  apply in_map_iff. exists (Z.to_nat n). split; [lia|apply in_seq; lia].
Qed.

Lemma hexValue_hexDigit n :
  0 <= n < 16 -> Ethers.hexValue (Ethers.hexDigit n) = Some n.
Proof.
  intros Hn.
  pose proof (nibble_check
                (fun k => match Ethers.hexValue (Ethers.hexDigit k) with
                          | Some v => v =? k
                          | None => false
                          end) eq_refl n Hn) as Hcheck.
  cbv beta in Hcheck.
  destruct (Ethers.hexValue (Ethers.hexDigit n)) as [v|]; [|discriminate].
  apply Z.eqb_eq in Hcheck. congruence.
Qed.

Lemma lowerChar_hexDigit n :
  0 <= n < 16 -> Js.lowerChar (Ethers.hexDigit n) = Ethers.hexDigit n.
Proof.
  intros Hn. apply Ascii.eqb_eq.
  exact (nibble_check
           (fun k => Ascii.eqb (Js.lowerChar (Ethers.hexDigit k)) (Ethers.hexDigit k))
           eq_refl n Hn).
Qed.

Lemma parseHexPairs_hexOfBytes bs :
  is_Some (Ethers.parseHexPairs (Ethers.hexOfBytes bs)).
Proof.
  induction bs as [|b bs [parsed IH]]; [eexists; reflexivity|].
  cbn [Ethers.hexOfBytes Ethers.parseHexPairs].
  rewrite !hexValue_hexDigit by (apply Z.mod_pos_bound; lia).
  rewrite IH. eexists; reflexivity.
Qed.

Lemma toLowerCase_hexOfBytes bs :
  Js.toLowerCase (Ethers.hexOfBytes bs) = Ethers.hexOfBytes bs.
Proof.
  induction bs as [|b bs IH]; [reflexivity|].
  cbn [Ethers.hexOfBytes Js.toLowerCase].
  rewrite !lowerChar_hexDigit by (apply Z.mod_pos_bound; lia).
  rewrite IH. reflexivity.
Qed.

Lemma arrayify_hexData s : isHexData s -> is_Some (Ethers.arrayify s).
Proof. intros [bs ->]. apply parseHexPairs_hexOfBytes. Qed.

Lemma toLowerCase_hexData s : isHexData s -> Js.toLowerCase s = s.
Proof.
  intros [bs ->].
  change (Ethers.hexlify bs) with (String "0" (String "x" (Ethers.hexOfBytes bs))).
  cbn [Js.toLowerCase]. rewrite toLowerCase_hexOfBytes. reflexivity.
Qed.

Lemma keccak256_hexData data : isHexData (Ethers.keccak256 data).
Proof. eexists; reflexivity. Qed.

(** ** The sorted-pair hash *)

Lemma hashMerklePair_hexData a b :
  isHexData a -> isHexData b ->
  exists h, Admin.hashMerklePair a b = Some h /\ Admin.hashMerklePair b a = Some h /\
            isHexData h.
Proof.
  intros Ha Hb.
  destruct (arrayify_hexData a Ha) as [xa Hxa], (arrayify_hexData b Hb) as [xb Hxb].
  unfold Admin.hashMerklePair.
  rewrite (toLowerCase_hexData a Ha), (toLowerCase_hexData b Hb).
  destruct (String.leb a b) eqn:Hab, (String.leb b a) eqn:Hba.
  - assert (a = b) by (apply String.leb_antisym; assumption). subst b.
    unfold Ethers.concat. cbn. rewrite Hxa. cbn.
    eexists. repeat split; try reflexivity. apply keccak256_hexData.
  - unfold Ethers.concat. cbn. rewrite Hxa, Hxb. cbn.
    eexists. repeat split; try reflexivity. apply keccak256_hexData.
  - unfold Ethers.concat. cbn. rewrite Hxa, Hxb. cbn.
    eexists. repeat split; try reflexivity. apply keccak256_hexData.
  - destruct (String.leb_total a b); congruence.
Qed.

(** ** Merkle layers *)

Lemma list_pair_ind {A} (P : list A -> Prop) :
  P [] -> (forall x, P [x]) -> (forall x y l, P l -> P (x :: y :: l)) ->
  forall l, P l.
Proof.
  intros Hnil Hone Hstep.
  assert (H : forall l, P l /\ forall x, P (x :: l)).
  { induction l as [|y l [IH1 IH2]]; split; auto. }
  intros l. apply H.
Qed.

Lemma div2_SS n : (S (S n) / 2 = S (n / 2))%nat.
Proof.
  replace (S (S n)) with (n + 1 * 2)%nat by lia.
  rewrite Nat.div_add by lia. lia.
Qed.

Lemma buildNextMerkleLayer_hexData layer :
  Forall isHexData layer ->
  exists next, Admin.buildNextMerkleLayer layer = Some next /\
               Forall isHexData next /\
               length next = ((length layer + 1) / 2)%nat.
Proof.
  induction layer as [|x|x y rest IH] using list_pair_ind; intros Hall.
  - exists []. repeat split; constructor.
  - exists [x]. repeat split; assumption.
  - inversion Hall as [|? ? Hx Hrest']; subst.
    inversion Hrest' as [|? ? Hy Hrest]; subst.
    destruct (IH Hrest) as [next [Hnext [Hhex Hlen]]].
    destruct (hashMerklePair_hexData x y Hx Hy) as [h [Hh [_ Hhh]]].
    exists (h :: next).
    split; [cbn [Admin.buildNextMerkleLayer]; rewrite Hh, Hnext; reflexivity|].
    split; [constructor; assumption|].
    cbn [length]. rewrite Hlen.
    replace (S (S (length rest)) + 1)%nat with (S (S (length rest + 1))) by lia.
    rewrite div2_SS. reflexivity.
Qed.

(** Where a node goes in the next layer: with a sibling, its pair hash;
    without, itself. *)
Lemma buildNextMerkleLayer_lookup layer :
  Forall isHexData layer ->
  forall next index node,
    Admin.buildNextMerkleLayer layer = Some next ->
    layer !! index = Some node ->
    let pairIndex := if Nat.even index then (index + 1)%nat else (index - 1)%nat in
    match layer !! pairIndex with
    | Some sibling =>
        exists h, Admin.hashMerklePair node sibling = Some h /\
                  next !! (index / 2)%nat = Some h
    | None => next !! (index / 2)%nat = Some node
    end.
Proof.
  induction layer as [|x|x y rest IH] using list_pair_ind;
    intros Hall next index node Hnext Hnode.
  - discriminate.
  - destruct index as [|index]; [|destruct index; discriminate].
    cbn in Hnext, Hnode. injection Hnext as <-. injection Hnode as <-. reflexivity.
  - inversion Hall as [|? ? Hx Hrest']; subst.
    inversion Hrest' as [|? ? Hy Hrest]; subst.
    destruct (hashMerklePair_hexData x y Hx Hy) as [h [Hh [Hh' _]]].
    cbn [Admin.buildNextMerkleLayer] in Hnext. rewrite Hh in Hnext.
    destruct (Admin.buildNextMerkleLayer rest) as [next'|] eqn:Hnext'; [|discriminate].
    cbn in Hnext. injection Hnext as <-.
    destruct index as [|[|index]].
    + cbn in Hnode |- *. injection Hnode as <-. exists h. split; [assumption|reflexivity].
    + cbn in Hnode |- *. injection Hnode as <-. exists h. split; [assumption|reflexivity].
    + change ((x :: y :: rest) !! S (S index)) with (rest !! index) in Hnode.
      specialize (IH Hrest next' index node eq_refl Hnode). cbn zeta in IH |- *.
      rewrite div2_SS.
      change (Nat.even (S (S index))) with (Nat.even index).
      destruct (Nat.even index) eqn:Heven.
      * replace (S (S index) + 1)%nat with (S (S (index + 1))) by lia.
        exact IH.
      * destruct index as [|index]; [discriminate|].
        replace (S (S (S index)) - 1)%nat with (S (S (S index - 1))) by lia.
        exact IH.
Qed.

(** ** Proof collection and verification *)

Lemma proofLoop_acc fuel :
  forall layer index acc,
    Admin.proofLoop fuel layer index acc
    = (fun proof => acc ++ proof) <$> Admin.proofLoop fuel layer index [].
Proof.
  induction fuel as [|fuel IH]; intros layer index acc.
  - cbn. destruct (length layer <=? 1)%nat; cbn; [rewrite app_nil_r|]; reflexivity.
  - cbn [Admin.proofLoop].
    destruct (length layer <=? 1)%nat; [cbn; rewrite app_nil_r; reflexivity|].
    destruct (Admin.buildNextMerkleLayer layer) as [next|]; [|reflexivity].
    cbn [mbind option_bind].
    destruct (layer !! _) as [sibling|].
    + rewrite (IH next _ (acc ++ [sibling])), (IH next _ ([] ++ [sibling])).
      destruct (Admin.proofLoop fuel next (index / 2) []) as [proof|]; cbn; [|reflexivity].
      rewrite <- app_assoc. reflexivity.
    + apply IH.
Qed.

(** The proof collected for a position folds to the single node the root
    loop ends with; neither loop runs out of passes. *)
Lemma proofLoop_round_trip fuel :
  forall layer index node,
    (length layer <= fuel)%nat ->
    Forall isHexData layer ->
    layer !! index = Some node ->
    exists proof r,
      Admin.proofLoop fuel layer index [] = Some proof /\
      Admin.rootLoop fuel layer = Some [r] /\
      foldProof node proof = Some r /\
      isHexData r.
Proof.
  induction fuel as [|fuel IH]; intros layer index node Hfuel Hall Hnode.
  - destruct layer; [discriminate|cbn in Hfuel; lia].
  - cbn [Admin.proofLoop Admin.rootLoop].
    destruct (Nat.leb_spec (length layer) 1) as [Hshort|Hlong].
    + destruct layer as [|x [|y rest]]; [discriminate| |cbn in Hshort; lia].
      destruct index; [|discriminate]. injection Hnode as <-.
      exists [], x. repeat split; try reflexivity.
      inversion Hall; assumption.
    + destruct (buildNextMerkleLayer_hexData layer Hall) as [next [Hnext [Hhex Hlen]]].
      rewrite Hnext. cbn [mbind option_bind].
      assert (Hfuel' : (length next <= fuel)%nat).
      { rewrite Hlen.
        assert ((length layer + 1) / 2 < length layer)%nat
          by (apply Nat.Div0.div_lt_upper_bound; lia).
        lia. }
      pose proof (buildNextMerkleLayer_lookup layer Hall next index node Hnext Hnode) as Hlook.
      cbn zeta in Hlook.
      destruct (layer !! (if Nat.even index then (index + 1)%nat else (index - 1)%nat))
        as [sibling|].
      * destruct Hlook as [h [Hh Hlook]].
        destruct (IH next (index / 2)%nat h Hfuel' Hhex Hlook)
          as [proof [r [Hp [Hr [Hf Hrhex]]]]].
        exists (sibling :: proof), r.
        rewrite proofLoop_acc, Hp. repeat split; [assumption| |assumption].
        unfold foldProof. cbn. rewrite Hh. exact Hf.
      * destruct (IH next (index / 2)%nat node Hfuel' Hhex Hlook)
          as [proof [r [Hp [Hr [Hf Hrhex]]]]].
        exists proof, r. repeat split; assumption.
Qed.

(** ** Addresses and leaves *)

Lemma string_pair_ind (P : string -> Prop) :
  P EmptyString -> (forall c, P (String c EmptyString)) ->
  (forall c d s, P s -> P (String c (String d s))) ->
  forall s, P s.
Proof.
  intros Hnil Hone Hstep.
  assert (H : forall s, P s /\ forall c, P (String c s)).
  { induction s as [|d s [IH1 IH2]]; split; auto. }
  intros s. apply H.
Qed.

Lemma hexValue_lowerChar c : Ethers.hexValue (Js.lowerChar c) = Ethers.hexValue c.
Proof. destruct c as [[] [] [] [] [] [] [] []]; reflexivity. Qed.

Lemma parseHexPairs_toLowerCase s :
  Ethers.parseHexPairs (Js.toLowerCase s) = Ethers.parseHexPairs s.
Proof.
  induction s as [|c|c d s IH] using string_pair_ind; try reflexivity.
  cbn [Js.toLowerCase Ethers.parseHexPairs].
  rewrite !hexValue_lowerChar, IH. reflexivity.
Qed.

Lemma is0xHexOfLength_inv n s :
  Ethers.is0xHexOfLength n s = true ->
  exists digits, s = String "0" (String "x" digits) /\ Ethers.isHexOfLength n digits = true.
Proof.
  destruct s as [|c s]; [discriminate|].
  destruct c as [[] [] [] [] [] [] [] []]; try discriminate.
  destruct s as [|d s]; [discriminate|].
  destruct d as [[] [] [] [] [] [] [] []]; try discriminate.
  intros H. exists s. split; [reflexivity|exact H].
Qed.

Lemma arrayify_toLowerCase_eq a b :
  Ethers.is0xHexOfLength 40 a = true -> Ethers.is0xHexOfLength 40 b = true ->
  Js.toLowerCase a = Js.toLowerCase b ->
  Ethers.arrayify a = Ethers.arrayify b.
Proof.
  intros Ha Hb Hlow.
  apply is0xHexOfLength_inv in Ha as [da [-> _]].
  apply is0xHexOfLength_inv in Hb as [db [-> _]].
  cbn [Js.toLowerCase] in Hlow. injection Hlow as Hlow.
  change (Ethers.parseHexPairs da = Ethers.parseHexPairs db).
  rewrite <- (parseHexPairs_toLowerCase da), <- (parseHexPairs_toLowerCase db), Hlow.
  reflexivity.
Qed.

Lemma allChars_hex_parse s :
  Ethers.allChars Ethers.isHexChar s = true -> Nat.even (String.length s) = true ->
  is_Some (Ethers.parseHexPairs s).
Proof.
  induction s as [|c|c d s IH] using string_pair_ind; intros Hall Heven.
  - eexists; reflexivity.
  - discriminate.
  - cbn [Ethers.allChars] in Hall.
    apply andb_true_iff in Hall as [Hc Hall]. apply andb_true_iff in Hall as [Hd Hall].
    destruct (IH Hall Heven) as [bs Hbs].
    cbn [Ethers.parseHexPairs]. rewrite Hbs.
    assert (Hhex : forall e, Ethers.isHexChar e = true -> is_Some (Ethers.hexValue e)).
    { intros e He. unfold Ethers.hexValue, Ethers.isHexChar in *.
      destruct (Ethers.isDigit e); [eexists; reflexivity|].
      destruct (Ethers.isLowerAF e); [eexists; reflexivity|].
      destruct (Ethers.isUpperAF e); [eexists; reflexivity|discriminate]. }
    destruct (Hhex c Hc) as [hi ->], (Hhex d Hd) as [lo ->]. eexists; reflexivity.
Qed.

Lemma hashAllowlistLeaf_address w :
  Ethers.is0xHexOfLength 40 w = true ->
  exists leaf, Admin.hashAllowlistLeaf w = Some leaf /\ isHexData leaf.
Proof.
  intros Hw. apply is0xHexOfLength_inv in Hw as [digits [-> Hdigits]].
  unfold Ethers.isHexOfLength in Hdigits. apply andb_true_iff in Hdigits as [Hlen Hall].
  apply Nat.eqb_eq in Hlen.
  destruct (allChars_hex_parse digits Hall) as [bs Hbs]; [rewrite Hlen; reflexivity|].
  unfold Admin.hashAllowlistLeaf, Ethers.solidityPack_address.
  change (Ethers.arrayify (String "0" (String "x" digits))) with (Ethers.parseHexPairs digits).
  rewrite Hbs. cbn [mbind option_bind].
  destruct (arrayify_hexData (Ethers.hexlify bs)) as [data Hdata]; [eexists; reflexivity|].
  rewrite Hdata. cbn [mbind option_bind].
  eexists. split; [reflexivity|apply keccak256_hexData].
Qed.

Lemma hashAllowlistLeaf_toLowerCase_eq a b :
  Ethers.is0xHexOfLength 40 a = true -> Ethers.is0xHexOfLength 40 b = true ->
  Js.toLowerCase a = Js.toLowerCase b ->
  Admin.hashAllowlistLeaf a = Admin.hashAllowlistLeaf b.
Proof.
  intros Ha Hb Hlow. unfold Admin.hashAllowlistLeaf, Ethers.solidityPack_address.
  rewrite (arrayify_toLowerCase_eq a b Ha Hb Hlow). reflexivity.
Qed.

(** ** The proofs object *)

Lemma forEachWallet_spec leaves wallets :
  forall start m,
    (forall j, (j < length wallets)%nat ->
               is_Some (Admin.proofLoop (length leaves) leaves (start + j) [])) ->
    exists m',
      Admin.forEachWallet leaves wallets start m = Some m' /\
      (forall key, Forall (fun w => Js.toLowerCase w <> key) wallets -> m' !! key = m !! key) /\
      (forall w, In w wallets ->
         exists j w', wallets !! j = Some w' /\
                      Js.toLowerCase w' = Js.toLowerCase w /\
                      m' !! Js.toLowerCase w
                      = Admin.proofLoop (length leaves) leaves (start + j) []).
Proof.
  induction wallets as [|w0 rest IH]; intros start m Hproofs.
  - exists m. split; [reflexivity|]. split; [reflexivity|]. intros w [].
  - destruct (Hproofs 0%nat ltac:(cbn; lia)) as [proof0 Hproof0].
    rewrite Nat.add_0_r in Hproof0.
    destruct (IH (S start) (<[Js.toLowerCase w0 := proof0]> m)) as [m' [Hrun [Hother Hmine]]].
    { intros j Hj. replace (S start + j)%nat with (start + S j)%nat by lia.
      apply Hproofs. cbn. lia. }
    exists m'. split; [cbn [Admin.forEachWallet]; rewrite Hproof0; exact Hrun|].
    split.
    + intros key Hkey. inversion Hkey as [|? ? Hw0 Hrest]; subst.
      rewrite (Hother key Hrest). apply lookup_insert_ne. exact Hw0.
    + intros w Hin.
      destruct (decide (Exists (fun w' => Js.toLowerCase w' = Js.toLowerCase w) rest))
        as [Hlater|Hnone].
      * apply Exists_exists in Hlater as [w' [Hw' Hlow]].
        apply list_elem_of_In in Hw'.
        destruct (Hmine w' Hw') as [j [w'' [Hj [Hlow' Hm']]]].
        exists (S j), w''. split; [exact Hj|]. split; [congruence|].
        rewrite <- Hlow, Hm'. f_equal. lia.
      * assert (Hrest : Forall (fun w' => Js.toLowerCase w' <> Js.toLowerCase w) rest).
        { apply Forall_forall. intros w' Hw' Heq. apply Hnone.
          apply Exists_exists. exists w'. split; assumption. }
        destruct Hin as [->|Hin].
        -- exists 0%nat, w. split; [reflexivity|]. split; [reflexivity|].
           rewrite (Hother _ Hrest), lookup_insert_eq, Nat.add_0_r. symmetry. exact Hproof0.
        -- exfalso. apply list_elem_of_In in Hin.
           rewrite Forall_forall in Hrest. exact (Hrest w Hin eq_refl).
Qed.

(** ** The Merkle builder *)

Lemma hexData_nonempty s : isHexData s -> String.eqb s "" = false.
Proof. intros [bs ->]. reflexivity. Qed.

Lemma leaves_of_addresses wallets :
  Forall (fun w => Ethers.is0xHexOfLength 40 w = true) wallets ->
  exists leaves,
    mapM Admin.hashAllowlistLeaf wallets = Some leaves /\
    Forall2 (fun w leaf => Admin.hashAllowlistLeaf w = Some leaf) wallets leaves /\
    Forall isHexData leaves.
Proof.
  induction 1 as [|w wallets Hw Hall [leaves [Hmap [Hrel Hhex]]]].
  - exists []. repeat split; constructor.
  - destruct (hashAllowlistLeaf_address w Hw) as [leaf [Hleaf Hleafhex]].
    exists (leaf :: leaves). cbn. rewrite Hleaf. cbn. rewrite Hmap. cbn.
    repeat split; constructor; assumption.
Qed.

(** What [buildAllowlistMerkleData] returns on a non-empty list of
    addresses: the single node the root loop ends with, and for every wallet
    a proof that folds the wallet's leaf to that node. *)
Lemma buildAllowlistMerkleData_addresses wallets :
  Forall (fun w => Ethers.is0xHexOfLength 40 w = true) wallets ->
  wallets <> [] ->
  exists data leaves,
    Admin.buildAllowlistMerkleData wallets = Some data /\
    mapM Admin.hashAllowlistLeaf wallets = Some leaves /\
    Admin.rootLoop (length leaves) leaves = Some [Admin.root data] /\
    forall w, In w wallets ->
      exists leaf proof,
        Admin.hashAllowlistLeaf w = Some leaf /\
        Admin.proofs data !! Js.toLowerCase w = Some proof /\
        foldProof leaf proof = Some (Admin.root data).
Proof.
  intros Hall Hne.
  destruct (leaves_of_addresses wallets Hall) as [leaves [Hmap [Hrel Hhex]]].
  pose proof (Forall2_length _ _ _ Hrel) as Hlen.
  assert (Hloop : forall j, (j < length wallets)%nat ->
            exists node proof r,
              leaves !! j = Some node /\
              Admin.proofLoop (length leaves) leaves j [] = Some proof /\
              Admin.rootLoop (length leaves) leaves = Some [r] /\
              foldProof node proof = Some r /\ isHexData r).
  { intros j Hj.
    destruct (lookup_lt_is_Some_2 leaves j ltac:(lia)) as [node Hnode].
    destruct (proofLoop_round_trip (length leaves) leaves j node (Nat.le_refl _) Hhex Hnode)
      as [proof [r H]].
    exists node, proof, r. split; [assumption|exact H]. }
  destruct (forEachWallet_spec leaves wallets 0 ∅) as [m [Hrun [_ Hmine]]].
  { intros j Hj. destruct (Hloop j Hj) as [node [proof [r [_ [Hp _]]]]].
    cbn [Nat.add]. rewrite Hp. eexists; reflexivity. }
  destruct (Hloop 0%nat) as [node0 [proof0 [r [_ [_ [Hroot [_ Hrhex]]]]]]].
  { destruct wallets; [contradiction|cbn; lia]. }
  exists {| Admin.root := r; Admin.proofs := m |}, leaves.
  split.
  { unfold Admin.buildAllowlistMerkleData.
    destruct wallets as [|w0 rest]; [contradiction|].
    rewrite Hmap. cbn [mbind option_bind]. rewrite Hrun. cbn [mbind option_bind].
    rewrite Hroot. cbn [mbind option_bind].
    rewrite (hexData_nonempty r Hrhex). reflexivity. }
  split; [exact Hmap|]. split; [exact Hroot|].
  intros w Hw. cbn [Admin.root Admin.proofs].
  destruct (Hmine w Hw) as [j [w' [Hj [Hlow Hm]]]]. cbn [Nat.add] in Hm.
  destruct (Hloop j) as [node [proof [r' [Hnode [Hp [Hroot' [Hfold _]]]]]]].
  { apply lookup_lt_Some in Hj. exact Hj. }
  assert (r' = r) by congruence. subst r'.
  exists node, proof.
  assert (Hw' : Admin.hashAllowlistLeaf w' = Some node).
  { destruct (Forall2_lookup_l _ _ _ _ _ Hrel Hj) as [node' [Hnode' Hleaf]]. congruence. }
  split.
  - rewrite <- Hw'. apply hashAllowlistLeaf_toLowerCase_eq; [| |congruence].
    + rewrite Forall_forall in Hall. apply Hall. apply list_elem_of_In. exact Hw.
    + rewrite Forall_forall in Hall. apply Hall. apply list_elem_of_lookup. eauto.
  - split; [rewrite Hm; exact Hp|exact Hfold].
Qed.

(** ** Sorting and uniqueness *)

Section StableSort.

Variable compare : string -> string -> comparison.
Variable good : string -> Prop.

Hypothesis compare_opp : forall a b, compare a b = CompOpp (compare b a).
Hypothesis compare_lt_trans :
  forall a b c, compare a b = Lt -> compare b c = Lt -> compare a c = Lt.
Hypothesis compare_eq_l :
  forall a b c, compare a b = Eq -> compare a c = compare b c.
Hypothesis compare_eq_good :
  forall a b, good a -> good b -> compare a b = Eq -> a = b.

Lemma compare_not_gt_lt x e y :
  compare x e <> Gt -> compare e y = Lt -> compare x y = Lt.
Proof.
  intros Hxe Hey. destruct (compare x e) eqn:Hc.
  - rewrite (compare_eq_l x e y Hc). exact Hey.
  - exact (compare_lt_trans x e y Hc Hey).
  - contradiction.
Qed.

Lemma compare_gt_lt a b : compare a b = Gt -> compare b a = Lt.
Proof. intros H. rewrite compare_opp, H. reflexivity. Qed.

Lemma compare_lt_gt a b : compare a b = Lt -> compare b a = Gt.
Proof. intros H. rewrite compare_opp, H. reflexivity. Qed.

Lemma insertSorted_comm x y sorted :
  good x -> good y ->
  Admin.insertSorted compare x (Admin.insertSorted compare y sorted)
  = Admin.insertSorted compare y (Admin.insertSorted compare x sorted).
Proof.
  intros Hx Hy.
  assert (Hpair : forall tail,
            Admin.insertSorted compare x (y :: tail) = Admin.insertSorted compare y (x :: tail)
            \/ (compare x y = Lt /\ compare y x = Gt)
            \/ (compare x y = Gt /\ compare y x = Lt)).
  { intros tail. destruct (compare x y) eqn:Hxy.
    - left. rewrite (compare_eq_good x y Hx Hy Hxy). reflexivity.
    - right. left. split; [reflexivity|apply compare_lt_gt; exact Hxy].
    - right. right. split; [reflexivity|apply compare_gt_lt; exact Hxy]. }
  induction sorted as [|e sorted IH].
  - cbn [Admin.insertSorted].
    destruct (Hpair []) as [H|[[H1 H2]|[H1 H2]]].
    + cbn [Admin.insertSorted] in H. exact H.
    + rewrite H1, H2. reflexivity.
    + rewrite H1, H2. reflexivity.
  - assert (Hyx : compare y e = Gt -> compare x e <> Gt -> compare y x = Gt).
    { intros Hye Hxe. apply compare_lt_gt.
      apply (compare_not_gt_lt x e y); [exact Hxe|apply compare_gt_lt; exact Hye]. }
    assert (Hxy : compare x e = Gt -> compare y e <> Gt -> compare x y = Gt).
    { intros Hxe Hye. apply compare_lt_gt.
      apply (compare_not_gt_lt y e x); [exact Hye|apply compare_gt_lt; exact Hxe]. }
    cbn [Admin.insertSorted].
    destruct (compare y e) eqn:Hye, (compare x e) eqn:Hxe;
      cbn [Admin.insertSorted]; rewrite ?Hye, ?Hxe;
      first
        [ rewrite IH; reflexivity
        | rewrite (Hyx eq_refl ltac:(discriminate)); reflexivity
        | rewrite (Hxy eq_refl ltac:(discriminate)); reflexivity
        | destruct (Hpair (e :: sorted)) as [H|[[H1 H2]|[H1 H2]]];
          [ cbn [Admin.insertSorted] in H; rewrite ?Hye, ?Hxe in H; exact H
          | rewrite H1, H2; reflexivity
          | rewrite H1, H2; reflexivity ] ].
Qed.

(** Sorting forgets the order of its input. *)
Lemma sort_Permutation items items' :
  Permutation items items' -> Forall good items ->
  Admin.sort compare items = Admin.sort compare items'.
Proof.
  induction 1 as [|x l l' Hperm IH|x y l|l l' l'' Hperm1 IH1 Hperm2 IH2]; intros Hgood.
  - reflexivity.
  - inversion Hgood; subst.
    change (Admin.insertSorted compare x (Admin.sort compare l)
            = Admin.insertSorted compare x (Admin.sort compare l')).
    rewrite IH by assumption. reflexivity.
  - inversion Hgood as [|? ? Hy Hrest]; subst. inversion Hrest as [|? ? Hx _]; subst.
    change (Admin.insertSorted compare y (Admin.insertSorted compare x (Admin.sort compare l))
            = Admin.insertSorted compare x
                (Admin.insertSorted compare y (Admin.sort compare l))).
    apply insertSorted_comm; assumption.
  - rewrite IH1 by assumption. apply IH2.
    eapply Permutation_Forall; eassumption.
Qed.

End StableSort.

Lemma existsb_eqb_In x seen : existsb (String.eqb x) seen = true <-> In x seen.
Proof.
  rewrite existsb_exists. split.
  - intros [y [Hy Heq]]. apply String.eqb_eq in Heq. subst. exact Hy.
  - intros H. exists x. split; [exact H|apply String.eqb_refl].
Qed.

Lemma uniqueInOrder_In items :
  forall seen x, In x (Admin.uniqueInOrder seen items) <-> In x items /\ ~ In x seen.
Proof.
  induction items as [|y items IH]; intros seen x; cbn [Admin.uniqueInOrder].
  - cbn. tauto.
  - destruct (existsb (String.eqb y) seen) eqn:Hseen.
    + apply existsb_eqb_In in Hseen. rewrite IH. cbn. split.
      * intros [H1 H2]. tauto.
      * intros [[->|H1] H2]; [contradiction|tauto].
    + assert (Hnot : ~ In y seen).
      { intros H. apply existsb_eqb_In in H. congruence. }
      cbn [In]. rewrite IH. cbn [In]. split.
      * intros [->|[H1 H2]]; [tauto|]. split; [tauto|]. intros H. apply H2. right. exact H.
      * intros [[->|H1] H2]; [tauto|].
        destruct (String.eqb_spec y x) as [->|Hne]; [tauto|].
        right. split; [exact H1|]. intros [H|H]; [contradiction|contradiction].
Qed.

Lemma uniqueInOrder_NoDup items : forall seen, NoDup (Admin.uniqueInOrder seen items).
Proof.
  induction items as [|y items IH]; intros seen; cbn [Admin.uniqueInOrder].
  - constructor.
  - destruct (existsb (String.eqb y) seen); [apply IH|].
    constructor; [|apply IH].
    rewrite list_elem_of_In, uniqueInOrder_In. cbn. tauto.
Qed.

Lemma uniqueInOrder_Permutation items items' :
  Permutation items items' ->
  Permutation (Admin.uniqueInOrder [] items) (Admin.uniqueInOrder [] items').
Proof.
  intros Hperm. apply NoDup_Permutation; try apply uniqueInOrder_NoDup.
  intros x. rewrite !list_elem_of_In, !uniqueInOrder_In.
  split; intros [H1 H2]; (split; [|exact H2]).
  - eapply Permutation_in; eassumption.
  - eapply Permutation_in; [symmetry|]; eassumption.
Qed.

Lemma mapM_Permutation {A B} (f : A -> option B) l l' :
  Permutation l l' ->
  match mapM f l, mapM f l' with
  | Some k, Some k' => Permutation k k'
  | None, None => True
  | _, _ => False
  end.
Proof.
  induction 1 as [|x l l' Hperm IH|x y l|l l' l'' Hperm1 IH1 Hperm2 IH2].
  - cbn. constructor.
  - cbn. destruct (f x); cbn; [|exact I].
    destruct (mapM f l), (mapM f l'); cbn; try contradiction; [|exact I].
    constructor. exact IH.
  - cbn. destruct (f x), (f y); cbn; try exact I;
      destruct (mapM f l); cbn; try exact I. apply perm_swap.
  - destruct (mapM f l), (mapM f l'), (mapM f l''); try contradiction; try exact I.
    etransitivity; eassumption.
Qed.

(** ** The order of lower-cased strings *)

Lemma string_compare_lt_trans a :
  forall b c, String.compare a b = Lt -> String.compare b c = Lt -> String.compare a c = Lt.
Proof.
  induction a as [|x a IH]; intros [|y b] [|z c]; cbn; try congruence.
  destruct (Ascii.compare x y) eqn:Hxy; try discriminate;
    destruct (Ascii.compare y z) eqn:Hyz; try discriminate.
  - apply Ascii.compare_eq_iff in Hxy, Hyz. subst.
    replace (Ascii.compare z z) with Eq
      by (symmetry; unfold Ascii.compare; apply N.compare_refl).
    apply IH.
  - apply Ascii.compare_eq_iff in Hxy. subst. rewrite Hyz. reflexivity.
  - apply Ascii.compare_eq_iff in Hyz. subst. rewrite Hxy. reflexivity.
  - unfold Ascii.compare in *. rewrite N.compare_lt_iff in Hxy, Hyz.
    replace (N_of_ascii x ?= N_of_ascii z)%N with Lt
      by (symmetry; apply N.compare_lt_iff; lia).
    reflexivity.
Qed.

(** ** Checksummed addresses *)

Lemma lowerChar_upperChar c : Js.lowerChar (Js.upperChar c) = Js.lowerChar c.
Proof. destruct c as [[] [] [] [] [] [] [] []]; reflexivity. Qed.

Lemma lowerChar_idem c : Js.lowerChar (Js.lowerChar c) = Js.lowerChar c.
Proof. destruct c as [[] [] [] [] [] [] [] []]; reflexivity. Qed.

Lemma toLowerCase_idem s : Js.toLowerCase (Js.toLowerCase s) = Js.toLowerCase s.
Proof.
  induction s as [|c s IH]; [reflexivity|].
  cbn [Js.toLowerCase]. rewrite lowerChar_idem, IH. reflexivity.
Qed.

Lemma toLowerCase_checksumCase chars :
  forall hashed, Js.toLowerCase (Ethers.checksumCase chars hashed) = Js.toLowerCase chars.
Proof.
  induction chars as [|c|c d chars IH] using string_pair_ind; intros hashed.
  - destruct hashed; reflexivity.
  - destruct hashed; reflexivity.
  - destruct hashed as [|h hashed]; [reflexivity|].
    cbn [Ethers.checksumCase Js.toLowerCase]. rewrite IH.
    destruct (8 <=? h / 16), (8 <=? h mod 16); rewrite ?lowerChar_upperChar; reflexivity.
Qed.

Lemma toLowerCase_substring s :
  forall n m, Js.toLowerCase (String.substring n m s) = String.substring n m (Js.toLowerCase s).
Proof.
  induction s as [|c s IH]; intros n m.
  - destruct n, m; reflexivity.
  - destruct n as [|n]; [destruct m as [|m]|]; cbn [String.substring Js.toLowerCase];
      rewrite ?IH; reflexivity.
Qed.

Lemma checksummed_toLowerCase_inj a b :
  isChecksummed a -> isChecksummed b -> Js.toLowerCase a = Js.toLowerCase b -> a = b.
Proof.
  intros [ca [Hca ->]] [cb [Hcb ->]] Hlow.
  unfold checksumOf in Hlow.
  change (String "0" (String "x"
            (Js.toLowerCase (Ethers.checksumCase ca (Keccak.keccak_256 (Ethers.charCodes ca)))))
          = String "0" (String "x"
            (Js.toLowerCase (Ethers.checksumCase cb (Keccak.keccak_256 (Ethers.charCodes cb))))))
    in Hlow.
  injection Hlow as Hlow. rewrite !toLowerCase_checksumCase, Hca, Hcb in Hlow.
  subst cb. reflexivity.
Qed.

Lemma getChecksumAddress_checksummed a r :
  Ethers.getChecksumAddress a = Some r -> isChecksummed r.
Proof.
  unfold Ethers.getChecksumAddress.
  destruct (Ethers.is0xHexOfLength 40 a); [|discriminate].
  intros [= <-]. exists (String.substring 2 40 (Js.toLowerCase a)). split; [|reflexivity].
  rewrite toLowerCase_substring, toLowerCase_idem. reflexivity.
Qed.

Lemma getAddress_checksummed a r : Ethers.getAddress a = Some r -> isChecksummed r.
Proof.
  unfold Ethers.getAddress.
  destruct (Ethers.isHexOfLength 40 a || Ethers.is0xHexOfLength 40 a).
  - destruct (Ethers.getChecksumAddress _) as [result|] eqn:Hresult; [|discriminate].
    cbn [mbind option_bind].
    destruct (_ && _); [discriminate|].
    intros [= <-]. eapply getChecksumAddress_checksummed. exact Hresult.
  - destruct (Ethers.isIcap a); [|discriminate].
    destruct (String.eqb _ _); [|discriminate].
    apply getChecksumAddress_checksummed.
Qed.

Lemma isHexChar_lowerChar c : Ethers.isHexChar (Js.lowerChar c) = Ethers.isHexChar c.
Proof. destruct c as [[] [] [] [] [] [] [] []]; reflexivity. Qed.

Lemma isHexChar_upperChar c : Ethers.isHexChar (Js.upperChar c) = Ethers.isHexChar c.
Proof. destruct c as [[] [] [] [] [] [] [] []]; reflexivity. Qed.

Lemma isHexOfLength_toLowerCase n s :
  Ethers.isHexOfLength n (Js.toLowerCase s) = Ethers.isHexOfLength n s.
Proof.
  unfold Ethers.isHexOfLength. f_equal.
  - f_equal. induction s as [|c s IH]; [reflexivity|]. cbn. rewrite IH. reflexivity.
  - induction s as [|c s IH]; [reflexivity|].
    cbn [Js.toLowerCase Ethers.allChars]. rewrite isHexChar_lowerChar, IH. reflexivity.
Qed.

Lemma isHexOfLength_checksumCase chars :
  forall n hashed,
    Ethers.isHexOfLength n (Ethers.checksumCase chars hashed) = Ethers.isHexOfLength n chars.
Proof.
  unfold Ethers.isHexOfLength.
  induction chars as [|c|c d chars IH] using string_pair_ind; intros n hashed.
  - destruct hashed; reflexivity.
  - destruct hashed; reflexivity.
  - destruct hashed as [|h hashed]; [reflexivity|].
    cbn [Ethers.checksumCase Ethers.allChars String.length].
    destruct n as [|[|n]]; try reflexivity.
    specialize (IH n hashed).
    change (S (S (String.length (Ethers.checksumCase chars hashed))) =? S (S n))%nat
      with (String.length (Ethers.checksumCase chars hashed) =? n)%nat.
    change (S (S (String.length chars)) =? S (S n))%nat with (String.length chars =? n)%nat.
    destruct (8 <=? h / 16), (8 <=? h mod 16); rewrite ?isHexChar_upperChar;
      destruct (Ethers.isHexChar c), (Ethers.isHexChar d); cbn [andb];
      rewrite ?andb_false_r; try reflexivity; exact IH.
Qed.

Lemma substring_all s : String.substring 0 (String.length s) s = s.
Proof. induction s as [|c s IH]; [reflexivity|]. cbn. rewrite IH. reflexivity. Qed.

Lemma getChecksumAddress_address a r :
  Ethers.getChecksumAddress a = Some r -> Ethers.is0xHexOfLength 40 r = true.
Proof.
  unfold Ethers.getChecksumAddress.
  destruct (Ethers.is0xHexOfLength 40 a) eqn:Ha; [|discriminate].
  intros [= <-].
  apply is0xHexOfLength_inv in Ha as [digits [-> Hdigits]].
  change (Js.toLowerCase (String "0" (String "x" digits)))
    with (String "0" (String "x" (Js.toLowerCase digits))).
  change (String.substring 2 40 (String "0" (String "x" (Js.toLowerCase digits))))
    with (String.substring 0 40 (Js.toLowerCase digits)).
  rewrite <- isHexOfLength_toLowerCase in Hdigits.
  assert (Hlen : String.length (Js.toLowerCase digits) = 40%nat).
  { unfold Ethers.isHexOfLength in Hdigits. apply andb_true_iff in Hdigits as [Hlen _].
    apply Nat.eqb_eq. exact Hlen. }
  pose proof (substring_all (Js.toLowerCase digits)) as Hsub.
  rewrite Hlen in Hsub. rewrite Hsub.
  change (Ethers.isHexOfLength 40
            (Ethers.checksumCase (Js.toLowerCase digits)
               (Keccak.keccak_256 (Ethers.charCodes (Js.toLowerCase digits)))) = true).
  rewrite isHexOfLength_checksumCase. exact Hdigits.
Qed.

Lemma getAddress_address a r :
  Ethers.getAddress a = Some r -> Ethers.is0xHexOfLength 40 r = true.
Proof.
  unfold Ethers.getAddress.
  destruct (Ethers.isHexOfLength 40 a || Ethers.is0xHexOfLength 40 a).
  - destruct (Ethers.getChecksumAddress _) as [result|] eqn:Hresult; [|discriminate].
    cbn [mbind option_bind].
    destruct (_ && _); [discriminate|].
    intros [= <-]. eapply getChecksumAddress_address. exact Hresult.
  - destruct (Ethers.isIcap a); [|discriminate].
    destruct (String.eqb _ _); [|discriminate].
    apply getChecksumAddress_address.
Qed.

(** ** Normalized wallet lists *)

Lemma mapM_getAddress_checksummed wallets addresses :
  mapM Ethers.getAddress wallets = Some addresses ->
  Forall (fun a => isChecksummed a /\ Ethers.is0xHexOfLength 40 a = true) addresses.
Proof.
  intros H. apply mapM_Some_1 in H.
  induction H as [|w a wallets addresses Ha _ IH]; constructor; [|exact IH].
  split; [eapply getAddress_checksummed|eapply getAddress_address]; exact Ha.
Qed.

Lemma insertSorted_In compare x y sorted :
  In x (Admin.insertSorted compare y sorted) <-> x = y \/ In x sorted.
Proof.
  induction sorted as [|e sorted IH]; cbn [Admin.insertSorted].
  - cbn. intuition congruence.
  - destruct (compare y e); cbn [In]; try rewrite IH; intuition congruence.
Qed.

Lemma sort_In compare x items : In x (Admin.sort compare items) <-> In x items.
Proof.
  induction items as [|y items IH]; [reflexivity|].
  change (Admin.sort compare (y :: items))
    with (Admin.insertSorted compare y (Admin.sort compare items)).
  rewrite insertSorted_In, IH. cbn. intuition congruence.
Qed.

Lemma normalizeWalletList_Permutation W W' :
  Permutation W W' -> Admin.normalizeWalletList W = Admin.normalizeWalletList W'.
Proof.
  intros Hperm. unfold Admin.normalizeWalletList.
  pose proof (mapM_Permutation Ethers.getAddress W W' Hperm) as Hmap.
  destruct (mapM Ethers.getAddress W) as [k|] eqn:Hk,
           (mapM Ethers.getAddress W') as [k'|] eqn:Hk'; try contradiction; [|reflexivity].
  cbn [mbind option_bind]. f_equal.
  apply (sort_Permutation _ isChecksummed).
  - intros a b. apply String.compare_antisym.
  - intros a b c. apply string_compare_lt_trans.
  - intros a b c H. apply String.compare_eq_iff in H. unfold Ethers.localeCompare.
    rewrite H. reflexivity.
  - intros a b Ha Hb H. apply String.compare_eq_iff in H.
    apply checksummed_toLowerCase_inj; assumption.
  - apply uniqueInOrder_Permutation. exact Hmap.
  - apply Forall_forall. intros a Ha.
    apply list_elem_of_In, uniqueInOrder_In in Ha as [Ha _].
    pose proof (mapM_getAddress_checksummed W k Hk) as Hall.
    rewrite Forall_forall in Hall. apply Hall, list_elem_of_In. exact Ha.
Qed.

Lemma normalizeWalletList_addresses W N :
  Admin.normalizeWalletList W = Some N ->
  Forall (fun a => Ethers.is0xHexOfLength 40 a = true) N.
Proof.
  unfold Admin.normalizeWalletList.
  destruct (mapM Ethers.getAddress W) as [k|] eqn:Hk; [|discriminate].
  intros [= <-]. apply Forall_forall. intros a Ha.
  apply list_elem_of_In, sort_In, uniqueInOrder_In in Ha as [Ha _].
  pose proof (mapM_getAddress_checksummed W k Hk) as Hall.
  rewrite Forall_forall in Hall. apply Hall, list_elem_of_In. exact Ha.
Qed.

Lemma buildAllowlistMerkleData_total wallets :
  Forall (fun w => Ethers.is0xHexOfLength 40 w = true) wallets ->
  is_Some (Admin.buildAllowlistMerkleData wallets).
Proof.
  intros Hall. destruct wallets as [|w wallets]; [eexists; reflexivity|].
  destruct (buildAllowlistMerkleData_addresses (w :: wallets) Hall ltac:(discriminate))
    as [data [_ [H _]]].
  rewrite H. eexists; reflexivity.
Qed.

(** C2 (amended).  For every list [W] of wallets that [getAddress] accepts
    and every permutation [W'] of [W], the root built from the normalized
    list is the same:
    [buildAllowlistMerkleData(normalizeWalletList(W)).root] equals
    [buildAllowlistMerkleData(normalizeWalletList(W')).root].  The order
    independence comes from the sort in [normalizeWalletList], which every
    caller applies before building. *)
Theorem merkle_order_independence_normalized (W W' : list string)
    (Hperm : Permutation W W')
    (Hvalid : Forall (fun w => is_Some (Ethers.getAddress w)) W) :
  exists root,
    Admin.root <$> (Admin.normalizeWalletList W ≫= Admin.buildAllowlistMerkleData)
      = Some root /\
    Admin.root <$> (Admin.normalizeWalletList W' ≫= Admin.buildAllowlistMerkleData)
      = Some root.
Proof.
  rewrite <- (normalizeWalletList_Permutation W W' Hperm).
  assert (Hnorm : is_Some (Admin.normalizeWalletList W)).
  { unfold Admin.normalizeWalletList.
    destruct (mapM_is_Some_2 Ethers.getAddress W Hvalid) as [k ->].
    eexists; reflexivity. }
  destruct Hnorm as [N HN]. rewrite HN. cbn [mbind option_bind].
  destruct (buildAllowlistMerkleData_total N (normalizeWalletList_addresses W N HN))
    as [data ->].
  exists (Admin.root data). split; reflexivity.
Qed.

(** Witness for C2 (amended): three sample addresses and a rotation. *)
Lemma merkle_order_independence_normalized_witness :
  Permutation Samples.wallets [Samples.carol; Samples.alice; Samples.bob] /\
  Forall (fun w => is_Some (Ethers.getAddress w)) Samples.wallets /\
  exists root,
    Admin.root <$> (Admin.normalizeWalletList Samples.wallets
                      ≫= Admin.buildAllowlistMerkleData) = Some root /\
    Admin.root <$> (Admin.normalizeWalletList [Samples.carol; Samples.alice; Samples.bob]
                      ≫= Admin.buildAllowlistMerkleData) = Some root.
Proof.
  assert (Hperm : Permutation Samples.wallets [Samples.carol; Samples.alice; Samples.bob]).
  { unfold Samples.wallets.
    apply (Permutation_cons_app [Samples.carol] [Samples.bob] Samples.alice).
    apply perm_swap. }
  assert (Hvalid : Forall (fun w => is_Some (Ethers.getAddress w)) Samples.wallets)
    by (repeat constructor; eexists; vm_compute; reflexivity).
  split; [exact Hperm|]. split; [exact Hvalid|].
  exact (merkle_order_independence_normalized _ _ Hperm Hvalid).
Defined.

(** C2 as stated does not hold: the bare builder's root depends on the
    order of the wallets; swapping the last two of three addresses changes
    it. *)
Lemma merkle_order_counterexample :
  ~ (forall W W' : list string,
       Permutation W W' ->
       Admin.root <$> Admin.buildAllowlistMerkleData W
       = Admin.root <$> Admin.buildAllowlistMerkleData W').
Proof.
  intros H.
  specialize (H [ "0x5aAeb6053F3E94C9b9A09f33669435E7Ef1BeAed";
                  "0xfB6916095ca1df60bB79Ce92cE3Ea74c37c5d359";
                  "0xdbF03B407c01E7cD3CBea99509d93f8DDDC8C6FB" ]
                [ "0x5aAeb6053F3E94C9b9A09f33669435E7Ef1BeAed";
                  "0xdbF03B407c01E7cD3CBea99509d93f8DDDC8C6FB";
                  "0xfB6916095ca1df60bB79Ce92cE3Ea74c37c5d359" ]
                (perm_skip _ (perm_swap _ _ _))).
  vm_compute in H. discriminate.
Qed.

(** ** The publish endpoint *)

(** What a request that passes [validate] has been checked for. *)
Lemma validate_inr cfg P req w v :
  Upsert.validate cfg P req w = inr v ->
  exists t entries normalizedProofs raw,
    Upsert.timestamp req = Upsert.Finite t /\
    Qle_bool (Qabs (inject_Z (Upsert.now w) - t)) (inject_Z Upsert.MAX_SIGNATURE_AGE_MS) = true /\
    Upsert.proofs req = Some entries /\
    Upsert.normalizeProofs cfg entries [] = Some normalizedProofs /\
    Js.toLowerCase (Upsert.rendering (Upsert.proofsHash req))
      = Upsert.buildProofsHash normalizedProofs /\
    Upsert.verifyMessage P
      (Upsert.buildAllowlistPublishMessage P (Upsert.CONTRACT_ADDRESS cfg)
         (Upsert.phaseId req) (Upsert.rendering (Upsert.root req))
         (Upsert.Finite (inject_Z (Upsert.normalizeTotal (Upsert.total req) (Z.of_nat (length entries)))))
         (Upsert.buildProofsHash normalizedProofs) (Upsert.timestamp req))
      (Upsert.rendering (Upsert.signature req)) = Some raw /\
    Ethers.getAddress raw = Some (Upsert.v_recovered v) /\
    Upsert.v_signature v = Upsert.rendering (Upsert.signature req) /\
    Upsert.v_now v = Upsert.now w.
Proof.
  unfold Upsert.validate.
  destruct (negb (Upsert.isInteger (Upsert.phaseId req)) || _); [discriminate|].
  destruct (negb (Upsert.isBytes32 (Upsert.root req))); [discriminate|].
  destruct (Upsert.proofs req) as [entries|] eqn:Hentries; [|discriminate].
  destruct (Upsert.MAX_PROOF_WALLETS cfg <? _); [discriminate|].
  destruct (Upsert.normalizeProofs cfg entries []) as [normalizedProofs|] eqn:Hnormalized;
    [|discriminate].
  destruct (negb (Upsert.isAddress _)); [discriminate|].
  destruct (negb (Upsert.isBytes32 (Upsert.proofsHash req))); [discriminate|].
  destruct (Upsert.timestamp req) as [| |t] eqn:Ht; cbn [Upsert.isFinite negb];
    try discriminate.
  destruct (negb (Upsert.isLikelySignature _)); [discriminate|].
  destruct (Qle_bool _ _) eqn:Hfresh; cbn [negb]; [|discriminate].
  destruct (Upsert.normalizeTotal (Upsert.total req) (Z.of_nat (length entries)) <? _); [discriminate|].
  cbn [Upsert.p_phaseId Upsert.p_root Upsert.p_total].
  destruct (String.eqb _ _) eqn:Hhash; cbn [negb]; [|discriminate].
  destruct (Upsert.verifyMessage P _ _) as [raw|] eqn:Hverify; [|discriminate].
  cbn [mbind option_bind].
  destruct (Ethers.getAddress raw) as [recovered|] eqn:Hrecovered; [|discriminate].
  destruct (Upsert.signer req) as [signer|]; [|discriminate].
  destruct (Ethers.getAddress signer) as [signerAddress|]; [|discriminate].
  destruct (negb (String.eqb recovered signerAddress)); [discriminate|].
  intros [= <-]. cbn.
  exists t, entries, normalizedProofs, raw.
  apply String.eqb_eq in Hhash.
  rewrite (toLowerCase_hexData (Upsert.buildProofsHash normalizedProofs)) in Hhash
    by apply keccak256_hexData.
  repeat split; try assumption; try reflexivity. symmetry. exact Hhash.
Qed.

Lemma preflight_early cfg P st req w reply buckets :
  Upsert.preflight cfg P st req w = (Some reply, buckets) -> Upsert.statusOf reply <> 200.
Proof.
  unfold Upsert.preflight.
  repeat break_match; intros [= <- <-]; discriminate.
Qed.

Lemma validate_inl cfg P req w reply :
  Upsert.validate cfg P req w = inl reply -> Upsert.statusOf reply <> 200.
Proof.
  unfold Upsert.validate.
  repeat break_match; intros [= <-]; discriminate.
Qed.

(** What [publish] has checked when it writes or answers 200. *)
Lemma publish_stores cfg P used v w reply used' effects :
  Upsert.publish cfg P used v w = (reply, used', effects) ->
  effects <> [] \/ Upsert.statusOf reply = 200 ->
  Upsert.getOwnerFromChain cfg P w = inr (Upsert.v_recovered v) /\
  Upsert.cleanupUsedSignatures (Upsert.cleanupNow w) used
    !! Js.toLowerCase (Upsert.v_signature v) = None.
Proof.
  unfold Upsert.publish.
  destruct (_ !! _) as [seen|] eqn:Hseen.
  { intros [= <- <- <-] [H|H]; [contradiction|discriminate]. }
  destruct (Upsert.getOwnerFromChain cfg P w) as [message|ownerAddress].
  { intros [= <- <- <-] [H|H]; [contradiction|discriminate]. }
  destruct (String.eqb_spec (Upsert.v_recovered v) ownerAddress) as [->|Hne]; cbn [negb].
  - intros _ _. split; reflexivity.
  - intros [= <- <- <-] [H|H]; [contradiction|discriminate].
Qed.

(** C3.  If the upsert handler issues any file or KV operation, or answers
    200, then the request's timestamp is within 300000 ms of the server
    clock, its [proofsHash] (compared case-insensitively, as hex) is the hash
    recomputed from the normalized proofs, and its signature over the
    canonical message of contract, phaseId, root, total, proofsHash and
    timestamp recovers to the address [getOwnerFromChain()] returned.
    Hence whenever one of the three fails, nothing is stored and the status
    is not 200. *)
Theorem publish_authentication cfg P st req w reply st' effects
    (Hrun : Upsert.handler cfg P st req w = (reply, st', effects))
    (Hstored : effects <> [] \/ Upsert.statusOf reply = 200) :
  exists t entries normalizedProofs raw recovered,
    (Upsert.timestamp req = Upsert.Finite t /\
     (Qabs (inject_Z (Upsert.now w) - t) <= inject_Z 300000)%Q) /\
    (Upsert.proofs req = Some entries /\
     Upsert.normalizeProofs cfg entries [] = Some normalizedProofs /\
     Js.toLowerCase (Upsert.rendering (Upsert.proofsHash req))
       = Upsert.buildProofsHash normalizedProofs) /\
    (Upsert.verifyMessage P
       (Upsert.buildAllowlistPublishMessage P (Upsert.CONTRACT_ADDRESS cfg)
          (Upsert.phaseId req) (Upsert.rendering (Upsert.root req))
          (Upsert.Finite (inject_Z (Upsert.normalizeTotal (Upsert.total req) (Z.of_nat (length entries)))))
          (Upsert.buildProofsHash normalizedProofs) (Upsert.timestamp req))
       (Upsert.rendering (Upsert.signature req)) = Some raw /\
     Ethers.getAddress raw = Some recovered /\
     Upsert.getOwnerFromChain cfg P w = inr recovered).
Proof.
  unfold Upsert.handler in Hrun.
  destruct (Upsert.preflight cfg P st req w) as [[early|] buckets] eqn:Hpreflight.
  { injection Hrun as <- <- <-.
    destruct Hstored as [H|H]; [contradiction|].
    exfalso. exact (preflight_early _ _ _ _ _ _ _ Hpreflight H). }
  destruct (Upsert.validate cfg P req w) as [early|v] eqn:Hvalidate.
  { injection Hrun as <- <- <-.
    destruct Hstored as [H|H]; [contradiction|].
    exfalso. exact (validate_inl _ _ _ _ _ Hvalidate H). }
  destruct (Upsert.publish cfg P (Upsert.usedSignatures st) v w) as [[reply' used'] effects']
    eqn:Hpublish.
  injection Hrun as <- <- <-.
  destruct (publish_stores _ _ _ _ _ _ _ _ Hpublish Hstored) as [Howner _].
  destruct (validate_inr _ _ _ _ _ Hvalidate)
    as [t [entries [normalizedProofs [raw [Ht [Hfresh [He [Hn [Hh [Hv [Hr _]]]]]]]]]]].
  exists t, entries, normalizedProofs, raw, (Upsert.v_recovered v).
  repeat split; try assumption.
  apply Qle_bool_iff in Hfresh. exact Hfresh.
Qed.

(** Witness for C3: the owner publishes the proofs of three wallets one
    second after signing. *)
Lemma publish_authentication_witness :
  let result :=
    Upsert.handler Samples.cfg Samples.platform Samples.freshState Samples.request
      (Samples.world 1700000001000) in
  result = (result.1.1, result.1.2, result.2) /\
  (result.2 <> [] \/ Upsert.statusOf result.1.1 = 200) /\
  exists t entries normalizedProofs raw recovered,
    (Upsert.timestamp Samples.request = Upsert.Finite t /\
     (Qabs (inject_Z 1700000001000 - t) <= inject_Z 300000)%Q) /\
    (Upsert.proofs Samples.request = Some entries /\
     Upsert.normalizeProofs Samples.cfg entries [] = Some normalizedProofs /\
     Js.toLowerCase (Upsert.rendering (Upsert.proofsHash Samples.request))
       = Upsert.buildProofsHash normalizedProofs) /\
    (Upsert.verifyMessage Samples.platform
       (Upsert.buildAllowlistPublishMessage Samples.platform
          (Upsert.CONTRACT_ADDRESS Samples.cfg)
          (Upsert.phaseId Samples.request) (Upsert.rendering (Upsert.root Samples.request))
          (Upsert.Finite
             (inject_Z (Upsert.normalizeTotal (Upsert.total Samples.request)
                          (Z.of_nat (length entries)))))
          (Upsert.buildProofsHash normalizedProofs) (Upsert.timestamp Samples.request))
       (Upsert.rendering (Upsert.signature Samples.request)) = Some raw /\
     Ethers.getAddress raw = Some recovered /\
     Upsert.getOwnerFromChain Samples.cfg Samples.platform (Samples.world 1700000001000) = inr recovered).
Proof.
  intros result.
  assert (Hrun : result = (result.1.1, result.1.2, result.2))
    by (destruct result as [[reply st] effects]; reflexivity).
  assert (Hstored : result.2 <> [] \/ Upsert.statusOf result.1.1 = 200)
    by (right; vm_compute; reflexivity).
  split; [exact Hrun|]. split; [exact Hstored|].
  exact (publish_authentication Samples.cfg Samples.platform Samples.freshState
           Samples.request (Samples.world 1700000001000) _ _ _ Hrun Hstored).
Defined.

(** ** Replayed signatures *)

Lemma cleanupUsedSignatures_keeps now used key t :
  used !! key = Some t -> now - t <= Upsert.MAX_SIGNATURE_AGE_MS ->
  Upsert.cleanupUsedSignatures now used !! key = Some t.
Proof.
  intros Hkey Hfresh. unfold Upsert.cleanupUsedSignatures.
  apply map_lookup_filter_Some_2; [exact Hkey|]. cbn. lia.
Qed.

Lemma publish_keeps_signature cfg P used v w key t :
  used !! key = Some t -> Upsert.cleanupNow w - t <= Upsert.MAX_SIGNATURE_AGE_MS ->
  (Upsert.publish cfg P used v w).1.2 !! key = Some t.
Proof.
  intros Hkey Hfresh.
  pose proof (cleanupUsedSignatures_keeps _ _ _ _ Hkey Hfresh) as Hkept.
  unfold Upsert.publish.
  destruct (_ !! Js.toLowerCase (Upsert.v_signature v)) as [seen|] eqn:Hseen; [exact Hkept|].
  assert (Hne : Js.toLowerCase (Upsert.v_signature v) <> key) by congruence.
  repeat break_match; cbn [fst snd]; rewrite ?lookup_insert_ne by exact Hne; exact Hkept.
Qed.

Lemma handler_keeps_signature cfg P st req w key t :
  Upsert.usedSignatures st !! key = Some t ->
  Upsert.cleanupNow w - t <= Upsert.MAX_SIGNATURE_AGE_MS ->
  Upsert.usedSignatures (Upsert.handler cfg P st req w).1.2 !! key = Some t.
Proof.
  intros Hkey Hfresh. unfold Upsert.handler.
  destruct (Upsert.preflight cfg P st req w) as [[early|] buckets]; [exact Hkey|].
  destruct (Upsert.validate cfg P req w) as [early|v]; [exact Hkey|].
  pose proof (publish_keeps_signature cfg P _ v w key t Hkey Hfresh) as Hkept.
  destruct (Upsert.publish cfg P (Upsert.usedSignatures st) v w) as [[reply used] effects].
  exact Hkept.
Qed.

Lemma serve_keeps_signature cfg P key t requests :
  forall st,
    Upsert.usedSignatures st !! key = Some t ->
    Forall (fun rw => Upsert.cleanupNow rw.2 - t <= Upsert.MAX_SIGNATURE_AGE_MS) requests ->
    Upsert.usedSignatures (Upsert.serve cfg P st requests) !! key = Some t.
Proof.
  induction requests as [|[req w] requests IH]; intros st Hkey Hall; [exact Hkey|].
  inversion Hall as [|? ? Hfresh Hrest]; subst.
  cbn [Upsert.serve]. apply IH; [|exact Hrest].
  apply handler_keeps_signature; assumption.
Qed.

(** An accepted request leaves its signature, lower-cased, in
    [usedSignatures], stamped with the handler's clock read. *)
Lemma handler_records_signature cfg P st req w reply st' effects :
  Upsert.handler cfg P st req w = (reply, st', effects) ->
  Upsert.statusOf reply = 200 ->
  Upsert.usedSignatures st' !! Js.toLowerCase (Upsert.rendering (Upsert.signature req))
  = Some (Upsert.now w).
Proof.
  unfold Upsert.handler.
  destruct (Upsert.preflight cfg P st req w) as [[early|] buckets] eqn:Hpreflight.
  { intros [= <- <- <-] H. exfalso. exact (preflight_early _ _ _ _ _ _ _ Hpreflight H). }
  destruct (Upsert.validate cfg P req w) as [early|v] eqn:Hvalidate.
  { intros [= <- <- <-] H. exfalso. exact (validate_inl _ _ _ _ _ Hvalidate H). }
  destruct (validate_inr _ _ _ _ _ Hvalidate)
    as [t [entries [normalizedProofs [raw [_ [_ [_ [_ [_ [_ [_ [Hsig Hnow]]]]]]]]]]]].
  destruct (Upsert.publish cfg P (Upsert.usedSignatures st) v w) as [[reply' used'] effects']
    eqn:Hpublish.
  intros [= <- <- <-] Hok. cbn [Upsert.usedSignatures].
  rewrite <- Hsig, <- Hnow. revert Hpublish Hok. unfold Upsert.publish.
  repeat break_match; intros [= <- <- <-] Hok; try discriminate Hok;
    apply lookup_insert_eq.
Qed.

(** C10.  Once the handler has accepted a publish request (status 200), a
    later request with the same signature, handled while the entry is
    retained (its clock read at most 300000 ms after the accepted request's,
    as for the requests handled in between), issues no file or KV operation
    and is not answered 200; if no earlier check rejects it, the answer is
    409 "Replay detected". *)
Theorem publish_replay_rejected cfg P st1 req1 w1 reply1 st2 effects1 between req2 w2
    (Haccepted : Upsert.handler cfg P st1 req1 w1 = (reply1, st2, effects1))
    (Hok : Upsert.statusOf reply1 = 200)
    (Hbetween : Forall (fun rw => Upsert.cleanupNow rw.2 - Upsert.now w1
                                  <= Upsert.MAX_SIGNATURE_AGE_MS) between)
    (Hsame : Js.toLowerCase (Upsert.rendering (Upsert.signature req2))
             = Js.toLowerCase (Upsert.rendering (Upsert.signature req1)))
    (Hwindow : Upsert.cleanupNow w2 - Upsert.now w1 <= 300000) :
  let st3 := Upsert.serve cfg P st2 between in
  let result := Upsert.handler cfg P st3 req2 w2 in
  result.2 = [] /\
  Upsert.statusOf result.1.1 <> 200 /\
  (forall buckets v,
     Upsert.preflight cfg P st3 req2 w2 = (None, buckets) ->
     Upsert.validate cfg P req2 w2 = inr v ->
     result.1.1 = Upsert.Json 409 (Upsert.Error "Replay detected")).
Proof.
  intros st3 result.
  pose proof (handler_records_signature _ _ _ _ _ _ _ _ Haccepted Hok) as Hrecorded.
  pose proof (serve_keeps_signature cfg P _ _ between st2 Hrecorded Hbetween) as Hkept.
  fold st3 in Hkept. subst result. unfold Upsert.handler.
  destruct (Upsert.preflight cfg P st3 req2 w2) as [[early|] buckets] eqn:Hpreflight.
  { cbn [fst snd]. split; [reflexivity|]. split; [exact (preflight_early _ _ _ _ _ _ _ Hpreflight)|].
    intros ? ? [=]. }
  destruct (Upsert.validate cfg P req2 w2) as [early|v] eqn:Hvalidate.
  { cbn [fst snd]. split; [reflexivity|]. split; [exact (validate_inl _ _ _ _ _ Hvalidate)|].
    intros ? ? _ [=]. }
  destruct (validate_inr _ _ _ _ _ Hvalidate)
    as [t [entries [normalizedProofs [raw [_ [_ [_ [_ [_ [_ [_ [Hsig _]]]]]]]]]]]].
  assert (Hreplay : Upsert.publish cfg P (Upsert.usedSignatures st3) v w2
            = (Upsert.Json 409 (Upsert.Error "Replay detected"),
               Upsert.cleanupUsedSignatures (Upsert.cleanupNow w2) (Upsert.usedSignatures st3),
               [])).
  { unfold Upsert.publish. rewrite Hsig, Hsame.
    rewrite (cleanupUsedSignatures_keeps _ _ _ _ Hkept Hwindow). reflexivity. }
  rewrite Hreplay. cbn [fst snd]. split; [reflexivity|]. split; [discriminate|].
  intros; reflexivity.
Qed.

(** Witness for C10: the accepted sample request is sent again two seconds
    later, after one other request. *)
Lemma publish_replay_rejected_witness :
  let first :=
    Upsert.handler Samples.cfg Samples.platform Samples.freshState Samples.request
      (Samples.world 1700000001000) in
  let between := [(Samples.request, Samples.world 1700000002000)] in
  let st3 := Upsert.serve Samples.cfg Samples.platform first.1.2 between in
  let result :=
    Upsert.handler Samples.cfg Samples.platform st3 Samples.request
      (Samples.world 1700000003000) in
  first = (first.1.1, first.1.2, first.2) /\
  Upsert.statusOf first.1.1 = 200 /\
  Forall (fun rw => Upsert.cleanupNow rw.2 - 1700000001000 <= Upsert.MAX_SIGNATURE_AGE_MS)
         between /\
  1700000003000 - 1700000001000 <= 300000 /\
  result.2 = [] /\
  Upsert.statusOf result.1.1 <> 200 /\
  (forall buckets v,
     Upsert.preflight Samples.cfg Samples.platform st3 Samples.request (Samples.world 1700000003000)
       = (None, buckets) ->
     Upsert.validate Samples.cfg Samples.platform Samples.request
       (Samples.world 1700000003000) = inr v ->
     result.1.1 = Upsert.Json 409 (Upsert.Error "Replay detected")).
Proof.
  intros first between st3 result.
  assert (Haccepted : first = (first.1.1, first.1.2, first.2))
    by (destruct first as [[reply st] effects]; reflexivity).
  assert (Hok : Upsert.statusOf first.1.1 = 200) by (vm_compute; reflexivity).
  assert (Hbetween : Forall (fun rw => Upsert.cleanupNow rw.2 - 1700000001000
                                        <= Upsert.MAX_SIGNATURE_AGE_MS) between)
    by (repeat constructor; vm_compute; discriminate).
  assert (Hwindow : 1700000003000 - 1700000001000 <= 300000) by lia.
  split; [exact Haccepted|]. split; [exact Hok|]. split; [exact Hbetween|].
  split; [exact Hwindow|].
  exact (publish_replay_rejected Samples.cfg Samples.platform Samples.freshState
           Samples.request (Samples.world 1700000001000) _ _ _ between
           Samples.request (Samples.world 1700000003000)
           Haccepted Hok Hbetween eq_refl Hwindow).
Defined.

(** * Further properties of the code *)

Lemma sendContractTx_loop_bounds Tx (contract : nat -> Contract.Attempt Tx)
    fallbackGasLimit value maxAttempts :
  forall remaining attempt forceLegacy lastError,
    (0 < remaining)%nat ->
    Z.of_nat attempt + Z.of_nat remaining = maxAttempts + 1 ->
    let r := Contract.sendContractTx_loop contract fallbackGasLimit value maxAttempts
               remaining attempt forceLegacy lastError in
    (1 <= Contract.calls (Contract.run r) <= remaining)%nat /\
    Contract.sleeps (Contract.run r)
      = writeWaits attempt (Contract.calls (Contract.run r) - 1) /\
    (length (Contract.submitted r) <= Contract.calls (Contract.run r))%nat /\
    Contract.settled (Contract.run r) <> Contract.Thrown None.
Proof.
  induction remaining as [|remaining IH]; intros attempt forceLegacy lastError Hpos Hsum; [lia|].
  cbn [Contract.sendContractTx_loop].
  set (built := Contract.buildTxOverrides _ _ _ _).
  set (tried := match built with inl thrown => inl thrown | inr o => Contract.send _ o end).
  set (sent := match built with inl _ => [] | inr o => [o] end).
  assert (Hsent : (length sent <= 1)%nat) by (subst sent; destruct built; cbn; lia).
  destruct tried as [error|tx].
  - destruct (_ || _) eqn:Hstop.
    + cbn. repeat split; try lia; try congruence.
    + apply orb_false_iff in Hstop as [Hlast _]. apply Z.leb_gt in Hlast.
      destruct remaining as [|remaining']; [lia|].
      specialize (IH (S attempt)
                     (if Js.includes (Js.toLowerCase (Contract.extractRpcErrorMessage error))
                                     Contract.FEE_MISMATCH then true else forceLegacy)
                     (Some error) ltac:(lia) ltac:(lia)).
      cbn zeta in IH. destruct IH as ((Hc1 & Hc2) & Hs & Hl & Hn).
      cbn [Contract.run Contract.submitted Contract.called Contract.sleep
           Contract.calls Contract.sleeps Contract.settled].
      repeat split; try lia.
      * rewrite Hs. unfold writeWaits.
        replace (S (Contract.calls _) - 1)%nat
          with (S (Contract.calls (Contract.run
                 (Contract.sendContractTx_loop contract fallbackGasLimit value maxAttempts
                    (S remaining') (S attempt)
                    (if Js.includes (Js.toLowerCase (Contract.extractRpcErrorMessage error))
                                    Contract.FEE_MISMATCH then true else forceLegacy)
                    (Some error))) - 1))%nat by lia.
        reflexivity.
      * rewrite length_app. lia.
      * exact Hn.
  - cbn. repeat split; try lia; congruence.
Qed.

(** X1.  For a contract that has the method and a maxAttempts option that
    is missing or an integer, sendContractTxWithBufferedGas makes at least
    one and at most max(1, maxAttempts) attempts (3 when the option is
    missing or zero), waits 350 ms times the attempt number after every
    attempt but the last, and submits at most one transaction per
    attempt. *)
Theorem send_attempts_bounded Tx methodName (contract : nat -> Contract.Attempt Tx) options :
  let r := Contract.sendContractTxWithBufferedGas true methodName contract options in
  let maxAttempts :=
    Z.max 1 (Contract.numberOr (Contract.opt_maxAttempts options) 3) in
  let attempts := Contract.calls (Contract.run r) in
  (1 <= attempts)%nat /\ Z.of_nat attempts <= maxAttempts /\
  Contract.sleeps (Contract.run r)
    = map (fun i => 350 * Z.of_nat i) (seq 1 (attempts - 1)) /\
  (length (Contract.submitted r) <= attempts)%nat.
Proof.
  cbn zeta. unfold Contract.sendContractTxWithBufferedGas. cbn [negb].
  set (maxAttempts := Z.max 1 _).
  pose proof (sendContractTx_loop_bounds Tx contract
                (Contract.numberOr (Contract.opt_fallbackGasLimit options) Contract.GAS_LIMIT_FALLBACK)
                (Contract.opt_value options) maxAttempts
                (Z.to_nat maxAttempts) 1%nat false None) as H.
  cbn zeta in H.
  destruct H as ((H1 & H2) & Hs & Hl & _); [subst maxAttempts; lia..|].
  repeat split; try assumption; try lia.
Qed.

(** X2.  For an integer fallback gas limit of absolute value below
    2^53 - 1 (where BigNumber.from accepts it), buildTxOverrides throws
    exactly when the gas estimate fails with an error whose extracted
    message looks like a revert reason, and what it throws is a new Error
    with that message; no other failure of the estimate, the nonce lookup
    or the fee lookup makes it throw. *)
Theorem buildTxOverrides_throws_iff Tx (contract : Contract.Attempt Tx) fallbackGasLimit value
    forceLegacy thrown
    (Hsafe : Z.abs fallbackGasLimit < 2 ^ 53 - 1) :
  Contract.buildTxOverrides contract fallbackGasLimit value forceLegacy = inl thrown <->
  exists estimateError,
    Contract.estimateGas contract = Some (inl estimateError) /\
    Contract.isLikelyRevertReason (Contract.extractRpcErrorMessage estimateError) = true /\
    thrown = Contract.newError (Contract.extractRpcErrorMessage estimateError).
Proof.
  unfold Contract.buildTxOverrides. split.
  - destruct (Contract.estimateGas contract) as [[estimateError|estimated]|] eqn:Hestimate;
      try discriminate.
    destruct (Contract.isLikelyRevertReason _) eqn:Hrevert; try discriminate.
    intros [= <-]. exists estimateError. repeat split; try assumption.
    rewrite (isLikelyRevertReason_nonempty _ Hrevert). reflexivity.
  - intros (estimateError & -> & Hrevert & ->). rewrite Hrevert.
    rewrite (isLikelyRevertReason_nonempty _ Hrevert). reflexivity.
Qed.

Lemma buildTxOverrides_throws_iff_witness :
  Contract.buildTxOverrides (Samples.failingEstimate "execution reverted: Paused") 280000
    None false
  = inl (Contract.newError "execution reverted: Paused").
Proof.
  refine (proj2 (buildTxOverrides_throws_iff unit
                   (Samples.failingEstimate "execution reverted: Paused") 280000 None false
                   (Contract.newError "execution reverted: Paused") _) _).
  - reflexivity.
  - exists (Contract.newError "execution reverted: Paused").
    split; [reflexivity|]. split; reflexivity.
Defined.

Lemma buildTxOverrides_fee_fields Tx (contract : Contract.Attempt Tx) fallbackGasLimit value
    forceLegacy ov :
  Contract.buildTxOverrides contract fallbackGasLimit value forceLegacy = inr ov ->
  (Contract.gasPrice ov = None \/ isLegacy ov) /\
  (Contract.isSome (Contract.maxFeePerGas ov)
   = Contract.isSome (Contract.maxPriorityFeePerGas ov)) /\
  (forceLegacy = true -> isLegacy ov) /\
  Contract.value ov = value.
Proof.
  unfold Contract.buildTxOverrides, isLegacy.
  destruct (match Contract.estimateGas contract with
            | Some (inr _) => _ | Some (inl _) => _ | None => _ end) as [?|g];
    [discriminate|].
  intros [= <-].
  destruct value as [v|];
    destruct (Contract.provider contract); cbn [andb];
    destruct (Js.truthy (Contract.signerAddress contract));
    destruct (Contract.getTransactionCount contract) as [[? ?]|];
    destruct (Contract.getFeeData contract) as [[feeData|]|]; cbn;
    try (destruct forceLegacy; cbn [negb andb]);
    repeat match goal with
           | |- context [if ?c then _ else _] => destruct c
           | |- context [match ?x with Some _ => _ | None => _ end] => destruct x
           end; cbn; intuition congruence.
Qed.

(** X3.  The overrides buildTxOverrides returns never carry gasPrice together
    with an EIP-1559 fee field, carry maxFeePerGas and
    maxPriorityFeePerGas both or neither, and carry neither of the two
    when legacy fees are forced. *)
Theorem overrides_fee_fields_exclusive Tx (contract : Contract.Attempt Tx) fallbackGasLimit
    value forceLegacy ov
    (Hbuilt : Contract.buildTxOverrides contract fallbackGasLimit value forceLegacy = inr ov) :
  (Contract.gasPrice ov = None \/
   (Contract.maxFeePerGas ov = None /\ Contract.maxPriorityFeePerGas ov = None)) /\
  (Contract.maxFeePerGas ov = None <-> Contract.maxPriorityFeePerGas ov = None) /\
  (forceLegacy = true ->
   Contract.maxFeePerGas ov = None /\ Contract.maxPriorityFeePerGas ov = None).
Proof.
  destruct (buildTxOverrides_fee_fields _ _ _ _ _ _ Hbuilt) as (Hkind & Hboth & Hforced & _).
  repeat split; try assumption; try (apply Hforced; assumption).
  - intros H. rewrite H in Hboth. destruct (Contract.maxPriorityFeePerGas ov); [discriminate|reflexivity].
  - intros H. rewrite H in Hboth. destruct (Contract.maxFeePerGas ov); [discriminate|reflexivity].
Qed.

Lemma overrides_fee_fields_exclusive_witness :
  Contract.buildTxOverrides Samples.healthy 280000 None true
    = inr {| Contract.value := None; Contract.gasLimit := Some 120000;
             Contract.nonce := Some 10; Contract.maxPriorityFeePerGas := None;
             Contract.maxFeePerGas := None; Contract.gasPrice := Some 1000000 |} /\
  (Some 1000000 = None \/ (@None Z = None /\ @None Z = None)).
Proof.
  split; [reflexivity|].
  exact (proj1 (overrides_fee_fields_exclusive unit Samples.healthy 280000 None true _ eq_refl)).
Defined.

Lemma sendContractTx_loop_legacy Tx (contract : nat -> Contract.Attempt Tx)
    fallbackGasLimit value maxAttempts :
  forall remaining attempt lastError,
    Forall isLegacy
      (Contract.submitted
         (Contract.sendContractTx_loop contract fallbackGasLimit value maxAttempts
            remaining attempt true lastError)).
Proof.
  induction remaining as [|remaining IH]; intros attempt lastError; [constructor|].
  cbn [Contract.sendContractTx_loop].
  destruct (Contract.buildTxOverrides (contract attempt) fallbackGasLimit value true)
    as [thrown|ov] eqn:Hbuilt.
  - destruct (_ || _); cbn [Contract.submitted]; [constructor|].
    cbn [app]. destruct (Js.includes _ _); apply IH.
  - assert (Hov : isLegacy ov)
      by (apply (buildTxOverrides_fee_fields _ _ _ _ _ _ Hbuilt); reflexivity).
    destruct (Contract.send (contract attempt) ov) as [error|tx];
      [|cbn; repeat constructor; apply Hov].
    destruct (_ || _); cbn [Contract.submitted]; [repeat constructor; apply Hov|].
    cbn [app]. constructor; [exact Hov|].
    destruct (Js.includes _ _); apply IH.
Qed.

(** X4.  When the first submission of sendContractTxWithBufferedGas is refused
    with an error whose message contains 'maxFeePerGas cannot be less than
    maxPriorityFeePerGas' (in any letter case), every later submission of
    the same call carries neither maxFeePerGas nor maxPriorityFeePerGas. *)
Theorem fee_mismatch_forces_legacy Tx methodName (contract : nat -> Contract.Attempt Tx)
    options first error
    (Hbuilt : Contract.buildTxOverrides (contract 1%nat)
                (Contract.numberOr (Contract.opt_fallbackGasLimit options) 280000)
                (Contract.opt_value options) false = inr first)
    (Hrefused : Contract.send (contract 1%nat) first = inl error)
    (Hmismatch : Js.includes (Js.toLowerCase (Contract.extractRpcErrorMessage error))
                   "maxfeepergas cannot be less than maxpriorityfeepergas" = true) :
  exists retries,
    Contract.submitted (Contract.sendContractTxWithBufferedGas true methodName contract options)
      = first :: retries /\
    Forall (fun ov => Contract.maxFeePerGas ov = None /\
                      Contract.maxPriorityFeePerGas ov = None) retries.
Proof.
  unfold Contract.sendContractTxWithBufferedGas. cbn [negb].
  set (maxAttempts := Z.max 1 _).
  destruct (Z.to_nat maxAttempts) as [|remaining] eqn:Hremaining; [subst maxAttempts; lia|].
  cbn [Contract.sendContractTx_loop].
  change Contract.GAS_LIMIT_FALLBACK with 280000.
  rewrite Hbuilt, Hrefused.
  change Contract.FEE_MISMATCH with "maxfeepergas cannot be less than maxpriorityfeepergas".
  rewrite Hmismatch.
  destruct (_ || _); cbn [Contract.submitted].
  - exists []. split; [reflexivity|constructor].
  - eexists. split; [reflexivity|]. apply sendContractTx_loop_legacy.
Qed.

Lemma fee_mismatch_forces_legacy_witness :
  exists retries,
    Contract.submitted
      (Contract.sendContractTxWithBufferedGas true "mint" feeMismatchOnce Samples.noOptions)
      = Samples.healthyOverrides :: retries /\
    retries <> [] /\
    Forall (fun ov => Contract.maxFeePerGas ov = None /\
                      Contract.maxPriorityFeePerGas ov = None) retries.
Proof.
  destruct (fee_mismatch_forces_legacy unit "mint" feeMismatchOnce Samples.noOptions
              Samples.healthyOverrides
              (Contract.newError "maxFeePerGas cannot be less than maxPriorityFeePerGas")
              eq_refl eq_refl eq_refl) as (retries & Hsub & Hlegacy).
  exists retries. split; [exact Hsub|]. split; [|exact Hlegacy].
  intros ->. vm_compute in Hsub. discriminate.
Defined.

Lemma withReadRetry_loop_bounds T cfg (task : nat -> Contract.RpcError + T) :
  forall remaining attempt lastError,
    (0 < remaining)%nat ->
    Z.of_nat attempt + Z.of_nat remaining = Contract.READ_RETRY_ATTEMPTS cfg + 1 ->
    let r := Contract.withReadRetry_loop cfg task remaining attempt lastError in
    (1 <= Contract.calls r <= remaining)%nat /\
    (length (Contract.sleeps r) < Contract.calls r)%nat /\
    Forall (fun waitMs => 0 < waitMs) (Contract.sleeps r) /\
    match Contract.settled r with
    | Contract.Returned v => task (attempt + Contract.calls r - 1)%nat = inr v
    | Contract.Thrown (Some e) => task (attempt + Contract.calls r - 1)%nat = inl e
    | Contract.Thrown None => False
    end.
Proof.
  induction remaining as [|remaining IH]; intros attempt lastError Hpos Hsum; [lia|].
  cbn [Contract.withReadRetry_loop].
  destruct (task attempt) as [error|v] eqn:Htask.
  - destruct (_ || _) eqn:Hstop.
    + cbn. replace (attempt + 1 - 1)%nat with attempt by lia.
      repeat split; try lia; try constructor. exact Htask.
    + apply orb_false_iff in Hstop as [Hlast _]. apply Z.leb_gt in Hlast.
      destruct remaining as [|remaining']; [lia|].
      specialize (IH (S attempt) (Some error) ltac:(lia) ltac:(lia)).
      cbn zeta in IH. destruct IH as ((Hc1 & Hc2) & Hs & Hw & Hsettled).
      set (rest := Contract.withReadRetry_loop cfg task (S remaining') (S attempt) (Some error)) in *.
      unfold Contract.sleepIfPositive.
      destruct (0 <? _) eqn:Hwait; cbn [Contract.called Contract.calls Contract.sleeps
                                        Contract.settled length].
      * apply Z.ltb_lt in Hwait.
        repeat split; try lia; [constructor; assumption|].
        replace (attempt + S (Contract.calls rest) - 1)%nat
          with (S attempt + Contract.calls rest - 1)%nat by lia.
        exact Hsettled.
      * repeat split; try lia; [assumption|].
        replace (attempt + S (Contract.calls rest) - 1)%nat
          with (S attempt + Contract.calls rest - 1)%nat by lia.
        exact Hsettled.
  - cbn. replace (attempt + 1 - 1)%nat with attempt by lia.
    repeat split; try lia; try constructor. exact Htask.
Qed.

(** X5.  When the retry settings are unset or integers, withReadRetry calls
    the task at least once and at most READ_RETRY_ATTEMPTS times, sleeps
    fewer times than it calls, and settles as its last call did: it
    returns the value that call returned, or rethrows what that call
    rejected with. *)
Theorem read_retry_bounded T cfg (task : nat -> Contract.RpcError + T) :
  let r := Contract.withReadRetry cfg task in
  (1 <= Contract.calls r)%nat /\
  Z.of_nat (Contract.calls r) <= Contract.READ_RETRY_ATTEMPTS cfg /\
  (length (Contract.sleeps r) < Contract.calls r)%nat /\
  Contract.settled r
  = match task (Contract.calls r) with
    | inr v => Contract.Returned v
    | inl e => Contract.Thrown (Some e)
    end.
Proof.
  cbn zeta. unfold Contract.withReadRetry.
  assert (Hmin : 1 <= Contract.READ_RETRY_ATTEMPTS cfg)
    by (unfold Contract.READ_RETRY_ATTEMPTS; lia).
  pose proof (withReadRetry_loop_bounds T cfg task
                (Z.to_nat (Contract.READ_RETRY_ATTEMPTS cfg)) 1%nat None) as H.
  cbn zeta in H. destruct H as ((H1 & H2) & Hs & _ & Hsettled); [lia..|].
  set (r := Contract.withReadRetry_loop _ _ _ _ _) in *.
  replace (1 + Contract.calls r - 1)%nat with (Contract.calls r) in Hsettled by lia.
  repeat split; try assumption; try lia.
  destruct (Contract.settled r) as [v|[e|]]; [| |contradiction];
    rewrite Hsettled; reflexivity.
Qed.

Lemma getChecksumAddress_toLowerCase a r :
  Ethers.getChecksumAddress a = Some r -> Js.toLowerCase r = Js.toLowerCase a.
Proof.
  unfold Ethers.getChecksumAddress.
  destruct (Ethers.is0xHexOfLength 40 a) eqn:Ha; [|discriminate].
  intros [= <-].
  apply is0xHexOfLength_inv in Ha as [digits [-> Hdigits]].
  change (Js.toLowerCase (String "0" (String "x" digits)))
    with (String "0" (String "x" (Js.toLowerCase digits))).
  change (String.substring 2 40 (String "0" (String "x" (Js.toLowerCase digits))))
    with (String.substring 0 40 (Js.toLowerCase digits)).
  rewrite <- isHexOfLength_toLowerCase in Hdigits.
  assert (Hlen : String.length (Js.toLowerCase digits) = 40%nat).
  { unfold Ethers.isHexOfLength in Hdigits. apply andb_true_iff in Hdigits as [Hlen _].
    apply Nat.eqb_eq. exact Hlen. }
  pose proof (substring_all (Js.toLowerCase digits)) as Hsub.
  rewrite Hlen in Hsub. rewrite Hsub.
  change (String "0" (String "x"
            (Js.toLowerCase (Ethers.checksumCase (Js.toLowerCase digits)
               (Keccak.keccak_256 (Ethers.charCodes (Js.toLowerCase digits))))))
          = String "0" (String "x" (Js.toLowerCase digits))).
  rewrite toLowerCase_checksumCase, toLowerCase_idem. reflexivity.
Qed.

Lemma getChecksumAddress_lowered a b :
  Js.toLowerCase a = Js.toLowerCase b ->
  Ethers.is0xHexOfLength 40 a = true -> Ethers.is0xHexOfLength 40 b = true ->
  Ethers.getChecksumAddress a = Ethers.getChecksumAddress b.
Proof.
  intros Hlow Ha Hb. unfold Ethers.getChecksumAddress. rewrite Ha, Hb, Hlow. reflexivity.
Qed.

Lemma getAddress_0x a :
  Ethers.is0xHexOfLength 40 a = true ->
  Ethers.getAddress a
  = result ← Ethers.getChecksumAddress a;
    if Ethers.anyChar Ethers.isUpperAF a && Ethers.anyChar Ethers.isLowerAF a &&
       negb (String.eqb result a)
    then None else Some result.
Proof.
  intros Ha. unfold Ethers.getAddress. rewrite Ha, orb_true_r. reflexivity.
Qed.

(** A checksummed address is accepted unchanged. *)
Lemma getAddress_idem a r : Ethers.getAddress a = Some r -> Ethers.getAddress r = Some r.
Proof.
  intros Hr.
  pose proof (getAddress_address _ _ Hr) as Hfmt.
  destruct (getAddress_checksummed _ _ Hr) as (chars & Hchars & ->).
  rewrite (getAddress_0x _ Hfmt).
  destruct (Ethers.getChecksumAddress (checksumOf chars)) as [result|] eqn:Hresult.
  - cbn [mbind option_bind].
    assert (result = checksumOf chars) as ->.
    { apply checksummed_toLowerCase_inj.
      - eapply getChecksumAddress_checksummed. exact Hresult.
      - exists chars. split; [assumption|reflexivity].
      - eapply getChecksumAddress_toLowerCase. exact Hresult. }
    rewrite String.eqb_refl, andb_false_r. reflexivity.
  - unfold Ethers.getChecksumAddress in Hresult. rewrite Hfmt in Hresult. discriminate.
Qed.

Lemma getAddress_toLowerCase a r :
  Ethers.is0xHexOfLength 40 a = true ->
  Ethers.getAddress a = Some r -> Js.toLowerCase r = Js.toLowerCase a.
Proof.
  intros Ha. rewrite (getAddress_0x _ Ha).
  destruct (Ethers.getChecksumAddress a) as [result|] eqn:Hresult; [|discriminate].
  cbn [mbind option_bind]. destruct (_ && _); [discriminate|].
  intros [= <-]. eapply getChecksumAddress_toLowerCase. exact Hresult.
Qed.

(** X6.  For two 0x-prefixed strings of 40 hex digits that getAddress accepts,
    isSameAddress is true exactly when the two are equal up to letter
    case; it does not depend on the order of its arguments, and an address
    is the same as its checksummed form. *)
Theorem isSameAddress_ignores_case (a b : string)
    (Ha : Ethers.is0xHexOfLength 40 a = true)
    (Hb : Ethers.is0xHexOfLength 40 b = true)
    (Hvalid : is_Some (Ethers.getAddress a) /\ is_Some (Ethers.getAddress b)) :
  (ContractLib.isSameAddress (Some a) (Some b) = true <-> Js.toLowerCase a = Js.toLowerCase b) /\
  ContractLib.isSameAddress (Some a) (Some b) = ContractLib.isSameAddress (Some b) (Some a) /\
  (forall checksummed, Ethers.getAddress a = Some checksummed ->
     ContractLib.isSameAddress (Some a) (Some checksummed) = true).
Proof.
  destruct Hvalid as [[ra Hra] [rb Hrb]].
  assert (Hna : Js.truthy (Some a) = true).
  { apply is0xHexOfLength_inv in Ha as [digits [-> _]]. reflexivity. }
  assert (Hnb : Js.truthy (Some b) = true).
  { apply is0xHexOfLength_inv in Hb as [digits [-> _]]. reflexivity. }
  unfold ContractLib.isSameAddress. rewrite Hna, Hnb.
  cbn [negb orb Js.stringOrEmpty]. rewrite Hra, Hrb.
  split; [|split].
  - rewrite String.eqb_eq. split.
    + intros ->. rewrite <- (getAddress_toLowerCase _ _ Ha Hra).
      apply (getAddress_toLowerCase _ _ Hb Hrb).
    + intros Hlow. apply checksummed_toLowerCase_inj.
      * eapply getAddress_checksummed; eassumption.
      * eapply getAddress_checksummed; eassumption.
      * rewrite (getAddress_toLowerCase _ _ Ha Hra), (getAddress_toLowerCase _ _ Hb Hrb).
        exact Hlow.
  - apply String.eqb_sym.
  - intros checksummed [= <-].
    assert (Hnr : Js.truthy (Some ra) = true).
    { pose proof (getAddress_address _ _ Hra) as Hfmt.
      apply is0xHexOfLength_inv in Hfmt as [digits [-> _]]. reflexivity. }
    rewrite Hnr. cbn [negb]. rewrite (getAddress_idem _ _ Hra). apply String.eqb_refl.
Qed.

Lemma isSameAddress_ignores_case_witness :
  ContractLib.isSameAddress (Some Samples.alice) (Some (Js.toLowerCase Samples.alice)) = true.
Proof.
  refine (proj2 (proj1 (isSameAddress_ignores_case Samples.alice
                          (Js.toLowerCase Samples.alice) eq_refl eq_refl _)) _).
  - split; eexists; vm_compute; reflexivity.
  - vm_compute. reflexivity.
Defined.

(** ** The digest has 32 bytes *)

Lemma iota_length rc st : length (Keccak.iota rc st) = length st.
Proof. destruct st; reflexivity. Qed.

Lemma round_length st rc : length (Keccak.round st rc) = 25%nat.
Proof.
  unfold Keccak.round. rewrite iota_length. unfold Keccak.chi. rewrite length_map.
  reflexivity.
Qed.

Lemma fold_round_length rcs :
  forall st, length st = 25%nat -> length (fold_left Keccak.round rcs st) = 25%nat.
Proof.
  induction rcs as [|rc rcs IH]; intros st Hst; [exact Hst|].
  cbn [fold_left]. apply IH. apply round_length.
Qed.

Lemma keccakF_length st : length (Keccak.keccakF st) = 25%nat.
Proof.
  change (Keccak.keccakF st)
    with (fold_left Keccak.round (tl Keccak.roundConstants)
            (Keccak.round st (hd 0 Keccak.roundConstants))).
  apply fold_round_length, round_length.
Qed.

Lemma absorb_length blocks :
  forall st bs, length st = 25%nat -> length (Keccak.absorb blocks st bs) = 25%nat.
Proof.
  induction blocks as [|blocks IH]; intros st bs Hst; [exact Hst|].
  cbn [Keccak.absorb]. apply IH. apply keccakF_length.
Qed.

Lemma bytesOfLane_length n : forall l, length (Keccak.bytesOfLane n l) = n.
Proof. induction n as [|n IH]; intros l; cbn; [|rewrite IH]; reflexivity. Qed.

Lemma keccak_256_length msg : length (Keccak.keccak_256 msg) = 32%nat.
Proof.
  unfold Keccak.keccak_256.
  set (st := Keccak.absorb _ _ _).
  assert (Hst : length st = 25%nat) by (apply absorb_length; reflexivity).
  destruct st as [|a [|b [|c [|d st]]]]; try discriminate.
  cbn [firstn flat_map]. rewrite !length_app, !bytesOfLane_length. reflexivity.
Qed.

Lemma isHexChar_hexDigit n : 0 <= n < 16 -> Ethers.isHexChar (Ethers.hexDigit n) = true.
Proof.
  apply (nibble_check (fun n => Ethers.isHexChar (Ethers.hexDigit n))). reflexivity.
Qed.

Lemma hexOfBytes_hex bs :
  Ethers.isHexOfLength (2 * length bs) (Ethers.hexOfBytes bs) = true.
Proof.
  unfold Ethers.isHexOfLength. apply andb_true_iff. split.
  - apply Nat.eqb_eq. induction bs as [|b bs IH]; [reflexivity|].
    cbn [Ethers.hexOfBytes String.length length]. rewrite IH. lia.
  - induction bs as [|b bs IH]; [reflexivity|].
    cbn [Ethers.hexOfBytes Ethers.allChars].
    rewrite !isHexChar_hexDigit by (apply Z.mod_pos_bound; lia). exact IH.
Qed.

Lemma keccak256_bytes32 data : Ethers.is0xHexOfLength 64 (Ethers.keccak256 data) = true.
Proof.
  unfold Ethers.keccak256.
  change (Ethers.hexlify (Keccak.keccak_256 data))
    with (String "0" (String "x" (Ethers.hexOfBytes (Keccak.keccak_256 data)))).
  cbn [Ethers.is0xHexOfLength].
  pose proof (hexOfBytes_hex (Keccak.keccak_256 data)) as H.
  rewrite keccak_256_length in H. exact H.
Qed.

Lemma digest_bytes32 s : isDigest s -> Ethers.is0xHexOfLength 64 s = true.
Proof. intros [data ->]. apply keccak256_bytes32. Qed.

Lemma digest_hexData s : isDigest s -> isHexData s.
Proof. intros [data ->]. apply keccak256_hexData. Qed.

(** ** The pair hash does not depend on the order of its arguments *)

Lemma arrayify_inv s bs :
  Ethers.arrayify s = Some bs ->
  exists digits, s = String "0" (String "x" digits) /\ Ethers.parseHexPairs digits = Some bs.
Proof.
  unfold Ethers.arrayify.
  destruct s as [|c0 [|c1 digits]]; try discriminate.
  - destruct c0 as [[] [] [] [] [] [] [] []]; discriminate.
  - destruct c0 as [[] [] [] [] [] [] [] []]; try discriminate.
    destruct c1 as [[] [] [] [] [] [] [] []]; try discriminate.
    intros H. exists digits. split; [reflexivity|exact H].
Qed.

Lemma arrayify_lowered a b :
  Js.toLowerCase a = Js.toLowerCase b ->
  is_Some (Ethers.arrayify a) -> is_Some (Ethers.arrayify b) ->
  Ethers.arrayify a = Ethers.arrayify b.
Proof.
  intros Hlow [xa Ha] [xb Hb].
  destruct (arrayify_inv _ _ Ha) as (ra & -> & _).
  destruct (arrayify_inv _ _ Hb) as (rb & -> & _).
  cbn [Js.toLowerCase] in Hlow. injection Hlow as Hlow.
  unfold Ethers.arrayify.
  rewrite <- (parseHexPairs_toLowerCase ra), <- (parseHexPairs_toLowerCase rb), Hlow.
  reflexivity.
Qed.

(** X7.  hashMerklePair gives the same result for (a, b) and for (b, a),
    whatever the two strings are, the inputs it throws on included. *)
Theorem hashMerklePair_symmetric (a b : string) :
  Admin.hashMerklePair a b = Admin.hashMerklePair b a.
Proof.
  unfold Admin.hashMerklePair.
  destruct (String.leb (Js.toLowerCase a) (Js.toLowerCase b)) eqn:Hab,
           (String.leb (Js.toLowerCase b) (Js.toLowerCase a)) eqn:Hba;
    try reflexivity.
  - assert (Hlow : Js.toLowerCase a = Js.toLowerCase b)
      by (apply String.leb_antisym; assumption).
    unfold Ethers.concat. cbn [mapM].
    destruct (Ethers.arrayify a) as [xa|] eqn:Ha, (Ethers.arrayify b) as [xb|] eqn:Hb;
      try reflexivity.
    assert (Some xa = Some xb) as [= ->]; [|reflexivity].
    rewrite <- Ha, <- Hb. apply arrayify_lowered; [assumption|eexists; eassumption..].
  - destruct (String.leb_total (Js.toLowerCase a) (Js.toLowerCase b)); congruence.
Qed.

Section Layers.

Variable P : string -> Prop.
Hypothesis pair_P : forall a b h, Admin.hashMerklePair a b = Some h -> P h.

Lemma buildNextMerkleLayer_keeps layer :
  forall next,
    Forall P layer -> Admin.buildNextMerkleLayer layer = Some next ->
    Forall P next /\ length next = ((length layer + 1) / 2)%nat.
Proof.
  induction layer as [|x|x y rest IH] using list_pair_ind; intros next Hall Hnext.
  - injection Hnext as <-. split; [constructor|reflexivity].
  - injection Hnext as <-. split; [assumption|reflexivity].
  - cbn [Admin.buildNextMerkleLayer] in Hnext.
    destruct (Admin.hashMerklePair x y) as [h|] eqn:Hh; [|discriminate].
    destruct (Admin.buildNextMerkleLayer rest) as [next'|] eqn:Hnext'; [|discriminate].
    injection Hnext as <-.
    inversion Hall as [|? ? _ Hrest']; subst. inversion Hrest' as [|? ? _ Hrest]; subst.
    destruct (IH next' Hrest eq_refl) as [Hkeep Hlen].
    split; [constructor; [eapply pair_P; eassumption|assumption]|].
    cbn [length]. rewrite Hlen.
    replace (S (S (length rest)) + 1)%nat with (S (S (length rest + 1))) by lia.
    rewrite div2_SS. reflexivity.
Qed.

Lemma proofLoop_collected fuel :
  forall layer index acc proof depth,
    Forall P layer -> (length layer <= 2 ^ depth)%nat ->
    Admin.proofLoop fuel layer index acc = Some proof ->
    exists collected,
      proof = acc ++ collected /\ Forall P collected /\ (length collected <= depth)%nat.
Proof.
  induction fuel as [|fuel IH]; intros layer index acc proof depth Hall Hsize Hloop.
  - cbn in Hloop. destruct (length layer <=? 1)%nat; [|discriminate].
    injection Hloop as <-. exists []. rewrite app_nil_r. repeat split; [constructor|cbn; lia].
  - cbn [Admin.proofLoop] in Hloop.
    destruct (Nat.leb_spec (length layer) 1) as [Hshort|Hlong].
    + injection Hloop as <-. exists []. rewrite app_nil_r. repeat split; [constructor|cbn; lia].
    + destruct (Admin.buildNextMerkleLayer layer) as [next|] eqn:Hnext; [|discriminate].
      cbn [mbind option_bind] in Hloop.
      destruct (buildNextMerkleLayer_keeps layer next Hall Hnext) as [Hkeep Hlen].
      destruct depth as [|depth]; [cbn in Hsize; lia|].
      assert (Hsize' : (length next <= 2 ^ depth)%nat).
      { rewrite Hlen. rewrite Nat.pow_succ_r' in Hsize.
        assert ((length layer + 1) / 2 < S (2 ^ depth))%nat
          by (apply Nat.Div0.div_lt_upper_bound; lia).
        lia. }
      destruct (layer !! _) as [sibling|] eqn:Hsibling.
      * destruct (IH next _ _ proof depth Hkeep Hsize' Hloop) as (collected & -> & Hc & Hl).
        exists (sibling :: collected). rewrite <- app_assoc. repeat split.
        -- constructor; [|assumption].
           rewrite Forall_forall in Hall. apply Hall.
           eapply list_elem_of_lookup_2. exact Hsibling.
        -- cbn [length]. lia.
      * destruct (IH next _ _ proof depth Hkeep Hsize' Hloop) as (collected & -> & Hc & Hl).
        exists collected. repeat split; [assumption|lia].
Qed.

Lemma rootLoop_keeps fuel :
  forall layer rootLayer,
    Forall P layer -> Admin.rootLoop fuel layer = Some rootLayer -> Forall P rootLayer.
Proof.
  induction fuel as [|fuel IH]; intros layer rootLayer Hall Hloop.
  - cbn in Hloop. destruct (length layer <=? 1)%nat; [|discriminate].
    injection Hloop as <-. assumption.
  - cbn [Admin.rootLoop] in Hloop.
    destruct (length layer <=? 1)%nat; [injection Hloop as <-; assumption|].
    destruct (Admin.buildNextMerkleLayer layer) as [next|] eqn:Hnext; [|discriminate].
    cbn [mbind option_bind] in Hloop.
    eapply IH; [|exact Hloop]. eapply buildNextMerkleLayer_keeps; eassumption.
Qed.

End Layers.

(** Every entry of the proofs object was put there for a wallet of the list. *)
Lemma forEachWallet_origin leaves wallets :
  forall start m m',
    Admin.forEachWallet leaves wallets start m = Some m' ->
    forall key proof,
      m' !! key = Some proof ->
      m !! key = Some proof \/
      exists j w, wallets !! j = Some w /\ key = Js.toLowerCase w /\
                  Admin.proofLoop (length leaves) leaves (start + j) [] = Some proof.
Proof.
  induction wallets as [|wallet rest IH]; intros start m m' Hrun key proof Hkey.
  - injection Hrun as <-. left. exact Hkey.
  - cbn [Admin.forEachWallet] in Hrun.
    destruct (Admin.proofLoop (length leaves) leaves start []) as [p|] eqn:Hp; [|discriminate].
    cbn [mbind option_bind] in Hrun.
    destruct (IH _ _ _ Hrun key proof Hkey) as [Hin|(j & w & Hj & Hw & Hproof)].
    + destruct (decide (Js.toLowerCase wallet = key)) as [<-|Hne].
      * rewrite lookup_insert_eq in Hin. injection Hin as <-.
        right. exists 0%nat, wallet. rewrite Nat.add_0_r. repeat split. exact Hp.
      * rewrite lookup_insert_ne in Hin by exact Hne. left. exact Hin.
    + right. exists (S j), w. repeat split; [exact Hj|exact Hw|].
      replace (start + S j)%nat with (S start + j)%nat by lia. exact Hproof.
Qed.

Lemma forEachWallet_covers leaves wallets :
  forall start m m',
    Admin.forEachWallet leaves wallets start m = Some m' ->
    (forall key, is_Some (m !! key) -> is_Some (m' !! key)) /\
    forall w, In w wallets -> is_Some (m' !! Js.toLowerCase w).
Proof.
  induction wallets as [|wallet rest IH]; intros start m m' Hrun.
  - injection Hrun as <-. split; [auto|intros w []].
  - cbn [Admin.forEachWallet] in Hrun.
    destruct (Admin.proofLoop (length leaves) leaves start []) as [p|] eqn:Hp; [|discriminate].
    cbn [mbind option_bind] in Hrun.
    destruct (IH _ _ _ Hrun) as [Hkeep Hrest]. split.
    + intros key Hkey. apply Hkeep.
      destruct (decide (Js.toLowerCase wallet = key)) as [<-|Hne].
      * rewrite lookup_insert_eq. eauto.
      * rewrite lookup_insert_ne by exact Hne. exact Hkey.
    + intros w [<-|Hw]; [|apply Hrest; exact Hw].
      apply Hkeep. rewrite lookup_insert_eq. eauto.
Qed.

Lemma hashMerklePair_digest a b h : Admin.hashMerklePair a b = Some h -> isDigest h.
Proof.
  unfold Admin.hashMerklePair.
  destruct (if String.leb _ _ then _ else _) as [lo hi].
  destruct (Ethers.concat [lo; hi]) as [data|]; [|discriminate].
  intros [= <-]. exists data. reflexivity.
Qed.

Lemma hashAllowlistLeaf_digest w leaf : Admin.hashAllowlistLeaf w = Some leaf -> isDigest leaf.
Proof.
  unfold Admin.hashAllowlistLeaf.
  destruct (Ethers.solidityPack_address w) as [packed|]; [|discriminate].
  cbn [mbind option_bind].
  destruct (Ethers.arrayify packed) as [data|]; [|discriminate].
  intros [= <-]. exists data. reflexivity.
Qed.

Lemma leaves_digest wallets leaves :
  mapM Admin.hashAllowlistLeaf wallets = Some leaves ->
  Forall isDigest leaves /\ length leaves = length wallets.
Proof.
  intros H. apply mapM_Some in H. split.
  - induction H as [|w leaf ws ls Hleaf _ IH]; constructor; [|exact IH].
    eapply hashAllowlistLeaf_digest. exact Hleaf.
  - symmetry. eapply Forall2_length. exact H.
Qed.

Lemma buildAllowlistMerkleData_inv wallets data :
  Admin.buildAllowlistMerkleData wallets = Some data ->
  wallets <> [] ->
  exists leaves rootLayer,
    mapM Admin.hashAllowlistLeaf wallets = Some leaves /\
    Admin.forEachWallet leaves wallets 0 ∅ = Some (Admin.proofs data) /\
    Admin.rootLoop (length leaves) leaves = Some rootLayer /\
    Admin.root data
    = match rootLayer with
      | first :: _ => if String.eqb first "" then Ethers.HashZero else first
      | [] => Ethers.HashZero
      end.
Proof.
  intros Hbuild Hne. unfold Admin.buildAllowlistMerkleData in Hbuild.
  destruct wallets as [|w ws]; [congruence|].
  destruct (mapM Admin.hashAllowlistLeaf (w :: ws)) as [leaves|] eqn:Hleaves; [|discriminate].
  cbn [mbind option_bind] in Hbuild.
  destruct (Admin.forEachWallet leaves (w :: ws) 0 ∅) as [proofs|] eqn:Hproofs;
    [|discriminate].
  cbn [mbind option_bind] in Hbuild.
  destruct (Admin.rootLoop (length leaves) leaves) as [rootLayer|] eqn:Hroot; [|discriminate].
  injection Hbuild as <-. exists leaves, rootLayer.
  split; [reflexivity|]. split; [exact Hproofs|]. split; [exact Hroot|reflexivity].
Qed.

Lemma merkle_data_shape (W : list string) (data : Admin.MerkleData) :
  Admin.buildAllowlistMerkleData W = Some data ->
  Ethers.is0xHexOfLength 64 (Admin.root data) = true /\
  (forall key proof,
     Admin.proofs data !! key = Some proof ->
     (exists w, In w W /\ key = Js.toLowerCase w) /\
     Forall (fun sibling => Ethers.is0xHexOfLength 64 sibling = true) proof /\
     forall depth, (length W <= 2 ^ depth)%nat -> (length proof <= depth)%nat) /\
  (forall w, In w W -> is_Some (Admin.proofs data !! Js.toLowerCase w)).
Proof.
  intros Hbuilt. destruct W as [|w0 W'] eqn:HW.
  { injection Hbuilt as <-. cbn. split; [reflexivity|]. split.
    - intros key proof Hkey. rewrite lookup_empty in Hkey. discriminate.
    - intros w []. }
  rewrite <- HW in *. assert (Hne : W <> []) by (rewrite HW; discriminate).
  destruct (buildAllowlistMerkleData_inv W data Hbuilt Hne)
    as (leaves & rootLayer & Hleaves & Hproofs & Hroot & Hr).
  destruct (leaves_digest _ _ Hleaves) as [Hdigest Hlen].
  split; [|split].
  - rewrite Hr.
    pose proof (rootLoop_keeps isDigest hashMerklePair_digest _ _ _ Hdigest Hroot) as Hall.
    destruct rootLayer as [|first rest]; [reflexivity|].
    destruct (String.eqb first ""); [reflexivity|].
    apply digest_bytes32. inversion Hall; assumption.
  - intros key proof Hkey.
    destruct (forEachWallet_origin _ _ _ _ _ Hproofs key proof Hkey)
      as [Hempty|(j & w & Hj & -> & Hloop)].
    { rewrite lookup_empty in Hempty. discriminate. }
    split; [|split].
    + exists w. split; [|reflexivity].
      apply list_elem_of_In. eapply list_elem_of_lookup_2. exact Hj.
    + destruct (proofLoop_collected isDigest hashMerklePair_digest _ _ _ _ _
                  (length leaves) Hdigest
                  ltac:(apply Nat.lt_le_incl, Nat.pow_gt_lin_r; lia) Hloop)
        as (collected & -> & Hc & _).
      cbn [app]. eapply Forall_impl; [exact Hc|]. intros s. apply digest_bytes32.
    + intros depth Hsize. rewrite <- Hlen in Hsize.
      destruct (proofLoop_collected isDigest hashMerklePair_digest _ _ _ _ _ depth
                  Hdigest Hsize Hloop) as (collected & -> & _ & Hdepth).
      exact Hdepth.
  - apply (forEachWallet_covers _ _ _ _ _ Hproofs).
Qed.

(** X8.  For wallets that are 0x-prefixed strings of 40 hex digits
    buildAllowlistMerkleData returns; its root is a 0x-prefixed string of
    64 hex digits, every key of its proofs object is the lower-cased form
    of one of the wallets, every proof holds only 0x-prefixed strings of
    64 hex digits, and every wallet has a proof under its lower-cased
    form. *)
Theorem merkle_data_wellformed (W : list string)
    (Haddresses : Forall (fun w => Ethers.is0xHexOfLength 40 w = true) W) :
  exists data,
    Admin.buildAllowlistMerkleData W = Some data /\
    Ethers.is0xHexOfLength 64 (Admin.root data) = true /\
    (forall key proof,
       Admin.proofs data !! key = Some proof ->
       (exists w, In w W /\ key = Js.toLowerCase w) /\
       Ethers.is0xHexOfLength 40 key = true /\
       Forall (fun sibling => Ethers.is0xHexOfLength 64 sibling = true) proof) /\
    (forall w, In w W -> is_Some (Admin.proofs data !! Js.toLowerCase w)).
Proof.
  destruct (buildAllowlistMerkleData_total W Haddresses) as [data Hbuilt].
  destruct (merkle_data_shape W data Hbuilt) as (Hroot & Hentries & Hcovered).
  exists data. split; [exact Hbuilt|]. split; [exact Hroot|]. split; [|exact Hcovered].
  intros key proof Hkey. destruct (Hentries key proof Hkey) as ((w & Hw & ->) & Hhashes & _).
  split; [exists w; auto|]. split; [|exact Hhashes].
  rewrite Forall_forall in Haddresses. apply list_elem_of_In, Haddresses in Hw.
  apply is0xHexOfLength_inv in Hw as (digits & -> & Hdigits).
  change (Ethers.isHexOfLength 40 (Js.toLowerCase digits) = true).
  rewrite isHexOfLength_toLowerCase. exact Hdigits.
Qed.

Lemma merkle_data_wellformed_witness :
  exists data,
    Admin.buildAllowlistMerkleData Samples.wallets = Some data /\
    Ethers.is0xHexOfLength 64 (Admin.root data) = true.
Proof.
  destruct (merkle_data_wellformed Samples.wallets) as (data & Hbuilt & Hroot & _).
  - repeat constructor.
  - exists data. split; assumption.
Defined.

(** X9.  For wallets that are 0x-prefixed strings of 40 hex digits, at most
    2^depth of them, buildAllowlistMerkleData returns and none of its
    proofs has more than depth siblings. *)
Theorem merkle_proof_depth (W : list string) (depth : nat)
    (Haddresses : Forall (fun w => Ethers.is0xHexOfLength 40 w = true) W)
    (Hsize : (length W <= 2 ^ depth)%nat) :
  exists data,
    Admin.buildAllowlistMerkleData W = Some data /\
    forall key proof,
      Admin.proofs data !! key = Some proof -> (length proof <= depth)%nat.
Proof.
  destruct (buildAllowlistMerkleData_total W Haddresses) as [data Hbuilt].
  destruct (merkle_data_shape W data Hbuilt) as (_ & Hentries & _).
  exists data. split; [exact Hbuilt|].
  intros key proof Hkey. apply (Hentries key proof Hkey). exact Hsize.
Qed.

Lemma merkle_proof_depth_witness :
  exists data,
    Admin.buildAllowlistMerkleData Samples.wallets = Some data /\
    forall key proof,
      Admin.proofs data !! key = Some proof -> (length proof <= 2)%nat.
Proof.
  apply (merkle_proof_depth Samples.wallets 2).
  - repeat constructor.
  - cbn. lia.
Defined.

Lemma insertSorted_perm compare x sorted :
  Permutation (Admin.insertSorted compare x sorted) (x :: sorted).
Proof.
  induction sorted as [|y sorted IH]; cbn [Admin.insertSorted]; [reflexivity|].
  destruct (compare x y); try reflexivity.
  rewrite IH. apply perm_swap.
Qed.

Lemma sort_perm compare items : Permutation (Admin.sort compare items) items.
Proof.
  induction items as [|x items IH]; [reflexivity|].
  change (Admin.sort compare (x :: items))
    with (Admin.insertSorted compare x (Admin.sort compare items)).
  rewrite insertSorted_perm, IH. reflexivity.
Qed.

Lemma insertSorted_strict x sorted :
  StronglySorted caseOrder sorted ->
  ~ In (Js.toLowerCase x) (map Js.toLowerCase sorted) ->
  StronglySorted caseOrder (Admin.insertSorted byCase x sorted).
Proof.
  induction 1 as [|y sorted Hsorted IH Hy]; intros Hfresh.
  - cbn. repeat constructor.
  - cbn [Admin.insertSorted]. cbn [map In] in Hfresh.
    assert (Hcases : byCase x y = Lt \/ byCase x y = Gt).
    { destruct (byCase x y) eqn:Hc; auto.
      apply String.compare_eq_iff in Hc. exfalso. apply Hfresh. left. congruence. }
    destruct Hcases as [Hc|Hc]; rewrite Hc.
    + constructor; [constructor; assumption|].
      constructor; [exact Hc|].
      eapply Forall_impl; [exact Hy|]. intros z Hz.
      eapply string_compare_lt_trans; [exact Hc|exact Hz].
    + constructor; [apply IH; tauto|].
      apply Forall_forall. intros z Hz.
      apply list_elem_of_In, insertSorted_In in Hz as [->|Hz].
      * unfold byCase, Ethers.localeCompare in Hc. unfold caseOrder.
        rewrite String.compare_antisym, Hc. reflexivity.
      * rewrite Forall_forall in Hy. apply Hy, list_elem_of_In. exact Hz.
Qed.

Lemma sort_strict items :
  NoDup (map Js.toLowerCase items) -> StronglySorted caseOrder (Admin.sort byCase items).
Proof.
  induction items as [|x items IH]; intros Hnodup; [constructor|].
  change (Admin.sort byCase (x :: items))
    with (Admin.insertSorted byCase x (Admin.sort byCase items)).
  cbn [map] in Hnodup. apply NoDup_cons in Hnodup as [Hfresh Hnodup].
  apply insertSorted_strict; [apply IH; exact Hnodup|].
  intros Hin. apply Hfresh. apply list_elem_of_In.
  apply in_map_iff in Hin as (z & Hz & Hin). apply in_map_iff.
  exists z. split; [exact Hz|]. apply sort_In in Hin. exact Hin.
Qed.

Lemma sort_fixed items :
  StronglySorted caseOrder items -> Admin.sort byCase items = items.
Proof.
  induction 1 as [|x items Hsorted IH Hx]; [reflexivity|].
  change (Admin.sort byCase (x :: items))
    with (Admin.insertSorted byCase x (Admin.sort byCase items)).
  rewrite IH. destruct items as [|y items]; [reflexivity|].
  cbn [Admin.insertSorted]. inversion Hx as [|? ? Hxy _]; subst.
  unfold byCase, Ethers.localeCompare. unfold caseOrder in Hxy. rewrite Hxy. reflexivity.
Qed.

Lemma strict_NoDup items : StronglySorted caseOrder items -> NoDup items.
Proof.
  induction 1 as [|x items Hsorted IH Hx]; constructor; [|exact IH].
  intros Hin. rewrite Forall_forall in Hx. specialize (Hx x Hin).
  unfold caseOrder in Hx.
  pose proof (String.compare_antisym (Js.toLowerCase x) (Js.toLowerCase x)) as Hrefl.
  rewrite Hx in Hrefl. discriminate.
Qed.

Lemma uniqueInOrder_fixed items :
  forall seen, NoDup items -> (forall x, In x items -> ~ In x seen) ->
               Admin.uniqueInOrder seen items = items.
Proof.
  induction items as [|x items IH]; intros seen Hnodup Hfresh; [reflexivity|].
  cbn [Admin.uniqueInOrder]. apply NoDup_cons in Hnodup as [Hx Hnodup].
  destruct (existsb (String.eqb x) seen) eqn:Hseen.
  - apply existsb_eqb_In in Hseen. exfalso. apply (Hfresh x); [left; reflexivity|exact Hseen].
  - f_equal. apply IH; [exact Hnodup|].
    intros y Hy [<-|Hin].
    + apply Hx, list_elem_of_In. exact Hy.
    + apply (Hfresh y); [right; exact Hy|exact Hin].
Qed.

Lemma mapM_fixed {A} (f : A -> option A) items :
  Forall (fun a => f a = Some a) items -> mapM f items = Some items.
Proof.
  induction 1 as [|x items Hx _ IH]; [reflexivity|].
  cbn [mapM]. rewrite Hx. cbn. rewrite IH. reflexivity.
Qed.

Lemma checksummed_lowered_NoDup items :
  NoDup items -> Forall isChecksummed items -> NoDup (map Js.toLowerCase items).
Proof.
  induction 1 as [|x items Hx Hnodup IH]; intros Hall; [constructor|].
  inversion Hall as [|? ? Hcx Hrest]; subst.
  cbn [map]. constructor; [|apply IH; exact Hrest].
  intros Hin. apply Hx. apply list_elem_of_In in Hin. apply list_elem_of_In.
  apply in_map_iff in Hin as (z & Hz & Hin).
  assert (z = x) as <-; [|exact Hin].
  apply checksummed_toLowerCase_inj; [| |exact Hz]; [|exact Hcx].
  rewrite Forall_forall in Hrest. apply Hrest, list_elem_of_In. exact Hin.
Qed.

Lemma mapM_In {A B} (f : A -> option B) items results :
  mapM f items = Some results ->
  forall b, In b results <-> exists a, In a items /\ f a = Some b.
Proof.
  intros H. apply mapM_Some in H.
  induction H as [|a r items results Har _ IH]; intros b.
  - cbn. split; [tauto|intros (a & [] & _)].
  - cbn [In]. rewrite IH. split.
    + intros [<-|(a' & Ha' & Hfa')]; [exists a; auto|exists a'; auto].
    + intros (a' & [<-|Ha'] & Hfa'); [left; congruence|right; exists a'; auto].
Qed.

Lemma normalizeWalletList_inv W N :
  Admin.normalizeWalletList W = Some N ->
  exists addresses,
    mapM Ethers.getAddress W = Some addresses /\
    N = Admin.sort byCase (Admin.uniqueInOrder [] addresses).
Proof.
  unfold Admin.normalizeWalletList.
  destruct (mapM Ethers.getAddress W) as [addresses|]; [|discriminate].
  intros [= <-]. exists addresses. split; reflexivity.
Qed.

(** X10.  The list normalizeWalletList returns is strictly increasing in the
    order of the lower-cased addresses (so no two entries are equal up to
    case), holds exactly the checksummed forms of the wallets it was
    given, and is left unchanged by normalizing it again. *)
Theorem normalizeWalletList_canonical (W N : list string)
    (Hnormalized : Admin.normalizeWalletList W = Some N) :
  StronglySorted
    (fun a b => String.compare (Js.toLowerCase a) (Js.toLowerCase b) = Lt) N /\
  (forall a, In a N <-> exists w, In w W /\ Ethers.getAddress w = Some a) /\
  Admin.normalizeWalletList N = Some N.
Proof.
  destruct (normalizeWalletList_inv W N Hnormalized) as (addresses & Haddresses & ->).
  pose proof (mapM_getAddress_checksummed W addresses Haddresses) as Hchecked.
  assert (Hmembers : forall a, In a (Admin.sort byCase (Admin.uniqueInOrder [] addresses))
                               <-> exists w, In w W /\ Ethers.getAddress w = Some a).
  { intros a. rewrite sort_In, uniqueInOrder_In, (mapM_In _ _ _ Haddresses). cbn. tauto. }
  assert (Hsorted : StronglySorted caseOrder
                      (Admin.sort byCase (Admin.uniqueInOrder [] addresses))).
  { apply sort_strict. apply checksummed_lowered_NoDup; [apply uniqueInOrder_NoDup|].
    apply Forall_forall. intros a Ha.
    apply list_elem_of_In, uniqueInOrder_In in Ha as [Ha _].
    rewrite Forall_forall in Hchecked. apply Hchecked, list_elem_of_In. exact Ha. }
  split; [exact Hsorted|]. split; [exact Hmembers|].
  unfold Admin.normalizeWalletList.
  rewrite (mapM_fixed Ethers.getAddress).
  - cbn [mbind option_bind]. f_equal.
    rewrite uniqueInOrder_fixed; [apply sort_fixed; exact Hsorted| |intros x _ []].
    apply strict_NoDup. exact Hsorted.
  - apply Forall_forall. intros a Ha. apply list_elem_of_In, Hmembers in Ha as (w & _ & Hwa).
    eapply getAddress_idem. exact Hwa.
Qed.

Lemma normalizeWalletList_canonical_witness :
  Admin.normalizeWalletList [Js.toLowerCase Samples.bob; Samples.alice]
    = Some [Samples.alice; Samples.bob] /\
  Admin.normalizeWalletList [Samples.alice; Samples.bob] = Some [Samples.alice; Samples.bob].
Proof.
  assert (H : Admin.normalizeWalletList [Js.toLowerCase Samples.bob; Samples.alice]
              = Some [Samples.alice; Samples.bob]) by (vm_compute; reflexivity).
  split; [exact H|].
  exact (proj2 (proj2 (normalizeWalletList_canonical _ _ H))).
Defined.

Lemma setAdd_In item set x :
  In x (AdminPage.setAdd item set) <-> x = item \/ In x set.
Proof.
  unfold AdminPage.setAdd. destruct (existsb (String.eqb item) set) eqn:Hin.
  - apply existsb_eqb_In in Hin. split; [auto|intros [->|H]; assumption].
  - rewrite in_app_iff. cbn. intuition congruence.
Qed.

Lemma setAdd_NoDup item set : NoDup set -> NoDup (AdminPage.setAdd item set).
Proof.
  intros Hnodup. unfold AdminPage.setAdd.
  destruct (existsb (String.eqb item) set) eqn:Hin; [exact Hnodup|].
  apply NoDup_app. split; [exact Hnodup|]. split; [|apply NoDup_singleton].
  intros x Hx Hx'. apply list_elem_of_In in Hx, Hx'. destruct Hx' as [<-|[]].
  apply existsb_eqb_In in Hx. congruence.
Qed.

Lemma collectWallets_spec raw :
  forall unique invalid,
    let parsed := AdminPage.collectWallets raw unique invalid in
    (NoDup unique -> NoDup (AdminPage.valid parsed)) /\
    (forall a, In a (AdminPage.valid parsed)
               <-> In a unique \/ exists v, In v raw /\ Ethers.getAddress v = Some a) /\
    (forall v, In v (AdminPage.invalid parsed)
               <-> In v invalid \/ (In v raw /\ Ethers.getAddress v = None)).
Proof.
  induction raw as [|value rest IH]; intros unique invalid; cbn zeta.
  - cbn. split; [auto|].
    split; intros x;
      [split; [auto|intros [H|(v & [] & _)]; exact H]
      |split; [auto|intros [H|[[] _]]; exact H]].
  - cbn [AdminPage.collectWallets].
    destruct (Ethers.getAddress value) as [address|] eqn:Hvalue.
    + destruct (IH (AdminPage.setAdd address unique) invalid) as (Hnodup & Hvalid & Hinvalid).
      cbn zeta in *. split; [intros H; apply Hnodup, setAdd_NoDup, H|]. split.
      * intros a. rewrite Hvalid, setAdd_In. cbn [In]. split.
        -- intros [[->|H]|(v & Hv & Hva)]; [right; exists value; auto|auto|].
           right. exists v. auto.
        -- intros [H|(v & [<-|Hv] & Hva)]; [auto|left; left; congruence|].
           right. exists v. auto.
      * intros v. rewrite Hinvalid. cbn [In]. split; [tauto|].
        intros [H|[[<-|Hv] Hnone]]; [auto|congruence|auto].
    + destruct (IH unique (invalid ++ [value])) as (Hnodup & Hvalid & Hinvalid).
      cbn zeta in *. split; [exact Hnodup|]. split.
      * intros a. rewrite Hvalid. cbn [In]. split.
        -- intros [H|(v & Hv & Hva)]; [auto|right; exists v; auto].
        -- intros [H|(v & [<-|Hv] & Hva)]; [auto|congruence|right; exists v; auto].
      * intros v. rewrite Hinvalid, in_app_iff. cbn [In]. split.
        -- intros [[H|[<-|[]]]|[Hv Hnone]]; auto.
        -- intros [H|[[<-|Hv] Hnone]]; auto.
Qed.

Lemma collected_wallets_provable raw :
  let parsed := AdminPage.collectWallets raw [] [] in
  Forall (fun v => Ethers.getAddress v = None) (AdminPage.invalid parsed) /\
  NoDup (AdminPage.valid parsed) /\
  exists wallets data,
    Admin.normalizeWalletList (AdminPage.valid parsed) = Some wallets /\
    Permutation wallets (AdminPage.valid parsed) /\
    Admin.buildAllowlistMerkleData wallets = Some data /\
    forall a, In a (AdminPage.valid parsed) ->
      Ethers.getAddress a = Some a /\
      exists leaf proof,
        Admin.hashAllowlistLeaf a = Some leaf /\
        Admin.proofs data !! Js.toLowerCase a = Some proof /\
        foldProof leaf proof = Some (Admin.root data).
Proof.
  cbn zeta. destruct (collectWallets_spec raw [] []) as (Hnodup & Hvalid & Hinvalid).
  cbn zeta in *. set (parsed := AdminPage.collectWallets raw [] []) in *.
  specialize (Hnodup (NoDup_nil_2 (A:=string))).
  assert (Hfixed : Forall (fun a => Ethers.getAddress a = Some a) (AdminPage.valid parsed)).
  { apply Forall_forall. intros a Ha. apply list_elem_of_In, Hvalid in Ha as [[]|(v & _ & Hva)].
    eapply getAddress_idem. exact Hva. }
  split.
  { apply Forall_forall. intros v Hv. apply list_elem_of_In, Hinvalid in Hv as [[]|[_ H]].
    exact H. }
  split; [exact Hnodup|].
  assert (Hnormalized : Admin.normalizeWalletList (AdminPage.valid parsed)
                        = Some (Admin.sort byCase (AdminPage.valid parsed))).
  { unfold Admin.normalizeWalletList. rewrite (mapM_fixed _ _ Hfixed).
    cbn [mbind option_bind]. rewrite uniqueInOrder_fixed; [reflexivity|exact Hnodup|].
    intros x _ []. }
  set (wallets := Admin.sort byCase (AdminPage.valid parsed)) in *.
  assert (Hperm : Permutation wallets (AdminPage.valid parsed)) by apply sort_perm.
  pose proof (normalizeWalletList_addresses _ _ Hnormalized) as Haddresses.
  destruct wallets as [|w0 ws] eqn:Hwallets.
  - exists [], {| Admin.root := Ethers.HashZero; Admin.proofs := ∅ |}.
    split; [exact Hnormalized|]. split; [exact Hperm|]. split; [reflexivity|].
    intros a Ha. apply Permutation_nil in Hperm. rewrite Hperm in Ha. destruct Ha.
  - destruct (buildAllowlistMerkleData_addresses (w0 :: ws) Haddresses ltac:(discriminate))
      as (data & leaves & Hbuilt & _ & _ & Hproofs).
    exists (w0 :: ws), data.
    split; [exact Hnormalized|]. split; [exact Hperm|]. split; [exact Hbuilt|].
    intros a Ha. split.
    + rewrite Forall_forall in Hfixed. apply Hfixed, list_elem_of_In. exact Ha.
    + apply Hproofs. eapply Permutation_in; [symmetry; exact Hperm|exact Ha].
Qed.

(** X11.  For what parseWallets or parseWalletsFromCsv returns: getAddress
    rejects every invalid entry; the valid entries are distinct;
    normalizeWalletList returns a rearrangement of them;
    buildAllowlistMerkleData returns on it; and every valid entry is a
    checksummed address whose proof, stored under its lower-cased form,
    folds its leaf to the root. *)
Theorem parsed_wallets_provable (input : string) (parsed : AdminPage.Parsed)
    (Hparsed : parsed = AdminPage.parseWallets input \/
               parsed = AdminPage.parseWalletsFromCsv input) :
  Forall (fun v => Ethers.getAddress v = None) (AdminPage.invalid parsed) /\
  NoDup (AdminPage.valid parsed) /\
  exists wallets data,
    Admin.normalizeWalletList (AdminPage.valid parsed) = Some wallets /\
    Permutation wallets (AdminPage.valid parsed) /\
    Admin.buildAllowlistMerkleData wallets = Some data /\
    forall a, In a (AdminPage.valid parsed) ->
      Ethers.getAddress a = Some a /\
      exists leaf proof,
        Admin.hashAllowlistLeaf a = Some leaf /\
        Admin.proofs data !! Js.toLowerCase a = Some proof /\
        foldProof leaf proof = Some (Admin.root data).
Proof.
  destruct Hparsed as [-> | ->]; apply collected_wallets_provable.
Qed.

Lemma parsed_wallets_provable_witness :
  AdminPage.parseWallets pastedWallets
    = {| AdminPage.valid := [Samples.bob; Samples.alice];
         AdminPage.invalid := ["not-a-wallet"] |} /\
  exists wallets data,
    Admin.normalizeWalletList [Samples.bob; Samples.alice] = Some wallets /\
    Permutation wallets [Samples.bob; Samples.alice] /\
    Admin.buildAllowlistMerkleData wallets = Some data.
Proof.
  assert (Hparsed : AdminPage.parseWallets pastedWallets
                    = {| AdminPage.valid := [Samples.bob; Samples.alice];
                         AdminPage.invalid := ["not-a-wallet"] |})
    by (vm_compute; reflexivity).
  split; [exact Hparsed|].
  destruct (parsed_wallets_provable pastedWallets _ (or_introl (eq_sym Hparsed)))
    as (_ & _ & wallets & data & Hn & Hp & Hb & _).
  exists wallets, data. auto.
Defined.

(** X12.  Every piece of the pasted text between runs of white space (the
    no-break space included) and commas that is not blank is accounted for
    by parseWallets: when getAddress accepts the trimmed piece its
    checksummed address is among the valid entries, otherwise the trimmed
    piece is among the invalid ones. *)
Theorem parseWallets_accounts_for_tokens (input token : string)
    (Htoken : In token (AdminPage.split input))
    (Hnonempty : Upsert.trim token <> "") :
  match Ethers.getAddress (Upsert.trim token) with
  | Some address => In address (AdminPage.valid (AdminPage.parseWallets input))
  | None => In (Upsert.trim token) (AdminPage.invalid (AdminPage.parseWallets input))
  end.
Proof.
  unfold AdminPage.parseWallets.
  set (raw := filter Upsert.nonEmpty (map Upsert.trim (AdminPage.split input))).
  assert (Hraw : In (Upsert.trim token) raw).
  { apply list_elem_of_In, list_elem_of_filter. split.
    - unfold Upsert.nonEmpty. destruct (Upsert.trim token); [congruence|reflexivity].
    - apply list_elem_of_In, in_map. exact Htoken. }
  destruct (collectWallets_spec raw [] []) as (_ & Hvalid & Hinvalid). cbn zeta in *.
  destruct (Ethers.getAddress (Upsert.trim token)) as [address|] eqn:Haddress.
  - apply Hvalid. right. exists (Upsert.trim token). auto.
  - apply Hinvalid. right. auto.
Qed.

Lemma parseWallets_accounts_for_tokens_witness :
  In Samples.bob (AdminPage.valid (AdminPage.parseWallets noBreakWallets)).
Proof.
  pose proof (parseWallets_accounts_for_tokens noBreakWallets Samples.bob) as Htoken.
  replace (Ethers.getAddress (Upsert.trim Samples.bob)) with (Some Samples.bob) in Htoken
    by (vm_compute; reflexivity).
  apply Htoken.
  - vm_compute. tauto.
  - vm_compute. discriminate.
Defined.

Lemma insertEntry_perm x sorted : Permutation (Upsert.insertEntry x sorted) (x :: sorted).
Proof.
  induction sorted as [|y sorted IH]; cbn [Upsert.insertEntry]; [reflexivity|].
  destruct (Ethers.localeCompare x.1 y.1); try reflexivity.
  rewrite IH. apply perm_swap.
Qed.

Lemma sortEntries_perm entries :
  Permutation (fold_right Upsert.insertEntry [] entries) entries.
Proof.
  induction entries as [|x entries IH]; [reflexivity|].
  cbn [fold_right]. rewrite insertEntry_perm, IH. reflexivity.
Qed.

Lemma insertEntry_sorted x sorted :
  StronglySorted keyOrder sorted -> ~ In x.1 (map fst sorted) ->
  StronglySorted keyOrder (Upsert.insertEntry x sorted).
Proof.
  induction 1 as [|y sorted Hsorted IH Hy]; intros Hfresh.
  - cbn. repeat constructor.
  - cbn [Upsert.insertEntry]. cbn [map In] in Hfresh.
    assert (Hcases : Ethers.localeCompare x.1 y.1 = Lt \/ Ethers.localeCompare x.1 y.1 = Gt).
    { destruct (Ethers.localeCompare x.1 y.1) eqn:Hc; auto.
      apply String.compare_eq_iff in Hc. exfalso. apply Hfresh. left. congruence. }
    destruct Hcases as [Hc|Hc]; rewrite Hc.
    + constructor; [constructor; assumption|].
      constructor; [exact Hc|].
      eapply Forall_impl; [exact Hy|]. intros z Hz.
      eapply string_compare_lt_trans; [exact Hc|exact Hz].
    + constructor; [apply IH; tauto|].
      apply Forall_forall. intros z Hz.
      apply list_elem_of_In in Hz.
      apply (Permutation_in _ (insertEntry_perm x sorted)) in Hz as [<-|Hz].
      * unfold Ethers.localeCompare in Hc. unfold keyOrder.
        rewrite String.compare_antisym, Hc. reflexivity.
      * rewrite Forall_forall in Hy. apply Hy, list_elem_of_In. exact Hz.
Qed.

Lemma sortEntries_sorted entries :
  NoDup (map fst entries) ->
  StronglySorted keyOrder (fold_right Upsert.insertEntry [] entries).
Proof.
  induction entries as [|x entries IH]; intros Hnodup; [constructor|].
  cbn [fold_right]. cbn [map] in Hnodup. apply NoDup_cons in Hnodup as [Hfresh Hnodup].
  apply insertEntry_sorted; [apply IH; exact Hnodup|].
  intros Hin. apply Hfresh, list_elem_of_In.
  eapply Permutation_in; [|exact Hin]. apply Permutation_map, sortEntries_perm.
Qed.

Lemma keyOrder_unique l1 l2 :
  StronglySorted keyOrder l1 -> StronglySorted keyOrder l2 -> Permutation l1 l2 -> l1 = l2.
Proof.
  apply StronglySorted_unique_strong. intros x1 x2 _ _ H12 H21.
  unfold keyOrder in *. rewrite String.compare_antisym, H21 in H12. discriminate.
Qed.

(** X13.  stableStringify and buildProofsHash give the same result for two
    proofs objects that hold the same entries, with distinct keys, in a
    different order of enumeration. *)
Theorem proofsHash_ignores_key_order (proofs proofs' : list (string * list string))
    (Hsame : Permutation proofs proofs')
    (Hkeys : NoDup (map fst proofs)) :
  Upsert.stableStringify proofs = Upsert.stableStringify proofs' /\
  Upsert.buildProofsHash proofs = Upsert.buildProofsHash proofs'.
Proof.
  assert (Hsorted : fold_right Upsert.insertEntry [] proofs
                    = fold_right Upsert.insertEntry [] proofs').
  { apply keyOrder_unique.
    - apply sortEntries_sorted. exact Hkeys.
    - apply sortEntries_sorted.
      pose proof (Permutation_map fst Hsame) as Hmap. rewrite <- Hmap. exact Hkeys.
    - rewrite !sortEntries_perm. exact Hsame. }
  assert (Hstring : Upsert.stableStringify proofs = Upsert.stableStringify proofs').
  { unfold Upsert.stableStringify. rewrite Hsorted. reflexivity. }
  split; [exact Hstring|]. unfold Upsert.buildProofsHash. rewrite Hstring. reflexivity.
Qed.

Lemma proofsHash_ignores_key_order_witness :
  Upsert.stableStringify [("0xb", ["0x02"]); ("0xa", ["0x01"])]
  = Upsert.stableStringify [("0xa", ["0x01"]); ("0xb", ["0x02"])].
Proof.
  refine (proj1 (proofsHash_ignores_key_order
                   [("0xb", ["0x02"]); ("0xa", ["0x01"])]
                   [("0xa", ["0x01"]); ("0xb", ["0x02"])] _ _)).
  - apply perm_swap.
  - cbn. apply NoDup_cons. split; [|apply NoDup_singleton].
    intros H. apply list_elem_of_In in H. destruct H as [H|[]]. discriminate.
Defined.

(** ** The normalized proofs object *)

Lemma setProperty_keys key v obj :
  forall k, In k (map fst (Upsert.setProperty key v obj)) <-> k = key \/ In k (map fst obj).
Proof.
  induction obj as [|[k0 x0] obj IH]; intros k; cbn [Upsert.setProperty].
  - cbn. intuition congruence.
  - destruct (String.eqb_spec k0 key) as [->|Hne]; cbn [map fst In].
    + intuition congruence.
    + rewrite IH. intuition congruence.
Qed.

Lemma setProperty_NoDup key v obj :
  NoDup (map fst obj) -> NoDup (map fst (Upsert.setProperty key v obj)).
Proof.
  induction obj as [|[k0 x0] obj IH]; intros Hnodup; cbn [Upsert.setProperty].
  - cbn. apply NoDup_singleton.
  - cbn [map fst] in Hnodup. apply NoDup_cons in Hnodup as [Hfresh Hnodup].
    destruct (String.eqb_spec k0 key) as [->|Hne]; cbn [map fst].
    + apply NoDup_cons. split; assumption.
    + apply NoDup_cons. split; [|apply IH; exact Hnodup].
      rewrite list_elem_of_In, setProperty_keys. rewrite list_elem_of_In in Hfresh.
      intuition congruence.
Qed.

Lemma setProperty_lookup key v obj :
  NoDup (map fst obj) ->
  forall k x,
    In (k, x) (Upsert.setProperty key v obj)
    <-> (k = key /\ x = v) \/ (k <> key /\ In (k, x) obj).
Proof.
  induction obj as [|[k0 x0] obj IH]; intros Hnodup k x; cbn [Upsert.setProperty].
  - cbn. intuition congruence.
  - cbn [map fst] in Hnodup. apply NoDup_cons in Hnodup as [Hfresh Hnodup].
    rewrite list_elem_of_In in Hfresh.
    destruct (String.eqb_spec k0 key) as [->|Hne]; cbn [In].
    + split.
      * intros [[= -> ->]|Hin]; [auto|]. right. split; [|auto].
        intros ->. apply Hfresh. apply in_map_iff. exists (key, x). auto.
      * intros [[-> ->]|[Hk [[= -> ->]|Hin]]]; [auto|congruence|auto].
    + rewrite (IH Hnodup). split.
      * intros [[= -> ->]|[[-> ->]|[Hk Hin]]]; auto.
      * intros [[-> ->]|[Hk [[= -> ->]|Hin]]]; auto.
Qed.

Lemma lastWritten_cons wallet proof entries key x :
  lastWritten ((wallet, proof) :: entries) key x
  <-> lastWritten entries key x \/
      (Forall (fun entry => Js.toLowerCase entry.1 <> key) entries /\
       Js.toLowerCase wallet = key /\ exists raw, proof = Some raw /\ Upsert.strings raw = x).
Proof.
  unfold lastWritten. split.
  - intros (before & w & raw & after & Hsplit & Hw & Hraw & Hafter).
    destruct before as [|first before]; cbn [app] in Hsplit.
    + injection Hsplit as -> -> ->. right. split; [exact Hafter|]. split; [exact Hw|].
      exists raw. auto.
    + injection Hsplit as <- ->. left. exists before, w, raw, after. auto.
  - intros [(before & w & raw & after & -> & Hw & Hraw & Hafter)
           |(Hafter & Hw & raw & -> & Hraw)].
    + exists ((wallet, proof) :: before), w, raw, after. auto.
    + exists [], wallet, raw, entries. auto.
Qed.

Lemma lastWritten_absent entries key x :
  Forall (fun entry => Js.toLowerCase entry.1 <> key) entries -> ~ lastWritten entries key x.
Proof.
  intros Hall (before & w & raw & after & -> & Hw & _).
  rewrite Forall_app, Forall_cons in Hall. destruct Hall as [_ [Hne _]]. cbn in Hne.
  congruence.
Qed.

Lemma isAddress_toLowerCase wallet :
  Upsert.isAddress wallet = true -> Upsert.isAddress (Js.toLowerCase wallet) = true.
Proof.
  unfold Upsert.isAddress. intros H.
  apply is0xHexOfLength_inv in H as (digits & -> & Hdigits).
  change (Ethers.isHexOfLength 40 (Js.toLowerCase digits) = true).
  rewrite isHexOfLength_toLowerCase. exact Hdigits.
Qed.

Lemma isProofArray_strings cfg proof :
  Upsert.isProofArray cfg proof = true ->
  exists raw, proof = Some raw /\
    Z.of_nat (length (Upsert.strings raw)) <= Upsert.MAX_PROOF_DEPTH cfg /\
    Forall (fun sibling => Ethers.is0xHexOfLength 64 sibling = true) (Upsert.strings raw).
Proof.
  destruct proof as [raw|]; [|discriminate]. cbn [Upsert.isProofArray].
  intros H. apply andb_true_iff in H as [Hdepth Hall]. exists raw. split; [reflexivity|].
  unfold Upsert.strings. rewrite length_map. split; [apply Z.leb_le; exact Hdepth|].
  apply Forall_forall. intros s Hs. apply list_elem_of_In, in_map_iff in Hs as (f & <- & Hf).
  rewrite forallb_forall in Hall. specialize (Hall f Hf).
  destruct f as [s|r]; [exact Hall|discriminate].
Qed.

Lemma normalizeProofs_spec cfg entries :
  forall acc normalized,
    Upsert.normalizeProofs cfg entries acc = Some normalized ->
    NoDup (map fst acc) -> Forall (wellFormedEntry cfg) acc ->
    NoDup (map fst normalized) /\
    Forall (wellFormedEntry cfg) normalized /\
    forall key x,
      In (key, x) normalized
      <-> lastWritten entries key x \/
          (Forall (fun entry => Js.toLowerCase entry.1 <> key) entries /\ In (key, x) acc).
Proof.
  induction entries as [|[wallet proof] entries IH]; intros acc normalized Hrun Hnodup Hwf.
  - injection Hrun as <-. split; [exact Hnodup|]. split; [exact Hwf|].
    intros key x. split.
    + intros Hin. right. split; [constructor|exact Hin].
    + intros [Hlast|[_ Hin]]; [|exact Hin].
      exfalso. eapply lastWritten_absent; [constructor|exact Hlast].
  - cbn [Upsert.normalizeProofs] in Hrun.
    destruct (Upsert.isAddress wallet) eqn:Hwallet; [|discriminate].
    destruct (Upsert.isProofArray cfg proof) eqn:Hproof; [|discriminate].
    cbn [negb orb] in Hrun.
    destruct (isProofArray_strings cfg proof Hproof) as (raw & -> & Hdepth & Hhashes).
    cbn [default] in Hrun.
    destruct (IH _ _ Hrun (setProperty_NoDup _ _ _ Hnodup)) as (Hnd & Hall & Hlookup).
    { apply Forall_forall. intros [k x] Hin.
      apply list_elem_of_In, (setProperty_lookup _ _ _ Hnodup) in Hin
        as [[-> ->]|[_ Hin]].
      - repeat split; cbn [fst snd]; try assumption.
        + apply isAddress_toLowerCase. exact Hwallet.
        + apply toLowerCase_idem.
      - rewrite Forall_forall in Hwf. apply (Hwf (k, x)), list_elem_of_In. exact Hin. }
    split; [exact Hnd|]. split; [exact Hall|].
    intros key x. rewrite Hlookup, lastWritten_cons, (setProperty_lookup _ _ _ Hnodup).
    rewrite Forall_cons. cbn [fst]. split.
    + intros [Hlast|[Hnone [[-> ->]|[Hne Hin]]]]; [auto| |].
      * left. right. split; [exact Hnone|]. split; [reflexivity|]. exists raw. auto.
      * right. split; [split; [congruence|exact Hnone]|exact Hin].
    + intros [[Hlast|(Hnone & Hw & raw' & [= <-] & Hx)]|[[Hne Hnone] Hin]]; [auto| |].
      * right. split; [exact Hnone|]. left. auto.
      * right. split; [exact Hnone|]. right. split; [congruence|exact Hin].
Qed.

(** X14.  When the normalization loop of the publish endpoint accepts the
    entries, the object it builds has distinct keys, each a lower-case
    0x-prefixed string of 40 hex digits with a proof of at most
    MAX_PROOF_DEPTH 0x-prefixed strings of 64 hex digits, and under each
    key it holds the proof of the last entry whose wallet lower-cases to
    that key, and nothing else. *)
Theorem normalizeProofs_normal cfg (entries : list (string * option (list Upsert.Field)))
    (normalized : list (string * list string))
    (Hnormalized : Upsert.normalizeProofs cfg entries [] = Some normalized) :
  NoDup (map fst normalized) /\
  Forall (fun entry =>
            Upsert.isAddress entry.1 = true /\ Js.toLowerCase entry.1 = entry.1 /\
            Z.of_nat (length entry.2) <= Upsert.MAX_PROOF_DEPTH cfg /\
            Forall (fun sibling => Ethers.is0xHexOfLength 64 sibling = true) entry.2)
         normalized /\
  (forall key proof,
     In (key, proof) normalized <->
     exists before wallet raw after,
       entries = before ++ (wallet, Some raw) :: after /\
       Js.toLowerCase wallet = key /\ Upsert.strings raw = proof /\
       Forall (fun entry => Js.toLowerCase entry.1 <> key) after).
Proof.
  destruct (normalizeProofs_spec cfg entries [] normalized Hnormalized
              (NoDup_nil_2 (A:=string)) (Forall_nil_2 _)) as (Hnd & Hall & Hlookup).
  split; [exact Hnd|]. split; [exact Hall|].
  intros key proof. rewrite Hlookup. unfold lastWritten. cbn [In]. tauto.
Qed.

Lemma normalizeProofs_normal_witness :
  exists normalized,
    Upsert.normalizeProofs Samples.cfg Samples.proofEntries [] = Some normalized /\
    NoDup (map fst normalized).
Proof.
  assert (H : {normalized | Upsert.normalizeProofs Samples.cfg Samples.proofEntries []
                            = Some normalized}) by (eexists; vm_compute; reflexivity).
  destruct H as [normalized H]. exists normalized. split; [exact H|].
  exact (proj1 (normalizeProofs_normal Samples.cfg Samples.proofEntries normalized H)).
Defined.

Lemma cleanupRateLimitBuckets_lookup now buckets ip :
  Upsert.cleanupRateLimitBuckets now buckets !! ip
  = match buckets !! ip with
    | Some (count, resetAt) => if resetAt <=? now then None else Some (count, resetAt)
    | None => None
    end.
Proof.
  unfold Upsert.cleanupRateLimitBuckets.
  destruct (buckets !! ip) as [[count resetAt]|] eqn:Hip.
  - destruct (Z.leb_spec resetAt now) as [Hle|Hgt].
    + apply map_lookup_filter_None. right. intros x Hx. rewrite Hip in Hx.
      injection Hx as <-. cbn. lia.
    + apply map_lookup_filter_Some. split; [exact Hip|]. cbn. lia.
  - apply map_lookup_filter_None. left. exact Hip.
Qed.

Lemma isRateLimited_opens cfg buckets now ip :
  match buckets !! ip with
  | Some (_, resetAt) => resetAt <= now
  | None => True
  end ->
  exists retry buckets',
    Upsert.isRateLimited cfg buckets now ip = (false, retry, buckets') /\
    buckets' !! ip = Some (1, now + Upsert.RATE_LIMIT_WINDOW_MS cfg).
Proof.
  intros Hip. unfold Upsert.isRateLimited.
  rewrite cleanupRateLimitBuckets_lookup.
  destruct (buckets !! ip) as [[count resetAt]|].
  - destruct (Z.leb_spec resetAt now); [|lia].
    eexists _, _. split; [reflexivity|apply lookup_insert_eq].
  - eexists _, _. split; [reflexivity|apply lookup_insert_eq].
Qed.

Lemma isRateLimited_counts cfg buckets now ip count resetAt :
  buckets !! ip = Some (count, resetAt) -> now < resetAt ->
  exists retry buckets',
    Upsert.isRateLimited cfg buckets now ip
      = (Upsert.RATE_LIMIT_MAX_REQUESTS cfg <? count + 1, retry, buckets') /\
    buckets' !! ip = Some (count + 1, resetAt).
Proof.
  intros Hip Hlive. unfold Upsert.isRateLimited.
  rewrite cleanupRateLimitBuckets_lookup, Hip.
  destruct (Z.leb_spec resetAt now); [lia|].
  destruct (Z.leb_spec resetAt now); [lia|].
  destruct (Upsert.RATE_LIMIT_MAX_REQUESTS cfg <? count + 1);
    eexists _, _; (split; [reflexivity|apply lookup_insert_eq]).
Qed.

Lemma limitedFlags_live cfg ip resetAt clocks :
  forall buckets count closing,
    buckets !! ip = Some (count, resetAt) ->
    Forall (fun t => t < resetAt) clocks ->
    resetAt <= closing ->
    limitedFlags cfg buckets ip (clocks ++ [closing])
    = map (fun k => Upsert.RATE_LIMIT_MAX_REQUESTS cfg <? count + Z.of_nat k)
          (seq 1 (length clocks)) ++ [false].
Proof.
  induction clocks as [|now clocks IH]; intros buckets count closing Hip Hall Hclosing.
  - cbn [app limitedFlags length seq map].
    destruct (isRateLimited_opens cfg buckets closing ip) as (retry & buckets' & -> & _).
    + rewrite Hip. exact Hclosing.
    + reflexivity.
  - inversion Hall as [|? ? Hnow Hrest]; subst.
    cbn [app limitedFlags length seq map].
    destruct (isRateLimited_counts cfg buckets now ip count resetAt Hip Hnow)
      as (retry & buckets' & -> & Hip').
    rewrite (IH buckets' (count + 1) closing Hip' Hrest Hclosing).
    f_equal. f_equal. rewrite <- (seq_shift (length clocks) 1), map_map.
    apply map_ext. intros k. f_equal. lia.
Qed.

(** X15.  For a client that has no bucket, the request that opens the window
    is not limited, the k-th request before the window ends is limited
    exactly when k exceeds RATE_LIMIT_MAX_REQUESTS, and the first request
    at or after the end of the window is not limited. *)
Theorem rate_limit_window cfg (buckets : gmap string (Z * Z)) (ip : string)
    (opening : Z) (clocks : list Z) (closing : Z)
    (Hfresh : buckets !! ip = None)
    (Hwindow : Forall (fun t => t < opening + Upsert.RATE_LIMIT_WINDOW_MS cfg) clocks)
    (Hclosing : opening + Upsert.RATE_LIMIT_WINDOW_MS cfg <= closing) :
  limitedFlags cfg buckets ip (opening :: clocks ++ [closing])
  = false ::
    map (fun k => Upsert.RATE_LIMIT_MAX_REQUESTS cfg <? Z.of_nat k) (seq 2 (length clocks)) ++
    [false].
Proof.
  cbn [limitedFlags].
  destruct (isRateLimited_opens cfg buckets opening ip) as (retry & buckets' & -> & Hip).
  { rewrite Hfresh. exact I. }
  rewrite (limitedFlags_live cfg ip _ clocks buckets' 1 closing Hip Hwindow Hclosing).
  f_equal. f_equal. rewrite <- (seq_shift (length clocks) 1), map_map.
  apply map_ext. intros k. f_equal. lia.
Qed.

Lemma rate_limit_window_witness :
  limitedFlags strictLimits ∅ "203.0.113.7" [5000; 5100; 5200; 5999; 6000]
  = [false; false; true; true; false].
Proof.
  refine (rate_limit_window strictLimits ∅ "203.0.113.7" 5000 [5100; 5200; 5999] 6000 _ _ _).
  - apply lookup_empty.
  - repeat constructor.
  - cbn. lia.
Defined.

(** ** What a request leaves behind *)

Lemma surjective_pairing3 {A B C} (x : A * B * C) : x = (x.1.1, x.1.2, x.2).
Proof. destruct x as [[a b] c]. reflexivity. Defined.


Lemma publish_rejected cfg P used v w reply used' effects :
  Upsert.publish cfg P used v w = (reply, used', effects) ->
  Upsert.statusOf reply <> 200 ->
  used' = Upsert.cleanupUsedSignatures (Upsert.cleanupNow w) used.
Proof.
  unfold Upsert.publish.
  repeat break_match; intros [= <- <- <-] Hstatus; try reflexivity;
    exfalso; apply Hstatus; reflexivity.
Qed.

Lemma publish_accepted cfg P used v w reply used' effects :
  Upsert.publish cfg P used v w = (reply, used', effects) ->
  Upsert.statusOf reply = 200 ->
  used' = <[Js.toLowerCase (Upsert.v_signature v) := Upsert.v_now v]>
            (Upsert.cleanupUsedSignatures (Upsert.cleanupNow w) used).
Proof.
  unfold Upsert.publish.
  repeat break_match; intros [= <- <- <-] Hstatus; try reflexivity; discriminate.
Qed.

(** X16.  A request the publish endpoint does not answer with 200 adds nothing
    to the cache of used signatures: every signature in the cache
    afterwards was in it before, with the same time. A request answered
    with 200 leaves the cleaned-up cache with the lower-cased signature
    added, stamped with the time of the request. *)
Theorem replay_cache_grows_only_on_success cfg P st req w reply st' effects
    (Hrun : Upsert.handler cfg P st req w = (reply, st', effects)) :
  (Upsert.statusOf reply <> 200 ->
   Upsert.usedSignatures st' ⊆ Upsert.usedSignatures st) /\
  (Upsert.statusOf reply = 200 ->
   Upsert.usedSignatures st'
   = <[Js.toLowerCase (Upsert.rendering (Upsert.signature req)) := Upsert.now w]>
       (Upsert.cleanupUsedSignatures (Upsert.cleanupNow w) (Upsert.usedSignatures st))).
Proof.
  unfold Upsert.handler in Hrun.
  destruct (Upsert.preflight cfg P st req w) as [[early|] buckets] eqn:Hpreflight.
  { injection Hrun as <- <- <-. split; [reflexivity|].
    intros H. exfalso. exact (preflight_early _ _ _ _ _ _ _ Hpreflight H). }
  destruct (Upsert.validate cfg P req w) as [early|v] eqn:Hvalidate.
  { injection Hrun as <- <- <-. split; [reflexivity|].
    intros H. exfalso. exact (validate_inl _ _ _ _ _ Hvalidate H). }
  destruct (validate_inr _ _ _ _ _ Hvalidate)
    as (t & entries & normalized & raw & _ & _ & _ & _ & _ & _ & _ & Hsig & Hnow).
  destruct (Upsert.publish cfg P (Upsert.usedSignatures st) v w) as [[reply' used'] effects']
    eqn:Hpublish.
  injection Hrun as <- <- <-. cbn [Upsert.usedSignatures]. split; intros Hstatus.
  - rewrite (publish_rejected _ _ _ _ _ _ _ _ Hpublish Hstatus).
    apply map_filter_subseteq.
  - rewrite (publish_accepted _ _ _ _ _ _ _ _ Hpublish Hstatus), Hsig, Hnow. reflexivity.
Qed.

Lemma replay_cache_grows_only_on_success_witness :
  let result :=
    Upsert.handler Samples.cfg Samples.platform Samples.freshState Samples.request
      (Samples.world 1700000001000) in
  Upsert.statusOf result.1.1 = 200 /\
  Upsert.usedSignatures result.1.2 !! Samples.signature = Some 1700000001000.
Proof.
  cbn zeta.
  assert (Hok : Upsert.statusOf
                  (Upsert.handler Samples.cfg Samples.platform Samples.freshState
                     Samples.request (Samples.world 1700000001000)).1.1 = 200)
    by (vm_compute; reflexivity).
  split; [exact Hok|].
  rewrite (proj2 (replay_cache_grows_only_on_success Samples.cfg Samples.platform
                    Samples.freshState Samples.request (Samples.world 1700000001000)
                    _ _ _ (surjective_pairing3 _)) Hok).
  change (Js.toLowerCase (Upsert.rendering (Upsert.signature Samples.request)))
    with Samples.signature.
  apply lookup_insert_eq.
Defined.

Lemma validate_payload cfg P req w v :
  Upsert.validate cfg P req w = inr v ->
  exists entries normalized generatedAt mode,
    Upsert.proofs req = Some entries /\
    Upsert.normalizeProofs cfg entries [] = Some normalized /\
    Z.of_nat (length entries) <= Upsert.MAX_PROOF_WALLETS cfg /\
    Z.of_nat (length entries)
      <= Upsert.normalizeTotal (Upsert.total req) (Z.of_nat (length entries)) /\
    Upsert.isBytes32 (Upsert.root req) = true /\
    Upsert.v_payload v
    = {| Upsert.p_phaseId := Upsert.phaseId req;
         Upsert.p_root := Upsert.rendering (Upsert.root req);
         Upsert.p_total :=
           Upsert.normalizeTotal (Upsert.total req) (Z.of_nat (length entries));
         Upsert.p_generatedAt := generatedAt;
         Upsert.p_mode := mode;
         Upsert.p_proofs := normalized |}.
Proof.
  unfold Upsert.validate.
  destruct (negb (Upsert.isInteger (Upsert.phaseId req)) || _); [discriminate|].
  destruct (Upsert.isBytes32 (Upsert.root req)) eqn:Hroot; cbn [negb]; [|discriminate].
  destruct (Upsert.proofs req) as [entries|] eqn:Hentries; [|discriminate].
  destruct (Z.ltb_spec (Upsert.MAX_PROOF_WALLETS cfg) (Z.of_nat (length entries)));
    [discriminate|].
  destruct (Upsert.normalizeProofs cfg entries []) as [normalizedProofs|] eqn:Hnormalized;
    [|discriminate].
  destruct (negb (Upsert.isAddress _)); [discriminate|].
  destruct (negb (Upsert.isBytes32 (Upsert.proofsHash req))); [discriminate|].
  destruct (Upsert.timestamp req) as [| |t] eqn:Ht; cbn [Upsert.isFinite negb];
    try discriminate.
  destruct (negb (Upsert.isLikelySignature _)); [discriminate|].
  destruct (Qle_bool _ _) eqn:Hfresh; cbn [negb]; [|discriminate].
  destruct (Z.ltb_spec (Upsert.normalizeTotal (Upsert.total req) (Z.of_nat (length entries)))
                       (Z.of_nat (length entries))); [discriminate|].
  cbn [Upsert.p_phaseId Upsert.p_root Upsert.p_total].
  destruct (String.eqb _ _) eqn:Hhash; cbn [negb]; [|discriminate].
  destruct (Upsert.verifyMessage P _ _) as [raw|] eqn:Hverify; [|discriminate].
  cbn [mbind option_bind].
  destruct (Ethers.getAddress raw) as [recovered|] eqn:Hrecovered; [|discriminate].
  destruct (Upsert.signer req) as [signer|]; [|discriminate].
  destruct (Ethers.getAddress signer) as [signerAddress|]; [|discriminate].
  destruct (negb (String.eqb recovered signerAddress)); [discriminate|].
  intros [= <-]. cbn [Upsert.v_payload].
  eexists entries, normalizedProofs, _, _.
  repeat split; try assumption; try reflexivity.
Qed.

Lemma publish_ok cfg P used v w body used' effects :
  Upsert.publish cfg P used v w = (Upsert.Json 200 body, used', effects) ->
  let serialized := Upsert.JSON_stringify P (Upsert.v_payload v) in
  let phase := Upsert.numberToString P (Upsert.p_phaseId (Upsert.v_payload v)) in
  let filePath := "public/allowlists/phase-" +:+ phase +:+ ".json" in
  let kvKey := Upsert.getAllowlistKvKey cfg P (Upsert.p_phaseId (Upsert.v_payload v)) in
  Forall (fun effect =>
            effect = Upsert.Mkdir "public/allowlists" \/
            effect = Upsert.WriteFile filePath serialized \/
            effect = Upsert.KvSet kvKey serialized) effects /\
  (if kvSaved cfg w
   then In (Upsert.KvSet kvKey serialized) effects /\
        body = Upsert.OkPath ("/api/allowlists/proof?phaseId=" +:+ phase)
   else Upsert.mkdir w = Upsert.Done /\
        body = Upsert.OkPath ("/allowlists/phase-" +:+ phase +:+ ".json") /\
        (Upsert.writeFile w = Upsert.Done /\ In (Upsert.WriteFile filePath serialized) effects \/
         exists existing, Upsert.readFile w = Some existing /\
                          Upsert.trim existing = Upsert.trim serialized)).
Proof.
  unfold Upsert.publish, kvSaved. cbn zeta.
  destruct (_ !! _); [discriminate|].
  destruct (Upsert.getOwnerFromChain cfg P w); [discriminate|].
  destruct (negb _); [discriminate|].
  destruct (Upsert.mkdir w) eqn:Hmkdir;
    [destruct (Upsert.readFile w) as [existing|] eqn:Hread;
       [destruct (String.eqb_spec (Upsert.trim existing)
                    (Upsert.trim (Upsert.JSON_stringify P (Upsert.v_payload v))))|];
       try destruct (Upsert.writeFile w) eqn:Hwrite|];
    destruct (Upsert.kvConfigured cfg) eqn:Hkv; try destruct (Upsert.kvSet w) eqn:Hset;
    cbn [negb andb app]; intros [= <- <- <-];
    (split;
     [repeat first
        [ apply Forall_nil_2
        | apply Forall_cons_2;
          [first [left; reflexivity|right; left; reflexivity|right; right; reflexivity]|] ]
     |]);
    cbn [In];
    first
      [ split; [solve [auto 6]|reflexivity]
      | split; [reflexivity|];
        split; [reflexivity|];
        first [ left; split; [reflexivity|solve [auto 6]]
              | right; eexists; split; [reflexivity|assumption] ] ].
Qed.

(** X17.  When the publish endpoint answers 200, the proofs passed
    normalization and their number is within MAX_PROOF_WALLETS and the
    stored total; every file or KV operation it made is the creation of
    public/allowlists, the write of the serialized payload to the phase
    file, or the KV write of the same text under the allowlist key; if the
    KV store is configured and its write succeeded the answer names the
    proof API path, otherwise the directory was created, the answer names
    the static file, and the file was written or already held the same
    text up to surrounding white space. *)
Theorem accepted_publish_is_stored cfg P st req w body st' effects
    (Hrun : Upsert.handler cfg P st req w = (Upsert.Json 200 body, st', effects)) :
  exists entries normalized generatedAt mode,
    Upsert.proofs req = Some entries /\
    Upsert.normalizeProofs cfg entries [] = Some normalized /\
    Z.of_nat (length entries) <= Upsert.MAX_PROOF_WALLETS cfg /\
    let payload :=
      {| Upsert.p_phaseId := Upsert.phaseId req;
         Upsert.p_root := Upsert.rendering (Upsert.root req);
         Upsert.p_total :=
           Upsert.normalizeTotal (Upsert.total req) (Z.of_nat (length entries));
         Upsert.p_generatedAt := generatedAt;
         Upsert.p_mode := mode;
         Upsert.p_proofs := normalized |} in
    let serialized := Upsert.JSON_stringify P payload in
    let phase := Upsert.numberToString P (Upsert.phaseId req) in
    let filePath := "public/allowlists/phase-" +:+ phase +:+ ".json" in
    let kvKey := Upsert.getAllowlistKvKey cfg P (Upsert.phaseId req) in
    Z.of_nat (length entries) <= Upsert.p_total payload /\
    Forall (fun effect =>
              effect = Upsert.Mkdir "public/allowlists" \/
              effect = Upsert.WriteFile filePath serialized \/
              effect = Upsert.KvSet kvKey serialized) effects /\
    (if Upsert.kvConfigured cfg &&
        match Upsert.kvSet w with Upsert.Done => true | Upsert.Failed _ => false end
     then In (Upsert.KvSet kvKey serialized) effects /\
          body = Upsert.OkPath ("/api/allowlists/proof?phaseId=" +:+ phase)
     else Upsert.mkdir w = Upsert.Done /\
          body = Upsert.OkPath ("/allowlists/phase-" +:+ phase +:+ ".json") /\
          (Upsert.writeFile w = Upsert.Done /\
           In (Upsert.WriteFile filePath serialized) effects \/
           exists existing, Upsert.readFile w = Some existing /\
                            Upsert.trim existing = Upsert.trim serialized)).
Proof.
  unfold Upsert.handler in Hrun.
  destruct (Upsert.preflight cfg P st req w) as [[early|] buckets] eqn:Hpreflight.
  { injection Hrun as -> <- <-.
    exfalso. exact (preflight_early _ _ _ _ _ _ _ Hpreflight eq_refl). }
  destruct (Upsert.validate cfg P req w) as [early|v] eqn:Hvalidate.
  { injection Hrun as -> <- <-.
    exfalso. exact (validate_inl _ _ _ _ _ Hvalidate eq_refl). }
  destruct (Upsert.publish cfg P (Upsert.usedSignatures st) v w) as [[reply' used'] effects']
    eqn:Hpublish.
  injection Hrun as -> <- <-.
  destruct (validate_payload _ _ _ _ _ Hvalidate)
    as (entries & normalized & generatedAt & mode & He & Hn & Hmax & Htotal & _ & Hpayload).
  exists entries, normalized, generatedAt, mode.
  split; [exact He|]. split; [exact Hn|]. split; [exact Hmax|]. cbn zeta.
  split; [exact Htotal|].
  pose proof (publish_ok _ _ _ _ _ _ _ _ Hpublish) as Hok. cbn zeta in Hok.
  rewrite Hpayload in Hok. exact Hok.
Qed.

Lemma accepted_publish_is_stored_witness :
  let result :=
    Upsert.handler Samples.cfg Samples.platform Samples.freshState Samples.request
      (Samples.world 1700000001000) in
  result.1.1 = Upsert.Json 200 (Upsert.OkPath "/allowlists/phase-1.json") /\
  exists content, In (Upsert.WriteFile "public/allowlists/phase-1.json" content) result.2.
Proof.
  intros result.
  assert (Hreply : result.1.1 = Upsert.Json 200 (Upsert.OkPath "/allowlists/phase-1.json"))
    by (vm_compute; reflexivity).
  assert (Hrun : result
                 = (Upsert.Json 200 (Upsert.OkPath "/allowlists/phase-1.json"),
                    result.1.2, result.2))
    by (rewrite <- Hreply; apply surjective_pairing3).
  split; [exact Hreply|].
  destruct (accepted_publish_is_stored Samples.cfg Samples.platform Samples.freshState
              Samples.request (Samples.world 1700000001000) _ _ _ Hrun)
    as (entries & normalized & generatedAt & mode & _ & _ & _ & _ & _ & Hstored).
  cbn in Hstored. destruct Hstored as (_ & _ & [[_ Hin]|(existing & Hread & _)]).
  - eexists. exact Hin.
  - discriminate Hread.
Defined.

(** X18.  For a GET request with a non-negative integer phase id and a
    configured contract address, the proof endpoint answers 200 or 404; it
    answers 200 whenever the static file can be read and parsed; and when
    the KV lookup throws or returns no string, the answer is the parsed
    file with 200, or 404 with 'Allowlist proof not found'. *)
Theorem proof_lookup_falls_back J cfg P (json : ProofApi.Json J) (req : ProofApi.Request)
    (w : ProofApi.World)
    (Hmethod : ProofApi.method req = "GET")
    (Hconfigured : Ethers.is0xHexOfLength 40 (Upsert.CONTRACT_ADDRESS cfg) = true)
    (Hphase : Upsert.isInteger (ProofApi.phaseId req) = true /\
              exists q, ProofApi.phaseId req = Upsert.Finite q /\ (0 <= q)%Q) :
  let reply := ProofApi.handler cfg P json req w in
  let fromFile := ProofApi.loadFromFile P json w (ProofApi.phaseId req) in
  (ProofApi.statusOf reply = 200 \/ ProofApi.statusOf reply = 404) /\
  (forall value, fromFile = Some value -> ProofApi.statusOf reply = 200) /\
  (yieldsNothing (ProofApi.kvGet w (ProofApi.getAllowlistKvKey cfg P (ProofApi.phaseId req))) ->
   reply = match fromFile with
           | Some value => ProofApi.Respond 200 (ProofApi.Stored value)
           | None => ProofApi.Respond 404 (ProofApi.Error "Allowlist proof not found")
           end).
Proof.
  destruct Hphase as (Hinteger & q & Hq & Hnonneg).
  cbn zeta. unfold ProofApi.handler.
  rewrite Hmethod, Hinteger, Hq. unfold ProofApi.isAddress. rewrite Hconfigured.
  replace (Qle_bool 0 q) with true by (symmetry; apply Qle_bool_iff; exact Hnonneg).
  cbn -[ProofApi.loadFromKv ProofApi.loadFromFile ProofApi.getAllowlistKvKey].
  rewrite <- Hq.
  destruct (ProofApi.loadFromFile P json w (ProofApi.phaseId req)) as [value|].
  - split; [|split].
    + left. destruct (ProofApi.loadFromKv _ _ _ _ _) as [[kv|]|]; try reflexivity.
      destruct (ProofApi.truthy json kv); reflexivity.
    + intros _ _. destruct (ProofApi.loadFromKv _ _ _ _ _) as [[kv|]|]; try reflexivity.
      destruct (ProofApi.truthy json kv); reflexivity.
    + intros Hkv. unfold ProofApi.loadFromKv.
      destruct (negb (ProofApi.kvConfigured cfg)); [reflexivity|].
      destruct Hkv as [-> | ->]; reflexivity.
  - split; [|split].
    + destruct (ProofApi.loadFromKv _ _ _ _ _) as [[kv|]|]; try (right; reflexivity).
      destruct (ProofApi.truthy json kv); [left|right]; reflexivity.
    + intros value [=].
    + intros Hkv. unfold ProofApi.loadFromKv.
      destruct (negb (ProofApi.kvConfigured cfg)); [reflexivity|].
      destruct Hkv as [-> | ->]; reflexivity.
Qed.

Lemma proof_lookup_falls_back_witness :
  ProofApi.handler strictLimits Samples.platform textJson getPhaseOne (fileOnly "{}")
  = ProofApi.Respond 200 (ProofApi.Stored "{}").
Proof.
  refine (proj2 (proj2 (proof_lookup_falls_back string strictLimits Samples.platform textJson
                          getPhaseOne (fileOnly "{}") eq_refl eq_refl _)) _).
  - split; [reflexivity|]. exists (inject_Z 1). split; [reflexivity|].
    unfold Qle. cbn. lia.
  - left. reflexivity.
Defined.

Lemma preflight_passed cfg P st req w buckets :
  Upsert.preflight cfg P st req w = (None, buckets) ->
  Upsert.method req = "POST" /\ Upsert.isAddress (Upsert.CONTRACT_ADDRESS cfg) = true.
Proof.
  unfold Upsert.preflight.
  destruct (String.eqb_spec (Upsert.method req) "POST") as [Hmethod|]; cbn [negb];
    [|discriminate].
  destruct (Upsert.isAddress (Upsert.CONTRACT_ADDRESS cfg)); cbn [negb]; [|discriminate].
  intros _. split; [exact Hmethod|reflexivity].
Qed.

Lemma validate_phase cfg P req w v :
  Upsert.validate cfg P req w = inr v ->
  Upsert.isInteger (Upsert.phaseId req) = true /\
  exists q, Upsert.phaseId req = Upsert.Finite q /\ (0 <= q)%Q.
Proof.
  unfold Upsert.validate.
  destruct (Upsert.isInteger (Upsert.phaseId req)) eqn:Hinteger; cbn [negb orb];
    [|discriminate].
  destruct (Upsert.phaseId req) as [| |q]; try discriminate.
  destruct (Qle_bool 0 q) eqn:Hq; cbn [negb]; [|discriminate].
  intros _. split; [reflexivity|]. exists q. split; [reflexivity|].
  apply Qle_bool_iff. exact Hq.
Qed.

Lemma publish_effects cfg P used v w reply used' effects :
  Upsert.publish cfg P used v w = (reply, used', effects) ->
  let serialized := Upsert.JSON_stringify P (Upsert.v_payload v) in
  let phase := Upsert.numberToString P (Upsert.p_phaseId (Upsert.v_payload v)) in
  (forall path content,
     In (Upsert.WriteFile path content) effects ->
     path = "public/allowlists/phase-" +:+ phase +:+ ".json" /\ content = serialized) /\
  (forall key content,
     In (Upsert.KvSet key content) effects ->
     Upsert.kvConfigured cfg = true /\
     key = Upsert.getAllowlistKvKey cfg P (Upsert.p_phaseId (Upsert.v_payload v)) /\
     content = serialized).
Proof.
  unfold Upsert.publish. cbn zeta.
  destruct (_ !! _); [intros [= <- <- <-]; split; intros ? ? []|].
  destruct (Upsert.getOwnerFromChain cfg P w); [intros [= <- <- <-]; split; intros ? ? []|].
  destruct (negb _); [intros [= <- <- <-]; split; intros ? ? []|].
  destruct (Upsert.mkdir w);
    [destruct (Upsert.readFile w) as [existing|];
       [destruct (String.eqb (Upsert.trim existing)
                    (Upsert.trim (Upsert.JSON_stringify P (Upsert.v_payload v))))|];
       try destruct (Upsert.writeFile w)|];
    destruct (Upsert.kvConfigured cfg); try destruct (Upsert.kvSet w);
    cbn [negb andb app]; intros [= <- <- <-]; cbn [In];
    (split; [intros path content Hin|intros key content Hin]);
    repeat (destruct Hin as [Hin|Hin]);
    try discriminate Hin; try contradiction;
    injection Hin as <- <-; repeat split; reflexivity.
Qed.

(** X19.  After the publish endpoint answered 200, the proof endpoint serves
    what was written for the same phase: if the KV store returns the text
    written under a key, and the text is not blank and parses to a truthy
    value, that value is answered with 200; if the KV store is not
    configured or yields nothing and the file holds the text written, the
    parsed file is answered with 200. *)
Theorem published_proof_is_served J cfg P (json : ProofApi.Json J) st req w body st' effects
    (Hrun : Upsert.handler cfg P st req w = (Upsert.Json 200 body, st', effects)) :
  let get := {| ProofApi.method := "GET"; ProofApi.phaseId := Upsert.phaseId req |} in
  (forall key content pw value,
     In (Upsert.KvSet key content) effects ->
     ProofApi.kvGet pw key = ProofApi.KvResult (Some content) ->
     Upsert.trim content <> "" ->
     ProofApi.JSON_parse json content = Some value ->
     ProofApi.truthy json value = true ->
     ProofApi.handler cfg P json get pw = ProofApi.Respond 200 (ProofApi.Stored value)) /\
  (forall path content pw value,
     In (Upsert.WriteFile path content) effects ->
     ProofApi.kvConfigured cfg = false \/
       yieldsNothing
         (ProofApi.kvGet pw (ProofApi.getAllowlistKvKey cfg P (Upsert.phaseId req))) ->
     ProofApi.readFile pw path = Some content ->
     ProofApi.JSON_parse json content = Some value ->
     ProofApi.handler cfg P json get pw = ProofApi.Respond 200 (ProofApi.Stored value)).
Proof.
  unfold Upsert.handler in Hrun.
  destruct (Upsert.preflight cfg P st req w) as [[early|] buckets] eqn:Hpreflight.
  { injection Hrun as -> <- <-.
    exfalso. exact (preflight_early _ _ _ _ _ _ _ Hpreflight eq_refl). }
  destruct (Upsert.validate cfg P req w) as [early|v] eqn:Hvalidate.
  { injection Hrun as -> <- <-.
    exfalso. exact (validate_inl _ _ _ _ _ Hvalidate eq_refl). }
  destruct (Upsert.publish cfg P (Upsert.usedSignatures st) v w) as [[reply' used'] effects']
    eqn:Hpublish.
  injection Hrun as -> <- <-.
  destruct (preflight_passed _ _ _ _ _ _ Hpreflight) as [_ Haddress].
  destruct (validate_phase _ _ _ _ _ Hvalidate) as (Hinteger & q & Hq & Hnonneg).
  destruct (validate_payload _ _ _ _ _ Hvalidate)
    as (entries & normalized & generatedAt & mode & _ & _ & _ & _ & _ & Hpayload).
  destruct (publish_effects _ _ _ _ _ _ _ _ Hpublish) as [Hfile Hkv]. cbn zeta in Hfile, Hkv.
  rewrite Hpayload in Hfile, Hkv. cbn [Upsert.p_phaseId] in Hfile, Hkv.
  assert (Hhead : forall pw,
            ProofApi.handler cfg P json
              {| ProofApi.method := "GET"; ProofApi.phaseId := Upsert.phaseId req |} pw
            = match ProofApi.loadFromKv cfg P json pw (Upsert.phaseId req) with
              | Some (Some value) =>
                  if ProofApi.truthy json value
                  then ProofApi.Respond 200 (ProofApi.Stored value)
                  else match ProofApi.loadFromFile P json pw (Upsert.phaseId req) with
                       | Some value => ProofApi.Respond 200 (ProofApi.Stored value)
                       | None => ProofApi.Respond 404 (ProofApi.Error "Allowlist proof not found")
                       end
              | _ => match ProofApi.loadFromFile P json pw (Upsert.phaseId req) with
                     | Some value => ProofApi.Respond 200 (ProofApi.Stored value)
                     | None => ProofApi.Respond 404 (ProofApi.Error "Allowlist proof not found")
                     end
              end).
  { intros pw. unfold ProofApi.handler. cbn [ProofApi.method ProofApi.phaseId].
    unfold ProofApi.isAddress. unfold Upsert.isAddress in Haddress.
    rewrite Haddress, Hinteger, Hq.
    replace (Qle_bool 0 q) with true by (symmetry; apply Qle_bool_iff; exact Hnonneg).
    cbn -[ProofApi.loadFromKv ProofApi.loadFromFile].
    destruct (ProofApi.loadFromKv cfg P json pw (Upsert.Finite q)) as [[kv|]|]; reflexivity. }
  cbn zeta. split.
  - intros key content pw value Hin Hget Hnonblank Hparse Htruthy.
    destruct (Hkv key content Hin) as (Hconfigured & -> & _).
    rewrite Hhead. unfold ProofApi.loadFromKv.
    change (ProofApi.kvConfigured cfg) with (Upsert.kvConfigured cfg).
    rewrite Hconfigured. cbn [negb].
    change (ProofApi.getAllowlistKvKey cfg P (Upsert.phaseId req))
      with (Upsert.getAllowlistKvKey cfg P (Upsert.phaseId req)).
    rewrite Hget.
    assert (Hne : Upsert.nonEmpty (Upsert.trim content) = true).
    { unfold Upsert.nonEmpty. destruct (Upsert.trim content); [congruence|reflexivity]. }
    rewrite Hne. cbn [negb]. rewrite Hparse, Htruthy. reflexivity.
  - intros path content pw value Hin Hkvdown Hread Hparse.
    destruct (Hfile path content Hin) as (-> & _).
    assert (Hfromfile : ProofApi.loadFromFile P json pw (Upsert.phaseId req) = Some value).
    { unfold ProofApi.loadFromFile. rewrite Hread. exact Hparse. }
    rewrite Hhead, Hfromfile. unfold ProofApi.loadFromKv.
    destruct Hkvdown as [Hoff|[Hdown|Hdown]]; rewrite ?Hoff, ?Hdown; cbn [negb];
      try reflexivity;
      destruct (negb (ProofApi.kvConfigured cfg)); reflexivity.
Qed.

Lemma published_proof_is_served_witness :
  exists content,
    In (Upsert.WriteFile "public/allowlists/phase-1.json" content)
       (Upsert.handler Samples.cfg Samples.platform Samples.freshState Samples.request
          (Samples.world 1700000001000)).2 /\
    ProofApi.handler Samples.cfg Samples.platform textJson getPhaseOne (fileOnly content)
    = ProofApi.Respond 200 (ProofApi.Stored content).
Proof.
  set (result := Upsert.handler Samples.cfg Samples.platform Samples.freshState
                   Samples.request (Samples.world 1700000001000)).
  assert (Hreply : result.1.1 = Upsert.Json 200 (Upsert.OkPath "/allowlists/phase-1.json"))
    by (vm_compute; reflexivity).
  assert (Hrun : result
                 = (Upsert.Json 200 (Upsert.OkPath "/allowlists/phase-1.json"),
                    result.1.2, result.2))
    by (rewrite <- Hreply; apply surjective_pairing3).
  assert (Hwritten : {content |
            In (Upsert.WriteFile "public/allowlists/phase-1.json" content) result.2}).
  { eexists. vm_compute. right. left. reflexivity. }
  destruct Hwritten as [content Hwritten]. exists content. split; [exact Hwritten|].
  refine (proj2 (published_proof_is_served string Samples.cfg Samples.platform textJson
                   Samples.freshState Samples.request (Samples.world 1700000001000)
                   _ _ _ Hrun)
            "public/allowlists/phase-1.json" content (fileOnly content) content
            Hwritten _ eq_refl eq_refl).
  left. reflexivity.
Defined.

Lemma fmap_fst_map {A B} (l : list (A * B)) : l.*1 = map fst l.
Proof. induction l as [|x l IH]; [reflexivity|]. cbn. rewrite IH. reflexivity. Qed.

Lemma setProperty_fresh key v obj :
  ~ In key (map fst obj) -> Upsert.setProperty key v obj = obj ++ [(key, v)].
Proof.
  induction obj as [|[k x] obj IH]; intros Hfresh; [reflexivity|].
  cbn [Upsert.setProperty]. cbn [map fst In] in Hfresh.
  destruct (String.eqb_spec k key) as [->|Hne]; [tauto|].
  cbn [app]. rewrite IH by tauto. reflexivity.
Qed.

Lemma strings_Str proof : Upsert.strings (map Upsert.Str proof) = proof.
Proof.
  unfold Upsert.strings. rewrite map_map. cbn. apply map_id.
Qed.

Lemma normalizeProofs_wire cfg entries :
  forall acc,
    NoDup (map fst (acc ++ entries)) ->
    Forall (wellFormedEntry cfg) entries ->
    Upsert.normalizeProofs cfg (map wire entries) acc = Some (acc ++ entries).
Proof.
  induction entries as [|[key proof] entries IH]; intros acc Hnodup Hall.
  - cbn. rewrite app_nil_r. reflexivity.
  - inversion Hall as [|? ? (Haddress & Hlower & Hdepth & Hhashes) Hrest]; subst.
    cbn [fst snd] in *. cbn [map wire Upsert.normalizeProofs fst snd].
    rewrite Haddress. cbn [negb orb Upsert.isProofArray].
    rewrite length_map.
    replace (Z.of_nat (length proof) <=? Upsert.MAX_PROOF_DEPTH cfg) with true
      by (symmetry; apply Z.leb_le; exact Hdepth).
    replace (forallb Upsert.isBytes32 (map Upsert.Str proof)) with true.
    2:{ symmetry. apply forallb_forall. intros f Hf.
        apply in_map_iff in Hf as (s & <- & Hs). cbn.
        rewrite Forall_forall in Hhashes. apply Hhashes, list_elem_of_In. exact Hs. }
    cbn [andb negb default]. unfold id. rewrite Hlower, strings_Str.
    rewrite setProperty_fresh.
    + rewrite IH; [rewrite <- app_assoc; reflexivity| |exact Hrest].
      rewrite <- app_assoc. exact Hnodup.
    + rewrite map_app in Hnodup. apply NoDup_app in Hnodup as (_ & Hdisjoint & _).
      intros Hin. apply (Hdisjoint key); [apply list_elem_of_In; exact Hin|].
      cbn. left.
Qed.

Lemma published_entries_wellformed cfg N data entries depth :
  Forall (fun a => Ethers.is0xHexOfLength 40 a = true) N ->
  Admin.buildAllowlistMerkleData N = Some data ->
  Permutation entries (map_to_list (Admin.proofs data)) ->
  (length N <= 2 ^ depth)%nat -> Z.of_nat depth <= Upsert.MAX_PROOF_DEPTH cfg ->
  NoDup (map fst entries) /\ Forall (wellFormedEntry cfg) entries /\
  (length entries <= length N)%nat.
Proof.
  intros Haddresses Hbuilt Hentries Hsize Hdepth.
  destruct (merkle_data_shape N data Hbuilt) as (_ & Hshape & _).
  assert (Hnodup : NoDup (map fst entries)).
  { rewrite <- fmap_fst_map, Hentries. apply NoDup_fst_map_to_list. }
  assert (Horigin : forall key proof, In (key, proof) entries ->
            (exists w, In w N /\ key = Js.toLowerCase w) /\
            Forall (fun sibling => Ethers.is0xHexOfLength 64 sibling = true) proof /\
            (length proof <= depth)%nat).
  { intros key proof Hin. apply list_elem_of_In in Hin. rewrite Hentries in Hin.
    apply elem_of_map_to_list in Hin.
    destruct (Hshape key proof Hin) as (Hw & Hhashes & Hbound).
    split; [exact Hw|]. split; [exact Hhashes|]. apply Hbound. exact Hsize. }
  split; [exact Hnodup|]. split.
  - apply Forall_forall. intros [key proof] Hin. apply list_elem_of_In in Hin.
    destruct (Horigin key proof Hin) as ((w & Hw & ->) & Hhashes & Hbound).
    rewrite Forall_forall in Haddresses. apply list_elem_of_In, Haddresses in Hw.
    split; [apply isAddress_toLowerCase; exact Hw|]. split; [apply toLowerCase_idem|].
    split; [cbn [snd]; lia|exact Hhashes].
  - rewrite <- (length_map fst entries), <- (length_map Js.toLowerCase N).
    apply submseteq_length, NoDup_submseteq; [exact Hnodup|].
    intros key Hkey. apply list_elem_of_In, in_map_iff in Hkey as ([k proof] & <- & Hin).
    destruct (Horigin k proof Hin) as ((w & Hw & ->) & _).
    cbn [fst]. apply list_elem_of_In, in_map. exact Hw.
Qed.

Lemma publish_succeeds cfg P used v w :
  Upsert.cleanupUsedSignatures (Upsert.cleanupNow w) used
    !! Js.toLowerCase (Upsert.v_signature v) = None ->
  Upsert.getOwnerFromChain cfg P w = inr (Upsert.v_recovered v) ->
  (Upsert.mkdir w = Upsert.Done /\ Upsert.writeFile w = Upsert.Done) \/
  (Upsert.kvConfigured cfg = true /\ Upsert.kvSet w = Upsert.Done) ->
  exists body used' effects,
    Upsert.publish cfg P used v w = (Upsert.Json 200 body, used', effects).
Proof.
  intros Hunused Howner Hstore. unfold Upsert.publish.
  rewrite Hunused, Howner, String.eqb_refl. cbn [negb].
  destruct Hstore as [[Hmkdir Hwrite]|[Hkv Hset]].
  - rewrite Hmkdir, Hwrite.
    destruct (match Upsert.readFile w with Some _ => _ | None => _ end);
      destruct (Upsert.kvConfigured cfg); try destruct (Upsert.kvSet w);
      cbn [negb andb]; eexists _, _, _; reflexivity.
  - rewrite Hkv, Hset.
    destruct (Upsert.mkdir w);
      [destruct (match Upsert.readFile w with Some _ => _ | None => _ end);
       [|destruct (Upsert.writeFile w)]|];
      cbn [negb andb]; eexists _, _, _; reflexivity.
Qed.

(** X20.  When the admin page publishes the proofs buildAllowlistMerkleData
    built for a non-empty list of addresses within the endpoint's limits,
    with a fresh timestamp and a signature of the owner's connected wallet
    that was not used before, and the request passes the endpoint's
    method, origin, rate and content-type checks and the storage works,
    then the endpoint answers 200 and publishAllowlistProofJson returns
    that answer after posting exactly this one request. *)
Theorem owner_publish_is_accepted cfg P st w transport (N : list string)
    (data : Admin.MerkleData) (entries : list (string * list string)) (depth : nat)
    (phaseId timestamp : Z) (address isoNow : string) (wallet : AdminPage.Wallet)
    (fetch : Upsert.Request -> AdminPage.Fetched)
    (signature recovered owner : string) buckets
    (Hwallets : Forall (fun a => Ethers.is0xHexOfLength 40 a = true) N)
    (Hnonempty : N <> [])
    (Hbuilt : Admin.buildAllowlistMerkleData N = Some data)
    (Hentries : Permutation entries (map_to_list (Admin.proofs data)))
    (Hcount : Z.of_nat (length N) <= Upsert.MAX_PROOF_WALLETS cfg)
    (Hdepth : (length N <= 2 ^ depth)%nat /\ Z.of_nat depth <= Upsert.MAX_PROOF_DEPTH cfg)
    (Hphase : 0 <= phaseId) :
  let phase := Upsert.Finite (inject_Z phaseId) in
  let total := Upsert.Finite (inject_Z (Z.of_nat (length N))) in
  let proofsHash := AdminPage.buildProofsHash entries in
  let message :=
    AdminPage.buildAllowlistPublishMessage P (Upsert.CONTRACT_ADDRESS cfg) phase
      (Admin.root data) total proofsHash (Upsert.Finite (inject_Z timestamp)) in
  let request :=
    AdminPage.publishRequest transport phase (Admin.root data) entries total isoNow
      address proofsHash timestamp (Upsert.Str signature) in
  AdminPage.signPublishMessage wallet message = inr (Upsert.Str signature) ->
  (forall body st' effects,
     Upsert.handler cfg P st request w = (Upsert.Json 200 body, st', effects) ->
     fetch request = AdminPage.Responds true (Some body)) ->
  Upsert.preflight cfg P st request w = (None, buckets) ->
  Z.abs (Upsert.now w - timestamp) <= 300000 ->
  Upsert.isLikelySignature (Upsert.Str signature) = true ->
  Upsert.verifyMessage P message signature = Some recovered ->
  Ethers.getAddress recovered = Some owner ->
  Upsert.isAddress address = true /\ Ethers.getAddress address = Some owner ->
  Upsert.getOwnerFromChain cfg P w = inr owner ->
  Upsert.cleanupUsedSignatures (Upsert.cleanupNow w) (Upsert.usedSignatures st)
    !! Js.toLowerCase signature = None ->
  (Upsert.mkdir w = Upsert.Done /\ Upsert.writeFile w = Upsert.Done) \/
  (Upsert.kvConfigured cfg = true /\ Upsert.kvSet w = Upsert.Done) ->
  exists body st' effects,
    Upsert.handler cfg P st request w = (Upsert.Json 200 body, st', effects) /\
    AdminPage.publishAllowlistProofJson P (Upsert.CONTRACT_ADDRESS cfg) transport
      (Some address) wallet fetch phase (Admin.root data) entries total timestamp isoNow
    = (inr (Some body), [request]).
Proof.
  intros phase total proofsHash message request Hsign Hfetch Hpreflight Hfresh Hshape
    Hsigned Hrecovered [Haddress Hsigner] Howner Hunused Hstore.
  destruct Hdepth as [Hsize Hdepth].
  destruct (published_entries_wellformed cfg N data entries depth
              Hwallets Hbuilt Hentries Hsize Hdepth) as (Hnodup & Hwf & Hlen).
  destruct (merkle_data_shape N data Hbuilt) as (Hroot & _ & _).
  assert (Hpositive : (0 < length N)%nat) by (destruct N; [congruence|cbn; lia]).
  assert (Hvalidate :
            Upsert.validate cfg P request w
            = inr {| Upsert.v_payload :=
                       {| Upsert.p_phaseId := Upsert.Finite (inject_Z phaseId);
                          Upsert.p_root := Admin.root data;
                          Upsert.p_total := Z.of_nat (length N);
                          Upsert.p_generatedAt :=
                            if (0 <? String.length isoNow)%nat then isoNow
                            else Upsert.isoNow w;
                          Upsert.p_mode := "address-only-merkle";
                          Upsert.p_proofs := entries |};
                     Upsert.v_now := Upsert.now w;
                     Upsert.v_recovered := owner;
                     Upsert.v_signature := signature |}).
  { subst request message proofsHash total phase.
    unfold Upsert.validate.
    cbn [AdminPage.publishRequest AdminPage.overJson
         Upsert.phaseId Upsert.root Upsert.proofs Upsert.total Upsert.mode
         Upsert.generatedAt Upsert.signer Upsert.proofsHash Upsert.timestamp
         Upsert.signature Upsert.rendering Upsert.isBytes32 Upsert.isFinite
         Upsert.p_phaseId Upsert.p_root Upsert.p_total].
    change (map (fun entry : string * list string => (entry.1, Some (map Upsert.Str entry.2)))
                entries) with (map wire entries).
    rewrite length_map.
    replace (Upsert.isInteger (Upsert.Finite (inject_Z phaseId))) with true.
    2:{ symmetry. cbn. apply Qeq_bool_iff. unfold Qfloor, inject_Z. cbn.
        rewrite Z.div_1_r. reflexivity. }
    replace (Qle_bool 0 (inject_Z phaseId)) with true.
    2:{ symmetry. apply Qle_bool_iff. unfold Qle. cbn. lia. }
    rewrite Hroot. cbn [negb orb].
    replace (Upsert.MAX_PROOF_WALLETS cfg <? Z.of_nat (length entries)) with false
      by (symmetry; apply Z.ltb_ge; lia).
    rewrite (normalizeProofs_wire cfg entries [] Hnodup Hwf). cbn [app].
    rewrite Haddress. cbn [negb].
    unfold AdminPage.buildProofsHash at 1. rewrite keccak256_bytes32. cbn [negb].
    rewrite Hshape. cbn [negb].
    replace (Qle_bool (Qabs (inject_Z (Upsert.now w) - inject_Z timestamp))
                      (inject_Z Upsert.MAX_SIGNATURE_AGE_MS)) with true.
    2:{ symmetry. apply Qle_bool_iff. unfold Qle, Qabs, Qminus, Qplus, Qopp, inject_Z.
        cbn [Qnum Qden]. unfold Upsert.MAX_SIGNATURE_AGE_MS. lia. }
    cbn [negb].
    replace (Upsert.normalizeTotal (Upsert.Finite (inject_Z (Z.of_nat (length N))))
                                   (Z.of_nat (length entries)))
      with (Z.of_nat (length N)).
    2:{ unfold Upsert.normalizeTotal.
        replace (Qle_bool (inject_Z (Z.of_nat (length N))) 0) with false.
        - cbn [negb]. unfold Qfloor, inject_Z. rewrite Z.div_1_r. reflexivity.
        - symmetry. apply not_true_is_false. rewrite Qle_bool_iff. unfold Qle. cbn. lia. }
    replace (Z.of_nat (length N) <? Z.of_nat (length entries)) with false
      by (symmetry; apply Z.ltb_ge; lia).
    change (Upsert.buildProofsHash entries) with (AdminPage.buildProofsHash entries).
    rewrite String.eqb_refl. cbn [negb].
    change (Upsert.buildAllowlistPublishMessage P (Upsert.CONTRACT_ADDRESS cfg)
              (Upsert.Finite (inject_Z phaseId)) (Admin.root data)
              (Upsert.Finite (inject_Z (Z.of_nat (length N))))
              (AdminPage.buildProofsHash entries) (Upsert.Finite (inject_Z timestamp)))
      with (AdminPage.buildAllowlistPublishMessage P (Upsert.CONTRACT_ADDRESS cfg)
              (Upsert.Finite (inject_Z phaseId)) (Admin.root data)
              (Upsert.Finite (inject_Z (Z.of_nat (length N))))
              (AdminPage.buildProofsHash entries) (Upsert.Finite (inject_Z timestamp))).
    rewrite Hsigned. cbn [mbind option_bind]. rewrite Hrecovered, Hsigner.
    rewrite String.eqb_refl. cbn [negb]. reflexivity. }
  assert (Hhandled : exists body st' effects,
            Upsert.handler cfg P st request w = (Upsert.Json 200 body, st', effects)).
  { unfold Upsert.handler. rewrite Hpreflight, Hvalidate.
    match goal with
    | |- context [Upsert.publish _ _ _ ?v _] =>
        destruct (publish_succeeds cfg P (Upsert.usedSignatures st) v w Hunused Howner Hstore)
          as (body & used' & effects & Hpublish)
    end.
    rewrite Hpublish. eexists _, _, _. reflexivity. }
  destruct Hhandled as (body & st' & effects & Hhandled).
  exists body, st', effects. split; [exact Hhandled|].
  unfold AdminPage.publishAllowlistProofJson.
  assert (Hconnected : Js.truthy (Some address) = true).
  { destruct address; [discriminate Haddress|reflexivity]. }
  rewrite Hconnected. cbn [negb].
  fold phase total proofsHash. fold message. rewrite Hsign.
  cbn [Js.stringOrEmpty]. fold request.
  rewrite (Hfetch body st' effects Hhandled). reflexivity.
Qed.

Lemma sampleData_built : Admin.buildAllowlistMerkleData Samples.wallets = Some sampleData.
Proof.
  unfold sampleData.
  destruct (buildAllowlistMerkleData_total Samples.wallets) as [data ->];
    [repeat constructor|reflexivity].
Defined.

Lemma owner_publish_is_accepted_witness :
  exists body st' effects,
    Upsert.handler Samples.cfg Samples.platform Samples.freshState sampleRequest
      (Samples.world 1700000001000)
    = (Upsert.Json 200 body, st', effects) /\
    AdminPage.publishAllowlistProofJson Samples.platform
      (Upsert.CONTRACT_ADDRESS Samples.cfg) Samples.request (Some Samples.bob) sampleWallet
      sampleFetch (Upsert.Finite 1) (Admin.root sampleData)
      (map_to_list (Admin.proofs sampleData)) (Upsert.Finite (inject_Z (Z.of_nat 3)))
      1700000000000 "2023-11-14T22:13:20.000Z"
    = (inr (Some body), [sampleRequest]).
Proof.
  refine (owner_publish_is_accepted Samples.cfg Samples.platform Samples.freshState
            (Samples.world 1700000001000) Samples.request Samples.wallets sampleData
            (map_to_list (Admin.proofs sampleData)) 2 1 1700000000000 Samples.bob
            "2023-11-14T22:13:20.000Z" sampleWallet sampleFetch Samples.signature
            Samples.bob Samples.bob
            (Upsert.preflight Samples.cfg Samples.platform Samples.freshState
               sampleRequest (Samples.world 1700000001000)).2
            _ _ sampleData_built _ _ _ _ _ _ _ _ _ _ _ _ _ _ _).
  - repeat constructor.
  - discriminate.
  - reflexivity.
  - cbn. lia.
  - split; cbn; lia.
  - lia.
  - reflexivity.
  - intros body st' effects Hhandled. unfold sampleFetch.
    change (AdminPage.publishRequest _ _ _ _ _ _ _ _ _ _) with sampleRequest in *.
    rewrite Hhandled. reflexivity.
  - etransitivity; [apply surjective_pairing|].
    apply (f_equal (fun early => (early, _))). vm_compute. reflexivity.
  - cbn. lia.
  - vm_compute. reflexivity.
  - reflexivity.
  - vm_compute. reflexivity.
  - split; vm_compute; reflexivity.
  - vm_compute. reflexivity.
  - vm_compute. reflexivity.
  - left. split; reflexivity.
Defined.

Lemma publish_failed cfg P used v w reply used' effects :
  Upsert.publish cfg P used v w = (reply, used', effects) ->
  effects <> [] -> Upsert.statusOf reply <> 200 ->
  Upsert.statusOf reply = 500 /\
  (Upsert.mkdir w <> Upsert.Done \/ Upsert.writeFile w <> Upsert.Done) /\
  (Upsert.kvConfigured cfg = false \/ Upsert.kvSet w <> Upsert.Done) /\
  used' !! Js.toLowerCase (Upsert.v_signature v) = None.
Proof.
  unfold Upsert.publish.
  destruct (_ !! _) eqn:Hunused; [intros [= <- <- <-]; congruence|].
  destruct (Upsert.getOwnerFromChain cfg P w); [intros [= <- <- <-]; congruence|].
  destruct (negb _); [intros [= <- <- <-]; congruence|].
  destruct (Upsert.mkdir w);
    [destruct (Upsert.readFile w) as [existing|];
       [destruct (String.eqb (Upsert.trim existing)
                    (Upsert.trim (Upsert.JSON_stringify P (Upsert.v_payload v))))|];
       try destruct (Upsert.writeFile w)|];
    destruct (Upsert.kvConfigured cfg); try destruct (Upsert.kvSet w);
    cbn [negb andb app]; intros [= <- <- <-] _ Hstatus;
    try (exfalso; apply Hstatus; reflexivity);
    (split; [reflexivity|]); (split; [|split; [|exact Hunused]]);
    first [left; discriminate|right; discriminate|left; reflexivity].
Qed.

(** X21.  When the publish endpoint has made a file or KV operation and does
    not answer 200, it answers 500, the file storage failed (creating the
    directory or writing the file), the KV store is not configured or its
    write failed, and the signature of the request is not in the cache of
    used signatures afterwards, so that the same signed request can be
    sent again. *)
Theorem storage_failure_is_reported cfg P st req w reply st' effects
    (Hrun : Upsert.handler cfg P st req w = (reply, st', effects))
    (Hattempted : effects <> [])
    (Hfailed : Upsert.statusOf reply <> 200) :
  Upsert.statusOf reply = 500 /\
  (Upsert.mkdir w <> Upsert.Done \/ Upsert.writeFile w <> Upsert.Done) /\
  (Upsert.kvConfigured cfg = false \/ Upsert.kvSet w <> Upsert.Done) /\
  Upsert.usedSignatures st'
    !! Js.toLowerCase (Upsert.rendering (Upsert.signature req)) = None.
Proof.
  unfold Upsert.handler in Hrun.
  destruct (Upsert.preflight cfg P st req w) as [[early|] buckets] eqn:Hpreflight.
  { injection Hrun as <- <- <-. congruence. }
  destruct (Upsert.validate cfg P req w) as [early|v] eqn:Hvalidate.
  { injection Hrun as <- <- <-. congruence. }
  destruct (validate_inr _ _ _ _ _ Hvalidate)
    as (t & entries & normalized & raw & _ & _ & _ & _ & _ & _ & _ & Hsig & _).
  destruct (Upsert.publish cfg P (Upsert.usedSignatures st) v w) as [[reply' used'] effects']
    eqn:Hpublish.
  injection Hrun as <- <- <-. cbn [Upsert.usedSignatures]. rewrite <- Hsig.
  exact (publish_failed _ _ _ _ _ _ _ _ Hpublish Hattempted Hfailed).
Qed.

Lemma storage_failure_is_reported_witness :
  let result :=
    Upsert.handler Samples.cfg Samples.platform Samples.freshState Samples.request
      readOnlyWorld in
  result.2 <> [] /\ Upsert.statusOf result.1.1 = 500.
Proof.
  intros result.
  assert (Hattempted : result.2 <> []) by (vm_compute; discriminate).
  assert (Hfailed : Upsert.statusOf result.1.1 <> 200) by (vm_compute; discriminate).
  split; [exact Hattempted|].
  exact (proj1 (storage_failure_is_reported Samples.cfg Samples.platform Samples.freshState
                  Samples.request readOnlyWorld _ _ _ (surjective_pairing3 result)
                  Hattempted Hfailed)).
Defined.

(** ** Nested provider messages *)

Lemma includes_prefix haystack needle :
  String.prefix needle haystack = true -> Js.includes haystack needle = true.
Proof. intros H. destruct haystack; cbn [Js.includes]; rewrite H; reflexivity. Qed.

Lemma prefix_app needle haystack rest :
  String.prefix needle haystack = true -> String.prefix needle (haystack +:+ rest) = true.
Proof.
  revert needle. induction haystack as [|d haystack IH]; intros needle H.
  - destruct needle; [|discriminate]. destruct rest; reflexivity.
  - destruct needle as [|c needle]; [reflexivity|].
    change (String d haystack +:+ rest) with (String d (haystack +:+ rest)).
    cbn [String.prefix] in H |- *.
    destruct (Ascii.ascii_dec c d); [|discriminate]. apply IH. exact H.
Qed.

Lemma includes_app_l haystack rest needle :
  Js.includes haystack needle = true -> Js.includes (haystack +:+ rest) needle = true.
Proof.
  induction haystack as [|c haystack IH]; intros H.
  - cbn in H. rewrite orb_false_r in H. apply includes_prefix.
    apply (prefix_app needle "" rest). exact H.
  - cbn [Js.includes] in H. apply orb_true_iff in H as [H|H].
    + apply includes_prefix. apply (prefix_app needle (String c haystack) rest). exact H.
    + change (String c haystack +:+ rest) with (String c (haystack +:+ rest)).
      cbn [Js.includes]. rewrite (IH H). apply orb_true_r.
Qed.

Lemma includes_app_r front haystack needle :
  Js.includes haystack needle = true -> Js.includes (front +:+ haystack) needle = true.
Proof.
  intros H. induction front as [|c front IH]; [exact H|].
  change (String c front +:+ haystack) with (String c (front +:+ haystack)).
  cbn [Js.includes]. rewrite IH. apply orb_true_r.
Qed.

Lemma toLowerCase_app a b : Js.toLowerCase (a +:+ b) = Js.toLowerCase a +:+ Js.toLowerCase b.
Proof.
  induction a as [|c a IH]; [reflexivity|].
  change (String c a +:+ b) with (String c (a +:+ b)).
  cbn [Js.toLowerCase]. rewrite IH. reflexivity.
Qed.

Lemma includes_join sep parts part needle :
  In part parts -> Js.includes (Js.toLowerCase part) needle = true ->
  Js.includes (Js.toLowerCase (Js.join sep parts)) needle = true.
Proof.
  unfold Js.join. induction parts as [|first parts IH]; intros Hin Hpart; [destruct Hin|].
  destruct parts as [|second parts].
  - destruct Hin as [->|[]]. exact Hpart.
  - cbn [String.concat]. rewrite !toLowerCase_app.
    destruct Hin as [->|Hin].
    + apply includes_app_l. exact Hpart.
    + apply includes_app_r, includes_app_r. apply IH; assumption.
Qed.

(** X22.  If any of the ten members extractRpcErrorMessage reads contains, in
    any letter case, one of the patterns 'execution reverted', 'revert',
    'owner', 'metadata frozen', 'already frozen', 'invalid', 'not
    allowlisted' or 'insufficient funds', then the extracted message
    contains it, isLikelyRevertReason accepts the message, and
    buildTxOverrides throws a new Error with that message when the gas
    estimate fails with this error. *)
Theorem nested_revert_reason_is_detected (error : Contract.RpcError) (member pattern : string)
    (Hmember : In (Some member) (members error))
    (Hpattern : In pattern
                  [ "execution reverted"; "revert"; "owner"; "metadata frozen";
                    "already frozen"; "invalid"; "not allowlisted"; "insufficient funds" ])
    (Hfound : Js.includes (Js.toLowerCase member) pattern = true) :
  Js.includes (Js.toLowerCase (Contract.extractRpcErrorMessage error)) pattern = true /\
  Contract.isLikelyRevertReason (Contract.extractRpcErrorMessage error) = true /\
  forall Tx (contract : Contract.Attempt Tx) fallbackGasLimit value forceLegacy,
    Contract.estimateGas contract = Some (inl error) ->
    Contract.buildTxOverrides contract fallbackGasLimit value forceLegacy
    = inl (Contract.newError (Contract.extractRpcErrorMessage error)).
Proof.
  assert (Hnonempty : member <> "").
  { intros ->. cbn in Hfound.
    repeat (destruct Hpattern as [<-|Hpattern]; [discriminate|]). destruct Hpattern. }
  assert (Hincluded :
            Js.includes (Js.toLowerCase (Contract.extractRpcErrorMessage error)) pattern = true).
  { unfold Contract.extractRpcErrorMessage. apply (includes_join _ _ member); [|exact Hfound].
    apply in_map_iff. exists (Some member). split; [reflexivity|].
    apply list_elem_of_In, list_elem_of_filter. split; [|apply list_elem_of_In; exact Hmember].
    cbn. destruct member; [congruence|reflexivity]. }
  assert (Hrevert : Contract.isLikelyRevertReason (Contract.extractRpcErrorMessage error) = true).
  { unfold Contract.isLikelyRevertReason.
    repeat (destruct Hpattern as [<-|Hpattern];
            [rewrite Hincluded; rewrite ?orb_true_r; reflexivity|]).
    destruct Hpattern. }
  split; [exact Hincluded|]. split; [exact Hrevert|].
  intros Tx contract fallbackGasLimit value forceLegacy Hestimate.
  unfold Contract.buildTxOverrides. rewrite Hestimate, Hrevert.
  rewrite (isLikelyRevertReason_nonempty _ Hrevert). reflexivity.
Qed.

Lemma nested_revert_reason_is_detected_witness :
  Contract.isLikelyRevertReason (Contract.extractRpcErrorMessage nestedRevert) = true.
Proof.
  refine (proj1 (proj2 (nested_revert_reason_is_detected nestedRevert
                          "Execution reverted: Not allowlisted" "not allowlisted" _ _ _))).
  - cbn. tauto.
  - cbn. tauto.
  - reflexivity.
Defined.

Lemma trimStart_head text :
  Upsert.trimStart text = "" \/
  exists c rest, Upsert.trimStart text = String c rest /\ Upsert.isSpace c = false.
Proof.
  induction text as [|c text IH]; [left; reflexivity|].
  cbn [Upsert.trimStart]. destruct (Upsert.isSpace c) eqn:Hc; [exact IH|].
  right. exists c, text. split; [reflexivity|exact Hc].
Qed.

Lemma trimEnd_head c rest :
  Upsert.isSpace c = false -> Upsert.trimEnd (String c rest) <> "".
Proof.
  intros Hc. cbn [Upsert.trimEnd]. rewrite Hc.
  destruct (Upsert.trimEnd rest); discriminate.
Qed.

Lemma trim_head c rest : Upsert.isSpace c = false -> Upsert.trim (String c rest) <> "".
Proof.
  intros Hc. unfold Upsert.trim. cbn [Upsert.trimStart]. rewrite Hc.
  apply trimEnd_head. exact Hc.
Qed.

Lemma trim_restOfLine text :
  AdminTx.restOfLine (Upsert.trimStart text) <> "" ->
  Upsert.trim (AdminTx.restOfLine (Upsert.trimStart text)) <> "".
Proof.
  destruct (trimStart_head text) as [->|(c & rest & -> & Hc)]; [intros H; exact H|].
  cbn [AdminTx.restOfLine]. destruct (AdminTx.isLineTerminator c); [intros H; exact H|].
  intros _. apply trim_head. exact Hc.
Qed.

Lemma revertedGroup_trim raw :
  Js.truthy (AdminTx.revertedGroup raw) = true ->
  Upsert.trim (Js.stringOrEmpty (AdminTx.revertedGroup raw)) <> "".
Proof.
  unfold AdminTx.revertedGroup.
  destruct (AdminTx.afterFirst "execution reverted" raw) as [rest|]; [|discriminate].
  cbn [Js.truthy Js.stringOrEmpty]. intros H. apply trim_restOfLine.
  intros Hempty. rewrite Hempty in H. discriminate.
Qed.

(** X23.  extractTxErrorMessage of the admin page never returns the empty
    string; for new Error('execution reverted: ' + reason) it returns the
    first line of reason without its surrounding white space, when that
    line is not blank. *)
Theorem extractTxErrorMessage_never_empty (error : AdminTx.TxError) :
  AdminTx.extractTxErrorMessage error <> "" /\
  (forall reason,
     error = AdminTx.newError ("execution reverted: " +:+ reason) ->
     AdminTx.restOfLine (Upsert.trimStart reason) <> "" ->
     AdminTx.extractTxErrorMessage error
     = Upsert.trim (AdminTx.restOfLine (Upsert.trimStart reason))).
Proof.
  split.
  - unfold AdminTx.extractTxErrorMessage.
    set (raw := Js.stringOrEmpty _).
    destruct (String.eqb_spec raw "") as [Hraw|Hraw]; [discriminate|].
    destruct (Js.truthy (AdminTx.revertedGroup raw)) eqn:Hgroup;
      [apply revertedGroup_trim; exact Hgroup|].
    repeat match goal with
           | |- context [if ?c then _ else _] => destruct c; try discriminate
           end.
    exact Hraw.
  - intros reason -> Hreason.
    unfold AdminTx.extractTxErrorMessage.
    cbn [AdminTx.newError AdminTx.reason AdminTx.shortMessage AdminTx.message
         AdminTx.error_reason AdminTx.error_message AdminTx.data_message
         AdminTx.data_originalError_message AdminTx.error_data_message
         AdminTx.error_data_originalError_message List.find].
    assert (Hfound : (0 <? String.length (Upsert.trim ("execution reverted: " +:+ reason)))%nat
                     = true).
    { change ("execution reverted: " +:+ reason)
        with (String "e" ("xecution reverted: " +:+ reason)).
      pose proof (trim_head "e" ("xecution reverted: " +:+ reason) eq_refl) as Hne.
      destruct (Upsert.trim _); [congruence|reflexivity]. }
    rewrite Hfound. cbn [default from_option id].
    change (Js.stringOrEmpty (Js.orElse (Some ("execution reverted: " +:+ reason)) (Some "")))
      with ("execution reverted: " +:+ reason).
    change (String.eqb ("execution reverted: " +:+ reason) "") with false.
    cbn [negb].
    assert (Hgroup : AdminTx.revertedGroup ("execution reverted: " +:+ reason)
                     = Some (AdminTx.restOfLine (Upsert.trimStart reason))).
    { unfold AdminTx.revertedGroup.
      replace (AdminTx.afterFirst "execution reverted" ("execution reverted: " +:+ reason))
        with (Some (": " +:+ reason)); [reflexivity|].
      change ("execution reverted: " +:+ reason)
        with (String "e" ("xecution reverted: " +:+ reason)).
      cbn -[append]. reflexivity. }
    rewrite Hgroup. cbn [Js.truthy Js.stringOrEmpty].
    destruct (String.eqb_spec (AdminTx.restOfLine (Upsert.trimStart reason)) "");
      [contradiction|reflexivity].
Qed.

Lemma extractTxErrorMessage_never_empty_witness :
  AdminTx.extractTxErrorMessage (AdminTx.newError "execution reverted:  Not allowlisted ")
  = "Not allowlisted".
Proof.
  refine (proj2 (extractTxErrorMessage_never_empty _) " Not allowlisted " eq_refl _).
  discriminate.
Defined.

Lemma admin_buildOverrides_spec Tx (contract : AdminTx.Contract Tx) fallbackGasLimit ov :
  AdminTx.buildOverrides contract fallbackGasLimit = inr ov ->
  Contract.nonce ov = None /\ Contract.value ov = None /\
  Contract.gasLimit ov
  = Some match AdminTx.estimateGas contract with
         | Some (inr estimated) => Z.quot (estimated * 12) 10
         | _ => fallbackGasLimit
         end /\
  match Contract.maxPriorityFeePerGas ov with
  | Some priority =>
      exists fee reportedFee reportedPriority feeData,
        AdminTx.getFeeData contract = Some (Some (Some feeData)) /\
        Contract.fd_maxFeePerGas feeData = Some reportedFee /\
        Contract.fd_maxPriorityFeePerGas feeData = Some reportedPriority /\
        Contract.maxFeePerGas ov = Some fee /\ Contract.gasPrice ov = None /\
        priority = (if reportedPriority <=? 0 then Contract.ONE_GWEI else reportedPriority) /\
        fee = (if reportedFee <? priority then priority * 2 else reportedFee)
  | None => Contract.maxFeePerGas ov = None
  end.
Proof.
  unfold AdminTx.buildOverrides.
  destruct (AdminTx.estimateGas contract) as [[estimateError|estimated]|];
    [destruct (AdminTx.isLikelyRevertReason _); [discriminate|]| |];
    (destruct (AdminTx.getFeeData contract) as [[[feeData|]|]|];
     [destruct (Contract.fd_maxFeePerGas feeData) as [reportedFee|] eqn:Hfee;
      destruct (Contract.fd_maxPriorityFeePerGas feeData) as [reportedPriority|] eqn:Hpriority;
      destruct (Contract.fd_gasPrice feeData) as [gasPrice|] eqn:Hprice| | |]);
    cbn [Contract.feeMember]; rewrite ?Hfee, ?Hpriority, ?Hprice;
    intros [= <-]; cbn; repeat split;
    try (eexists _, _, _, _; repeat split; eassumption).
Qed.

(** X24.  sendTxWithBufferedGas of the admin page submits at most once, and
    not at all when the gas estimate fails with a revert-like message,
    which it throws. The overrides it submits carry no nonce; the gas
    limit is the estimate times 12 over 10, or the fallback (280000 by
    default) when there is none; maxPriorityFeePerGas, when set, comes
    with a maxFeePerGas that is not below it and without gasPrice, is
    positive, and is one gwei when the provider reports a priority fee
    that is not positive. *)
Theorem admin_sender_overrides Tx (methodName : string) (contract : AdminTx.Contract Tx)
    (fallbackGasLimit : option Z) :
  let sent := AdminTx.sendTxWithBufferedGas true methodName contract fallbackGasLimit in
  (length sent.2 <= 1)%nat /\
  (forall estimateError,
     AdminTx.estimateGas contract = Some (inl estimateError) ->
     AdminTx.isLikelyRevertReason (AdminTx.extractTxErrorMessage estimateError) = true ->
     sent = (inl (AdminTx.newError (AdminTx.extractTxErrorMessage estimateError)), [])) /\
  forall ov, In ov sent.2 ->
    Contract.nonce ov = None /\
    Contract.gasLimit ov
    = Some match AdminTx.estimateGas contract with
           | Some (inr estimated) => Z.quot (estimated * 12) 10
           | _ => default 280000 fallbackGasLimit
           end /\
    match Contract.maxPriorityFeePerGas ov with
    | Some priority =>
        exists fee,
          Contract.maxFeePerGas ov = Some fee /\ Contract.gasPrice ov = None /\
          0 < priority <= fee /\
          (forall feeData reported,
             AdminTx.getFeeData contract = Some (Some (Some feeData)) ->
             Contract.fd_maxPriorityFeePerGas feeData = Some reported ->
             reported <= 0 -> priority = 1000000000)
    | None => Contract.maxFeePerGas ov = None
    end.
Proof.
  cbn zeta. unfold AdminTx.sendTxWithBufferedGas. cbn [negb].
  change AdminTx.GAS_LIMIT_FALLBACK with 280000.
  generalize (default 280000 fallbackGasLimit). clear fallbackGasLimit.
  intros fallbackGasLimit.
  destruct (AdminTx.buildOverrides contract fallbackGasLimit) as [thrown|built] eqn:Hbuilt.
  - cbn [snd length In]. split; [lia|]. split; [|intros ov []].
    intros estimateError Hestimate Hrevert. unfold AdminTx.buildOverrides in Hbuilt.
    rewrite Hestimate, Hrevert in Hbuilt. injection Hbuilt as <-. reflexivity.
  - assert (Hsubmitted :
              (match AdminTx.send contract built with
               | inl thrown => (inl thrown, [built])
               | inr tx =>
                   match AdminTx.wait contract tx with
                   | Some thrown => (inl thrown, [built])
                   | None => (inr (AdminTx.hash contract tx), [built])
                   end
               end : (AdminTx.TxError + option string) * list Contract.TxOverrides).2
              = [built]).
    { destruct (AdminTx.send contract built) as [thrown|tx]; [reflexivity|].
      destruct (AdminTx.wait contract tx); reflexivity. }
    rewrite Hsubmitted. cbn [length In]. split; [lia|]. split.
    + intros estimateError Hestimate Hrevert. unfold AdminTx.buildOverrides in Hbuilt.
      rewrite Hestimate, Hrevert in Hbuilt. discriminate.
    + intros ov [<-|[]].
      destruct (admin_buildOverrides_spec Tx contract fallbackGasLimit built Hbuilt)
        as (Hnonce & _ & Hgas & Hfees).
      split; [exact Hnonce|]. split; [exact Hgas|].
      destruct (Contract.maxPriorityFeePerGas built) as [priority|]; [|exact Hfees].
      destruct Hfees as (fee & reportedFee & reportedPriority & feeData & Hdata & Hrf & Hrp
                         & Hfee & Hprice & -> & ->).
      exists (if reportedFee <? (if reportedPriority <=? 0 then Contract.ONE_GWEI
                                 else reportedPriority)
              then (if reportedPriority <=? 0 then Contract.ONE_GWEI else reportedPriority) * 2
              else reportedFee).
      split; [exact Hfee|]. split; [exact Hprice|]. split.
      * unfold Contract.ONE_GWEI.
        destruct (Z.leb_spec reportedPriority 0);
          match goal with |- context [?a <? ?b] => destruct (Z.ltb_spec a b) end; lia.
      * intros feeData' reported Hdata' Hreported Hle.
        rewrite Hdata in Hdata'. injection Hdata' as <-.
        rewrite Hrp in Hreported. injection Hreported as <-.
        destruct (Z.leb_spec reportedPriority 0); [reflexivity|lia].
Qed.

Lemma isRateLimited_local cfg buckets buckets' now ip :
  Upsert.cleanupRateLimitBuckets now buckets !! ip
  = Upsert.cleanupRateLimitBuckets now buckets' !! ip ->
  (Upsert.isRateLimited cfg buckets now ip).1 = (Upsert.isRateLimited cfg buckets' now ip).1 /\
  (Upsert.isRateLimited cfg buckets now ip).2 !! ip
  = (Upsert.isRateLimited cfg buckets' now ip).2 !! ip.
Proof.
  intros Hsame. unfold Upsert.isRateLimited. rewrite Hsame.
  destruct (Upsert.cleanupRateLimitBuckets now buckets' !! ip) as [[count resetAt]|].
  - destruct (resetAt <=? now); [|destruct (_ <? _)];
      cbn [fst snd]; rewrite !lookup_insert_eq; split; reflexivity.
  - cbn [fst snd]. rewrite !lookup_insert_eq. split; reflexivity.
Qed.

Lemma isRateLimited_other cfg buckets now other ip later :
  other <> ip -> now <= later ->
  Upsert.cleanupRateLimitBuckets later (Upsert.isRateLimited cfg buckets now other).2 !! ip
  = Upsert.cleanupRateLimitBuckets later buckets !! ip.
Proof.
  intros Hother Hclock.
  assert (Hkept : (Upsert.isRateLimited cfg buckets now other).2 !! ip
                  = Upsert.cleanupRateLimitBuckets now buckets !! ip).
  { unfold Upsert.isRateLimited.
    destruct (Upsert.cleanupRateLimitBuckets now buckets !! other) as [[count resetAt]|].
    - destruct (resetAt <=? now); [|destruct (_ <? _)];
        cbn [snd]; rewrite lookup_insert_ne by exact Hother; reflexivity.
    - cbn [snd]. rewrite lookup_insert_ne by exact Hother. reflexivity. }
  rewrite (cleanupRateLimitBuckets_lookup later), Hkept.
  rewrite !cleanupRateLimitBuckets_lookup.
  destruct (buckets !! ip) as [[count resetAt]|]; [|reflexivity].
  destruct (Z.leb_spec resetAt now); destruct (Z.leb_spec resetAt later);
    try reflexivity; lia.
Qed.

Lemma countRequests_other cfg ip later others :
  Forall (fun request : Z * string => request.2 <> ip /\ request.1 <= later) others ->
  forall buckets,
    Upsert.cleanupRateLimitBuckets later (countRequests cfg buckets others) !! ip
    = Upsert.cleanupRateLimitBuckets later buckets !! ip.
Proof.
  induction 1 as [|[now other] others [Hother Hclock] _ IH]; intros buckets; [reflexivity|].
  cbn [countRequests]. rewrite IH. apply isRateLimited_other; assumption.
Qed.

(** X25.  Requests of other clients, made at clock reads not after the one of
    a client's request, do not change what the rate limiter answers to
    that client: the limited flag, the retry delay and the bucket it
    leaves for the client are the same as without them. *)
Theorem rate_limit_is_per_client cfg (buckets : gmap string (Z * Z)) (ip : string)
    (others : list (Z * string)) (later : Z)
    (Hothers : Forall (fun request : Z * string => request.2 <> ip /\ request.1 <= later)
                      others) :
  (Upsert.isRateLimited cfg (countRequests cfg buckets others) later ip).1
  = (Upsert.isRateLimited cfg buckets later ip).1 /\
  (Upsert.isRateLimited cfg (countRequests cfg buckets others) later ip).2 !! ip
  = (Upsert.isRateLimited cfg buckets later ip).2 !! ip.
Proof.
  apply isRateLimited_local, countRequests_other. exact Hothers.
Qed.

Lemma rate_limit_is_per_client_witness :
  (Upsert.isRateLimited strictLimits (countRequests strictLimits ∅ crowd)
     1700000000300 "203.0.113.7").1 = (false, 0).
Proof.
  refine (eq_trans
            (proj1 (rate_limit_is_per_client strictLimits ∅ "203.0.113.7" crowd
                      1700000000300 _)) _).
  - repeat constructor; cbn; (discriminate || lia).
  - reflexivity.
Defined.

(** X26.  A POST whose Origin header does not parse as a URL, or parses to an
    origin that is not among the configured origins, or, when none is
    configured, differs from the origin inferred from the request's own
    headers, is answered 403 'Origin not allowed.' before it is counted by
    the rate limiter: the used signatures and the buckets are left as they
    were and nothing is written. *)
Theorem foreign_origin_is_refused cfg P st req w (value : string)
    (Hpost : Upsert.method req = "POST")
    (Hconfigured : Upsert.isAddress (Upsert.CONTRACT_ADDRESS cfg) = true)
    (Horigin : Upsert.origin req = Upsert.Single value /\ value <> "")
    (Hforeign : match Upsert.urlOrigin P value with
                | Some parsed =>
                    match Upsert.ALLOWLIST_API_ORIGINS cfg with
                    | [] => Js.toLowerCase parsed <> Upsert.inferRequestOrigin req
                    | configured => ~ In (Js.toLowerCase parsed) configured
                    end
                | None => True
                end) :
  Upsert.handler cfg P st req w = (Upsert.Json 403 (Upsert.Error "Origin not allowed."), st, []).
Proof.
  destruct Horigin as [Horigin Hvalue].
  assert (Hrefused : Upsert.isAllowedOrigin cfg P req (Some value) = false).
  { unfold Upsert.isAllowedOrigin. cbn [Js.truthy Js.stringOrEmpty].
    destruct (String.eqb_spec value "") as [|_]; [contradiction|]. cbn [negb].
    destruct (Upsert.urlOrigin P value) as [parsed|]; [|reflexivity].
    destruct (Upsert.ALLOWLIST_API_ORIGINS cfg) as [|allowed configured] eqn:Hlist.
    - cbn [length Nat.ltb Nat.leb].
      destruct (negb (Upsert.nonEmpty (Upsert.inferRequestOrigin req))); [reflexivity|].
      apply String.eqb_neq. exact Hforeign.
    - cbn [length Nat.ltb Nat.leb].
      apply not_true_is_false. intros Hin. apply Hforeign.
      apply existsb_exists in Hin as (x & Hx & Heq).
      apply String.eqb_eq in Heq. subst x. exact Hx. }
  unfold Upsert.handler, Upsert.preflight.
  rewrite Hpost, Hconfigured, Horigin, Hrefused. cbn [String.eqb Ascii.eqb Bool.eqb negb].
  destruct st. reflexivity.
Qed.

Lemma foreign_origin_is_refused_witness :
  Upsert.handler Samples.cfg Samples.platform Samples.freshState foreignRequest
    (Samples.world 1700000001000)
  = (Upsert.Json 403 (Upsert.Error "Origin not allowed."), Samples.freshState, []).
Proof.
  refine (foreign_origin_is_refused Samples.cfg Samples.platform Samples.freshState
            foreignRequest (Samples.world 1700000001000) "https://evil.example"
            eq_refl _ _ _).
  - reflexivity.
  - split; [reflexivity|discriminate].
  - vm_compute. discriminate.
Defined.

Lemma proofLoop_nonempty fuel :
  forall layer index acc proof,
    (2 <= length layer)%nat -> (index < length layer)%nat ->
    Admin.proofLoop fuel layer index acc = Some proof ->
    (length acc < length proof)%nat.
Proof.
  induction fuel as [|fuel IH]; intros layer index acc proof Hlong Hindex Hloop.
  - cbn in Hloop. destruct (Nat.leb_spec (length layer) 1); [lia|discriminate].
  - cbn [Admin.proofLoop] in Hloop.
    destruct (Nat.leb_spec (length layer) 1); [lia|].
    destruct (Admin.buildNextMerkleLayer layer) as [next|] eqn:Hnext; [|discriminate].
    cbn [mbind option_bind] in Hloop.
    destruct (buildNextMerkleLayer_keeps (fun _ => True) (fun _ _ _ _ => I) layer next
                ltac:(apply Forall_forall; intros; exact I) Hnext) as [_ Hlen].
    destruct (layer !! _) as [sibling|] eqn:Hsibling.
    + rewrite proofLoop_acc in Hloop.
      destruct (Admin.proofLoop fuel next (index / 2) []) as [rest|]; [|discriminate].
      injection Hloop as <-. rewrite !length_app. cbn [length]. lia.
    + apply lookup_ge_None in Hsibling.
      destruct (Nat.even index) eqn:Heven; [|lia].
      apply Nat.even_spec in Heven as [half ->].
      assert (Hodd : length layer = (2 * half + 1)%nat) by lia.
      assert (Hhalf : (1 <= half)%nat) by lia.
      apply (IH next ((2 * half) / 2)%nat acc proof); [| |exact Hloop].
      * rewrite Hlen, Hodd. replace (2 * half + 1 + 1)%nat with ((half + 1) * 2)%nat by lia.
        rewrite Nat.div_mul by lia. lia.
      * rewrite Hlen, Hodd. replace (2 * half + 1 + 1)%nat with ((half + 1) * 2)%nat by lia.
        rewrite Nat.div_mul by lia. rewrite Nat.mul_comm, Nat.div_mul by lia. lia.
Qed.

Lemma merkle_proofs_nonempty W data key proof :
  Admin.buildAllowlistMerkleData W = Some data -> (2 <= length W)%nat ->
  Admin.proofs data !! key = Some proof -> proof <> [].
Proof.
  intros Hbuilt Hsize Hkey.
  assert (Hne : W <> []) by (destruct W; [cbn in Hsize; lia|discriminate]).
  destruct (buildAllowlistMerkleData_inv W data Hbuilt Hne)
    as (leaves & rootLayer & Hleaves & Hproofs & _).
  destruct (leaves_digest _ _ Hleaves) as [_ Hlen].
  destruct (forEachWallet_origin _ _ _ _ _ Hproofs key proof Hkey)
    as [Hempty|(j & w & Hj & _ & Hloop)].
  { rewrite lookup_empty in Hempty. discriminate. }
  apply lookup_lt_Some in Hj.
  assert (Hlonger : (length (@nil string) < length proof)%nat).
  { apply (proofLoop_nonempty (length leaves) leaves (0 + j)%nat); [lia|cbn; lia|exact Hloop]. }
  intros ->. cbn in Hlonger. lia.
Qed.

(** X27.  When the proof API, or the static file if the API gives no body,
    carries the proofs object buildAllowlistMerkleData built for a list of
    two or more addresses, the proof fetchAllowlistProof returns for a
    connected wallet that equals a listed address up to letter case is not
    empty, is the one stored for that address, and folds the wallet's leaf
    to the root. *)
Theorem minter_proof_verifies J P (json : MintPage.Json J string)
    (fetch : string -> MintPage.Fetched J) (phaseId : Upsert.JsNumber)
    (N : list string) (data : Admin.MerkleData) (listed connected : string)
    (Hwallets : Forall (fun a => Ethers.is0xHexOfLength 40 a = true) N)
    (Hsize : (2 <= length N)%nat)
    (Hbuilt : Admin.buildAllowlistMerkleData N = Some data)
    (Hlisted : In listed N)
    (Hconnected : Ethers.is0xHexOfLength 40 connected = true /\
                  Js.toLowerCase connected = Js.toLowerCase listed)
    (Hserved :
       let api := fetch ("/api/allowlists/proof?phaseId=" +:+ Upsert.numberToString P phaseId) in
       let file :=
         fetch ("/allowlists/phase-" +:+ Upsert.numberToString P phaseId +:+ ".json") in
       carries json data api \/ (givesNothing api /\ carries json data file)) :
  let proof := MintPage.fetchAllowlistProof P json fetch phaseId connected in
  proof <> [] /\
  Admin.proofs data !! Js.toLowerCase listed = Some proof /\
  exists leaf,
    Admin.hashAllowlistLeaf connected = Some leaf /\
    foldProof leaf proof = Some (Admin.root data).
Proof.
  destruct Hconnected as [Haddress Hsame].
  assert (Hne : N <> []) by (destruct N; [cbn in Hsize; lia|discriminate]).
  destruct (buildAllowlistMerkleData_addresses N Hwallets Hne)
    as (data' & leaves & Hbuilt' & _ & _ & Hproofs).
  rewrite Hbuilt in Hbuilt'. injection Hbuilt' as <-.
  destruct (Hproofs listed Hlisted) as (leaf & stored & Hleaf & Hstored & Hfold).
  pose proof (merkle_proofs_nonempty N data _ stored Hbuilt Hsize Hstored) as Hnonempty.
  assert (Hfetched : MintPage.fetchAllowlistProof P json fetch phaseId connected = stored).
  { unfold MintPage.fetchAllowlistProof. cbn zeta in Hserved.
    set (api := fetch ("/api/allowlists/proof?phaseId=" +:+ Upsert.numberToString P phaseId))
      in *.
    set (file := fetch ("/allowlists/phase-" +:+ Upsert.numberToString P phaseId +:+ ".json"))
      in *.
    clearbody api file. rewrite Hsame.
    assert (Hextract : forall body,
              (forall key, MintPage.proofsMember json body key = Admin.proofs data !! key) ->
              MintPage.extractProof json (Js.toLowerCase listed) body = stored).
    { intros body Hbody. unfold MintPage.extractProof. rewrite Hbody, Hstored. reflexivity. }
    destruct Hserved as [(body & -> & Hbody)|[Hnothing (body & -> & Hbody)]].
    - rewrite (Hextract body Hbody). destruct stored; [contradiction|reflexivity].
    - rewrite (Hextract body Hbody).
      destruct api as [|[|] [apiData|]]; try reflexivity. destruct Hnothing. }
  cbn zeta. rewrite Hfetched. split; [exact Hnonempty|]. split; [exact Hstored|].
  exists leaf. split; [|exact Hfold].
  rewrite <- Hleaf. apply hashAllowlistLeaf_toLowerCase_eq; [exact Haddress| |exact Hsame].
  rewrite Forall_forall in Hwallets. apply Hwallets, list_elem_of_In. exact Hlisted.
Qed.

Lemma minter_proof_verifies_witness :
  let proof :=
    MintPage.fetchAllowlistProof Samples.platform dataJson staticOnly (Upsert.Finite 1)
      "0xFB6916095CA1DF60BB79CE92CE3EA74C37C5D359" in
  proof <> [] /\
  Admin.proofs sampleData !! Js.toLowerCase Samples.bob = Some proof /\
  exists leaf,
    Admin.hashAllowlistLeaf "0xFB6916095CA1DF60BB79CE92CE3EA74C37C5D359" = Some leaf /\
    foldProof leaf proof = Some (Admin.root sampleData).
Proof.
  refine (minter_proof_verifies Admin.MerkleData Samples.platform dataJson staticOnly
            (Upsert.Finite 1) Samples.wallets sampleData Samples.bob
            "0xFB6916095CA1DF60BB79CE92CE3EA74C37C5D359" _ _ sampleData_built _ _ _).
  - repeat constructor.
  - cbn. lia.
  - right. left. reflexivity.
  - split; reflexivity.
  - right. split; [exact I|]. exists sampleData. split; [reflexivity|]. intros key. reflexivity.
Defined.

Lemma fetchAllowlistProof_stored J P (json : MintPage.Json J string)
    (fetch : string -> MintPage.Fetched J) phaseId data wallet stored :
  serves json data
    (fetch ("/api/allowlists/proof?phaseId=" +:+ Upsert.numberToString P phaseId))
    (fetch ("/allowlists/phase-" +:+ Upsert.numberToString P phaseId +:+ ".json")) ->
  Admin.proofs data !! Js.toLowerCase wallet = Some stored ->
  MintPage.fetchAllowlistProof P json fetch phaseId wallet = stored.
Proof.
  intros Hserved Hstored. unfold MintPage.fetchAllowlistProof.
  set (api := fetch ("/api/allowlists/proof?phaseId=" +:+ Upsert.numberToString P phaseId))
    in *.
  set (file := fetch ("/allowlists/phase-" +:+ Upsert.numberToString P phaseId +:+ ".json"))
    in *.
  clearbody api file.
  assert (Hextract : forall body,
            (forall key, MintPage.proofsMember json body key = Admin.proofs data !! key) ->
            MintPage.extractProof json (Js.toLowerCase wallet) body = stored).
  { intros body Hbody. unfold MintPage.extractProof. rewrite Hbody, Hstored. reflexivity. }
  destruct Hserved as [[(body & -> & Hbody) Hfile]|[Hnothing (body & -> & Hbody)]].
  - rewrite (Hextract body Hbody). destruct stored as [|sibling rest]; [|reflexivity].
    cbn [length Nat.ltb Nat.leb].
    destruct Hfile as [(body' & -> & Hbody')|Hnothing]; [apply Hextract, Hbody'|].
    destruct file as [|[|] [staticData|]]; try reflexivity. destruct Hnothing.
  - rewrite (Hextract body Hbody).
    destruct api as [|[|] [apiData|]]; try reflexivity. destruct Hnothing.
Qed.

Lemma single_wallet_proof wallet data key proof :
  Admin.buildAllowlistMerkleData [wallet] = Some data ->
  Admin.proofs data !! key = Some proof -> proof = [].
Proof.
  intros Hbuilt Hkey.
  destruct (buildAllowlistMerkleData_inv [wallet] data Hbuilt ltac:(discriminate))
    as (leaves & rootLayer & Hleaves & Hrun & _).
  destruct (leaves_digest _ _ Hleaves) as [_ Hlen].
  destruct leaves as [|leaf [|]]; try discriminate Hlen.
  cbn in Hrun. injection Hrun as Hrun. rewrite <- Hrun in Hkey.
  apply lookup_insert_Some in Hkey as [[_ <-]|[_ Hkey]]; [reflexivity|].
  rewrite lookup_empty in Hkey. discriminate.
Qed.

(** X28.  For a wallet that equals a listed address up to letter case and that
    the contract's own allowlist does not hold, when the phase root is the
    non-zero root built for the list and the site serves the proofs built
    for it, resolveAllowlistEligibility answers true exactly when the list
    has two or more addresses: for a list of one address the stored proof
    is empty and the answer is false. *)
Theorem listed_wallet_eligibility J cfg P (json : MintPage.Json J string)
    (fetch : string -> MintPage.Fetched J) (phaseId : Upsert.JsNumber)
    (phaseAllowlist : nat -> Contract.RpcError + bool)
    (N : list string) (data : Admin.MerkleData) (listed connected : string)
    (Hwallets : Forall (fun a => Ethers.is0xHexOfLength 40 a = true) N)
    (Hbuilt : Admin.buildAllowlistMerkleData N = Some data)
    (Hlisted : In listed N)
    (Hconnected : Js.toLowerCase connected = Js.toLowerCase listed)
    (Hroot : Admin.root data <> Ethers.HashZero)
    (Hchain : Contract.settled (Contract.withReadRetry cfg phaseAllowlist)
              = Contract.Returned false)
    (Hserved :
       serves json data
         (fetch ("/api/allowlists/proof?phaseId=" +:+ Upsert.numberToString P phaseId))
         (fetch ("/allowlists/phase-" +:+ Upsert.numberToString P phaseId +:+ ".json"))) :
  MintPage.resolveAllowlistEligibility cfg P json fetch None phaseAllowlist phaseId
    (Some (Admin.root data)) connected
  = inr (2 <=? length N)%nat.
Proof.
  assert (Hne : N <> []) by (destruct N; [destruct Hlisted|discriminate]).
  destruct (merkle_data_shape N data Hbuilt) as (Hhex & _ & Hcovers).
  destruct (Hcovers listed Hlisted) as [stored Hstored].
  rewrite <- Hconnected in Hstored.
  unfold MintPage.resolveAllowlistEligibility. rewrite Hchain.
  assert (Htruthy : Js.truthy (Some (Admin.root data)) = true).
  { cbn [Js.truthy]. destruct (Admin.root data); [discriminate Hhex|reflexivity]. }
  rewrite Htruthy. cbn [Js.stringOrEmpty].
  destruct (String.eqb_spec (Admin.root data) Ethers.HashZero) as [|_]; [contradiction|].
  cbn [andb negb].
  rewrite (fetchAllowlistProof_stored J P json fetch phaseId data connected stored
             Hserved Hstored).
  f_equal. destruct (Nat.leb_spec 2 (length N)) as [Hsize|Hsize].
  - pose proof (merkle_proofs_nonempty N data _ stored Hbuilt Hsize Hstored) as Hnonempty.
    destruct stored; [contradiction|reflexivity].
  - destruct N as [|wallet [|]]; [contradiction| |cbn in Hsize; lia].
    rewrite (single_wallet_proof wallet data _ stored Hbuilt Hstored). reflexivity.
Qed.

Lemma bobAlone_built : Admin.buildAllowlistMerkleData [Samples.bob] = Some bobAlone.
Proof.
  unfold bobAlone.
  destruct (buildAllowlistMerkleData_total [Samples.bob]) as [data ->];
    [repeat constructor|reflexivity].
Defined.

Lemma listed_wallet_eligibility_witness :
  MintPage.resolveAllowlistEligibility Samples.defaults Samples.platform dataJson bobOnly None
    (fun _ => inr false) (Upsert.Finite 1) (Some (Admin.root bobAlone)) Samples.bob
  = inr false.
Proof.
  refine (listed_wallet_eligibility Admin.MerkleData Samples.defaults Samples.platform
            dataJson bobOnly (Upsert.Finite 1) (fun _ => inr false) [Samples.bob] bobAlone
            Samples.bob Samples.bob _ bobAlone_built _ eq_refl _ _ _).
  - repeat constructor.
  - left. reflexivity.
  - vm_compute. discriminate.
  - reflexivity.
  - left. split; [|left]; exists bobAlone; (split; [reflexivity|intros key; reflexivity]).
Defined.

(** * The Merkle tree against the hashes of the specification *)

Lemma keccak256_known_answers :
  Ethers.keccak256 []
  = "0xc5d2460186f7233c927e7db2dcc703c0e500b653ca82273b7bfad8045d85a470" /\
  Ethers.keccak256 (Ethers.toUtf8Bytes "abc")
  = "0x4e03657aea45a94fc7d47ba826c8d667c0d1e6e33a64a036ec44f58fa12d6c45".
Proof. split; vm_compute; reflexivity. Qed.

(** ** Hex strings and the bytes they spell *)

Lemma hexValue_bound c v : Ethers.hexValue c = Some v -> 0 <= v < 16.
Proof.
  destruct c as [[] [] [] [] [] [] [] []]; intros [= <-]; cbv; split; congruence.
Qed.

Lemma hexValue_lowered c v :
  Ethers.hexValue c = Some v -> Js.lowerChar c = Ethers.hexDigit v.
Proof.
  destruct c as [[] [] [] [] [] [] [] []]; intros [= <-]; reflexivity.
Qed.

Lemma parseHexPairs_bytes s :
  forall bs, Ethers.parseHexPairs s = Some bs -> Forall isByte bs.
Proof.
  induction s as [|c|c d s IH] using string_pair_ind; intros bs Hbs.
  - injection Hbs as <-. constructor.
  - discriminate.
  - cbn [Ethers.parseHexPairs] in Hbs.
    destruct (Ethers.hexValue c) as [hi|] eqn:Hhi; [|discriminate].
    destruct (Ethers.hexValue d) as [lo|] eqn:Hlo; [|discriminate].
    destruct (Ethers.parseHexPairs s) as [rest|]; [|discriminate].
    injection Hbs as <-. apply hexValue_bound in Hhi, Hlo.
    constructor; [unfold isByte; lia|apply IH; reflexivity].
Qed.

Lemma parseHexPairs_lowered s :
  forall bs, Ethers.parseHexPairs s = Some bs -> Js.toLowerCase s = Ethers.hexOfBytes bs.
Proof.
  induction s as [|c|c d s IH] using string_pair_ind; intros bs Hbs.
  - injection Hbs as <-. reflexivity.
  - discriminate.
  - cbn [Ethers.parseHexPairs] in Hbs.
    destruct (Ethers.hexValue c) as [hi|] eqn:Hhi; [|discriminate].
    destruct (Ethers.hexValue d) as [lo|] eqn:Hlo; [|discriminate].
    destruct (Ethers.parseHexPairs s) as [rest|]; [|discriminate].
    injection Hbs as <-.
    pose proof (hexValue_bound _ _ Hhi) as Bhi. pose proof (hexValue_bound _ _ Hlo) as Blo.
    cbn [Js.toLowerCase Ethers.hexOfBytes].
    rewrite (hexValue_lowered _ _ Hhi), (hexValue_lowered _ _ Hlo), (IH rest eq_refl).
    replace ((hi * 16 + lo) / 16 mod 16) with hi.
    2:{ rewrite Z.div_add_l by lia. rewrite (Z.div_small lo 16) by lia.
        rewrite Z.add_0_r, Z.mod_small by lia. reflexivity. }
    replace ((hi * 16 + lo) mod 16) with lo.
    2:{ rewrite Z.add_comm, Z.mod_add by lia. rewrite Z.mod_small by lia. reflexivity. }
    reflexivity.
Qed.

Lemma hexOfBytes_parse bs :
  Forall isByte bs -> Ethers.parseHexPairs (Ethers.hexOfBytes bs) = Some bs.
Proof.
  induction 1 as [|b bs Hb _ IH]; [reflexivity|].
  cbn [Ethers.hexOfBytes Ethers.parseHexPairs].
  rewrite !hexValue_hexDigit by (apply Z.mod_pos_bound; lia).
  cbn [mbind option_bind]. rewrite IH. cbn [mbind option_bind].
  unfold isByte in Hb. do 2 f_equal.
  rewrite (Z.mod_small (b / 16)) by (split; [apply Z.div_pos; lia|
                                              apply Z.div_lt_upper_bound; lia]).
  rewrite Z.mul_comm. symmetry. apply Z.div_mod. lia.
Qed.

Lemma arrayify_hexlify bs : Forall isByte bs -> Ethers.arrayify (Ethers.hexlify bs) = Some bs.
Proof. intros Hbs. apply (hexOfBytes_parse bs Hbs). Qed.

Lemma arrayify_bytes s bs :
  Ethers.arrayify s = Some bs -> Forall isByte bs /\ Js.toLowerCase s = Ethers.hexlify bs.
Proof.
  intros Hs. destruct (arrayify_inv s bs Hs) as (digits & -> & Hdigits).
  split; [eapply parseHexPairs_bytes; exact Hdigits|].
  cbn [Js.toLowerCase]. rewrite (parseHexPairs_lowered digits bs Hdigits). reflexivity.
Qed.

Lemma bytesOfLane_bytes n : forall l, Forall isByte (Keccak.bytesOfLane n l).
Proof.
  induction n as [|n IH]; intros l; cbn [Keccak.bytesOfLane]; constructor; [|apply IH].
  apply Z.mod_pos_bound. lia.
Qed.

Lemma keccak_256_bytes msg : Forall isByte (Keccak.keccak_256 msg).
Proof.
  unfold Keccak.keccak_256. set (st := firstn 4 _). clearbody st.
  induction st as [|l st IH]; [constructor|].
  cbn [flat_map]. apply Forall_app. split; [apply bytesOfLane_bytes|exact IH].
Qed.

(** ** The order of hex strings is the order of their bytes *)

Lemma compare_hexDigit m n :
  0 <= m < 16 -> 0 <= n < 16 ->
  Ascii.compare (Ethers.hexDigit m) (Ethers.hexDigit n) = (m ?= n).
Proof.
  intros Hm Hn.
  pose proof (nibble_check
    (fun m => forallb (fun n =>
                match Ascii.compare (Ethers.hexDigit m) (Ethers.hexDigit n), (m ?= n) with
                | Eq, Eq | Lt, Lt | Gt, Gt => true
                | _, _ => false
                end) (map Z.of_nat (seq 0 16))) eq_refl m Hm) as Hall.
  cbv beta in Hall. rewrite forallb_forall in Hall.
  specialize (Hall n). 
  assert (Hin : In n (map Z.of_nat (seq 0 16))).
  { apply in_map_iff. exists (Z.to_nat n). split; [lia|apply in_seq; lia]. }
  specialize (Hall Hin).
  destruct (Ascii.compare _ _), (m ?= n); try discriminate; reflexivity.
Qed.

Lemma leb_hexOfBytes a :
  forall b, Forall isByte a -> Forall isByte b ->
    String.leb (Ethers.hexOfBytes a) (Ethers.hexOfBytes b) = Spec.bytesLe a b.
Proof.
  induction a as [|x a IH]; intros b Ha Hb.
  - destruct b; reflexivity.
  - destruct b as [|y b]; [reflexivity|].
    inversion Ha as [|? ? Hx Ha']; subst. inversion Hb as [|? ? Hy Hb']; subst.
    specialize (IH b Ha' Hb'). unfold isByte in Hx, Hy.
    unfold String.leb in *. cbn [Ethers.hexOfBytes String.compare Spec.bytesLe].
    assert (Hxh : 0 <= x / 16 < 16)
      by (split; [apply Z.div_pos; lia|apply Z.div_lt_upper_bound; lia]).
    assert (Hyh : 0 <= y / 16 < 16)
      by (split; [apply Z.div_pos; lia|apply Z.div_lt_upper_bound; lia]).
    rewrite (Z.mod_small (x / 16)), (Z.mod_small (y / 16)) by assumption.
    rewrite !compare_hexDigit by (assumption || (apply Z.mod_pos_bound; lia)).
    pose proof (Z.div_mod x 16 ltac:(lia)) as Ex.
    pose proof (Z.div_mod y 16 ltac:(lia)) as Ey.
    pose proof (Z.mod_pos_bound x 16 ltac:(lia)) as Bx.
    pose proof (Z.mod_pos_bound y 16 ltac:(lia)) as By.
    destruct (Z.compare_spec (x / 16) (y / 16)) as [Hh|Hh|Hh].
    + destruct (Z.compare_spec (x mod 16) (y mod 16)) as [Hl|Hl|Hl].
      * assert (x = y) by lia. subst y.
        rewrite Z.ltb_irrefl. exact IH.
      * replace (x <? y) with true by (symmetry; apply Z.ltb_lt; lia). reflexivity.
      * replace (x <? y) with false by (symmetry; apply Z.ltb_ge; lia).
        replace (y <? x) with true by (symmetry; apply Z.ltb_lt; lia). reflexivity.
    + replace (x <? y) with true by (symmetry; apply Z.ltb_lt; lia). reflexivity.
    + replace (x <? y) with false by (symmetry; apply Z.ltb_ge; lia).
      replace (y <? x) with true by (symmetry; apply Z.ltb_lt; lia). reflexivity.
Qed.

Lemma leb_hexlify a b :
  Forall isByte a -> Forall isByte b ->
  String.leb (Ethers.hexlify a) (Ethers.hexlify b) = Spec.bytesLe a b.
Proof.
  intros Ha Hb. rewrite <- (leb_hexOfBytes a b Ha Hb). reflexivity.
Qed.

(** ** The pair hash is the specification's *)

Lemma hashMerklePair_bytes a b x y :
  Ethers.arrayify a = Some x -> Ethers.arrayify b = Some y ->
  Admin.hashMerklePair a b = Some (Ethers.hexlify (Spec.hashPair x y)).
Proof.
  intros Ha Hb.
  destruct (arrayify_bytes a x Ha) as [Bx La]. destruct (arrayify_bytes b y Hb) as [By Lb].
  unfold Admin.hashMerklePair, Spec.hashPair. rewrite La, Lb, (leb_hexlify x y Bx By).
  destruct (Spec.bytesLe x y); unfold Ethers.concat; cbn [mapM];
    rewrite Ha, Hb; cbn; rewrite app_nil_r; reflexivity.
Qed.

Lemma hashMerklePair_inv a b h :
  Admin.hashMerklePair a b = Some h ->
  exists x y, Ethers.arrayify a = Some x /\ Ethers.arrayify b = Some y.
Proof.
  unfold Admin.hashMerklePair.
  destruct (String.leb _ _); unfold Ethers.concat; cbn [mapM];
    destruct (Ethers.arrayify a) as [x|], (Ethers.arrayify b) as [y|]; try discriminate;
    intros _; eexists _, _; split; reflexivity.
Qed.

Lemma fold_hashMerklePair_None proof :
  fold_left (fun acc sibling => acc ≫= fun h => Admin.hashMerklePair h sibling) proof None
  = None.
Proof. induction proof as [|s proof IH]; [reflexivity|exact IH]. Qed.

(** A proof that folds with the source's [hashMerklePair] is a list of hex
    strings, and the fold is the specification's on the bytes they spell. *)
Lemma foldProof_bytes proof :
  forall h hb r,
    Ethers.arrayify h = Some hb ->
    foldProof h proof = Some r ->
    exists siblings,
      mapM Ethers.arrayify proof = Some siblings /\
      Ethers.arrayify r = Some (fold_left Spec.hashPair siblings hb).
Proof.
  unfold foldProof.
  induction proof as [|s proof IH]; intros h hb r Hh Hfold.
  - injection Hfold as <-. exists []. split; [reflexivity|exact Hh].
  - cbn [fold_left mbind option_bind] in Hfold.
    destruct (Admin.hashMerklePair h s) as [h'|] eqn:Hpair.
    2:{ rewrite fold_hashMerklePair_None in Hfold. discriminate. }
    destruct (hashMerklePair_inv h s h' Hpair) as (x & sb & Hx & Hs).
    rewrite Hh in Hx. injection Hx as <-.
    rewrite (hashMerklePair_bytes h s hb sb Hh Hs) in Hpair. injection Hpair as <-.
    destruct (IH _ (Spec.hashPair hb sb) r
                (arrayify_hexlify _ (keccak_256_bytes _)) Hfold)
      as (siblings & Hsiblings & Hr).
    exists (sb :: siblings). split; [|exact Hr].
    cbn [mapM]. rewrite Hs. cbn [mbind option_bind]. rewrite Hsiblings. reflexivity.
Qed.

(** ** The leaf is the specification's *)

Lemma hexNumber_acc digits :
  forall acc,
    Spec.hexNumber acc digits
    = acc * 16 ^ Z.of_nat (String.length digits) + Spec.hexNumber 0 digits.
Proof.
  induction digits as [|c digits IH]; intros acc.
  - cbn. lia.
  - cbn [Spec.hexNumber String.length]. rewrite IH, (IH (0 * 16 + _)).
    rewrite Nat2Z.inj_succ, Z.pow_succ_r by lia. ring.
Qed.

Lemma hexNumber_bound digits :
  0 <= Spec.hexNumber 0 digits < 16 ^ Z.of_nat (String.length digits).
Proof.
  induction digits as [|c digits IH]; [cbn; lia|].
  cbn [Spec.hexNumber String.length]. rewrite hexNumber_acc.
  rewrite Nat2Z.inj_succ, Z.pow_succ_r by lia.
  assert (Hc : 0 <= default 0 (Ethers.hexValue c) < 16).
  { destruct (Ethers.hexValue c) as [v|] eqn:Hv; [exact (hexValue_bound c v Hv)|cbn; lia]. }
  nia.
Qed.

Lemma bigEndian_shift k :
  forall n x r, (k <= n)%nat ->
    Spec.bigEndian k (x * 256 ^ Z.of_nat n + r) = Spec.bigEndian k r.
Proof.
  induction k as [|k IH]; intros n x r Hk; [reflexivity|].
  cbn [Spec.bigEndian]. rewrite (IH n x r) by lia. f_equal.
  replace (Z.of_nat n) with (Z.of_nat k + (1 + Z.of_nat (n - S k))) by lia.
  rewrite Z.pow_add_r, Z.pow_add_r by lia.
  replace (x * (256 ^ Z.of_nat k * (256 ^ 1 * 256 ^ Z.of_nat (n - S k))) + r)
    with (x * 256 ^ Z.of_nat (n - S k) * 256 * 256 ^ Z.of_nat k + r) by ring.
  rewrite Z.div_add_l by (apply Z.pow_nonzero; lia).
  rewrite Z.add_comm, Z.mod_add by lia. reflexivity.
Qed.

Lemma parseHexPairs_bigEndian n :
  forall digits bs,
    String.length digits = (2 * n)%nat ->
    Ethers.parseHexPairs digits = Some bs ->
    bs = Spec.bigEndian n (Spec.hexNumber 0 digits).
Proof.
  induction n as [|n IH]; intros digits bs Hlen Hbs.
  - destruct digits; [|discriminate]. injection Hbs as <-. reflexivity.
  - destruct digits as [|c [|d rest]]; try discriminate.
    cbn [Ethers.parseHexPairs] in Hbs.
    destruct (Ethers.hexValue c) as [hi|] eqn:Hhi; [|discriminate].
    destruct (Ethers.hexValue d) as [lo|] eqn:Hlo; [|discriminate].
    destruct (Ethers.parseHexPairs rest) as [bs'|] eqn:Hrest; [|discriminate].
    injection Hbs as <-.
    assert (Hlen' : String.length rest = (2 * n)%nat) by (cbn in Hlen; lia).
    pose proof (hexValue_bound _ _ Hhi) as Bhi. pose proof (hexValue_bound _ _ Hlo) as Blo.
    pose proof (hexNumber_bound rest) as Brest. rewrite Hlen' in Brest.
    assert (Hpow : 16 ^ Z.of_nat (2 * n) = 256 ^ Z.of_nat n).
    { rewrite Nat2Z.inj_mul, Z.pow_mul_r by lia. reflexivity. }
    rewrite Hpow in Brest.
    assert (Hvalue : Spec.hexNumber 0 (String c (String d rest))
                     = (hi * 16 + lo) * 256 ^ Z.of_nat n + Spec.hexNumber 0 rest).
    { cbn [Spec.hexNumber]. rewrite Hhi, Hlo. cbn [default from_option id].
      rewrite hexNumber_acc, Hlen', Hpow. ring. }
    rewrite Hvalue. cbn [Spec.bigEndian]. f_equal.
    + rewrite Z.div_add_l by (apply Z.pow_nonzero; lia).
      rewrite (Z.div_small (Spec.hexNumber 0 rest)) by exact Brest.
      rewrite Z.add_0_r, Z.mod_small by lia. reflexivity.
    + rewrite bigEndian_shift by lia. apply IH; assumption.
Qed.

Lemma arrayify_address w :
  Ethers.is0xHexOfLength 40 w = true -> Ethers.arrayify w = Some (Spec.encodePacked w).
Proof.
  intros Hw. apply is0xHexOfLength_inv in Hw as (digits & -> & Hdigits).
  unfold Ethers.isHexOfLength in Hdigits. apply andb_true_iff in Hdigits as [Hlen Hall].
  apply Nat.eqb_eq in Hlen.
  destruct (allChars_hex_parse digits Hall) as [bs Hbs]; [rewrite Hlen; reflexivity|].
  change (Ethers.arrayify (String "0" (String "x" digits))) with (Ethers.parseHexPairs digits).
  rewrite Hbs. f_equal. unfold Spec.encodePacked, Spec.addressValue.
  change (String.substring 2 40 (String "0" (String "x" digits)))
    with (String.substring 0 40 digits).
  rewrite <- Hlen at 1. rewrite substring_all.
  apply parseHexPairs_bigEndian; [rewrite Hlen; reflexivity|exact Hbs].
Qed.

Lemma hashAllowlistLeaf_spec w :
  Ethers.is0xHexOfLength 40 w = true ->
  Admin.hashAllowlistLeaf w = Some (Ethers.hexlify (Spec.leaf w)).
Proof.
  intros Hw. unfold Admin.hashAllowlistLeaf, Ethers.solidityPack_address.
  rewrite (arrayify_address w Hw). cbn [mbind option_bind].
  rewrite arrayify_hexlify; [reflexivity|].
  exact (proj1 (arrayify_bytes w _ (arrayify_address w Hw))).
Qed.

(** The sample tree, value by value: the leaf of [bob], the hash of the
    first pair of leaves, and the root. *)
Lemma merkle_known_answers :
  Ethers.hexlify (Spec.leaf Samples.bob)
  = "0x913c99ea930c78868f1535d34cd705ab85929b2eaaf70fcd09677ecd6e5d75e9" /\
  Ethers.hexlify (Spec.hashPair (Spec.leaf Samples.alice) (Spec.leaf Samples.bob))
  = "0xc28556462c3c3f80e401dc00768c21afed89e873283ae69bea90d5ff1d81448b" /\
  Admin.root <$> Admin.buildAllowlistMerkleData Samples.wallets = Some Samples.merkleRoot.
Proof. repeat split; vm_compute; reflexivity. Qed.

(** C1.  For every list [W] of wallet addresses ([0x] and 40 hex digits;
    neither distinctness nor non-emptiness is needed),
    [buildAllowlistMerkleData W] returns a root and a proofs object such
    that for every wallet [w] of [W]: the leaf [hashAllowlistLeaf] gives is
    [keccak256(abi.encodePacked(w))], the hash of the 20 bytes of [w];
    folding [proofs[w.toLowerCase()]] over it with the source's
    [hashMerklePair] gives the root; and, read as bytes, the proof verifies
    against the root with the sorted-pair hash of the specification (the
    byte-wise smaller hash concatenated with the larger, hashed). *)
Theorem merkle_round_trip (W : list string) (w : string)
    (Haddresses : Forall (fun a => Ethers.is0xHexOfLength 40 a = true) W)
    (Hmember : In w W) :
  exists data leaf proof,
    Admin.buildAllowlistMerkleData W = Some data /\
    Admin.hashAllowlistLeaf w = Some leaf /\
    Admin.proofs data !! Js.toLowerCase w = Some proof /\
    fold_left (fun acc sibling => acc ≫= fun h => Admin.hashMerklePair h sibling)
              proof (Some leaf)
    = Some (Admin.root data) /\
    leaf = Ethers.hexlify (Spec.leaf w) /\
    exists siblings root,
      mapM Ethers.arrayify proof = Some siblings /\
      Ethers.arrayify (Admin.root data) = Some root /\
      Spec.verify (Spec.leaf w) siblings root = true.
Proof.
  assert (Hne : W <> []) by (intros ->; destruct Hmember).
  destruct (buildAllowlistMerkleData_addresses W Haddresses Hne)
    as [data [leaves [Hbuild [_ [_ Hproofs]]]]].
  destruct (Hproofs w Hmember) as [leaf [proof [Hleaf [Hlookup Hfold]]]].
  assert (Hw : Ethers.is0xHexOfLength 40 w = true).
  { rewrite Forall_forall in Haddresses. apply Haddresses, list_elem_of_In, Hmember. }
  pose proof (hashAllowlistLeaf_spec w Hw) as Hspec.
  rewrite Hleaf in Hspec. injection Hspec as Hspec.
  exists data, leaf, proof.
  split; [exact Hbuild|]. split; [exact Hleaf|]. split; [exact Hlookup|].
  split; [exact Hfold|]. split; [exact Hspec|].
  destruct (foldProof_bytes proof leaf (Spec.leaf w) (Admin.root data)) as (siblings & Hs & Hr).
  { rewrite Hspec. apply arrayify_hexlify, keccak_256_bytes. }
  { exact Hfold. }
  exists siblings, (fold_left Spec.hashPair siblings (Spec.leaf w)).
  split; [exact Hs|]. split; [exact Hr|].
  unfold Spec.verify. apply bool_decide_eq_true. reflexivity.
Qed.

(** Witness for C1: the second of three sample addresses. *)
Lemma merkle_round_trip_witness :
  Forall (fun a => Ethers.is0xHexOfLength 40 a = true) Samples.wallets /\
  In Samples.bob Samples.wallets /\
  exists data leaf proof,
    Admin.buildAllowlistMerkleData Samples.wallets = Some data /\
    Admin.hashAllowlistLeaf Samples.bob = Some leaf /\
    Admin.proofs data !! Js.toLowerCase Samples.bob = Some proof /\
    fold_left (fun acc sibling => acc ≫= fun h => Admin.hashMerklePair h sibling)
              proof (Some leaf)
    = Some (Admin.root data) /\
    leaf = Ethers.hexlify (Spec.leaf Samples.bob) /\
    exists siblings root,
      mapM Ethers.arrayify proof = Some siblings /\
      Ethers.arrayify (Admin.root data) = Some root /\
      Spec.verify (Spec.leaf Samples.bob) siblings root = true.
Proof.
  assert (Haddresses : Forall (fun a => Ethers.is0xHexOfLength 40 a = true) Samples.wallets)
    by (repeat constructor).
  assert (Hmember : In Samples.bob Samples.wallets) by (cbn; auto).
  split; [exact Haddresses|]. split; [exact Hmember|].
  exact (merkle_round_trip Samples.wallets Samples.bob Haddresses Hmember).
Defined.

(** C9.  On the empty list [buildAllowlistMerkleData] returns the zero hash
    and an empty proofs object; on a singleton [[w]] (with [w] an address)
    it returns as root the leaf hash of [w], which is
    [keccak256(abi.encodePacked(w))], the hash of the 20 bytes of [w], and
    a proofs object whose only entry maps [w.toLowerCase()] to the empty
    proof. *)
Theorem merkle_edge_cases (w : string)
    (Haddress : Ethers.is0xHexOfLength 40 w = true) :
  Admin.buildAllowlistMerkleData []
  = Some {| Admin.root :=
              "0x0000000000000000000000000000000000000000000000000000000000000000";
            Admin.proofs := ∅ |} /\
  Admin.hashAllowlistLeaf w = Some (Ethers.keccak256 (Spec.encodePacked w)) /\
  Admin.buildAllowlistMerkleData [w]
  = Some {| Admin.root := Ethers.keccak256 (Spec.encodePacked w);
            Admin.proofs := {[ Js.toLowerCase w := [] ]} |}.
Proof.
  split; [reflexivity|].
  pose proof (hashAllowlistLeaf_spec w Haddress) as Hleaf.
  split; [exact Hleaf|].
  unfold Admin.buildAllowlistMerkleData. cbn [mapM]. rewrite Hleaf.
  cbn [mbind option_bind mret option_ret Admin.forEachWallet Admin.proofLoop Admin.rootLoop
       length Nat.leb].
  change (String.eqb (Ethers.hexlify (Spec.leaf w)) "") with false.
  reflexivity.
Qed.

(** Witness for C9: the singleton list of one sample address, with the
    value of its leaf. *)
Lemma merkle_edge_cases_witness :
  Ethers.is0xHexOfLength 40 Samples.alice = true /\
  Spec.encodePacked Samples.alice
  = [ 0x5a; 0xae; 0xb6; 0x05; 0x3f; 0x3e; 0x94; 0xc9; 0xb9; 0xa0;
      0x9f; 0x33; 0x66; 0x94; 0x35; 0xe7; 0xef; 0x1b; 0xea; 0xed ] /\
  Admin.hashAllowlistLeaf Samples.alice
  = Some "0x793f88740e3ced5d3b007ab91feb3feb22d76afe4b9e849aa48d4d35f740fb4e" /\
  Admin.buildAllowlistMerkleData [Samples.alice]
  = Some {| Admin.root :=
              "0x793f88740e3ced5d3b007ab91feb3feb22d76afe4b9e849aa48d4d35f740fb4e";
            Admin.proofs := {[ Js.toLowerCase Samples.alice := [] ]} |}.
Proof.
  assert (Hvalue : Ethers.keccak256 (Spec.encodePacked Samples.alice)
                   = "0x793f88740e3ced5d3b007ab91feb3feb22d76afe4b9e849aa48d4d35f740fb4e")
    by (vm_compute; reflexivity).
  destruct (merkle_edge_cases Samples.alice eq_refl) as (_ & Hleaf & Hbuilt).
  rewrite Hvalue in Hleaf, Hbuilt.
  split; [reflexivity|]. split; [vm_compute; reflexivity|].
  split; [exact Hleaf|exact Hbuilt].
Defined.
